(** * Carousel navigation, modal lifecycle and My List of the streaming
      homepage: a shallow embedding of the class [NetflixApp]

    The JavaScript class keeps its state in the global [AppState] object, in
    closure variables of [setupRowScrolling] / [setupTouchScrolling], in
    fields of its instance and in the DOM.  Each handler of the class is
    embedded here as a function that takes the state it reads and returns
    the state it leaves behind.  The event loop (animation frames, timeouts,
    dispatch of an event to its listeners) is explicit: a handler that calls
    [requestAnimationFrame] or [setTimeout] appends to a queue of the state,
    and a frame or a timer tick is an event of its own.

    Numbers: offsets, widths and times are modelled by exact rationals
    ([Q], compared with [==]).  The percentage of [updateScrollButtons],
    which is rounded and printed, is computed as the code computes it, in
    double arithmetic ([JS.roundToDouble]); its unguarded division is the
    only source of non-finite values, which are modelled by [JS.num].
    Assigning to [scrollLeft] stores the value: every value the embedded
    code assigns from user input is clamped by the code itself.  Of the DOM
    only what the handlers read and write is kept: markup, styles of the
    buttons' contents and the focus order inside the modal are left out. *)

From Stdlib Require Import QArith Qabs Qround ZArith List String Ascii Bool.
From Stdlib Require Import Lia Lqa.
From Stdlib Require Import Decimal DecimalString.
Import ListNotations.

(* ================================================================== *)
(** ** Content lookup and My List *)
(* ================================================================== *)

Module Content.

Local Open Scope string_scope.

(** A field of a content record that the modal joins with [', '] when it
    is there ([cast], [genres]): absent (or another falsy value), an array
    of names, or a truthy value that is not an array and so has no
    [join]. *)
Inductive Joinable :=
| Absent
| Names (names : list string)
| NotAnArray.

(** A content record; only the fields the embedded handlers read.  [type]
    is [None] for a record that has no string there, as the hero of the
    placeholder data, which has no [type] at all. *)
Record ContentItem := mkItem {
  id : string;
  title : string;
  type : option string;
  cast : Joinable;
  genres : Joinable
}.

Record Category := mkCategory {
  cat_id : string;
  cat_title : string;
  items : list ContentItem
}.

Record ContentData := mkData {
  hero : option ContentItem;
  categories : list Category
}.

(** [AppState.contentData], the [localStorage] entry ['netflix-my-list']
    and the browser's answer to [localStorage.setItem] for a value: [false]
    where it throws (the quota is exceeded, or storage is disabled). *)
Record Store := mkStore {
  contentData : option ContentData;
  savedMyList : option (list ContentItem);
  setItemAccepts : list ContentItem -> bool
}.

(** What a call leaves behind: a returned value or an uncaught
    [TypeError]. *)
Inductive outcome (A : Type) : Type :=
| Returned (a : A)
| Thrown.
Arguments Returned {A} a.
Arguments Thrown {A}.

Definition hasId (contentId : string) (item : ContentItem) : bool :=
  String.eqb (id item) contentId.

(** The [for (const category of ...categories)] loop of
    [getContentById]. *)
Fixpoint searchCategories (cs : list Category) (contentId : string)
  : option ContentItem :=
  match cs with
  | [] => None
  | c :: rest =>
      match find (hasId contentId) (items c) with
      | Some item => Some item
      | None => searchCategories rest contentId
      end
  end.

Definition getContentById (st : Store) (contentId : string)
  : option ContentItem :=
  match contentData st with
  | None => None
  | Some d =>
      match hero d with
      | Some h =>
          if hasId contentId h then Some h
          else searchCategories (categories d) contentId
      | None => searchCategories (categories d) contentId
      end
  end.

Definition isMyList (c : Category) : bool := String.eqb (cat_id c) "my-list".

(** [categories.find(cat => cat.id === 'my-list')] *)
Definition findMyList (d : ContentData) : option Category :=
  find isMyList (categories d).

(** The category object found by [find] is shared with the array: writing
    its [items] changes the first category whose id is ['my-list']. *)
Fixpoint setMyListItems (cs : list Category) (new_items : list ContentItem)
  : list Category :=
  match cs with
  | [] => []
  | c :: rest =>
      if isMyList c
      then mkCategory (cat_id c) (cat_title c) new_items :: rest
      else c :: setMyListItems rest new_items
  end.

(** [saveMyListToStorage]: whatever is thrown inside the [try] (the
    [TypeError] of the lookup without content data, the error of
    [setItem]) is caught and logged. *)
Definition saveMyListToStorage (st : Store) : Store :=
  match contentData st with
  | None => st
  | Some d =>
      match findMyList d with
      | Some ml =>
          if setItemAccepts st (items ml)
          then mkStore (contentData st) (Some (items ml)) (setItemAccepts st)
          else st
      | None => st
      end
  end.

(** The store with the items of My List replaced in the content data
    [d]. *)
Definition written (st : Store) (d : ContentData)
    (new_items : list ContentItem) : Store :=
  mkStore (Some (mkData (hero d) (setMyListItems (categories d) new_items)))
    (savedMyList st) (setItemAccepts st).

Definition addToMyList (st : Store) (contentId : string)
  : outcome (bool * Store) :=
  match getContentById st contentId with
  | None => Returned (false, st)
  | Some content =>
      match contentData st with
      | None => Thrown
      | Some d =>
          match findMyList d with
          | None => Returned (false, st)
          | Some ml =>
              if existsb (hasId contentId) (items ml)
              then Returned (false, st)
              else
                Returned
                  (true,
                   saveMyListToStorage
                     (written st d (items ml ++ [content])))
          end
      end
  end.

Definition removeFromMyList (st : Store) (contentId : string)
  : outcome (bool * Store) :=
  match contentData st with
  | None => Thrown
  | Some d =>
      match findMyList d with
      | None => Returned (false, st)
      | Some ml =>
          let initialLength := List.length (items ml) in
          let kept :=
            filter (fun item => negb (hasId contentId item)) (items ml) in
          let st' := written st d kept in
          let removed := Nat.ltb (List.length kept) initialLength in
          if removed then Returned (true, saveMyListToStorage st')
          else Returned (false, st')
      end
  end.

(** The items of My List, as [getContentByCategory('my-list')] reads
    them. *)
Definition myListItems (st : Store) : list ContentItem :=
  match contentData st with
  | None => []
  | Some d =>
      match findMyList d with
      | Some ml => items ml
      | None => []
      end
  end.

(** The store of a page that has saved nothing yet, in a browser that
    takes every write. *)
Definition initialStore (data : option ContentData) : Store :=
  mkStore data None (fun _ => true).

(** The store an add of [c] to the My List [ml] of [d] leaves: the item
    appended in place, and the new list saved if the browser takes it. *)
Definition afterAdd (st : Store) (d : ContentData) (ml : Category)
    (c : ContentItem) : Store :=
  saveMyListToStorage (written st d (items ml ++ [c])%list).

(** The store the removal of what was added leaves. *)
Definition afterRemove (st : Store) (d : ContentData) (ml : Category)
    (c : ContentItem) : Store :=
  saveMyListToStorage (written (afterAdd st d ml c) d (items ml)).

End Content.

(* ================================================================== *)
(** ** JavaScript numbers and the event loop *)
(* ================================================================== *)

Module JS.

Local Open Scope Q_scope.

(** [a < b] on numbers. *)
Definition ltb (a b : Q) : bool := negb (Qle_bool b a).

Definition Math_min (a b : Q) : Q := if Qle_bool a b then a else b.
Definition Math_max (a b : Q) : Q := if Qle_bool a b then b else a.
Definition Math_abs (a : Q) : Q := Qabs a.

(** [Math.pow(x, 3)] *)
Definition cube (x : Q) : Q := x * x * x.

(** The value of a division whose divisor may be zero. *)
Inductive num : Type :=
| Finite (q : Q)
| PosInfinity
| NegInfinity
| NaN.

(** [2^e] *)
Definition pow2 (e : Z) : Q :=
  if (0 <=? e)%Z then inject_Z (2 ^ e) else / inject_Z (2 ^ (- e)).

(** The nearest integer, a tie going to the even one. *)
Definition roundHalfEven (q : Q) : Z :=
  let f := Qfloor q in
  let rest := q - inject_Z f in
  if ltb rest (1 # 2) then f
  else if ltb (1 # 2) rest then (f + 1)%Z
  else if Z.even f then f else (f + 1)%Z.

(** [floor (log2 q)] of a positive [q]. *)
Definition ilog2 (q : Q) : Z :=
  let e := (Z.log2 (Qnum q) - Z.log2 (Zpos (Qden q)))%Z in
  if Qle_bool (pow2 e) q then e else (e - 1)%Z.

(** The Number value of a real result: the nearest binary64 value (53
    bits of mantissa, steps of 2^-1074 at the least), a tie going to the
    even mantissa, and an infinity from 2^1024 on.  Zero stands for both
    zeros. *)
Definition roundToDouble (q : Q) : num :=
  if Qeq_bool q 0 then Finite 0
  else
    let e := Z.max (ilog2 (Qabs q) - 52) (-1074) in
    let v := inject_Z (roundHalfEven (q / pow2 e)) * pow2 e in
    if Qle_bool (pow2 1024) (Qabs v)
    then (if ltb 0 q then PosInfinity else NegInfinity)
    else Finite (Qred v).
Arguments roundToDouble q : simpl never.

(** [a / b] in double arithmetic; the divisor of the embedded code is a
    difference [x - y], whose zero is the positive zero. *)
Definition div (a b : Q) : num :=
  if Qeq_bool b 0 then
    if Qeq_bool a 0 then NaN
    else if ltb 0 a then PosInfinity else NegInfinity
  else roundToDouble (a / b).

(** [n * k] in double arithmetic, for a finite positive [k]. *)
Definition times (n : num) (k : Q) : num :=
  match n with
  | Finite q => roundToDouble (q * k)
  | other => other
  end.

(** The result of [Math.round]: an integer or a non-finite value. *)
Inductive rounded : Type :=
| Int (z : Z)
| RPosInfinity
| RNegInfinity
| RNaN.

(** [Math.round] rounds half up: the integer [floor(x + 0.5)] of the
    exact sum. *)
Definition Math_round (n : num) : rounded :=
  match n with
  | Finite q => Int (Qfloor (q + (1 # 2)))
  | PosInfinity => RPosInfinity
  | NegInfinity => RNegInfinity
  | NaN => RNaN
  end.

(** The decimal digits of an integer. *)
Definition decimal (z : Z) : string := NilZero.string_of_int (Z.to_int z).

(** Is the double nearest to the integer [c] the double [z]? *)
Definition denotes (c z : Z) : bool :=
  match roundToDouble (inject_Z c) with
  | Finite v => Qeq_bool v (inject_Z z)
  | _ => false
  end.

(** The integer [s * 10^(n-k)] with the fewest digits [k] of [s], from [k]
    on, that denotes the double [z] of [n] digits; of two with the same
    [k] the one nearer to [z], and of two as near the one with the even
    [s]. *)
Fixpoint shortest (fuel : nat) (k n z : Z) : Z :=
  match fuel with
  | O => z
  | S fuel' =>
      if (n <=? k)%Z then z
      else
        let scale := (10 ^ (n - k))%Z in
        let lo := (z / scale * scale)%Z in
        let hi := (lo + scale)%Z in
        match denotes lo z, denotes hi z with
        | true, true =>
            if (z - lo <? hi - z)%Z then lo
            else if (hi - z <? z - lo)%Z then hi
            else if Z.even (z / scale) then lo else hi
        | true, false => lo
        | false, true => hi
        | false, false => shortest fuel' (k + 1)%Z n z
        end
  end.

Fixpoint stripZeros (s : string) : string :=
  match s with
  | EmptyString => EmptyString
  | String c rest =>
      match stripZeros rest with
      | EmptyString =>
          if Ascii.eqb c "0" then EmptyString else String c EmptyString
      | rest' => String c rest'
      end
  end.

(** [Number::toString] of a positive whole double: its digits below 2^53;
    from there on the shortest digits that denote it, filled up with zeros
    below 10^21 and in exponent notation from 10^21 on. *)
Definition positiveToString (z : Z) : string :=
  if (z <? 2 ^ 53)%Z then decimal z
  else
    let c := shortest 17 1 (Z.of_nat (String.length (decimal z))) z in
    let ds := decimal c in
    let n := Z.of_nat (String.length ds) in
    if (n <=? 21)%Z then ds
    else
      match stripZeros ds with
      | EmptyString => ds
      | String d EmptyString =>
          String d ("e+" ++ decimal (n - 1))%string
      | String d more =>
          String d ("." ++ more ++ "e+" ++ decimal (n - 1))%string
      end.

(** The text a template literal [`${n}`] inserts. *)
Definition toString (n : rounded) : string :=
  match n with
  | Int z =>
      if (z <? 0)%Z then ("-" ++ positiveToString (- z))%string
      else positiveToString z
  | RPosInfinity => "Infinity"%string
  | RNegInfinity => "-Infinity"%string
  | RNaN => "NaN"%string
  end.

(** *** Timers

    A timer queue holds the callbacks registered with [setTimeout], each
    with the time at which it is due, in the order in which they will
    fire: by due time, and by registration among equal due times. *)
Section Timers.
Context {A : Type}.

Fixpoint setTimeout (due : Q) (callback : A) (queue : list (Q * A))
  : list (Q * A) :=
  match queue with
  | [] => [(due, callback)]
  | (d, c) :: rest =>
      if Qle_bool d due then (d, c) :: setTimeout due callback rest
      else (due, callback) :: (d, c) :: rest
  end.

(** The callbacks that are due at [now], in firing order. *)
Definition dueTimers (now : Q) (queue : list (Q * A)) : list A :=
  map snd (filter (fun entry => Qle_bool (fst entry) now) queue).

(** The timers that stay registered after the tick at [now]. *)
Definition laterTimers (now : Q) (queue : list (Q * A)) : list (Q * A) :=
  filter (fun entry => negb (Qle_bool (fst entry) now)) queue.
End Timers.

End JS.

(* ================================================================== *)
(** ** Row scrolling: buttons, animation frames, touch and mouse drag *)
(* ================================================================== *)

Module Carousel.

Import JS.
Local Open Scope Q_scope.

(** The [.content-slider] element. *)
Record Slider := mkSlider {
  scrollLeft : Q;
  scrollWidth : Q;
  clientWidth : Q;
  scrollBehavior : string;   (* slider.style.scrollBehavior *)
  cursor : string            (* slider.style.cursor *)
}.

(** A [.scroll-left] / [.scroll-right] button. *)
Record Button := mkButton {
  opacity : string;
  pointerEvents : string;
  disabled : bool;
  ariaHidden : string;
  ariaLabel : string
}.

(** The two [animateScroll] closures: the one of [smoothScrollTo] (button
    clicks, ease-in-out, updates state and buttons when it ends) and the
    one of [smoothScrollToPosition] (momentum, ease-out). *)
Inductive AnimKind := ButtonScroll | PositionScroll.

(** The variables an [animateScroll] closure captures. *)
Record Animation := mkAnimation {
  kind : AnimKind;
  startPosition : Q;
  distance : Q;
  a_startTime : Q;
  duration : Q
}.

(** The closure variables of [setupTouchScrolling]. *)
Record Gesture := mkGesture {
  startX : Q;
  startY : Q;
  startScrollLeft : Q;
  isScrolling : bool;
  isDragging : bool;
  startTime : Q;
  velocityX : Q;
  lastX : Q;
  lastTime : Q
}.

(** The callbacks handed to [setTimeout]: the two of a released gesture,
    and the pending calls of the debounced [scroll] and [resize]
    listeners. *)
Inductive TimerAction :=
| RestoreSmoothBehavior
| RefreshButtons
| ScrollRefresh
| ResizeRefresh.

(** One content row.  [frameCallbacks] are the [animateScroll] closures
    registered with [requestAnimationFrame] for the next frame, in
    registration order.  [finishedAnimations] counts the [animateScroll]
    chains that have run their last frame (progress reached 1, nothing
    rescheduled); the code does not store it, it observes the run. *)
Record Row := mkRow {
  slider : Slider;
  leftBtn : Button;
  rightBtn : Button;
  scrollPosition : Q;        (* AppState.scrollPositions[categoryId] *)
  gesture : Gesture;
  frameCallbacks : list Animation;
  timeouts : list (Q * TimerAction);
  finishedAnimations : nat
}.

Definition set_scrollLeft (v : Q) (r : Row) : Row :=
  let s := slider r in
  mkRow (mkSlider v (scrollWidth s) (clientWidth s) (scrollBehavior s)
           (cursor s))
    (leftBtn r) (rightBtn r) (scrollPosition r) (gesture r)
    (frameCallbacks r) (timeouts r) (finishedAnimations r).

Definition set_scrollBehavior (v : string) (r : Row) : Row :=
  let s := slider r in
  mkRow (mkSlider (scrollLeft s) (scrollWidth s) (clientWidth s) v
           (cursor s))
    (leftBtn r) (rightBtn r) (scrollPosition r) (gesture r)
    (frameCallbacks r) (timeouts r) (finishedAnimations r).

Definition set_cursor (v : string) (r : Row) : Row :=
  let s := slider r in
  mkRow (mkSlider (scrollLeft s) (scrollWidth s) (clientWidth s)
           (scrollBehavior s) v)
    (leftBtn r) (rightBtn r) (scrollPosition r) (gesture r)
    (frameCallbacks r) (timeouts r) (finishedAnimations r).

Definition set_buttons (l rt : Button) (r : Row) : Row :=
  mkRow (slider r) l rt (scrollPosition r) (gesture r)
    (frameCallbacks r) (timeouts r) (finishedAnimations r).

Definition set_scrollPosition (v : Q) (r : Row) : Row :=
  mkRow (slider r) (leftBtn r) (rightBtn r) v (gesture r)
    (frameCallbacks r) (timeouts r) (finishedAnimations r).

Definition set_gesture (g : Gesture) (r : Row) : Row :=
  mkRow (slider r) (leftBtn r) (rightBtn r) (scrollPosition r) g
    (frameCallbacks r) (timeouts r) (finishedAnimations r).

Definition set_frameCallbacks (q : list Animation) (r : Row) : Row :=
  mkRow (slider r) (leftBtn r) (rightBtn r) (scrollPosition r) (gesture r)
    q (timeouts r) (finishedAnimations r).

Definition set_timeouts (q : list (Q * TimerAction)) (r : Row) : Row :=
  mkRow (slider r) (leftBtn r) (rightBtn r) (scrollPosition r) (gesture r)
    (frameCallbacks r) q (finishedAnimations r).

Definition count_finished (r : Row) : Row :=
  mkRow (slider r) (leftBtn r) (rightBtn r) (scrollPosition r) (gesture r)
    (frameCallbacks r) (timeouts r) (S (finishedAnimations r)).

Definition requestAnimationFrame (a : Animation) (r : Row) : Row :=
  set_frameCallbacks (frameCallbacks r ++ [a]) r.

(** [slider.scrollWidth - slider.clientWidth] *)
Definition maxScroll (r : Row) : Q :=
  scrollWidth (slider r) - clientWidth (slider r).

(** *** updateScrollButtons *)

Definition tolerance : Q := 2.

Definition showHide (hide : bool) (label : string) : Button :=
  if hide then mkButton "0.3" "none" true "true" label
  else mkButton "" "" false "false" label.

Definition currentPosition (s : Slider) : rounded :=
  Math_round
    (times (div (scrollLeft s) (scrollWidth s - clientWidth s)) 100).

Definition updateScrollButtons (r : Row) : Row :=
  let s := slider r in
  let pct := toString (currentPosition s) in
  set_buttons
    (showHide (Qle_bool (scrollLeft s) tolerance)
       ("Scroll left (currently at " ++ pct ++ "%)"))
    (showHide
       (Qle_bool (scrollWidth s - tolerance) (scrollLeft s + clientWidth s))
       ("Scroll right (currently at " ++ pct ++ "%)"))
    r.

(** *** Button clicks and the animated scroll *)

(** [getScrollAmount], from [window.innerWidth]. *)
Definition getScrollAmount (viewportWidth : Q) : Q :=
  let cardWidth :=
    if ltb viewportWidth 640 then 150
    else if ltb viewportWidth 1024 then 180 else 200 in
  let gap :=
    if ltb viewportWidth 640 then 12
    else if ltb viewportWidth 1024 then 16 else 20 in
  let cardsToScroll :=
    if ltb viewportWidth 640 then 2
    else if ltb viewportWidth 1024 then 3 else 4 in
  (cardWidth + gap) * cardsToScroll.

Definition easeInOutCubic (progress : Q) : Q :=
  if ltb progress (1 # 2)
  then 4 * progress * progress * progress
  else 1 - cube (-(2) * progress + 2) / 2.

Definition easeOutCubic (progress : Q) : Q := 1 - cube (1 - progress).

Definition easing (k : AnimKind) (progress : Q) : Q :=
  match k with
  | ButtonScroll => easeInOutCubic progress
  | PositionScroll => easeOutCubic progress
  end.

(** One call of an [animateScroll] closure with the frame's timestamp. *)
Definition animateScroll (a : Animation) (currentTime : Q) (r : Row) : Row :=
  let elapsed := currentTime - a_startTime a in
  let progress := Math_min (elapsed / duration a) 1 in
  let r1 :=
    set_scrollLeft
      (startPosition a + distance a * easing (kind a) progress) r in
  if ltb progress 1 then requestAnimationFrame a r1
  else
    match kind a with
    | ButtonScroll =>
        count_finished
          (updateScrollButtons
             (set_scrollPosition (scrollLeft (slider r1)) r1))
    | PositionScroll => count_finished r1
    end.

(** [smoothScrollTo(targetPosition, duration)], called at time [now]. *)
Definition smoothScrollTo (targetPosition : Q) (dur : Q) (now : Q) (r : Row)
  : Row :=
  let start := scrollLeft (slider r) in
  requestAnimationFrame
    (mkAnimation ButtonScroll start (targetPosition - start) now dur) r.

(** [smoothScrollToPosition(element, targetPosition, duration)] *)
Definition smoothScrollToPosition (targetPosition : Q) (dur : Q) (now : Q)
    (r : Row) : Row :=
  let start := scrollLeft (slider r) in
  requestAnimationFrame
    (mkAnimation PositionScroll start (targetPosition - start) now dur) r.

(** The target the left button's click handler computes. *)
Definition leftTarget (innerWidth : Q) (r : Row) : Q :=
  Math_max 0 (scrollLeft (slider r) - getScrollAmount innerWidth).

(** The target the right button's click handler computes. *)
Definition rightTarget (innerWidth : Q) (r : Row) : Q :=
  Math_min (maxScroll r) (scrollLeft (slider r) + getScrollAmount innerWidth).

(** The click listeners of the two buttons. *)
Definition clickLeft (innerWidth now : Q) (r : Row) : Row :=
  smoothScrollTo (leftTarget innerWidth r) 300 now r.

Definition clickRight (innerWidth now : Q) (r : Row) : Row :=
  smoothScrollTo (rightTarget innerWidth r) 300 now r.

(** One animation frame: the callbacks registered so far run in
    registration order; what they register runs in the next frame. *)
Definition runFrame (currentTime : Q) (r : Row) : Row :=
  fold_left (fun r' a => animateScroll a currentTime r')
    (frameCallbacks r) (set_frameCallbacks [] r).

(** *** Touch and mouse drag *)

Definition set_flags (scrolling dragging : bool) (g : Gesture) : Gesture :=
  mkGesture (startX g) (startY g) (startScrollLeft g) scrolling dragging
    (startTime g) (velocityX g) (lastX g) (lastTime g).

Definition set_sample (v x t : Q) (g : Gesture) : Gesture :=
  mkGesture (startX g) (startY g) (startScrollLeft g) (isScrolling g)
    (isDragging g) (startTime g) v x t.

(** [Math.max(0, Math.min(scrollWidth - clientWidth, x))] *)
Definition clampScroll (r : Row) (x : Q) : Q :=
  Math_max 0 (Math_min (maxScroll r) x).

(** [handleTouchStart]; [(x, y)] is [e.touches[0]], [now] is
    [performance.now()]. *)
Definition handleTouchStart (x y now : Q) (r : Row) : Row :=
  set_scrollBehavior "auto"
    (set_gesture
       (mkGesture x y (scrollLeft (slider r)) false false now 0 x now) r).

(** What the classification block of [handleTouchMove] decides for one
    sample: go on with the (possibly updated) flags, or return. *)
Inductive Detection :=
| GoOn (g : Gesture) (prevented : bool)
| PassThrough.

Definition detect (g : Gesture) (deltaX deltaY : Q) : Detection :=
  if negb (isScrolling g) && negb (isDragging g) then
    let absX := Math_abs deltaX in
    let absY := Math_abs deltaY in
    if ltb absY absX && ltb 10 absX then GoOn (set_flags true true g) true
    else if ltb absX absY && ltb 10 absY then PassThrough
    else GoOn g false
  else GoOn g false.

(** [handleTouchMove]; the boolean tells whether [e.preventDefault()] was
    called. *)
Definition handleTouchMove (touch : option (Q * Q)) (now : Q) (r : Row)
  : Row * bool :=
  match touch with
  | None => (r, false)
  | Some (currentX, currentY) =>
      let g := gesture r in
      let deltaX := startX g - currentX in
      let deltaY := startY g - currentY in
      match detect g deltaX deltaY with
      | PassThrough => (r, false)
      | GoOn g1 prevented =>
          if isScrolling g1 && isDragging g1 then
            let timeDelta := now - lastTime g1 in
            let v :=
              if ltb 0 timeDelta then (lastX g1 - currentX) / timeDelta
              else velocityX g1 in
            let newScrollLeft := startScrollLeft g1 + deltaX in
            (set_gesture (set_sample v currentX now g1)
               (set_scrollLeft (clampScroll r newScrollLeft) r),
             true)
          else (set_gesture g1 r, prevented)
      end
  end.

(** The momentum condition of [handleTouchEnd]. *)
Definition momentumApplies (g : Gesture) (now : Q) : bool :=
  ltb (1 # 2) (Math_abs (velocityX g)) && ltb (now - startTime g) 300.

(** The [finalScrollLeft] of [handleTouchEnd]. *)
Definition momentumTarget (r : Row) : Q :=
  let momentum := velocityX (gesture r) * 200 in
  let targetScrollLeft := scrollLeft (slider r) + momentum in
  clampScroll r targetScrollLeft.

Definition releaseTimeouts (now : Q) (r : Row) : Row :=
  let q1 := setTimeout (now + 100) RestoreSmoothBehavior (timeouts r) in
  set_timeouts (setTimeout (now + 50) RefreshButtons q1) r.

Definition handleTouchEnd (now : Q) (r : Row) : Row :=
  if negb (isDragging (gesture r)) then r
  else
    let r1 :=
      if momentumApplies (gesture r) now
      then smoothScrollToPosition (momentumTarget r) 400 now r
      else r in
    let r2 := releaseTimeouts now r1 in
    set_gesture (set_flags false false (gesture r2)) r2.

Definition handleMouseDown (x : Q) (r : Row) : Row :=
  let g := gesture r in
  set_scrollBehavior "auto"
    (set_cursor "grabbing"
       (set_gesture
          (mkGesture x (startY g) (scrollLeft (slider r)) (isScrolling g)
             true (startTime g) (velocityX g) (lastX g) (lastTime g))
          r)).

Definition handleMouseMove (x : Q) (r : Row) : Row :=
  let g := gesture r in
  if negb (isDragging g) then r
  else set_scrollLeft (clampScroll r (startScrollLeft g + (startX g - x))) r.

Definition handleMouseUp (now : Q) (r : Row) : Row :=
  let g := gesture r in
  if negb (isDragging g) then r
  else
    releaseTimeouts now
      (set_cursor "grab" (set_gesture (set_flags (isScrolling g) false g) r)).

(** *** The debounced [scroll] and [resize] listeners *)

Definition sameAction (a b : TimerAction) : bool :=
  match a, b with
  | RestoreSmoothBehavior, RestoreSmoothBehavior
  | RefreshButtons, RefreshButtons
  | ScrollRefresh, ScrollRefresh
  | ResizeRefresh, ResizeRefresh => true
  | _, _ => false
  end.

(** [clearTimeout(timeout)] in a debounced listener: its own pending call
    leaves the queue, if there is one. *)
Definition clearTimeout (a : TimerAction) (q : list (Q * TimerAction))
  : list (Q * TimerAction) :=
  filter (fun entry => negb (sameAction a (snd entry))) q.

(** One call of [debounce(func, wait)]'s [executedFunction]: the pending
    call is dropped and a new one is due after [wait]. *)
Definition debounce (func : TimerAction) (wait now : Q) (r : Row) : Row :=
  set_timeouts
    (setTimeout (now + wait) func (clearTimeout func (timeouts r))) r.

(** The listener of the slider's [scroll] event. *)
Definition handleScroll (now : Q) (r : Row) : Row :=
  debounce ScrollRefresh 50 now r.

(** The listener of the window's [resize] event. *)
Definition handleResize (now : Q) (r : Row) : Row :=
  debounce ResizeRefresh 250 now r.

(** The body of a timeout callback.  The buttons the refresh callback
    looks up under [slider.parentElement] are the row's own. *)
Definition runTimerAction (r : Row) (a : TimerAction) : Row :=
  match a with
  | RestoreSmoothBehavior => set_scrollBehavior "smooth" r
  | RefreshButtons | ScrollRefresh =>
      updateScrollButtons (set_scrollPosition (scrollLeft (slider r)) r)
  | ResizeRefresh => updateScrollButtons r
  end.

(** The timeouts that are due at [now] fire. *)
Definition runTimers (now : Q) (r : Row) : Row :=
  fold_left runTimerAction (dueTimers now (timeouts r))
    (set_timeouts (laterTimers now (timeouts r)) r).

(** *** Event traces

    [ClickLeft] and [ClickRight] are activations of a button by the user,
    with the pointer or (through the [keydown] listener and [btn.click()])
    with Enter or Space: on a button that is [disabled] no [click] event
    is dispatched and the listener does not run.  [Scroll] and [Resize] are
    the deliveries of the slider's [scroll] and the window's [resize]
    event; the layout of the row ([scrollWidth], [clientWidth]) is taken
    to stay as it is. *)

Inductive Event :=
| Frame (currentTime : Q)
| Timers (now : Q)
| ClickLeft (innerWidth now : Q)
| ClickRight (innerWidth now : Q)
| TouchStart (x y now : Q)
| TouchMove (touch : option (Q * Q)) (now : Q)
| TouchEnd (now : Q)
| MouseDown (x : Q)
| MouseMove (x : Q)
| MouseUp (now : Q)
| Scroll (now : Q)
| Resize (now : Q).

Definition step (r : Row) (e : Event) : Row :=
  match e with
  | Frame t => runFrame t r
  | Timers t => runTimers t r
  | ClickLeft w t => if disabled (leftBtn r) then r else clickLeft w t r
  | ClickRight w t => if disabled (rightBtn r) then r else clickRight w t r
  | TouchStart x y t => handleTouchStart x y t r
  | TouchMove touch t => fst (handleTouchMove touch t r)
  | TouchEnd t => handleTouchEnd t r
  | MouseDown x => handleMouseDown x r
  | MouseMove x => handleMouseMove x r
  | MouseUp t => handleMouseUp t r
  | Scroll t => handleScroll t r
  | Resize t => handleResize t r
  end.

Definition run (es : list Event) (r : Row) : Row := fold_left step es r.

(** A row as [setupRowScrolling] leaves it: the saved position is 0, no
    gesture, nothing scheduled, the listeners above in place, the buttons
    refreshed once. *)
Definition idleGesture : Gesture := mkGesture 0 0 0 false false 0 0 0 0.

Definition setupRowScrolling (left width client : Q) : Row :=
  updateScrollButtons
    (mkRow (mkSlider left width client "" "grab")
       (mkButton "" "" false "" "") (mkButton "" "" false "" "")
       0 idleGesture [] [] 0).

End Carousel.

(* ================================================================== *)
(** ** The modal: open, deferred population, listeners, close *)
(* ================================================================== *)

Module Modal.

Import Content JS.
Local Open Scope string_scope.

(** The closures the class registers as event listeners.  The first three
    are created by [setupModalInteractions], the next three by
    [setupModalActions]; the last two are the anonymous listeners
    [setupModalSystem] installs once and never removes. *)
Inductive HandlerKind :=
| CloseClick
| OverlayClick
| Keydown
| PlayClick
| ListClick
| LikeClick
| SystemOverlayClick
| SystemKeydown.

(** A closure has an identity ([removeEventListener] compares references):
    the serial number of its creation. *)
Record Handler := mkHandler { serial : nat; hkind : HandlerKind }.

(** What [.modal-content] holds: the page's initial placeholder, the
    loading state, or the markup of [createModalContent(content)], which
    contains the [.modal-close], [.btn-play], [.btn-list] and [.btn-like]
    buttons. *)
Inductive ModalBody :=
| Placeholder
| LoadingState
| Details (content : ContentItem).

Record Dom := mkDom {
  overlayPresent : bool;     (* querySelector('.modal-overlay') is not null *)
  contentPresent : bool;     (* querySelector('.modal-content') is not null *)
  actionsReachable : bool;   (* '.modal .btn-play' etc. match the buttons *)
  overlayHidden : bool;      (* the overlay has class 'hidden' *)
  overlayAriaHidden : string;
  bodyOverflow : string;     (* document.body.style.overflow *)
  bodyModalOpen : bool;      (* document.body has class 'modal-open' *)
  modalBody : ModalBody;
  closeFocused : bool;       (* focus() was called on the close button *)
  notifications : list (nat * (string * string));
  announcements : list (nat * string)
}.

(** The listeners attached to the current close button, the overlay, the
    document ([keydown]) and the current action buttons. *)
Record Listeners := mkListeners {
  onCloseClick : list Handler;
  onOverlayClick : list Handler;
  onKeydown : list Handler;
  onPlayClick : list Handler;
  onListClick : list Handler;
  onLikeClick : list Handler
}.

(** The [this.modal...Handler] fields of the class instance. *)
Record Fields := mkFields {
  modalCloseHandler : option Handler;
  modalOverlayClickHandler : option Handler;
  modalKeydownHandler : option Handler;
  modalPlayHandler : option Handler;
  modalListHandler : option Handler;
  modalLikeHandler : option Handler
}.

Inductive TimerCallback :=
| Populate (content : ContentItem)
| RemoveNotification (n : nat)
| RemoveAnnouncement (n : nat).

Record App := mkApp {
  store : Store;
  currentModal : option string;    (* AppState.currentModal *)
  dom : Dom;
  listeners : Listeners;
  fields : Fields;
  timers : list (Q * TimerCallback);
  nextSerial : nat
}.

Definition set_currentModal (v : option string) (a : App) : App :=
  mkApp (store a) v (dom a) (listeners a) (fields a) (timers a)
    (nextSerial a).

Definition set_dom (d : Dom) (a : App) : App :=
  mkApp (store a) (currentModal a) d (listeners a) (fields a) (timers a)
    (nextSerial a).

Definition set_listeners (l : Listeners) (a : App) : App :=
  mkApp (store a) (currentModal a) (dom a) l (fields a) (timers a)
    (nextSerial a).

Definition set_fields (f : Fields) (a : App) : App :=
  mkApp (store a) (currentModal a) (dom a) (listeners a) f (timers a)
    (nextSerial a).

Definition set_timers (q : list (Q * TimerCallback)) (a : App) : App :=
  mkApp (store a) (currentModal a) (dom a) (listeners a) (fields a) q
    (nextSerial a).

Definition bump (a : App) : App :=
  mkApp (store a) (currentModal a) (dom a) (listeners a) (fields a)
    (timers a) (S (nextSerial a)).

(** [overlay.classList.add/remove('hidden')] with the [aria-hidden]
    attribute that is always set next to it. *)
Definition set_overlay (hidden : bool) (aria : string) (d : Dom) : Dom :=
  mkDom (overlayPresent d) (contentPresent d) (actionsReachable d)
    hidden aria (bodyOverflow d) (bodyModalOpen d) (modalBody d)
    (closeFocused d) (notifications d) (announcements d).

Definition set_body (overflow : string) (modalOpen : bool) (d : Dom) : Dom :=
  mkDom (overlayPresent d) (contentPresent d) (actionsReachable d)
    (overlayHidden d) (overlayAriaHidden d) overflow modalOpen (modalBody d)
    (closeFocused d) (notifications d) (announcements d).

Definition set_modalBody (b : ModalBody) (focused : bool) (d : Dom) : Dom :=
  mkDom (overlayPresent d) (contentPresent d) (actionsReachable d)
    (overlayHidden d) (overlayAriaHidden d) (bodyOverflow d)
    (bodyModalOpen d) b focused (notifications d) (announcements d).

Definition set_notifications (n : list (nat * (string * string))) (d : Dom)
  : Dom :=
  mkDom (overlayPresent d) (contentPresent d) (actionsReachable d)
    (overlayHidden d) (overlayAriaHidden d) (bodyOverflow d)
    (bodyModalOpen d) (modalBody d) (closeFocused d) n (announcements d).

Definition set_announcements (n : list (nat * string)) (d : Dom) : Dom :=
  mkDom (overlayPresent d) (contentPresent d) (actionsReachable d)
    (overlayHidden d) (overlayAriaHidden d) (bodyOverflow d)
    (bodyModalOpen d) (modalBody d) (closeFocused d) (notifications d) n.

(** *** Listeners *)

Definition sameHandler (h h' : Handler) : bool :=
  Nat.eqb (serial h) (serial h').

(** [target.addEventListener(type, h)]: a listener already registered is
    not registered twice. *)
Definition addEventListener (h : Handler) (l : list Handler) : list Handler :=
  if existsb (sameHandler h) l then l else l ++ [h].

Definition removeEventListener (h : Handler) (l : list Handler)
  : list Handler :=
  filter (fun h' => negb (sameHandler h h')) l.

(** [modalContent.innerHTML = ...]: the old buttons are gone, and their
    listeners and focus with them. *)
Definition set_innerHTML (b : ModalBody) (a : App) : App :=
  let l := listeners a in
  set_listeners (mkListeners [] (onOverlayClick l) (onKeydown l) [] [] [])
    (set_dom (set_modalBody b false (dom a)) a).

(** Does a selector for a button of [createModalContent] find one? *)
Definition hasCloseButton (a : App) : bool :=
  match modalBody (dom a) with
  | Details _ => true
  | _ => false
  end.

Definition hasActionButtons (a : App) : bool :=
  actionsReachable (dom a) && hasCloseButton a.

Definition set_onCloseClick (v : list Handler) (l : Listeners) : Listeners :=
  mkListeners v (onOverlayClick l) (onKeydown l) (onPlayClick l)
    (onListClick l) (onLikeClick l).

Definition set_onOverlayClick (v : list Handler) (l : Listeners) : Listeners :=
  mkListeners (onCloseClick l) v (onKeydown l) (onPlayClick l)
    (onListClick l) (onLikeClick l).

Definition set_onKeydown (v : list Handler) (l : Listeners) : Listeners :=
  mkListeners (onCloseClick l) (onOverlayClick l) v (onPlayClick l)
    (onListClick l) (onLikeClick l).

(** The three blocks of [removeModalEventListeners]. *)
Definition removeCloseListener (a : App) : App :=
  match modalCloseHandler (fields a) with
  | Some h =>
      if hasCloseButton a then
        set_listeners
          (set_onCloseClick
             (removeEventListener h (onCloseClick (listeners a)))
             (listeners a)) a
      else a
  | None => a
  end.

Definition removeOverlayListener (a : App) : App :=
  match modalOverlayClickHandler (fields a) with
  | Some h =>
      if overlayPresent (dom a) then
        set_listeners
          (set_onOverlayClick
             (removeEventListener h (onOverlayClick (listeners a)))
             (listeners a)) a
      else a
  | None => a
  end.

Definition removeKeydownListener (a : App) : App :=
  match modalKeydownHandler (fields a) with
  | Some h =>
      set_listeners
        (set_onKeydown (removeEventListener h (onKeydown (listeners a)))
           (listeners a)) a
  | None => a
  end.

Definition removeModalEventListeners (a : App) : App :=
  removeKeydownListener (removeOverlayListener (removeCloseListener a)).

(** A new closure of the given kind. *)
Definition fresh (k : HandlerKind) (a : App) : Handler :=
  mkHandler (nextSerial a) k.

Definition removeIfSet (f : option Handler) (l : list Handler)
  : list Handler :=
  match f with
  | Some h => removeEventListener h l
  | None => l
  end.

(** [setupModalActions]: listeners of the play, list and like buttons. *)
Definition setupModalActions (a : App) : App :=
  if hasActionButtons a then
    let l := listeners a in
    let f := fields a in
    let hp := mkHandler (nextSerial a) PlayClick in
    let hl := mkHandler (S (nextSerial a)) ListClick in
    let hk := mkHandler (S (S (nextSerial a))) LikeClick in
    bump (bump (bump
      (set_fields
         (mkFields (modalCloseHandler f) (modalOverlayClickHandler f)
            (modalKeydownHandler f) (Some hp) (Some hl) (Some hk))
         (set_listeners
            (mkListeners (onCloseClick l) (onOverlayClick l) (onKeydown l)
               (addEventListener hp
                  (removeIfSet (modalPlayHandler f) (onPlayClick l)))
               (addEventListener hl
                  (removeIfSet (modalListHandler f) (onListClick l)))
               (addEventListener hk
                  (removeIfSet (modalLikeHandler f) (onLikeClick l))))
            a))))
  else a.

(** The three registrations of [setupModalInteractions]. *)
Definition registerCloseHandler (a : App) : App :=
  if hasCloseButton a then
    let h := fresh CloseClick a in
    let f := fields a in
    bump
      (set_fields
         (mkFields (Some h) (modalOverlayClickHandler f)
            (modalKeydownHandler f) (modalPlayHandler f)
            (modalListHandler f) (modalLikeHandler f))
         (set_listeners
            (set_onCloseClick
               (addEventListener h (onCloseClick (listeners a)))
               (listeners a)) a))
  else a.

Definition registerOverlayClickHandler (a : App) : App :=
  let h := fresh OverlayClick a in
  let f := fields a in
  bump
    (set_fields
       (mkFields (modalCloseHandler f) (Some h) (modalKeydownHandler f)
          (modalPlayHandler f) (modalListHandler f) (modalLikeHandler f))
       (set_listeners
          (set_onOverlayClick
             (addEventListener h (onOverlayClick (listeners a)))
             (listeners a)) a)).

Definition registerKeydownHandler (a : App) : App :=
  let h := fresh Keydown a in
  let f := fields a in
  bump
    (set_fields
       (mkFields (modalCloseHandler f) (modalOverlayClickHandler f)
          (Some h) (modalPlayHandler f) (modalListHandler f)
          (modalLikeHandler f))
       (set_listeners
          (set_onKeydown (addEventListener h (onKeydown (listeners a)))
             (listeners a)) a)).

(** [setupModalInteractions]: the old listeners are removed, the close,
    overlay and keydown listeners are registered, then the action
    buttons. *)
Definition setupModalInteractions (a : App) : App :=
  setupModalActions
    (registerKeydownHandler
       (registerOverlayClickHandler
          (registerCloseHandler (removeModalEventListeners a)))).

(** *** Notifications and announcements *)

Local Open Scope Q_scope.

Definition after (now delay : Q) (cb : TimerCallback) (a : App) : App :=
  set_timers (setTimeout (now + delay) cb (timers a)) a.

(** The toast with serial [n] leaves the page: by its timer, if it is
    still attached, or by a click on its [×] button
    ([this.parentElement.parentElement.remove()]). *)
Definition removeNotification (n : nat) (a : App) : App :=
  set_dom
    (set_notifications
       (filter (fun e => negb (Nat.eqb (fst e) n)) (notifications (dom a)))
       (dom a)) a.

(** [showNotification(message, type)]: a toast with a [×] button is
    appended to the body and removed after five seconds. *)
Definition showNotification (message type : string) (now : Q) (a : App)
  : App :=
  let n := nextSerial a in
  let d := dom a in
  after now 5000 (RemoveNotification n)
    (bump
       (set_dom
          (set_notifications (notifications d ++ [(n, (message, type))]) d)
          a)).

(** The live region both [announceModalOpen] and [closeModal] append and
    remove after one second. *)
Definition announce (text : string) (now : Q) (a : App) : App :=
  let n := nextSerial a in
  let d := dom a in
  after now 1000 (RemoveAnnouncement n)
    (bump (set_dom (set_announcements (announcements d ++ [(n, text)]) d) a)).

Definition announceModalOpen (contentTitle : string) (now : Q) (a : App)
  : App :=
  announce ("Modal opened for " ++ contentTitle ++ ". Press Escape to close.")
    now a.

(** *** openModal and its deferred population *)

Definition openModal (contentId : string) (now : Q) (a : App) : App :=
  if negb (overlayPresent (dom a)) || negb (contentPresent (dom a)) then a
  else
    match getContentById (store a) contentId with
    | None => showNotification "Content not found" "error" now a
    | Some content =>
        let a1 := set_currentModal (Some contentId) a in
        let a2 := set_innerHTML LoadingState a1 in   (* showModalLoadingState *)
        let a3 := set_dom (set_overlay false "false" (dom a2)) a2 in
        let a4 := set_dom (set_body "hidden" true (dom a3)) a3 in
        after now 100 (Populate content) a4
    end.

(** Does [.join(', ')] work on the field, where it is called? *)
Definition joins (field : Joinable) : bool :=
  match field with
  | NotAnArray => false
  | _ => true
  end.

(** [createModalContent(content)]: the markup, or the [TypeError] of
    [content.cast.join], of [content.genres.join] or of
    [content.type.replace] on a record without [type].  The title is
    taken to be a well-formed string, which [encodeURIComponent]
    accepts. *)
Definition createModalContent (content : ContentItem) : outcome ModalBody :=
  if joins (cast content) && joins (genres content) then
    match type content with
    | Some _ => Returned (Details content)
    | None => Thrown
    end
  else Thrown.

(** Does [createModalContent] return for the record? *)
Definition renders (content : ContentItem) : bool :=
  match createModalContent content with
  | Returned _ => true
  | Thrown => false
  end.

(** The callback [openModal] hands to [setTimeout], for a record whose
    markup [createModalContent] builds. *)
Definition populated (content : ContentItem) (now : Q) (a : App) : App :=
  let a1 := set_innerHTML (Details content) a in
  let a2 := setupModalInteractions a1 in
  let a3 :=
    if hasCloseButton a2
    then set_dom (set_modalBody (modalBody (dom a2)) true (dom a2)) a2
    else a2 in
  announceModalOpen (title content) now a3.

(** The callback [openModal] hands to [setTimeout].  Its first statement
    is [modalContent.innerHTML = this.createModalContent(content)]: where
    the call throws, nothing is assigned and the rest of the callback does
    not run. *)
Definition populate (content : ContentItem) (now : Q) (a : App) : App :=
  match createModalContent content with
  | Returned _ => populated content now a
  | Thrown => a
  end.

(** *** closeModal *)

Definition closeModal (now : Q) (a : App) : App :=
  if negb (overlayPresent (dom a)) then a
  else
    let a1 := removeModalEventListeners a in
    let a2 := set_dom (set_overlay true "true" (dom a1)) a1 in
    let a3 := set_currentModal None a2 in
    let a4 := set_dom (set_body "" false (dom a3)) a3 in
    announce "Modal closed" now a4.

(** *** Timers *)

Definition runTimerCallback (now : Q) (a : App) (cb : TimerCallback) : App :=
  match cb with
  | Populate content => populate content now a
  | RemoveNotification n => removeNotification n a
  | RemoveAnnouncement n =>
      set_dom
        (set_announcements
           (filter (fun e => negb (Nat.eqb (fst e) n)) (announcements (dom a)))
           (dom a)) a
  end.

Definition runTimers (now : Q) (a : App) : App :=
  fold_left (runTimerCallback now) (dueTimers now (timers a))
    (set_timers (laterTimers now (timers a)) a).

(** *** Dispatch of user input to the registered listeners *)

Inductive Key := Escape | Tab | OtherKey.

(** [AppState.currentModal] used as a condition: null and the empty string
    are falsy. *)
Definition truthy (v : option string) : bool :=
  match v with
  | Some s => negb (String.eqb s "")
  | None => false
  end.

(** The body of a listener for one event.  [onOverlay] tells whether the
    event target is the overlay itself.  Focus is not part of the state,
    so the [Tab] branch of the keydown handler leaves the state as it
    is. *)
Definition invoke (h : Handler) (key : option Key) (onOverlay : bool)
    (now : Q) (a : App) : App :=
  match hkind h, key with
  | CloseClick, _ => closeModal now a
  | OverlayClick, _ => if onOverlay then closeModal now a else a
  | SystemOverlayClick, _ => if onOverlay then closeModal now a else a
  | Keydown, Some Escape =>
      if truthy (currentModal a) then closeModal now a else a
  | SystemKeydown, Some Escape =>
      if truthy (currentModal a) then closeModal now a else a
  | _, _ => a
  end.

(** The listeners registered on a target when the event is dispatched are
    called in registration order; one that an earlier listener has removed
    in the meantime is skipped.  The result lists the listeners that were
    called. *)
Fixpoint dispatch (current : App -> list Handler) (snapshot : list Handler)
    (key : option Key) (onOverlay : bool) (now : Q) (a : App)
  : App * list Handler :=
  match snapshot with
  | [] => (a, [])
  | h :: rest =>
      if existsb (sameHandler h) (current a) then
        let (a', fired) :=
          dispatch current rest key onOverlay now (invoke h key onOverlay now a)
        in (a', h :: fired)
      else dispatch current rest key onOverlay now a
  end.

Definition keydown (key : Key) (now : Q) (a : App) : App * list Handler :=
  dispatch (fun x => onKeydown (listeners x)) (onKeydown (listeners a))
    (Some key) false now a.

Definition clickOverlay (onOverlay : bool) (now : Q) (a : App)
  : App * list Handler :=
  dispatch (fun x => onOverlayClick (listeners x))
    (onOverlayClick (listeners a)) None onOverlay now a.

Definition clickClose (now : Q) (a : App) : App * list Handler :=
  dispatch (fun x => onCloseClick (listeners x)) (onCloseClick (listeners a))
    None false now a.

(** *** The page at start-up *)

(** [setupModalSystem]: two permanent listeners, if the overlay exists. *)
Definition setupModalSystem (a : App) : App :=
  if negb (overlayPresent (dom a)) then a
  else
    let l := listeners a in
    let h1 := mkHandler (nextSerial a) SystemOverlayClick in
    let h2 := mkHandler (S (nextSerial a)) SystemKeydown in
    bump (bump
      (set_listeners
         (mkListeners (onCloseClick l) (addEventListener h1 (onOverlayClick l))
            (addEventListener h2 (onKeydown l)) (onPlayClick l)
            (onListClick l) (onLikeClick l)) a)).

(** The page as loaded: overlay hidden, placeholder body, nothing
    registered. *)
Definition loadedPage (data : option ContentData) (reachable : bool) : App :=
  mkApp (initialStore data) None
    (mkDom true true reachable true "true" "" false Placeholder false [] [])
    (mkListeners [] [] [] [] [] [])
    (mkFields None None None None None None)
    [] 0.

(** The modal-scoped listeners registered at the moment: the closures of
    [setupModalInteractions] and [setupModalActions]. *)
Definition modalScoped (h : Handler) : bool :=
  match hkind h with
  | SystemOverlayClick | SystemKeydown => false
  | _ => true
  end.

Definition modalScopedListeners (a : App) : list Handler :=
  let l := listeners a in
  filter modalScoped
    (onCloseClick l ++ onOverlayClick l ++ onKeydown l ++ onPlayClick l
       ++ onListClick l ++ onLikeClick l).

(** *** Event traces *)

Inductive Event :=
| Open (contentId : string) (now : Q)
| Close (now : Q)
| Tick (now : Q)
| KeyPress (key : Key) (now : Q)
| ClickOverlay (onOverlay : bool) (now : Q)
| ClickCloseButton (now : Q)
| DismissNotification (n : nat) (now : Q).

Definition step (a : App) (e : Event) : App :=
  match e with
  | Open contentId now => openModal contentId now a
  | Close now => closeModal now a
  | Tick now => runTimers now a
  | KeyPress key now => fst (keydown key now a)
  | ClickOverlay onOverlay now => fst (clickOverlay onOverlay now a)
  | ClickCloseButton now => fst (clickClose now a)
  | DismissNotification n _ => removeNotification n a
  end.

Definition run (es : list Event) (a : App) : App := fold_left step es a.

(** *** What the modal shows, and the listener slots *)

(** The state of the modal a user can see: the id in
    [AppState.currentModal], whether the overlay is hidden, its
    [aria-hidden] attribute, the page's [overflow] style and its
    [modal-open] class. *)
Definition view (a : App) : option string * bool * string * string * bool :=
  (currentModal a, overlayHidden (dom a), overlayAriaHidden (dom a),
   bodyOverflow (dom a), bodyModalOpen (dom a)).

(** The closed modal: no current id, overlay hidden, page scroll
    unlocked. *)
Definition closedView : option string * bool * string * string * bool :=
  (None, true, "true"%string, ""%string, false).

(** The modal open for [contentId]: overlay shown, page scroll locked. *)
Definition openView (contentId : string)
  : option string * bool * string * string * bool :=
  (Some contentId, false, "false"%string, "hidden"%string, true).

(** No deferred population is waiting in the timer queue. *)
Definition isPopulate (cb : TimerCallback) : bool :=
  match cb with
  | Populate _ => true
  | _ => false
  end.

Definition noPopulatePending (q : list (Q * TimerCallback)) : bool :=
  forallb (fun e => negb (isPopulate (snd e))) q.

(** A handler field and the listeners of its kind that are registered: none,
    or the one closure the field refers to. *)
Definition slot (f : option Handler) (l : list Handler) : Prop :=
  match l with
  | [] => True
  | [h] => exists h' : Handler, f = Some h' /\ sameHandler h' h = true
  | _ => False
  end.

(** The fields of the instance agree with the listeners that are
    registered. *)
Definition coherent (a : App) : Prop :=
  let l := listeners a in
  let f := fields a in
  slot (modalCloseHandler f) (onCloseClick l)
  /\ slot (modalOverlayClickHandler f) (filter modalScoped (onOverlayClick l))
  /\ slot (modalKeydownHandler f) (filter modalScoped (onKeydown l))
  /\ slot (modalPlayHandler f) (onPlayClick l)
  /\ slot (modalListHandler f) (onListClick l)
  /\ slot (modalLikeHandler f) (onLikeClick l)
  /\ (hasCloseButton a = false -> onCloseClick l = [])
  /\ overlayPresent (dom a) = true.

End Modal.

(* ================================================================== *)
(** ** The edge detector and the clamp, in the words of the design *)
(* ================================================================== *)

Module EdgeDetector.

Import Carousel.
Local Open Scope Q_scope.

(** From the design: the row is at its start when the offset is within
    the tolerance of 0. *)
Definition isAtStart (s : Slider) : Prop := scrollLeft s <= 2.

(** From the design: the row is at its end when offset plus viewport
    width reaches the scrollable width, up to the tolerance. *)
Definition isAtEnd (s : Slider) : Prop :=
  scrollWidth s - 2 <= scrollLeft s + clientWidth s.

(** From the design: [clamp(x, lo, hi)]. *)
Definition clamp (x lo hi : Q) : Q := JS.Math_max lo (JS.Math_min hi x).

End EdgeDetector.

(* ================================================================== *)
(** ** Invariants of the animation queue *)
(* ================================================================== *)

Module Invariants.

Import Carousel.
Local Open Scope Q_scope.

(** Nothing is scheduled, [f] animations have finished and the row rests
    at [target]. *)
Definition settled (target : Q) (f : nat) (r : Row) : Prop :=
  frameCallbacks r = []
  /\ finishedAnimations r = f
  /\ scrollLeft (slider r) == target.

(** The animation [a] is the only one scheduled, after [f] finished ones,
    or it has finished too and the row rests at its end position. *)
Definition oneInFlight (a : Animation) (f : nat) (r : Row) : Prop :=
  (frameCallbacks r = [a] /\ finishedAnimations r = f)
  \/ settled (startPosition a + distance a) (S f) r.

(** Two animations are scheduled, the older first, or the older has
    finished and the newer is on its own. *)
Definition twoInFlight (older newer : Animation) (f : nat) (r : Row)
  : Prop :=
  (frameCallbacks r = [older; newer] /\ finishedAnimations r = f)
  \/ oneInFlight newer (S f) r.

(** Two animations were scheduled after [f] finished ones: both are still
    scheduled (the older first), or one of them has finished and the other
    is on its own, or both have finished. *)
Definition overlapping (older newer : Animation) (f : nat) (r : Row)
  : Prop :=
  (frameCallbacks r = [older; newer] /\ finishedAnimations r = f)
  \/ (frameCallbacks r = [newer] /\ finishedAnimations r = S f)
  \/ (frameCallbacks r = [older] /\ finishedAnimations r = S f)
  \/ (frameCallbacks r = [] /\ finishedAnimations r = S (S f)).

(** The time at which an animation makes its last step. *)
Definition endTime (a : Animation) : Q := a_startTime a + duration a.

(** Events that are not user input: frames, timer ticks and the
    deliveries of [scroll] and [resize] events. *)
Definition isTick (e : Event) : bool :=
  match e with
  | Frame _ | Timers _ | Scroll _ | Resize _ => true
  | _ => false
  end.

(** Events that neither start nor end a touch contact: move samples of
    the finger, frames, timer ticks and the deliveries of [scroll] and
    [resize] events. *)
Definition keepsContact (e : Event) : bool :=
  match e with
  | TouchMove _ _ | Frame _ | Timers _ | Scroll _ | Resize _ => true
  | _ => false
  end.

End Invariants.

(* ================================================================== *)
(** ** Sample data *)
(* ================================================================== *)

Module Samples.

Import Content.
Local Open Scope string_scope.

Definition movie1 : ContentItem :=
  mkItem "m1" "Movie One" (Some "movie") (Names ["Ann Lee"; "Bo Chen"])
    (Names ["Drama"]).
Definition movie2 : ContentItem :=
  mkItem "m2" "Movie Two" (Some "tv-show") Absent (Names ["Comedy"]).

(** A hero as [validateContentData] accepts it: an id and a title, no
    [type]. *)
Definition featured : ContentItem :=
  mkItem "hero-1" "Featured" None Absent (Names ["Action"]).

Definition myList : Category := mkCategory "my-list" "My List" [].

Definition data : ContentData :=
  mkData (Some featured)
    [mkCategory "trending" "Trending Now" [movie1; movie2]; myList].

Definition store : Store := initialStore (Some data).

(** The same store in a browser whose storage takes no write. *)
Definition fullStore : Store := mkStore (Some data) None (fun _ => false).

(** The page after start-up, with the action buttons reachable. *)
Definition page : Modal.App :=
  Modal.setupModalSystem (Modal.loadedPage (Some data) true).

(** The movie is opened at 0 ms and the modal is closed at 50 ms, before
    the population that is due at 100 ms; then the timers fire. *)
Definition hastyClose : Modal.App :=
  Modal.run [Modal.Open "m1" 0; Modal.Close 50; Modal.Tick 100] page.

(** The movie is opened, the population runs, then the modal is closed. *)
Definition openedThenClosed : Modal.App :=
  Modal.run [Modal.Open "m1" 0; Modal.Tick 100; Modal.Close 150] page.

Local Open Scope Q_scope.

(** A row 2000 px wide in an 800 px viewport, at its start. *)
Definition row : Carousel.Row := Carousel.setupRowScrolling 0 2000 800.

(** A row whose content fits its viewport. *)
Definition shortRow : Carousel.Row := Carousel.setupRowScrolling 0 800 800.

(** The same wide row, scrolled to 300 and to 600. *)
Definition rowAt300 : Carousel.Row := Carousel.setupRowScrolling 300 2000 800.
Definition rowAt600 : Carousel.Row := Carousel.setupRowScrolling 600 2000 800.

(** A 250 ms drag on the wide row from offset 300: the finger goes from
    x = 300 to 240 (at 200 ms) and to 200 (at 250 ms), which leaves the
    row at offset 400 with a velocity of 0.8 px/ms. *)
Definition flick : list Carousel.Event :=
  [Carousel.TouchStart 300 100 0;
   Carousel.TouchMove (Some (240, 100)) 200;
   Carousel.TouchMove (Some (200, 100)) 250].

Definition flickedRow : Carousel.Row := Carousel.run flick rowAt300.

(** The same path, taken slowly: 400 ms. *)
Definition slowDrag : list Carousel.Event :=
  [Carousel.TouchStart 300 100 0;
   Carousel.TouchMove (Some (240, 100)) 350;
   Carousel.TouchMove (Some (200, 100)) 400].

Definition draggedRow : Carousel.Row := Carousel.run slowDrag rowAt300.

(** The flick is released at 250 ms (momentum towards 560, until 650 ms)
    and one frame is drawn. *)
Definition releasedRow : Carousel.Row :=
  Carousel.run [Carousel.TouchEnd 250; Carousel.Frame 266] flickedRow.

(** Then the right button is clicked at 300 ms on a desktop-wide window
    (an animation until 600 ms). *)
Definition clickedRow : Carousel.Row :=
  Carousel.run [Carousel.ClickRight 1280 300] releasedRow.

(** Frames up to 700 ms, after the end of both animations. *)
Definition restingRow : Carousel.Row :=
  Carousel.run (map Carousel.Frame [316; 450; 600; 650; 700]) clickedRow.

(** A click on the right button of the wide row and one frame at
    100 ms. *)
Definition scrollingRow : Carousel.Row :=
  Carousel.run [Carousel.ClickRight 1280 0; Carousel.Frame 100] row.

(** A touch that first moves 20 px down. *)
Definition verticalStart : list Carousel.Event :=
  [Carousel.TouchStart 100 100 0; Carousel.TouchMove (Some (100, 120)) 10].

Definition verticalRow : Carousel.Row := Carousel.run verticalStart rowAt300.

End Samples.

(* ================================================================== *)
(** ** Chronological traces and the scroll range *)
(* ================================================================== *)

Module Timeline.

Import Carousel.
Local Open Scope Q_scope.

(** An [animateScroll] closure that starts and ends inside [0, bound] and
    was created no later than [now]. *)
Definition animationWithin (bound now : Q) (a : Animation) : Prop :=
  0 < duration a
  /\ (0 <= startPosition a /\ startPosition a <= bound)
  /\ (0 <= startPosition a + distance a
      /\ startPosition a + distance a <= bound)
  /\ a_startTime a <= now.

(** The offset of the row and every scheduled animation are inside the
    scroll range [0, scrollWidth - clientWidth]. *)
Definition inRange (now : Q) (r : Row) : Prop :=
  (0 <= scrollLeft (slider r) /\ scrollLeft (slider r) <= maxScroll r)
  /\ Forall (animationWithin (maxScroll r) now) (frameCallbacks r).

(** The timestamp an event carries, if any. *)
Definition eventTime (e : Event) : option Q :=
  match e with
  | Frame t | Timers t | ClickLeft _ t | ClickRight _ t | TouchStart _ _ t
  | TouchMove _ t | TouchEnd t | MouseUp t | Scroll t | Resize t => Some t
  | MouseDown _ | MouseMove _ => None
  end.

(** The timestamps of a trace never go back, starting from [now]. *)
Fixpoint chronological (now : Q) (es : list Event) : bool :=
  match es with
  | [] => true
  | e :: rest =>
      match eventTime e with
      | Some t => Qle_bool now t && chronological t rest
      | None => chronological now rest
      end
  end.

(** The time of the last timed event of a trace. *)
Fixpoint lastTime (now : Q) (es : list Event) : Q :=
  match es with
  | [] => now
  | e :: rest =>
      match eventTime e with
      | Some t => lastTime t rest
      | None => lastTime now rest
      end
  end.

(** The saved position and the two buttons are those of the current
    offset. *)
Definition synced (r : Row) : Prop :=
  scrollPosition r = scrollLeft (slider r)
  /\ leftBtn r = leftBtn (updateScrollButtons r)
  /\ rightBtn r = rightBtn (updateScrollButtons r).

(** Has a timer tick at or after [deadline] occurred in the trace? *)
Definition tickedSince (deadline : Q) (es : list Event) : bool :=
  existsb
    (fun e => match e with
              | Timers t => Qle_bool deadline t
              | _ => false
              end) es.

(** A touch move sample with a contact point. *)
Definition moveTo (sample : Q * Q * Q) : Event :=
  TouchMove (Some (fst (fst sample), snd (fst sample))) (snd sample).

End Timeline.

(* ================================================================== *)
(** * The content queries and the saved My List *)
(* ================================================================== *)

Module Library.

Import Content.
Local Open Scope string_scope.

(** [getTotalContentCount]: the lengths of the categories' item arrays,
    summed by [reduce] from 0. *)
Definition getTotalContentCount (st : Store) : nat :=
  match contentData st with
  | None => 0%nat
  | Some d =>
      fold_left
        (fun total category => (total + List.length (items category))%nat)
        (categories d) 0%nat
  end.

Definition hasCategoryId (categoryId : string) (cat : Category) : bool :=
  String.eqb (cat_id cat) categoryId.

(** [getContentByCategory]: the items of the first category with the id, or
    an empty array. *)
Definition getContentByCategory (st : Store) (categoryId : string)
  : list ContentItem :=
  match contentData st with
  | None => []
  | Some d =>
      match find (hasCategoryId categoryId) (categories d) with
      | Some category => items category
      | None => []
      end
  end.

(** [loadMyListFromStorage]: the array saved under ['netflix-my-list']
    replaces the items of My List.  Without content data the [TypeError] of
    the lookup is caught and logged.  [localStorage.getItem] is taken to
    return the entry, and the entry to be the JSON text of an array. *)
Definition loadMyListFromStorage (st : Store) : Store :=
  match savedMyList st with
  | None => st
  | Some myListItems =>
      match contentData st with
      | None => st
      | Some d =>
          match findMyList d with
          | Some _ =>
              written st d myListItems
          | None => st
          end
      end
  end.

(** [getPlaceholderContent]: a hero and four empty rows. *)
Definition getPlaceholderContent : ContentData :=
  mkData
    (Some
       (mkItem "hero-featured" "Featured Content" None Absent
          (Names ["Action"; "Drama"; "Thriller"])))
    [mkCategory "trending" "Trending Now" [];
     mkCategory "popular-movies" "Popular Movies" [];
     mkCategory "tv-shows" "TV Shows" [];
     mkCategory "my-list" "My List" []].

(** The store a call leaves, whatever it returned. *)
Definition storeAfter (o : outcome (bool * Store)) (before : Store) : Store :=
  match o with
  | Returned (_, st) => st
  | Thrown => before
  end.

(** Did the call return [true]? *)
Definition succeeded (o : outcome (bool * Store)) : bool :=
  match o with
  | Returned (b, _) => b
  | Thrown => false
  end.

(** The number of items of a list that carry the id. *)
Definition countId (contentId : string) (l : list ContentItem) : nat :=
  List.length (filter (hasId contentId) l).

(** The page is reloaded: the content data is fetched again and the saved
    list is read back from [localStorage]. *)
Definition reload (fetched : ContentData) (st : Store) : Store :=
  loadMyListFromStorage
    (mkStore (Some fetched) (savedMyList st) (setItemAccepts st)).

End Library.

(* ================================================================== *)
(** * The page in use: start-up followed by a trace of events *)
(* ================================================================== *)

Module Session.

Import Content JS Modal.
Local Open Scope Q_scope.

(** The state after start-up and the events [es]. *)
Definition reached (data : option ContentData) (reachable : bool)
    (es : list Event) : App :=
  run es (setupModalSystem (loadedPage data reachable)).

(** The two closures of [setupModalSystem]. *)
Definition systemOverlayClick : Handler := mkHandler 0 SystemOverlayClick.
Definition systemKeydown : Handler := mkHandler 1 SystemKeydown.

(** A handler field is empty or holds a closure of kind [k] made after
    start-up. *)
Definition holds (k : HandlerKind) (f : option Handler) : Prop :=
  match f with
  | Some h => hkind h = k /\ (2 <= serial h)%nat
  | None => True
  end.

(** The listeners of [setupModalInteractions] on a target: none, or the
    closure the field holds. *)
Definition registered (f : option Handler) (l : list Handler) : Prop :=
  l = [] \/ exists h : Handler, f = Some h /\ l = [h].

(** The permanent listeners head the overlay's and the document's lists;
    behind them, and on the close button, is at most the closure of the
    matching field. *)
Definition wired (a : App) : Prop :=
  (2 <= nextSerial a)%nat
  /\ overlayPresent (dom a) = true
  /\ holds CloseClick (modalCloseHandler (fields a))
  /\ holds OverlayClick (modalOverlayClickHandler (fields a))
  /\ holds Keydown (modalKeydownHandler (fields a))
  /\ registered (modalCloseHandler (fields a)) (onCloseClick (listeners a))
  /\ (exists rest : list Handler,
        onOverlayClick (listeners a) = systemOverlayClick :: rest
        /\ registered (modalOverlayClickHandler (fields a)) rest)
  /\ (exists rest : list Handler,
        onKeydown (listeners a) = systemKeydown :: rest
        /\ registered (modalKeydownHandler (fields a)) rest).

(** What a key press does to the state, by the theorem below: Escape on a
    modal whose id is truthy is one [closeModal], anything else nothing. *)
Definition afterKey (key : Key) (now : Q) (a : App) : App :=
  match key with
  | Escape => if truthy (currentModal a) then closeModal now a else a
  | _ => a
  end.

(** The time an event carries. *)
Definition eventTime (e : Event) : Q :=
  match e with
  | Open _ t | Close t | Tick t | KeyPress _ t | ClickOverlay _ t
  | ClickCloseButton t | DismissNotification _ t => t
  end.

(** The times of a trace never go back, starting from [now]. *)
Fixpoint chronological (now : Q) (es : list Event) : bool :=
  match es with
  | [] => true
  | e :: rest =>
      Qle_bool now (eventTime e) && chronological (eventTime e) rest
  end.

(** The time of the last event of a trace. *)
Fixpoint lastTime (now : Q) (es : list Event) : Q :=
  match es with
  | [] => now
  | e :: rest => lastTime (eventTime e) rest
  end.

(** The content of the last population in a list of callbacks, in firing
    order. *)
Fixpoint lastPopulated (l : list TimerCallback) : option ContentItem :=
  match l with
  | [] => None
  | cb :: rest =>
      match lastPopulated rest, cb with
      | Some c, _ => Some c
      | None, Populate c => Some c
      | None, _ => None
      end
  end.

(** The content of the last population in a list of callbacks whose
    markup [createModalContent] builds: the one that is left in the modal
    body when the callbacks have run. *)
Fixpoint lastRendered (l : list TimerCallback) : option ContentItem :=
  match l with
  | [] => None
  | cb :: rest =>
      match lastRendered rest, cb with
      | Some c, _ => Some c
      | None, Populate c => if renders c then Some c else None
      | None, _ => None
      end
  end.

(** The timer queue is ordered by due time. *)
Fixpoint sortedQueue (q : list (Q * TimerCallback)) : Prop :=
  match q with
  | [] => True
  | e :: rest =>
      (forall e', In e' rest -> fst e <= fst e') /\ sortedQueue rest
  end.

(** At time [now] the modal is up to date: while [AppState.currentModal]
    holds an id, the modal shows as open for it, and the record found for
    the id is that of the last population still waiting or, when none is
    waiting and [createModalContent] builds its markup, that in the modal
    body. *)
Definition upToDate (now : Q) (a : App) : Prop :=
  sortedQueue (timers a)
  /\ (forall d c, In (d, Populate c) (timers a) -> d <= now + 100)
  /\ (forall cid, currentModal a = Some cid ->
        view a = openView cid
        /\ exists c,
             getContentById (store a) cid = Some c
             /\ match lastPopulated (map snd (timers a)) with
                | Some c' => c' = c
                | None => renders c = true -> modalBody (dom a) = Details c
                end).

(** The toast [openModal] shows for an id no content has; [n] is the
    serial of the toast element. *)
Definition notFoundToast (n : nat) : nat * (string * string) :=
  (n, ("Content not found"%string, "error"%string)).

(** Has the toast with serial [n], whose removal is due at [deadline],
    been taken away in the trace: by a timer tick at or after the deadline,
    or by a click on its [×] button? *)
Definition toastRemoved (n : nat) (deadline : Q) (es : list Event) : bool :=
  existsb
    (fun e => match e with
              | Tick t => Qle_bool deadline t
              | DismissNotification k _ => Nat.eqb k n
              | _ => false
              end) es.

(** From [b] to [b']: serials only grow, the modal content element stays,
    and a toast or a toast-removal timer of [b'] was there in [b] or carries
    a serial handed out since. *)
Definition tame (b b' : App) : Prop :=
  (nextSerial b <= nextSerial b')%nat
  /\ contentPresent (dom b') = contentPresent (dom b)
  /\ overlayPresent (dom b') = overlayPresent (dom b)
  /\ (forall e, In e (notifications (dom b')) ->
        In e (notifications (dom b))
        \/ (nextSerial b <= fst e < nextSerial b')%nat)
  /\ (forall d k, In (d, RemoveNotification k) (timers b') ->
        In (d, RemoveNotification k) (timers b)
        \/ (nextSerial b <= k < nextSerial b')%nat).

(** From [b] to [b'] the toasts with serial [n] and their removal timers
    are kept. *)
Definition keeps (n : nat) (b b' : App) : Prop :=
  (forall e, fst e = n -> In e (notifications (dom b)) ->
             In e (notifications (dom b')))
  /\ (forall d, In (d, RemoveNotification n) (timers b) ->
                In (d, RemoveNotification n) (timers b')).

(** From [b] to [b'] nothing happens to toasts: the same toasts, the same
    removal timers. *)
Definition quiet (b b' : App) : Prop :=
  (nextSerial b <= nextSerial b')%nat
  /\ contentPresent (dom b') = contentPresent (dom b)
  /\ overlayPresent (dom b') = overlayPresent (dom b)
  /\ notifications (dom b') = notifications (dom b)
  /\ (forall d k, In (d, RemoveNotification k) (timers b')
                  <-> In (d, RemoveNotification k) (timers b)).

(** No toast carries the serial [n]. *)
Definition noToast (n : nat) (b : App) : Prop :=
  forall e, In e (notifications (dom b)) -> fst e <> n.

(** Serials in use are below the next one. *)
Definition freshSerials (a : App) : Prop :=
  (forall e, In e (notifications (dom a)) -> (fst e < nextSerial a)%nat)
  /\ (forall d k, In (d, RemoveNotification k) (timers a) ->
                  (k < nextSerial a)%nat).

(** The toast with serial [n] is shown with its removal due at [due], or
    it is gone for good; a removal timer for it is due at [due]. *)
Definition toastState (n : nat) (due : Q) (shown : bool) (b : App) : Prop :=
  (n < nextSerial b)%nat
  /\ (forall d, In (d, RemoveNotification n) (timers b) -> d = due)
  /\ (shown = true ->
      In (due, RemoveNotification n) (timers b)
      /\ In (notFoundToast n) (notifications (dom b)))
  /\ (shown = false ->
      forall e, In e (notifications (dom b)) -> fst e <> n).

End Session.

(* ================================================================== *)
(** * The mobile menu *)
(* ================================================================== *)

Module Menu.

Local Open Scope string_scope.

(** [element.classList]: a set of class names, kept in insertion order. *)
Definition contains (c : string) (classes : list string) : bool :=
  existsb (String.eqb c) classes.

Definition classList_add (c : string) (classes : list string) : list string :=
  if contains c classes then classes else (classes ++ [c])%list.

Definition classList_remove (c : string) (classes : list string)
  : list string :=
  filter (fun x => negb (String.eqb c x)) classes.

(** [AppState.mobileMenuOpen], the class list of [.mobile-menu], the
    [aria-expanded] attribute of [.mobile-menu-toggle] and
    [document.body.style.overflow].  The two elements exist: the listeners
    that call [toggleMobileMenu] are registered only if they do.  The
    [overflow] style is written by [openModal] and [closeModal] as well;
    the events of this module are those of the menu alone. *)
Record Nav := mkNav {
  mobileMenuOpen : bool;
  menuClasses : list string;
  ariaExpanded : string;
  bodyOverflow : string
}.

Definition toggleMobileMenu (n : Nav) : Nav :=
  let opened := negb (mobileMenuOpen n) in
  if opened then
    mkNav opened
      (classList_add "translate-y-0"
         (classList_remove "-translate-y-full" (menuClasses n)))
      "true" "hidden"
  else
    mkNav opened
      (classList_add "-translate-y-full"
         (classList_remove "translate-y-0" (menuClasses n)))
      "false" "".

Definition closeMobileMenu (n : Nav) : Nav :=
  if mobileMenuOpen n then toggleMobileMenu n else n.

(** [AppConfig.breakpoints.tablet] *)
Definition tablet : Q := 1024.

(** The resize listener of [setupResponsiveHandlers]. *)
Definition onResize (innerWidth : Q) (n : Nav) : Nav :=
  if Qle_bool tablet innerWidth && mobileMenuOpen n then closeMobileMenu n
  else n.

(** [handleResize], which the debounced resize listener calls;
    [updateContentRowLayouts] only logs. *)
Definition handleResize (innerWidth : Q) (n : Nav) : Nav :=
  if Qle_bool tablet innerWidth && mobileMenuOpen n then closeMobileMenu n
  else n.

Inductive Event :=
| ToggleClick                    (* click on [.mobile-menu-toggle] *)
| LinkClick                      (* click on a link of the menu *)
| Resize (innerWidth : Q)        (* the immediate resize listener *)
| ResizeSettled (innerWidth : Q) (* the debounced one, 250 ms later *).

Definition step (n : Nav) (e : Event) : Nav :=
  match e with
  | ToggleClick => toggleMobileMenu n
  | LinkClick => closeMobileMenu n
  | Resize w => onResize w n
  | ResizeSettled w => handleResize w n
  end.

Definition run (es : list Event) (n : Nav) : Nav := fold_left step es n.

(** The markup agrees with [AppState.mobileMenuOpen]: the slide class, the
    [aria-expanded] attribute and the scroll lock of the page. *)
Definition agrees (n : Nav) : bool :=
  if mobileMenuOpen n then
    contains "translate-y-0" (menuClasses n)
    && negb (contains "-translate-y-full" (menuClasses n))
    && String.eqb (ariaExpanded n) "true"
    && String.eqb (bodyOverflow n) "hidden"
  else
    contains "-translate-y-full" (menuClasses n)
    && negb (contains "translate-y-0" (menuClasses n))
    && String.eqb (ariaExpanded n) "false"
    && String.eqb (bodyOverflow n) "".

End Menu.

(* ================================================================== *)
(** * debounce *)
(* ================================================================== *)

Module Debounce.

Section Debounced.

Context {A : Type}.

(** The closure [debounce(func, wait)] returns: its variable [timeout], the
    timers it has registered (id and arguments, ordered by due time), the
    next timer id, and the arguments [func] has been called with. *)
Record Debounced := mkDebounced {
  timeout : option nat;
  queue : list (Q * (nat * A));
  nextId : nat;
  executed : list A
}.

Definition create : Debounced := mkDebounced None [] 0 [].

(** [clearTimeout(timeout)]; an id that is undefined or no longer
    registered clears nothing. *)
Definition clearTimeout (id : option nat) (q : list (Q * (nat * A)))
  : list (Q * (nat * A)) :=
  match id with
  | Some i => filter (fun e => negb (Nat.eqb (fst (snd e)) i)) q
  | None => q
  end.

(** A call of the debounced function at [now]. *)
Definition executedFunction (wait now : Q) (args : A) (d : Debounced)
  : Debounced :=
  let q := clearTimeout (timeout d) (queue d) in
  mkDebounced (Some (nextId d))
    (JS.setTimeout (now + wait)%Q (nextId d, args) q)
    (S (nextId d)) (executed d).

(** The timer callback [later] of the call with [args]. *)
Definition later (args : A) (d : Debounced) : Debounced :=
  mkDebounced (timeout d) (clearTimeout (timeout d) (queue d)) (nextId d)
    (executed d ++ [args])%list.

(** The timers due at [now] fire one after the other, earliest first; a
    timer a callback has cleared does not fire. *)
Fixpoint fire (fuel : nat) (now : Q) (d : Debounced) : Debounced :=
  match fuel with
  | O => d
  | S k =>
      match queue d with
      | (due, (_, args)) :: rest =>
          if Qle_bool due now then
            fire k now
              (later args
                 (mkDebounced (timeout d) rest (nextId d) (executed d)))
          else d
      | [] => d
      end
  end.

Definition runTimers (now : Q) (d : Debounced) : Debounced :=
  fire (List.length (queue d)) now d.

Inductive Event :=
| Call (now : Q) (args : A)
| Tick (now : Q).

Definition step (wait : Q) (d : Debounced) (e : Event) : Debounced :=
  match e with
  | Call now args => executedFunction wait now args d
  | Tick now => runTimers now d
  end.

Definition run (wait : Q) (es : list Event) (d : Debounced) : Debounced :=
  fold_left (step wait) es d.

(** A burst of calls. *)
Definition calls (burst : list (Q * A)) : list Event :=
  map (fun c => Call (fst c) (snd c)) burst.

(** The last call of the burst [c :: more]. *)
Fixpoint lastCall (c : Q * A) (more : list (Q * A)) : Q * A :=
  match more with
  | [] => c
  | c' :: rest => lastCall c' rest
  end.

(** The timers that are registered: due time and arguments. *)
Definition pending (d : Debounced) : list (Q * A) :=
  map (fun e => (fst e, snd (snd e))) (queue d).

(** At most one timer is registered, and [timeout] holds its id. *)
Definition single (d : Debounced) : Prop :=
  match queue d with
  | [] => True
  | [(_, (id, _))] => timeout d = Some id
  | _ => False
  end.

End Debounced.

Arguments Debounced A : clear implicits.
Arguments Event A : clear implicits.

End Debounce.

(* ================================================================== *)
(** * Loading and validating the content data *)
(* ================================================================== *)

Module Loader.

Import Content.
Local Open Scope string_scope.

(** A number as [JSON.parse] yields it: finite, or an infinity for a
    literal beyond the range of a double. *)
Inductive number :=
| Num (q : Q)
| PosInf
| NegInf.

(** A value [response.json()] can resolve to.  An object lists its own
    properties. *)
#[warnings="-register-all"] Inductive JSON :=
| JNull
| JBool (b : bool)
| JNumber (n : number)
| JString (s : string)
| JArray (elements : list JSON)
| JObject (properties : list (string * JSON)).

Fixpoint lookup (key : string) (properties : list (string * JSON))
  : option JSON :=
  match properties with
  | [] => None
  | (k, v) :: rest => if String.eqb k key then Some v else lookup key rest
  end.

Definition hasKey (key : string) (properties : list (string * JSON)) : bool :=
  match lookup key properties with
  | Some _ => true
  | None => false
  end.

(** [v.key] for a value that is not null and one of the property names the
    code reads ([hero], [id], [title], [categories], [items], [poster],
    [genres], [rating], [year], [type]): no prototype has a property of
    these names, so anything but an object gives [undefined]. *)
Definition member (key : string) (v : JSON) : option JSON :=
  match v with
  | JObject properties => lookup key properties
  | _ => None
  end.

(** A value used as a condition; [None] is [undefined]. *)
Definition truthy (v : option JSON) : bool :=
  match v with
  | None | Some JNull => false
  | Some (JBool b) => b
  | Some (JNumber (Num q)) => negb (Qeq_bool q 0)
  | Some (JNumber _) => true
  | Some (JString s) => negb (String.eqb s "")
  | Some (JArray _) | Some (JObject _) => true
  end.

(** [typeof v === 'object'] *)
Definition typeofObject (v : JSON) : bool :=
  match v with
  | JNull | JArray _ | JObject _ => true
  | _ => false
  end.

(** [Array.isArray(v)] *)
Definition isArray (v : option JSON) : bool :=
  match v with
  | Some (JArray _) => true
  | _ => false
  end.

(** [typeof v === 'number'], [v < k] and [v > k] for a finite [k]. *)
Definition typeofNumber (v : option JSON) : bool :=
  match v with
  | Some (JNumber _) => true
  | _ => false
  end.

Definition numberLt (n : number) (k : Q) : bool :=
  match n with
  | Num q => JS.ltb q k
  | PosInf => false
  | NegInf => true
  end.

Definition numberGt (n : number) (k : Q) : bool :=
  match n with
  | Num q => JS.ltb k q
  | PosInf => true
  | NegInf => false
  end.

(** Can the value be converted to a string, as a template literal does?
    An array joins the strings of its elements; an object with an own
    property [toString], which is not a function, has no primitive value
    and the conversion throws a [TypeError]. *)
Fixpoint canStringify (v : JSON) : bool :=
  match v with
  | JArray elements => forallb canStringify elements
  | JObject properties => negb (hasKey "toString" properties)
  | _ => true
  end.

Definition canStringifyOpt (v : option JSON) : bool :=
  match v with
  | Some x => canStringify x
  | None => true
  end.

Definition requiredFields : list string :=
  ["id"; "title"; "description"; "poster"; "year"; "rating"; "type";
   "category"].

(** [item.hasOwnProperty(field) && item[field] !== null] for an item that
    is an object. *)
Definition present (properties : list (string * JSON)) (field : string)
  : bool :=
  match lookup field properties with
  | None | Some JNull => false
  | Some _ => true
  end.

(** [validateContentItem].  The call [item.hasOwnProperty(...)] throws for
    null and for an object whose own property of that name hides the
    method; a string, number, boolean or array has none of the required
    fields. *)
Definition validateContentItem (currentYear : Q) (item : JSON)
  : outcome bool :=
  match item with
  | JNull => Thrown
  | JObject properties =>
      if hasKey "hasOwnProperty" properties then Thrown
      else if negb (forallb (present properties) requiredFields)
      then Returned false
      else
        match lookup "rating" properties, lookup "year" properties with
        | Some (JNumber rating), Some (JNumber year) =>
            if numberLt rating 0 || numberGt rating 10 then Returned false
            else if numberLt year 1900 || numberGt year (currentYear + 5)
            then Returned false
            else
              match lookup "type" properties with
              | Some (JString type) =>
                  Returned
                    (String.eqb type "movie" || String.eqb type "tv-show")
              | _ => Returned false
              end
        | _, _ => Returned false
        end
  | _ => Returned false
  end.

(** The loop over the items of a category; the message logged for an
    invalid item interpolates [category.id]. *)
Fixpoint validateItems (currentYear : Q) (categoryId : option JSON)
    (items : list JSON) : outcome bool :=
  match items with
  | [] => Returned true
  | item :: rest =>
      match validateContentItem currentYear item with
      | Thrown => Thrown
      | Returned false =>
          if canStringifyOpt categoryId then Returned false else Thrown
      | Returned true => validateItems currentYear categoryId rest
      end
  end.

(** The loop over the categories; [category.id] of null throws, and so
    does the message for an invalid category when its id has no string. *)
Fixpoint validateCategories (currentYear : Q) (categories : list JSON)
  : outcome bool :=
  match categories with
  | [] => Returned true
  | JNull :: _ => Thrown
  | category :: rest =>
      let id := member "id" category in
      if negb (truthy id) || negb (truthy (member "title" category))
         || negb (isArray (member "items" category))
      then if canStringifyOpt id then Returned false else Thrown
      else
        match member "items" category with
        | Some (JArray items) =>
            match validateItems currentYear id items with
            | Returned true => validateCategories currentYear rest
            | other => other
            end
        | _ => Returned false
        end
  end.

(** [validateContentData] *)
Definition validateContentData (currentYear : Q) (data : JSON)
  : outcome bool :=
  if negb (truthy (Some data)) || negb (typeofObject data)
  then Returned false
  else
    let hero := member "hero" data in
    if negb (truthy hero)
       || negb (truthy (match hero with
                        | Some h => member "id" h
                        | None => None
                        end))
       || negb (truthy (match hero with
                        | Some h => member "title" h
                        | None => None
                        end))
    then Returned false
    else
      match member "categories" data with
      | Some (JArray categories) => validateCategories currentYear categories
      | _ => Returned false
      end.

(** [getPlaceholderContent] *)
Definition emptyCategory (id title : string) : JSON :=
  JObject [("id", JString id); ("title", JString title); ("items", JArray [])].

Definition getPlaceholderContent : JSON :=
  JObject
    [("hero",
      JObject
        [("id", JString "hero-featured");
         ("title", JString "Featured Content");
         ("description",
          JString
            "Discover amazing stories and unforgettable characters in this featured content.");
         ("backdrop",
          JString
            "https://via.placeholder.com/1920x1080/141414/ffffff?text=Featured+Content");
         ("year", JNumber (Num 2024));
         ("rating", JNumber (Num (85 # 10)));
         ("duration", JString "2h 15m");
         ("genres",
          JArray [JString "Action"; JString "Drama"; JString "Thriller"])]);
     ("categories",
      JArray
        [emptyCategory "trending" "Trending Now";
         emptyCategory "popular-movies" "Popular Movies";
         emptyCategory "tv-shows" "TV Shows";
         emptyCategory "my-list" "My List"])].

(** What [fetch('./data/content.json')] and [response.json()] come to. *)
Inductive Response :=
| NetworkFailure          (* [fetch] rejects *)
| HttpError               (* [response.ok] is false *)
| MalformedBody           (* [response.json()] rejects *)
| Body (data : JSON).

(** [AppState.contentData], [AppState.isLoading] and the toasts
    [showNotification] has appended (message and type). *)
Record State := mkState {
  contentData : option JSON;
  isLoading : bool;
  toasts : list (string * string)
}.

(** The state [loadContentData] leaves, and whether its promise is
    rejected. *)
Record Loaded := mkLoaded {
  final : State;
  rejected : bool
}.

Section Loading.

(** The year [new Date().getFullYear()] gives, and whether
    [loadHeroContent], which writes the hero section of the page and reads
    [AppState.contentData] only, returns rather than throws: in the [try]
    block, for the data of the response, and in
    [handleContentLoadError], for the placeholder. *)
Variable currentYear : Q.
Variable heroLoads : JSON -> bool.
Variable placeholderHeroLoads : bool.

(** [handleContentLoadError], followed by the [finally] block. *)
Definition handleContentLoadError (st : State) : Loaded :=
  let st1 := mkState (Some getPlaceholderContent) (isLoading st) (toasts st) in
  if placeholderHeroLoads then
    mkLoaded
      (mkState (contentData st1) false
         (toasts st1
          ++ [("Unable to load content. Using offline data.", "warning")])%list)
      false
  else mkLoaded (mkState (contentData st1) false (toasts st1)) true.

(** [loadContentData] *)
Definition loadContentData (response : Response) (st : State) : Loaded :=
  let st1 := mkState (contentData st) true (toasts st) in
  match response with
  | Body data =>
      match validateContentData currentYear data with
      | Returned true =>
          let st2 := mkState (Some data) (isLoading st1) (toasts st1) in
          if heroLoads data
          then mkLoaded (mkState (contentData st2) false (toasts st2)) false
          else handleContentLoadError st2
      | _ => handleContentLoadError st1
      end
  | _ => handleContentLoadError st1
  end.

(** Does the call keep the data of the response? *)
Definition keepsResponse (response : Response) : bool :=
  match response with
  | Body data =>
      match validateContentData currentYear data with
      | Returned true => heroLoads data
      | _ => false
      end
  | _ => false
  end.

End Loading.

(** A content item that passed [validateContentItem]. *)
Definition validItem (currentYear : Q) (item : JSON) : Prop :=
  exists properties rating year type,
    item = JObject properties
    /\ (forall field, In field requiredFields ->
          exists v, lookup field properties = Some v /\ v <> JNull)
    /\ lookup "rating" properties = Some (JNumber (Num rating))
    /\ (0 <= rating <= 10)%Q
    /\ lookup "year" properties = Some (JNumber (Num year))
    /\ (1900 <= year <= currentYear + 5)%Q
    /\ lookup "type" properties = Some (JString type)
    /\ (type = "movie" \/ type = "tv-show").

(** A category that passed the checks of [validateContentData]. *)
Definition validCategory (currentYear : Q) (category : JSON) : Prop :=
  truthy (member "id" category) = true
  /\ truthy (member "title" category) = true
  /\ exists items,
       member "items" category = Some (JArray items)
       /\ Forall (validItem currentYear) items.

(** A film as the content file describes one, and content data with one
    row holding it. *)
Definition sampleItem : JSON :=
  JObject
    [("id", JString "m1"); ("title", JString "Movie One");
     ("description", JString "A film."); ("poster", JString "m1.jpg");
     ("year", JNumber (Num 2020)); ("rating", JNumber (Num (72 # 10)));
     ("type", JString "movie"); ("category", JString "trending");
     ("genres", JArray [JString "Drama"])].

Definition sampleData : JSON :=
  JObject
    [("hero",
      JObject [("id", JString "hero-1"); ("title", JString "Featured")]);
     ("categories",
      JArray
        [JObject
           [("id", JString "trending"); ("title", JString "Trending Now");
            ("items", JArray [sampleItem])];
         emptyCategory "my-list" "My List"])].

(** The same data with a null entry after the film. *)
Definition sampleDataWithNull : JSON :=
  JObject
    [("hero",
      JObject [("id", JString "hero-1"); ("title", JString "Featured")]);
     ("categories",
      JArray
        [JObject
           [("id", JString "trending"); ("title", JString "Trending Now");
            ("items", JArray [sampleItem; JNull])]])].

End Loader.

(* ================================================================== *)
(** * Building the content rows *)
(* ================================================================== *)

Module Rows.

Import Content Loader.
Local Open Scope string_scope.

(** The markup [createContentCards] returns: the text 'No content
    available', or the cards of the items. *)
Inductive Markup :=
| NoContent
| Cards (items : list JSON).

(** Does the template of a card evaluate?  It reads [item.id], which throws
    for null, interpolates the id, title, poster, year and rating, and
    calls [item.genres.join(...)], which throws unless [genres] is an
    array. *)
Definition cardRenders (item : JSON) : bool :=
  match item with
  | JNull => false
  | _ =>
      canStringifyOpt (member "id" item)
      && canStringifyOpt (member "title" item)
      && canStringifyOpt (member "poster" item)
      && match member "genres" item with
         | Some (JArray genres) => forallb canStringify genres
         | _ => false
         end
      && canStringifyOpt (member "year" item)
      && canStringifyOpt (member "rating" item)
  end.

(** [createContentCards(items)] for an array. *)
Definition createContentCards (items : list JSON) : outcome Markup :=
  match items with
  | [] => Returned NoContent
  | _ => if forallb cardRenders items then Returned (Cards items) else Thrown
  end.

(** [createContentCards(category.items)] for whatever [category.items]
    is: a falsy value and an object whose [length] is 0 give the text, and
    anything else that is not an array has no method [map]. *)
Definition cardsOf (items : option JSON) : outcome Markup :=
  match items with
  | Some (JArray elements) => createContentCards elements
  | Some (JObject properties) =>
      match lookup "length" properties with
      | Some (JNumber (Num q)) =>
          if Qeq_bool q 0 then Returned NoContent else Thrown
      | _ => Thrown
      end
  | other => if truthy other then Thrown else Returned NoContent
  end.

Section Page.

(** Whether [setupRowScrolling] returns for the row built for a
    category. *)
Variable rowSetupReturns : JSON -> bool.

(** [createContentRow(category)]: does it return a row? *)
Definition createContentRow (category : JSON) : outcome Markup :=
  match category with
  | JNull => Thrown
  | _ =>
      if canStringifyOpt (member "id" category)
         && canStringifyOpt (member "title" category)
      then
        match cardsOf (member "items" category) with
        | Returned cards =>
            if rowSetupReturns category then Returned cards else Thrown
        | Thrown => Thrown
        end
      else Thrown
  end.

(** The [forEach] of [initializeContentRows]: the rows appended to the
    container. *)
Fixpoint appendRows (categories : list JSON) (rows : list Markup)
  : outcome (list Markup) :=
  match categories with
  | [] => Returned rows
  | category :: rest =>
      match createContentRow category with
      | Returned row => appendRows rest (rows ++ [row])%list
      | Thrown => Thrown
      end
  end.

(** [initializeContentRows]; [None] is the container left as it was. *)
Definition initializeContentRows (containerPresent : bool)
    (contentData : option JSON) : outcome (option (list Markup)) :=
  if negb containerPresent || negb (truthy contentData) then Returned None
  else
    match contentData with
    | Some data =>
        match member "categories" data with
        | Some (JArray categories) =>
            match appendRows categories [] with
            | Returned rows => Returned (Some rows)
            | Thrown => Thrown
            end
        | _ => Thrown
        end
    | None => Returned None
    end.

End Page.

(** A film that has every required field and no genres, in the only
    row. *)
Definition itemWithoutGenres : JSON :=
  JObject
    [("id", JString "m2"); ("title", JString "Movie Two");
     ("description", JString "Another film."); ("poster", JString "m2.jpg");
     ("year", JNumber (Num 2021)); ("rating", JNumber (Num 6));
     ("type", JString "movie"); ("category", JString "trending")].

Definition dataWithoutGenres : JSON :=
  JObject
    [("hero",
      JObject [("id", JString "hero-1"); ("title", JString "Featured")]);
     ("categories",
      JArray
        [JObject
           [("id", JString "trending"); ("title", JString "Trending Now");
            ("items", JArray [sampleItem; itemWithoutGenres])]])].

End Rows.

(* ================================================================== *)
(** * Properties *)
(* ================================================================== *)

(** ** My List *)

Section MyListFacts.

Import Content.
Local Open Scope string_scope.

Lemma find_hasId (l : list ContentItem) (cid : string) (c : ContentItem) :
  find (hasId cid) l = Some c -> id c = cid.
Proof.
  intro H. apply find_some in H. destruct H as [_ H].
  unfold hasId in H. now apply String.eqb_eq in H.
Qed.

Lemma searchCategories_id (cs : list Category) (cid : string)
    (c : ContentItem) :
  searchCategories cs cid = Some c -> id c = cid.
Proof.
  induction cs as [|k cs IH]; simpl; intro H.
  - discriminate.
  - destruct (find (hasId cid) (items k)) eqn:E.
    + inversion H; subst. eapply find_hasId; eauto.
    + auto.
Qed.

(** What [getContentById] returns carries the id that was asked for. *)
Lemma getContentById_id (st : Store) (cid : string) (c : ContentItem) :
  getContentById st cid = Some c -> id c = cid.
Proof.
  unfold getContentById.
  destruct (contentData st) as [d|]; [|discriminate].
  destruct (hero d) as [h|].
  - destruct (hasId cid h) eqn:E.
    + intro H; inversion H; subst. unfold hasId in E.
      now apply String.eqb_eq in E.
    + apply searchCategories_id.
  - apply searchCategories_id.
Qed.

(** Writing the items of My List and reading them back. *)
Lemma find_setMyListItems (cs : list Category) (ml : Category)
    (new_items : list ContentItem) :
  find isMyList cs = Some ml ->
  find isMyList (setMyListItems cs new_items)
  = Some (mkCategory (cat_id ml) (cat_title ml) new_items).
Proof.
  induction cs as [|k cs IH]; simpl; [discriminate|].
  destruct (isMyList k) eqn:E.
  - intro H; inversion H; subst. simpl.
    unfold isMyList in *. simpl. now rewrite E.
  - intro H. simpl. rewrite E. auto.
Qed.

(** Writing back the items My List already has changes nothing. *)
Lemma setMyListItems_same (cs : list Category) (ml : Category) :
  find isMyList cs = Some ml -> setMyListItems cs (items ml) = cs.
Proof.
  induction cs as [|k cs IH]; simpl; [discriminate|].
  destruct (isMyList k) eqn:E.
  - intro H; inversion H; subst. now destruct ml.
  - intro H. now rewrite IH.
Qed.

(** The second write wins. *)
Lemma setMyListItems_twice (cs : list Category) (l1 l2 : list ContentItem) :
  setMyListItems (setMyListItems cs l1) l2 = setMyListItems cs l2.
Proof.
  induction cs as [|k cs IH]; simpl; [reflexivity|].
  destruct (isMyList k) eqn:E; simpl.
  - unfold isMyList in *. simpl. now rewrite E.
  - rewrite E. now rewrite IH.
Qed.

(** An item of some category is found by the search (possibly as an
    earlier record with the same id). *)
Lemma searchCategories_found (cs : list Category) (ml : Category)
    (cid : string) :
  find isMyList cs = Some ml ->
  existsb (hasId cid) (items ml) = true ->
  searchCategories cs cid <> None.
Proof.
  induction cs as [|k cs IH]; simpl; [discriminate|].
  intros Hf Hex.
  destruct (find (hasId cid) (items k)) eqn:E; [discriminate|].
  destruct (isMyList k).
  - inversion Hf; subst.
    apply existsb_exists in Hex. destruct Hex as [x [Hin Hx]].
    exfalso. eapply find_none in E; eauto. congruence.
  - auto.
Qed.

Lemma filter_not_hasId_none (l : list ContentItem) (cid : string) :
  existsb (hasId cid) l = false ->
  filter (fun item => negb (hasId cid item)) l = l.
Proof.
  induction l as [|x l IH]; simpl; [reflexivity|].
  intro H. apply orb_false_iff in H. destruct H as [Hx Hl].
  rewrite Hx. simpl. now rewrite IH.
Qed.

Lemma filter_not_hasId_snoc (l : list ContentItem) (cid : string)
    (c : ContentItem) :
  existsb (hasId cid) l = false -> id c = cid ->
  filter (fun item => negb (hasId cid item)) (l ++ [c]) = l.
Proof.
  intros Hl Hc. rewrite filter_app, filter_not_hasId_none by assumption.
  simpl. unfold hasId. rewrite Hc, String.eqb_refl. simpl.
  apply app_nil_r.
Qed.

Lemma existsb_hasId_snoc (l : list ContentItem) (cid : string)
    (c : ContentItem) :
  id c = cid -> existsb (hasId cid) (l ++ [c]) = true.
Proof.
  intro Hc. rewrite existsb_app. simpl. unfold hasId at 2.
  rewrite Hc, String.eqb_refl. now rewrite orb_true_r.
Qed.

Lemma saveMyListToStorage_contentData (st : Store) :
  contentData (saveMyListToStorage st) = contentData st.
Proof.
  unfold saveMyListToStorage. destruct (contentData st) as [d|] eqn:E; auto.
  destruct (findMyList d) as [ml|]; auto.
  now destruct (setItemAccepts st (items ml)).
Qed.

Lemma saveMyListToStorage_accepts (st : Store) :
  setItemAccepts (saveMyListToStorage st) = setItemAccepts st.
Proof.
  unfold saveMyListToStorage. destruct (contentData st) as [d|]; auto.
  destruct (findMyList d) as [ml|]; auto.
  now destruct (setItemAccepts st (items ml)).
Qed.

Lemma myListItems_saved (st : Store) :
  myListItems (saveMyListToStorage st) = myListItems st.
Proof.
  unfold myListItems. now rewrite saveMyListToStorage_contentData.
Qed.

Lemma myListItems_found (st : Store) (d : ContentData) (ml : Category) :
  contentData st = Some d -> findMyList d = Some ml ->
  myListItems st = items ml.
Proof.
  intros Hd Hml. unfold myListItems. now rewrite Hd, Hml.
Qed.

Lemma myListItems_written (st : Store) (d : ContentData) (ml : Category)
    (l : list ContentItem) :
  findMyList d = Some ml -> myListItems (written st d l) = l.
Proof.
  intro H. unfold myListItems, written, findMyList. simpl.
  now rewrite (find_setMyListItems _ _ l H).
Qed.

(** Writing the items over a store that has just been written. *)
Lemma written_twice (s : Store) (d : ContentData) (l l' : list ContentItem) :
  written s (mkData (hero d) (setMyListItems (categories d) l)) l'
  = written s d l'.
Proof.
  unfold written. cbn [hero categories]. now rewrite setMyListItems_twice.
Qed.

(** An add of an id that My List holds returns [false] and changes
    nothing. *)
Lemma addToMyList_listed (s : Store) (d : ContentData) (ml : Category)
    (cid : string) :
  contentData s = Some d -> findMyList d = Some ml ->
  existsb (hasId cid) (items ml) = true ->
  addToMyList s cid = Returned (false, s).
Proof.
  intros Hd Hml Hex. unfold addToMyList.
  destruct (getContentById s cid); [|reflexivity].
  now rewrite Hd, Hml, Hex.
Qed.

End MyListFacts.

Section MyListRoundTrip.

Import Content.
Local Open Scope list_scope.

Variable st : Store.
Variable d : ContentData.
Hypothesis loaded : contentData st = Some d.

Lemma written_same (ml : Category) :
  findMyList d = Some ml -> written st d (items ml) = st.
Proof.
  intro Hml. unfold written. unfold findMyList in Hml.
  rewrite (setMyListItems_same _ _ Hml).
  destruct st as [cd sv acc]; simpl in *. subst cd. now destruct d.
Qed.

(** Removing an id that My List does not hold returns [false] and leaves
    the whole store as it was. *)
Lemma removeFromMyList_absent (other : string) :
  existsb (hasId other) (myListItems st) = false ->
  removeFromMyList st other = Returned (false, st).
Proof.
  unfold myListItems, removeFromMyList. rewrite loaded.
  destruct (findMyList d) as [ml|] eqn:Hml; [|reflexivity].
  intro Habs. cbv zeta.
  rewrite (filter_not_hasId_none _ _ Habs), Nat.ltb_irrefl.
  now rewrite (written_same ml Hml).
Qed.

Variable ml : Category.
Variable cid : string.
Variable c : ContentItem.
Hypothesis hasMyList : findMyList d = Some ml.
Hypothesis resolves : getContentById st cid = Some c.
Hypothesis notListed : existsb (hasId cid) (items ml) = false.

Lemma addToMyList_first :
  addToMyList st cid = Returned (true, afterAdd st d ml c).
Proof.
  unfold addToMyList. now rewrite resolves, loaded, hasMyList, notListed.
Qed.

Lemma afterAdd_contentData :
  contentData (afterAdd st d ml c)
  = Some (mkData (hero d)
            (setMyListItems (categories d) (items ml ++ [c]))).
Proof. unfold afterAdd. now rewrite saveMyListToStorage_contentData. Qed.

Lemma afterAdd_myList :
  findMyList (mkData (hero d)
                (setMyListItems (categories d) (items ml ++ [c])))
  = Some (mkCategory (cat_id ml) (cat_title ml) (items ml ++ [c])).
Proof.
  unfold findMyList; simpl. unfold findMyList in hasMyList.
  now rewrite (find_setMyListItems _ _ _ hasMyList).
Qed.

Lemma addToMyList_again :
  addToMyList (afterAdd st d ml c) cid
  = Returned (false, afterAdd st d ml c).
Proof.
  pose proof (getContentById_id _ _ _ resolves) as Hid.
  apply (addToMyList_listed _ _ _ _ afterAdd_contentData afterAdd_myList).
  cbn [items]. now apply existsb_hasId_snoc.
Qed.

Lemma removeFromMyList_added :
  removeFromMyList (afterAdd st d ml c) cid
  = Returned (true, afterRemove st d ml c).
Proof.
  pose proof (getContentById_id _ _ _ resolves) as Hid.
  unfold removeFromMyList. rewrite afterAdd_contentData, afterAdd_myList.
  cbv zeta. cbn [items].
  rewrite (filter_not_hasId_snoc _ _ _ notListed Hid).
  rewrite written_twice.
  rewrite length_app. simpl.
  replace (List.length (items ml) <? List.length (items ml) + 1)%nat
    with true by (symmetry; apply Nat.ltb_lt; lia).
  reflexivity.
Qed.

Lemma afterRemove_contentData :
  contentData (afterRemove st d ml c) = contentData st.
Proof.
  unfold afterRemove. rewrite saveMyListToStorage_contentData.
  unfold written. cbn [contentData]. unfold findMyList in hasMyList.
  rewrite (setMyListItems_same _ _ hasMyList), loaded. now destruct d.
Qed.

End MyListRoundTrip.

(** C10. For a resolvable id that My List does not hold, [addToMyList]
    returns [true] and appends exactly the resolved item; the same add again
    returns [false] and changes nothing; [removeFromMyList] then returns
    [true] and My List and the whole content data are back to what they
    were before the add; and removing an id that is not in the list
    returns [false] and changes nothing. *)
Theorem myList_add_remove_round_trip
    (st : Content.Store) (d : Content.ContentData) (ml : Content.Category)
    (cid : string) (c : Content.ContentItem) :
  Content.contentData st = Some d ->
  Content.findMyList d = Some ml ->
  Content.getContentById st cid = Some c ->
  existsb (Content.hasId cid) (Content.items ml) = false ->
  exists st1 st2 : Content.Store,
    Content.addToMyList st cid = Content.Returned (true, st1)
    /\ Content.myListItems st1 = Content.myListItems st ++ [c]
    /\ Content.addToMyList st1 cid = Content.Returned (false, st1)
    /\ Content.removeFromMyList st1 cid = Content.Returned (true, st2)
    /\ Content.myListItems st2 = Content.myListItems st
    /\ Content.contentData st2 = Content.contentData st
    /\ forall other : string,
         existsb (Content.hasId other) (Content.myListItems st) = false ->
         Content.removeFromMyList st other = Content.Returned (false, st).
Proof.
  intros Hd Hml Hres Hnot.
  exists (Content.afterAdd st d ml c), (Content.afterRemove st d ml c).
  assert (Hitems : Content.myListItems st = Content.items ml)
    by now apply (myListItems_found st d).
  repeat split.
  - now apply addToMyList_first.
  - rewrite Hitems. unfold Content.afterAdd. rewrite myListItems_saved.
    now apply (myListItems_written st d ml).
  - eapply addToMyList_again; eauto.
  - eapply removeFromMyList_added; eauto.
  - rewrite Hitems. unfold Content.afterRemove. rewrite myListItems_saved.
    now apply (myListItems_written _ d ml).
  - now apply afterRemove_contentData.
  - intros other Habs. eapply removeFromMyList_absent; eauto.
Qed.

(** ** Numbers *)

Section NumberFacts.

Import JS.
Local Open Scope Q_scope.

Lemma ltb_lt (a b : Q) : ltb a b = true <-> a < b.
Proof.
  unfold ltb. rewrite negb_true_iff. split.
  - intro H. apply Qnot_le_lt. intro Hle.
    apply Qle_bool_iff in Hle. congruence.
  - intro H. destruct (Qle_bool b a) eqn:E; [|reflexivity].
    apply Qle_bool_iff in E. exfalso. now apply (Qlt_not_le a b).
Qed.

Lemma ltb_ge (a b : Q) : ltb a b = false <-> b <= a.
Proof.
  unfold ltb. rewrite negb_false_iff. apply Qle_bool_iff.
Qed.

Lemma Math_min_le (a b : Q) : a <= b -> Math_min a b = a.
Proof.
  intro H. unfold Math_min. apply Qle_bool_iff in H. now rewrite H.
Qed.

Lemma Math_min_ge (a b : Q) : b <= a -> Math_min a b == b.
Proof.
  intro H. unfold Math_min. destruct (Qle_bool a b) eqn:E.
  - apply Qle_bool_iff in E. now apply Qle_antisym.
  - reflexivity.
Qed.

Lemma Math_min_upper (a b : Q) : Math_min a b <= a.
Proof.
  unfold Math_min. destruct (Qle_bool a b) eqn:E.
  - apply Qle_refl.
  - apply Qlt_le_weak. apply ltb_lt. unfold ltb. now rewrite E.
Qed.

Lemma Math_min_upper_r (a b : Q) : Math_min a b <= b.
Proof.
  unfold Math_min. destruct (Qle_bool a b) eqn:E.
  - now apply Qle_bool_iff.
  - apply Qle_refl.
Qed.

Lemma Math_max_lower (a b : Q) : a <= Math_max a b.
Proof.
  unfold Math_max. destruct (Qle_bool a b) eqn:E.
  - now apply Qle_bool_iff.
  - apply Qle_refl.
Qed.

Lemma Math_max_lower_r (a b : Q) : b <= Math_max a b.
Proof.
  unfold Math_max. destruct (Qle_bool a b) eqn:E.
  - apply Qle_refl.
  - apply Qlt_le_weak. apply ltb_lt. unfold ltb. now rewrite E.
Qed.

Lemma Math_max_upper (a b c : Q) : a <= c -> b <= c -> Math_max a b <= c.
Proof.
  intros Ha Hb. unfold Math_max. now destruct (Qle_bool a b).
Qed.

Lemma Math_min_lower (a b c : Q) : c <= a -> c <= b -> c <= Math_min a b.
Proof.
  intros Ha Hb. unfold Math_min. now destruct (Qle_bool a b).
Qed.


Lemma Qle_bool_false (a b : Q) : Qle_bool a b = false -> b < a.
Proof.
  intro H. apply ltb_lt. unfold ltb. now rewrite H.
Qed.

End NumberFacts.

(** ** Double arithmetic *)

Section DoubleFacts.

Import JS.
Local Open Scope Q_scope.

Lemma inject_Z_pow_pos (e : Z) : (0 <= e)%Z -> 0 < inject_Z (2 ^ e).
Proof.
  intro H. change 0 with (inject_Z 0). rewrite <- Zlt_Qlt.
  apply Z.pow_pos_nonneg; lia.
Qed.

(** A power of two with an exponent that is not positive is the inverse of
    a whole power of two. *)
Lemma pow2_nonpos (e : Z) :
  (e <= 0)%Z -> pow2 e == / inject_Z (2 ^ (- e)).
Proof.
  intro H. unfold pow2. destruct (0 <=? e)%Z eqn:E; [|reflexivity].
  apply Z.leb_le in E. assert (e = 0%Z) by lia. subst e. reflexivity.
Qed.

(** Rounding to the nearest integer does not cross an integer. *)
Lemma roundHalfEven_between (x : Q) (A B : Z) :
  inject_Z A <= x -> x <= inject_Z B ->
  (A <= roundHalfEven x <= B)%Z.
Proof.
  intros HA HB.
  assert (FA : (A <= Qfloor x)%Z).
  { rewrite <- (Qfloor_Z A). now apply Qfloor_resp_le. }
  assert (FB : (Qfloor x <= B)%Z).
  { rewrite <- (Qfloor_Z B). now apply Qfloor_resp_le. }
  pose proof (Qfloor_le x) as Fx.
  assert (Up : 0 < x - inject_Z (Qfloor x) -> (Qfloor x + 1 <= B)%Z).
  { intro Hpos.
    assert (K : (Qfloor x < B)%Z).
    { rewrite Zlt_Qlt. lra. }
    lia. }
  unfold roundHalfEven.
  destruct (ltb (x - inject_Z (Qfloor x)) (1 # 2)) eqn:E1; [lia|].
  apply ltb_ge in E1.
  assert (Hpos : 0 < x - inject_Z (Qfloor x)) by lra.
  specialize (Up Hpos).
  destruct (ltb (1 # 2) (x - inject_Z (Qfloor x))); [lia|].
  destruct (Z.even (Qfloor x)); lia.
Qed.

(** The binary exponent of a positive number below 2^53. *)
Lemma ilog2_small (q : Q) (K : Z) :
  0 < q -> q <= inject_Z K -> (K < 2 ^ 53)%Z -> (ilog2 q <= 52)%Z.
Proof.
  intros Hq HK Hlt. unfold ilog2.
  set (e0 := (Z.log2 (Qnum q) - Z.log2 (Z.pos (Qden q)))%Z).
  destruct (Qle_bool (pow2 e0) q) eqn:E.
  - apply Qle_bool_iff in E.
    destruct (Z_le_gt_dec e0 52) as [H|H]; [exact H|exfalso].
    assert (P : inject_Z (2 ^ 53) <= pow2 e0).
    { unfold pow2. assert (L : (0 <=? e0)%Z = true) by (apply Z.leb_le; lia).
      rewrite L. rewrite <- Zle_Qle. apply Z.pow_le_mono_r; lia. }
    assert (C : inject_Z K < inject_Z (2 ^ 53)) by now rewrite <- Zlt_Qlt.
    lra.
  - destruct q as [n d]. unfold e0. cbn [Qnum Qden].
    assert (Hn : (0 < n)%Z).
    { unfold Qlt in Hq. simpl in Hq. lia. }
    assert (Hle : (n <= K * Z.pos d)%Z).
    { unfold Qle in HK. simpl in HK. lia. }
    assert (Hb : (n <= Z.pos d * 2 ^ 53)%Z) by nia.
    pose proof (Z.log2_le_mono _ _ Hb) as M.
    rewrite Z.log2_mul_pow2 in M by lia. lia.
Qed.

(** A result between two whole numbers below 2^53 is rounded to a double
    between them. *)
Lemma roundToDouble_between (q : Q) (L K : Z) :
  (0 <= L)%Z -> (K < 2 ^ 53)%Z ->
  inject_Z L <= q -> q <= inject_Z K ->
  exists v : Q,
    roundToDouble q = Finite v /\ inject_Z L <= v /\ v <= inject_Z K.
Proof.
  intros HL HK Hlo Hhi.
  assert (L0 : 0 <= inject_Z L).
  { change 0 with (inject_Z 0). now rewrite <- Zle_Qle. }
  unfold roundToDouble. destruct (Qeq_bool q 0) eqn:Ez.
  - apply Qeq_bool_iff in Ez. exists 0. split; [reflexivity|]. lra.
  - assert (Hq : 0 < q).
    { apply Qle_lt_or_eq in L0. destruct L0 as [H|H]; [lra|].
      assert (N : ~ q == 0).
      { intro K0. apply Qeq_bool_iff in K0. congruence. }
      apply Qle_lt_or_eq in Hlo. destruct Hlo as [H'|H']; [lra|].
      exfalso. apply N. lra. }
    assert (Habs : Qabs q = q).
    { destruct q as [n d]. unfold Qabs. f_equal. apply Z.abs_eq.
      unfold Qlt in Hq. simpl in Hq. lia. }
    rewrite Habs.
    set (e := Z.max (ilog2 q - 52) (-1074)).
    assert (He : (e <= 0)%Z).
    { pose proof (ilog2_small q K Hq Hhi HK). unfold e. lia. }
    set (P := (2 ^ (- e))%Z).
    assert (HP : 0 < inject_Z P) by (apply inject_Z_pow_pos; lia).
    pose proof (pow2_nonpos e He) as Epow. fold P in Epow.
    assert (Ex : q / pow2 e == q * inject_Z P).
    { rewrite Epow. field. lra. }
    destruct (roundHalfEven_between (q / pow2 e) (L * P) (K * P))
      as [M1 M2].
    { rewrite Ex, inject_Z_mult. nra. }
    { rewrite Ex, inject_Z_mult. nra. }
    set (m := roundHalfEven (q / pow2 e)) in *.
    rewrite Zle_Qle in M1, M2. rewrite inject_Z_mult in M1, M2.
    assert (Ev : inject_Z m * pow2 e == inject_Z m / inject_Z P).
    { rewrite Epow. reflexivity. }
    assert (V1 : inject_Z L <= inject_Z m * pow2 e).
    { rewrite Ev. apply Qle_shift_div_l; [exact HP|exact M1]. }
    assert (V2 : inject_Z m * pow2 e <= inject_Z K).
    { rewrite Ev. apply Qle_shift_div_r; [exact HP|exact M2]. }
    destruct (Qle_bool (pow2 1024) (Qabs (inject_Z m * pow2 e))) eqn:O.
    + exfalso. apply Qle_bool_iff in O.
      rewrite Qabs_pos in O by lra.
      assert (C : inject_Z K < inject_Z (2 ^ 53)) by now rewrite <- Zlt_Qlt.
      assert (B : inject_Z (2 ^ 53) <= pow2 1024).
      { unfold pow2. cbn [Z.leb Z.compare]. rewrite <- Zle_Qle.
        apply Z.pow_le_mono_r; lia. }
      lra.
    + exists (Qred (inject_Z m * pow2 e)). split; [reflexivity|].
      rewrite Qred_correct. split; assumption.
Qed.
(** The text of a whole number between 0 and 2^53 is its digits. *)
Lemma toString_small (z : Z) :
  (0 <= z < 2 ^ 53)%Z ->
  toString (Int z) = NilZero.string_of_int (Z.to_int z).
Proof.
  intros [H0 H1]. unfold toString, positiveToString.
  assert (E0 : (z <? 0)%Z = false) by (apply Z.ltb_ge; exact H0).
  assert (E1 : (z <? 2 ^ 53)%Z = true) by (apply Z.ltb_lt; exact H1).
  now rewrite E0, E1.
Qed.

End DoubleFacts.

(** The quotient 145 / 1000 and its hundredfold are rounded to doubles: the
    product is 14.499999999999998..., which [Math.round] takes to 14, where
    the exact 14.5 would go to 15. *)
Lemma percentage_is_rounded_in_doubles :
  Carousel.currentPosition (Carousel.mkSlider 145 1800 800 "" "")
  = JS.Int 14
  /\ Qfloor (145 / (1800 - 800) * 100 + (1 # 2)) = 15%Z.
Proof. split; vm_compute; reflexivity. Qed.

(** Witness of C10 on the sample store: the movie ["m1"] is added to and
    removed from an empty My List. *)
Lemma myList_round_trip_witness :
  Content.contentData Samples.store = Some Samples.data
  /\ Content.findMyList Samples.data = Some Samples.myList
  /\ Content.getContentById Samples.store "m1" = Some Samples.movie1
  /\ existsb (Content.hasId "m1") (Content.items Samples.myList) = false
  /\ exists st1 st2 : Content.Store,
       Content.addToMyList Samples.store "m1" = Content.Returned (true, st1)
       /\ Content.myListItems st1
          = Content.myListItems Samples.store ++ [Samples.movie1]
       /\ Content.addToMyList st1 "m1" = Content.Returned (false, st1)
       /\ Content.removeFromMyList st1 "m1" = Content.Returned (true, st2)
       /\ Content.myListItems st2 = Content.myListItems Samples.store
       /\ Content.contentData st2 = Content.contentData Samples.store
       /\ forall other : string,
            existsb (Content.hasId other) (Content.myListItems Samples.store)
            = false ->
            Content.removeFromMyList Samples.store other
            = Content.Returned (false, Samples.store).
Proof.
  split; [reflexivity|]. split; [reflexivity|].
  split; [reflexivity|]. split; [reflexivity|].
  apply (myList_add_remove_round_trip Samples.store Samples.data
           Samples.myList "m1" Samples.movie1); reflexivity.
Defined.

(** ** The edge detector *)

Section EdgeFacts.

Import JS Carousel EdgeDetector.
Local Open Scope Q_scope.

Lemma showHide_disabled (b : bool) (label : string) :
  disabled (showHide b label) = b.
Proof. now destruct b. Qed.

Lemma updateScrollButtons_slider (r : Row) :
  slider (updateScrollButtons r) = slider r.
Proof. reflexivity. Qed.

Lemma updateScrollButtons_frameCallbacks (r : Row) :
  frameCallbacks (updateScrollButtons r) = frameCallbacks r.
Proof. reflexivity. Qed.

End EdgeFacts.

(** C7, as the code has it. The left button is shown as disabled exactly
    when the offset is at most 2, the right one exactly when offset plus
    viewport width is at least the scrollable width minus 2; opacity,
    pointer events, [disabled] and [aria-hidden] of each button are fixed by
    its predicate. The percentage label is not a function of the two
    predicates: it is computed from [scrollLeft], [scrollWidth] and
    [clientWidth], as the quotient, its hundredfold and [Math.round] of
    double arithmetic. Nothing else is read: two rows with the same three
    metrics get the same buttons. *)
Theorem edge_detector_drives_buttons (r : Carousel.Row) :
  let s := Carousel.slider r in
  let r' := Carousel.updateScrollButtons r in
  let pct := JS.toString (Carousel.currentPosition s) in
  (Carousel.disabled (Carousel.leftBtn r') = true <-> EdgeDetector.isAtStart s)
  /\ (Carousel.disabled (Carousel.rightBtn r') = true <-> EdgeDetector.isAtEnd s)
  /\ Carousel.leftBtn r'
     = Carousel.showHide (Carousel.disabled (Carousel.leftBtn r'))
         ("Scroll left (currently at " ++ pct ++ "%)")
  /\ Carousel.rightBtn r'
     = Carousel.showHide (Carousel.disabled (Carousel.rightBtn r'))
         ("Scroll right (currently at " ++ pct ++ "%)")
  /\ Carousel.currentPosition s
     = JS.Math_round
         (JS.times
            (JS.div (Carousel.scrollLeft s)
               (Carousel.scrollWidth s - Carousel.clientWidth s)%Q) 100)
  /\ forall r2 : Carousel.Row,
       Carousel.scrollLeft (Carousel.slider r2) = Carousel.scrollLeft s ->
       Carousel.scrollWidth (Carousel.slider r2) = Carousel.scrollWidth s ->
       Carousel.clientWidth (Carousel.slider r2) = Carousel.clientWidth s ->
       Carousel.leftBtn (Carousel.updateScrollButtons r2) = Carousel.leftBtn r'
       /\ Carousel.rightBtn (Carousel.updateScrollButtons r2)
          = Carousel.rightBtn r'.
Proof.
  cbv zeta. unfold Carousel.updateScrollButtons. cbn [Carousel.leftBtn
    Carousel.rightBtn Carousel.set_buttons].
  rewrite !showHide_disabled.
  split; [|split; [|split; [|split; [|split]]]].
  - unfold EdgeDetector.isAtStart, Carousel.tolerance. apply Qle_bool_iff.
  - unfold EdgeDetector.isAtEnd, Carousel.tolerance. apply Qle_bool_iff.
  - reflexivity.
  - reflexivity.
  - reflexivity.
  - intros r2 H1 H2 H3. unfold Carousel.currentPosition.
    now rewrite H1, H2, H3.
Qed.

(** Witness of C7: a row with another saved position and the metrics of
    the sample row scrolled to 300 gets the same buttons. *)
Lemma edge_detector_drives_buttons_witness :
  Carousel.scrollLeft
    (Carousel.slider (Carousel.set_scrollPosition 5 Samples.rowAt300))
  = Carousel.scrollLeft (Carousel.slider Samples.rowAt300)
  /\ Carousel.leftBtn
       (Carousel.updateScrollButtons
          (Carousel.set_scrollPosition 5 Samples.rowAt300))
     = Carousel.leftBtn (Carousel.updateScrollButtons Samples.rowAt300)
  /\ Carousel.rightBtn
       (Carousel.updateScrollButtons
          (Carousel.set_scrollPosition 5 Samples.rowAt300))
     = Carousel.rightBtn (Carousel.updateScrollButtons Samples.rowAt300).
Proof.
  split; [reflexivity|].
  destruct (edge_detector_drives_buttons Samples.rowAt300)
    as (_ & _ & _ & _ & _ & Hsame).
  exact (Hsame (Carousel.set_scrollPosition 5 Samples.rowAt300)
           eq_refl eq_refl eq_refl).
Defined.

(** C7 as stated fails for the percentage label: the rows scrolled to 300
    and to 600 agree on both predicates (neither at the start nor at the
    end) and get different labels, 25% and 50%. *)
Lemma label_not_derived_from_edge_predicates :
  ~ (forall r1 r2 : Carousel.Row,
       (EdgeDetector.isAtStart (Carousel.slider r1)
        <-> EdgeDetector.isAtStart (Carousel.slider r2)) ->
       (EdgeDetector.isAtEnd (Carousel.slider r1)
        <-> EdgeDetector.isAtEnd (Carousel.slider r2)) ->
       Carousel.ariaLabel (Carousel.leftBtn (Carousel.updateScrollButtons r1))
       = Carousel.ariaLabel
           (Carousel.leftBtn (Carousel.updateScrollButtons r2))).
Proof.
  intro H. specialize (H Samples.rowAt300 Samples.rowAt600).
  assert (Hs : EdgeDetector.isAtStart (Carousel.slider Samples.rowAt300)
               <-> EdgeDetector.isAtStart (Carousel.slider Samples.rowAt600)).
  { split; intro K; vm_compute in K; exfalso; now apply K. }
  assert (He : EdgeDetector.isAtEnd (Carousel.slider Samples.rowAt300)
               <-> EdgeDetector.isAtEnd (Carousel.slider Samples.rowAt600)).
  { split; intro K; vm_compute in K; exfalso; now apply K. }
  specialize (H Hs He). vm_compute in H. discriminate H.
Qed.

(** C9. In a row whose content does not overflow ([scrollWidth] equal to
    [clientWidth], hence offset 0) the percentage is the unguarded 0/0:
    [NaN], and both labels read "currently at NaN%". *)
Theorem percentage_label_NaN_without_overflow (r : Carousel.Row) :
  (Carousel.scrollWidth (Carousel.slider r)
   == Carousel.clientWidth (Carousel.slider r))%Q ->
  (0 <= Carousel.scrollLeft (Carousel.slider r))%Q ->
  (Carousel.scrollLeft (Carousel.slider r) <= Carousel.maxScroll r)%Q ->
  JS.div (Carousel.scrollLeft (Carousel.slider r))
    (Carousel.scrollWidth (Carousel.slider r)
     - Carousel.clientWidth (Carousel.slider r))%Q = JS.NaN
  /\ Carousel.currentPosition (Carousel.slider r) = JS.RNaN
  /\ Carousel.ariaLabel (Carousel.leftBtn (Carousel.updateScrollButtons r))
     = "Scroll left (currently at NaN%)"%string
  /\ Carousel.ariaLabel (Carousel.rightBtn (Carousel.updateScrollButtons r))
     = "Scroll right (currently at NaN%)"%string.
Proof.
  intros Hw H0 Hmax. unfold Carousel.maxScroll in Hmax.
  assert (Hz : (Carousel.scrollWidth (Carousel.slider r)
                - Carousel.clientWidth (Carousel.slider r) == 0)%Q).
  { rewrite Hw. ring. }
  assert (Hl : (Carousel.scrollLeft (Carousel.slider r) == 0)%Q).
  { apply Qle_antisym; [|assumption]. now rewrite Hz in Hmax. }
  assert (Hdiv : JS.div (Carousel.scrollLeft (Carousel.slider r))
                   (Carousel.scrollWidth (Carousel.slider r)
                    - Carousel.clientWidth (Carousel.slider r))%Q = JS.NaN).
  { unfold JS.div. apply Qeq_bool_iff in Hz, Hl. now rewrite Hz, Hl. }
  assert (Hpos : Carousel.currentPosition (Carousel.slider r) = JS.RNaN).
  { unfold Carousel.currentPosition. now rewrite Hdiv. }
  split; [exact Hdiv|]. split; [exact Hpos|].
  unfold Carousel.updateScrollButtons. cbn [Carousel.leftBtn Carousel.rightBtn
    Carousel.set_buttons]. rewrite Hpos.
  split.
  - now destruct (Qle_bool _ _).
  - now destruct (Qle_bool _ _).
Qed.

(** Witness of C9: the sample row whose content is as wide as its
    viewport. *)
Lemma percentage_label_NaN_witness :
  (Carousel.scrollWidth (Carousel.slider Samples.shortRow)
   == Carousel.clientWidth (Carousel.slider Samples.shortRow))%Q
  /\ (0 <= Carousel.scrollLeft (Carousel.slider Samples.shortRow))%Q
  /\ (Carousel.scrollLeft (Carousel.slider Samples.shortRow)
      <= Carousel.maxScroll Samples.shortRow)%Q
  /\ Carousel.ariaLabel
       (Carousel.leftBtn (Carousel.updateScrollButtons Samples.shortRow))
     = "Scroll left (currently at NaN%)"%string.
Proof.
  split; [reflexivity|].
  split; [vm_compute; discriminate|].
  split; [vm_compute; discriminate|].
  apply (percentage_label_NaN_without_overflow Samples.shortRow).
  - reflexivity.
  - vm_compute; discriminate.
  - vm_compute; discriminate.
Defined.

(** ** Animation frames *)

Section AnimationFacts.

Import JS Carousel.
Local Open Scope Q_scope.

Lemma progress_done (t st d : Q) :
  0 < d -> st + d <= t ->
  Math_min ((t - st) / d) 1 == 1 /\ ltb (Math_min ((t - st) / d) 1) 1 = false.
Proof.
  intros Hd Hend.
  assert (H1 : 1 <= (t - st) / d).
  { apply Qle_shift_div_l; [assumption|].
    lra. }
  assert (Hm : Math_min ((t - st) / d) 1 == 1) by now apply Math_min_ge.
  split; [assumption|]. apply ltb_ge. rewrite Hm. apply Qle_refl.
Qed.

Lemma progress_running (t st d : Q) :
  0 < d -> t < st + d ->
  ltb (Math_min ((t - st) / d) 1) 1 = true.
Proof.
  intros Hd Hend.
  assert (H1 : (t - st) / d < 1).
  { apply Qlt_shift_div_r; [assumption|].
    lra. }
  rewrite Math_min_le by now apply Qlt_le_weak.
  now apply ltb_lt.
Qed.

(** Both easing curves end at 1. *)
Lemma easing_end (k : AnimKind) (p : Q) : p == 1 -> easing k p == 1.
Proof.
  intro Hp. destruct k; simpl.
  - unfold easeInOutCubic.
    assert (H : ltb p (1 # 2) = false).
    { apply ltb_ge. rewrite Hp. discriminate. }
    rewrite H. unfold cube. rewrite Hp. reflexivity.
  - unfold easeOutCubic, cube. rewrite Hp. reflexivity.
Qed.

(** The last call of an [animateScroll] closure: the frame's time has
    reached the end of the animation. *)
Lemma animateScroll_done (a : Animation) (t : Q) (r : Row) :
  0 < duration a -> a_startTime a + duration a <= t ->
  frameCallbacks (animateScroll a t r) = frameCallbacks r
  /\ finishedAnimations (animateScroll a t r) = S (finishedAnimations r)
  /\ scrollLeft (slider (animateScroll a t r))
     == startPosition a + distance a.
Proof.
  intros Hd Hend.
  destruct (progress_done t (a_startTime a) (duration a) Hd Hend)
    as [Hp Hlt].
  unfold animateScroll. cbv zeta. rewrite Hlt.
  assert (Hs : startPosition a
               + distance a
                 * easing (kind a)
                     (Math_min ((t - a_startTime a) / duration a) 1)
               == startPosition a + distance a).
  { rewrite (easing_end _ _ Hp). ring. }
  destruct (kind a); (split; [reflexivity|split; [reflexivity|exact Hs]]).
Qed.

(** An earlier call: the closure writes the offset and registers itself
    for the next frame. *)
Lemma animateScroll_running (a : Animation) (t : Q) (r : Row) :
  0 < duration a -> t < a_startTime a + duration a ->
  frameCallbacks (animateScroll a t r) = frameCallbacks r ++ [a]
  /\ finishedAnimations (animateScroll a t r) = finishedAnimations r.
Proof.
  intros Hd Hend. unfold animateScroll. cbv zeta.
  rewrite (progress_running _ _ _ Hd Hend). split; reflexivity.
Qed.

(** What no [animateScroll] call touches. *)
Lemma animateScroll_frame (a : Animation) (t : Q) (r : Row) :
  scrollWidth (slider (animateScroll a t r)) = scrollWidth (slider r)
  /\ clientWidth (slider (animateScroll a t r)) = clientWidth (slider r)
  /\ gesture (animateScroll a t r) = gesture r
  /\ timeouts (animateScroll a t r) = timeouts r.
Proof.
  unfold animateScroll. cbv zeta.
  destruct (ltb _ 1); [|destruct (kind a)]; repeat split; reflexivity.
Qed.

Lemma fold_animateScroll_frame (q : list Animation) (t : Q) (r : Row) :
  let r' := fold_left (fun r' a => animateScroll a t r') q r in
  scrollWidth (slider r') = scrollWidth (slider r)
  /\ clientWidth (slider r') = clientWidth (slider r)
  /\ gesture r' = gesture r
  /\ timeouts r' = timeouts r.
Proof.
  revert r. induction q as [|a q IH]; intro r; simpl.
  - repeat split; reflexivity.
  - destruct (IH (animateScroll a t r)) as (H1 & H2 & H3 & H4).
    destruct (animateScroll_frame a t r) as (K1 & K2 & K3 & K4).
    repeat split; congruence.
Qed.

Lemma runFrame_frame (t : Q) (r : Row) :
  scrollWidth (slider (runFrame t r)) = scrollWidth (slider r)
  /\ clientWidth (slider (runFrame t r)) = clientWidth (slider r)
  /\ gesture (runFrame t r) = gesture r
  /\ timeouts (runFrame t r) = timeouts r.
Proof.
  unfold runFrame.
  exact (fold_animateScroll_frame (frameCallbacks r) t
           (set_frameCallbacks [] r)).
Qed.

(** A frame with nothing registered does nothing. *)
Lemma runFrame_idle (t : Q) (r : Row) :
  frameCallbacks r = [] -> runFrame t r = r.
Proof.
  intro H. unfold runFrame. rewrite H. simpl.
  destruct r; simpl in *. now subst.
Qed.

(** A frame with one animation registered. *)
Lemma runFrame_one (a : Animation) (t : Q) (r : Row) :
  frameCallbacks r = [a] ->
  runFrame t r = animateScroll a t (set_frameCallbacks [] r).
Proof. intro H. unfold runFrame. now rewrite H. Qed.

(** A frame with two: the older closure runs first. *)
Lemma runFrame_two (a b : Animation) (t : Q) (r : Row) :
  frameCallbacks r = [a; b] ->
  runFrame t r
  = animateScroll b t (animateScroll a t (set_frameCallbacks [] r)).
Proof. intro H. unfold runFrame. now rewrite H. Qed.

End AnimationFacts.

Section SettlingFacts.

Import JS Carousel Invariants.
Local Open Scope Q_scope.

Lemma run_app (es1 es2 : list Event) (r : Row) :
  run (es1 ++ es2) r = run es2 (run es1 r).
Proof. unfold run. apply fold_left_app. Qed.

Lemma run_frames_widths (ts : list Q) (r : Row) :
  scrollWidth (slider (run (map Frame ts) r)) = scrollWidth (slider r)
  /\ clientWidth (slider (run (map Frame ts) r)) = clientWidth (slider r).
Proof.
  revert r. induction ts as [|t ts IH]; intro r; simpl.
  - split; reflexivity.
  - destruct (IH (runFrame t r)) as [H1 H2].
    destruct (runFrame_frame t r) as (K1 & K2 & _).
    unfold run in *. simpl. split; congruence.
Qed.

(** A settled row stays settled through frames. *)
Lemma settled_frame (target : Q) (f : nat) (t : Q) (r : Row) :
  settled target f r -> settled target f (runFrame t r).
Proof.
  intros (Hq & Hf & Hs). now rewrite (runFrame_idle t r Hq).
Qed.

(** One frame of a single animation. *)
Lemma oneInFlight_frame (a : Animation) (f : nat) (t : Q) (r : Row) :
  0 < duration a ->
  oneInFlight a f r -> oneInFlight a f (runFrame t r).
Proof.
  intros Hd [[Hq Hf]|Hs].
  - rewrite (runFrame_one a t r Hq).
    destruct (Qlt_le_dec t (a_startTime a + duration a)) as [Hlt|Hge].
    + left.
      destruct (animateScroll_running a t (set_frameCallbacks [] r) Hd Hlt)
        as [K1 K2].
      split; [exact K1|]. now rewrite K2.
    + right.
      destruct (animateScroll_done a t (set_frameCallbacks [] r) Hd Hge)
        as (K1 & K2 & K3).
      repeat split; [exact K1| |exact K3]. rewrite K2. simpl. now rewrite Hf.
  - right. now apply settled_frame.
Qed.

(** The frame at or after its end time settles it. *)
Lemma oneInFlight_last_frame (a : Animation) (f : nat) (t : Q) (r : Row) :
  0 < duration a -> endTime a <= t ->
  oneInFlight a f r ->
  settled (startPosition a + distance a) (S f) (runFrame t r).
Proof.
  unfold endTime. intros Hd Hge [[Hq Hf]|Hs].
  - rewrite (runFrame_one a t r Hq).
    destruct (animateScroll_done a t (set_frameCallbacks [] r) Hd Hge)
      as (K1 & K2 & K3).
    repeat split; [exact K1| |exact K3]. rewrite K2. simpl. now rewrite Hf.
  - now apply settled_frame.
Qed.

(** One frame of two overlapping animations, when the older one does not
    end after the newer one. *)
Lemma twoInFlight_frame (older newer : Animation) (f : nat) (t : Q)
    (r : Row) :
  0 < duration older -> 0 < duration newer ->
  endTime older <= endTime newer ->
  twoInFlight older newer f r -> twoInFlight older newer f (runFrame t r).
Proof.
  unfold endTime. intros Ho Hn Hends [[Hq Hf]|H1].
  - rewrite (runFrame_two older newer t r Hq).
    set (r0 := set_frameCallbacks [] r).
    destruct (Qlt_le_dec t (a_startTime older + duration older))
      as [Holt|Hoge].
    + (* both go on *)
      assert (Hnlt : t < a_startTime newer + duration newer) by lra.
      destruct (animateScroll_running older t r0 Ho Holt) as [K1 K2].
      destruct (animateScroll_running newer t (animateScroll older t r0)
                  Hn Hnlt) as [L1 L2].
      left. split.
      * rewrite L1, K1. reflexivity.
      * rewrite L2, K2. exact Hf.
    + destruct (animateScroll_done older t r0 Ho Hoge) as (K1 & K2 & K3).
      right.
      destruct (Qlt_le_dec t (a_startTime newer + duration newer))
        as [Hnlt|Hnge].
      * (* the older one ends, the newer one goes on *)
        destruct (animateScroll_running newer t (animateScroll older t r0)
                    Hn Hnlt) as [L1 L2].
        left. split.
        -- rewrite L1, K1. reflexivity.
        -- rewrite L2, K2. simpl. now rewrite Hf.
      * (* both end in this frame, the newer one writes last *)
        destruct (animateScroll_done newer t (animateScroll older t r0)
                    Hn Hnge) as (L1 & L2 & L3).
        right. repeat split.
        -- rewrite L1, K1. reflexivity.
        -- rewrite L2, K2. simpl. now rewrite Hf.
        -- exact L3.
  - right. now apply oneInFlight_frame.
Qed.

Lemma twoInFlight_last_frame (older newer : Animation) (f : nat) (t : Q)
    (r : Row) :
  0 < duration older -> 0 < duration newer ->
  endTime older <= endTime newer -> endTime newer <= t ->
  twoInFlight older newer f r ->
  settled (startPosition newer + distance newer) (S (S f)) (runFrame t r).
Proof.
  intros Ho Hn Hends Hge H.
  pose proof (twoInFlight_frame older newer f t r Ho Hn Hends H) as H'.
  destruct H as [[Hq Hf]|H1].
  - rewrite (runFrame_two older newer t r Hq).
    set (r0 := set_frameCallbacks [] r).
    assert (Hoge : a_startTime older + duration older <= t)
      by (unfold endTime in *; lra).
    destruct (animateScroll_done older t r0 Ho Hoge) as (K1 & K2 & K3).
    destruct (animateScroll_done newer t (animateScroll older t r0) Hn Hge)
      as (L1 & L2 & L3).
    repeat split.
    + rewrite L1, K1. reflexivity.
    + rewrite L2, K2. simpl. now rewrite Hf.
    + exact L3.
  - now apply oneInFlight_last_frame.
Qed.

Lemma oneInFlight_frames (a : Animation) (f : nat) (ts : list Q) (r : Row) :
  0 < duration a ->
  oneInFlight a f r -> oneInFlight a f (run (map Frame ts) r).
Proof.
  intro Hd. revert r. induction ts as [|t ts IH]; intros r H.
  - exact H.
  - simpl. apply IH. now apply oneInFlight_frame.
Qed.

Lemma twoInFlight_frames (older newer : Animation) (f : nat) (ts : list Q)
    (r : Row) :
  0 < duration older -> 0 < duration newer ->
  endTime older <= endTime newer ->
  twoInFlight older newer f r ->
  twoInFlight older newer f (run (map Frame ts) r).
Proof.
  intros Ho Hn Hends. revert r. induction ts as [|t ts IH]; intros r H.
  - exact H.
  - simpl. apply IH. now apply twoInFlight_frame.
Qed.

(** A single animation comes to rest at its end position, whatever frames
    are drawn before the one that reaches its end time. *)
Lemma one_animation_settles (a : Animation) (f : nat) (ts : list Q) (T : Q)
    (r : Row) :
  0 < duration a -> endTime a <= T ->
  oneInFlight a f r ->
  settled (startPosition a + distance a) (S f)
    (run (map Frame (ts ++ [T])) r).
Proof.
  intros Hd Hge H. rewrite map_app, run_app. simpl.
  apply oneInFlight_last_frame; try assumption.
  now apply oneInFlight_frames.
Qed.

Lemma two_animations_settle (older newer : Animation) (f : nat)
    (ts : list Q) (T : Q) (r : Row) :
  0 < duration older -> 0 < duration newer ->
  endTime older <= endTime newer -> endTime newer <= T ->
  twoInFlight older newer f r ->
  settled (startPosition newer + distance newer) (S (S f))
    (run (map Frame (ts ++ [T])) r).
Proof.
  intros Ho Hn Hends Hge H. rewrite map_app, run_app. simpl.
  apply (twoInFlight_last_frame older newer); try assumption.
  now apply twoInFlight_frames.
Qed.

(** One frame of a single scheduled animation: it goes on, or it has
    finished. *)
Lemma single_frame (a : Animation) (f : nat) (t : Q) (r : Row) :
  0 < duration a ->
  frameCallbacks r = [a] -> finishedAnimations r = f ->
  (t < endTime a ->
   frameCallbacks (runFrame t r) = [a]
   /\ finishedAnimations (runFrame t r) = f)
  /\ (endTime a <= t ->
      frameCallbacks (runFrame t r) = []
      /\ finishedAnimations (runFrame t r) = S f).
Proof.
  unfold endTime. intros Hd Hq Hf. rewrite (runFrame_one a t r Hq). split.
  - intro Hlt.
    destruct (animateScroll_running a t (set_frameCallbacks [] r) Hd Hlt)
      as [K1 K2].
    split; [exact K1|]. now rewrite K2.
  - intro Hge.
    destruct (animateScroll_done a t (set_frameCallbacks [] r) Hd Hge)
      as (K1 & K2 & _).
    split; [exact K1|]. rewrite K2. simpl. now rewrite Hf.
Qed.

(** One frame of two scheduled animations, by the ends the frame has
    reached. *)
Lemma pair_frame (older newer : Animation) (f : nat) (t : Q) (r : Row) :
  0 < duration older -> 0 < duration newer ->
  frameCallbacks r = [older; newer] -> finishedAnimations r = f ->
  let r' := runFrame t r in
  (t < endTime older -> t < endTime newer ->
   frameCallbacks r' = [older; newer] /\ finishedAnimations r' = f)
  /\ (endTime older <= t -> t < endTime newer ->
      frameCallbacks r' = [newer] /\ finishedAnimations r' = S f)
  /\ (t < endTime older -> endTime newer <= t ->
      frameCallbacks r' = [older] /\ finishedAnimations r' = S f)
  /\ (endTime older <= t -> endTime newer <= t ->
      frameCallbacks r' = [] /\ finishedAnimations r' = S (S f)
      /\ scrollLeft (slider r') == startPosition newer + distance newer).
Proof.
  unfold endTime. intros Ho Hn Hq Hf. cbv zeta.
  rewrite (runFrame_two older newer t r Hq).
  set (r0 := set_frameCallbacks [] r).
  assert (Hf0 : finishedAnimations r0 = f) by exact Hf.
  split; [|split; [|split]].
  - intros Holt Hnlt.
    destruct (animateScroll_running older t r0 Ho Holt) as [K1 K2].
    destruct (animateScroll_running newer t (animateScroll older t r0)
                Hn Hnlt) as [L1 L2].
    split; [rewrite L1, K1; reflexivity|now rewrite L2, K2].
  - intros Hoge Hnlt.
    destruct (animateScroll_done older t r0 Ho Hoge) as (K1 & K2 & _).
    destruct (animateScroll_running newer t (animateScroll older t r0)
                Hn Hnlt) as [L1 L2].
    split; [rewrite L1, K1; reflexivity|now rewrite L2, K2, Hf0].
  - intros Holt Hnge.
    destruct (animateScroll_running older t r0 Ho Holt) as [K1 K2].
    destruct (animateScroll_done newer t (animateScroll older t r0) Hn Hnge)
      as (L1 & L2 & _).
    split; [rewrite L1, K1; reflexivity|now rewrite L2, K2, Hf0].
  - intros Hoge Hnge.
    destruct (animateScroll_done older t r0 Ho Hoge) as (K1 & K2 & _).
    destruct (animateScroll_done newer t (animateScroll older t r0) Hn Hnge)
      as (L1 & L2 & L3).
    split; [rewrite L1, K1; reflexivity|].
    split; [now rewrite L2, K2, Hf0|exact L3].
Qed.

(** Whatever the ends of two overlapping animations, a frame leaves both,
    one or none of them scheduled, and counts those that finished. *)
Lemma overlapping_frame (older newer : Animation) (f : nat) (t : Q)
    (r : Row) :
  0 < duration older -> 0 < duration newer ->
  overlapping older newer f r -> overlapping older newer f (runFrame t r).
Proof.
  intros Ho Hn [[Hq Hf]|[[Hq Hf]|[[Hq Hf]|[Hq Hf]]]].
  - destruct (pair_frame older newer f t r Ho Hn Hq Hf)
      as (P1 & P2 & P3 & P4).
    destruct (Qlt_le_dec t (endTime older)) as [Holt|Hoge],
             (Qlt_le_dec t (endTime newer)) as [Hnlt|Hnge].
    + left. now apply P1.
    + right; right; left. now apply P3.
    + right; left. now apply P2.
    + right; right; right. destruct (P4 Hoge Hnge) as (A & B & _).
      split; assumption.
  - destruct (single_frame newer (S f) t r Hn Hq Hf) as [S1 S2].
    destruct (Qlt_le_dec t (endTime newer)) as [Hlt|Hge].
    + right; left. now apply S1.
    + right; right; right. now apply S2.
  - destruct (single_frame older (S f) t r Ho Hq Hf) as [S1 S2].
    destruct (Qlt_le_dec t (endTime older)) as [Hlt|Hge].
    + right; right; left. now apply S1.
    + right; right; right. now apply S2.
  - right; right; right. now rewrite (runFrame_idle t r Hq).
Qed.

Lemma overlapping_frames (older newer : Animation) (f : nat) (ts : list Q)
    (r : Row) :
  0 < duration older -> 0 < duration newer ->
  overlapping older newer f r ->
  overlapping older newer f (run (map Frame ts) r).
Proof.
  intros Ho Hn. revert r. induction ts as [|t ts IH]; intros r H.
  - exact H.
  - simpl. apply IH. now apply overlapping_frame.
Qed.

(** A frame at or after both ends leaves nothing scheduled: both
    animations have run to their ends. *)
Lemma overlapping_last_frame (older newer : Animation) (f : nat) (t : Q)
    (r : Row) :
  0 < duration older -> 0 < duration newer ->
  endTime older <= t -> endTime newer <= t ->
  overlapping older newer f r ->
  frameCallbacks (runFrame t r) = []
  /\ finishedAnimations (runFrame t r) = S (S f).
Proof.
  intros Ho Hn Eo En [[Hq Hf]|[[Hq Hf]|[[Hq Hf]|[Hq Hf]]]].
  - destruct (pair_frame older newer f t r Ho Hn Hq Hf) as (_ & _ & _ & P4).
    destruct (P4 Eo En) as (A & B & _). split; assumption.
  - now apply (single_frame newer (S f) t r Hn Hq Hf).
  - now apply (single_frame older (S f) t r Ho Hq Hf).
  - rewrite (runFrame_idle t r Hq). split; assumption.
Qed.

(** Frames before the end of the newer animation: the older one goes on
    with it or has finished. *)
Lemma twoInFlight_early_frame (older newer : Animation) (f : nat) (t : Q)
    (r : Row) :
  0 < duration older -> 0 < duration newer ->
  t < endTime newer ->
  twoInFlight older newer f r -> twoInFlight older newer f (runFrame t r).
Proof.
  intros Ho Hn Hlt [[Hq Hf]|H1].
  - destruct (pair_frame older newer f t r Ho Hn Hq Hf) as (P1 & P2 & _).
    destruct (Qlt_le_dec t (endTime older)) as [Holt|Hoge].
    + left. now apply P1.
    + right. left. now apply P2.
  - right. now apply oneInFlight_frame.
Qed.

Lemma twoInFlight_early_frames (older newer : Animation) (f : nat)
    (ts : list Q) (r : Row) :
  0 < duration older -> 0 < duration newer ->
  (forall t, In t ts -> t < endTime newer) ->
  twoInFlight older newer f r ->
  twoInFlight older newer f (run (map Frame ts) r).
Proof.
  intros Ho Hn. revert r. induction ts as [|t ts IH]; intros r Hts H.
  - exact H.
  - simpl. apply IH.
    + intros t' Hin. apply Hts. now right.
    + apply twoInFlight_early_frame; try assumption. apply Hts. now left.
Qed.

(** A frame at or after both ends, with the newer animation still
    scheduled: it writes last, and the row rests at its end position. *)
Lemma twoInFlight_both_end (older newer : Animation) (f : nat) (t : Q)
    (r : Row) :
  0 < duration older -> 0 < duration newer ->
  endTime older <= t -> endTime newer <= t ->
  twoInFlight older newer f r ->
  settled (startPosition newer + distance newer) (S (S f)) (runFrame t r).
Proof.
  intros Ho Hn Eo En [[Hq Hf]|H1].
  - destruct (pair_frame older newer f t r Ho Hn Hq Hf) as (_ & _ & _ & P4).
    destruct (P4 Eo En) as (A & B & C). repeat split; assumption.
  - now apply oneInFlight_last_frame.
Qed.

(** Frames before both ends leave both animations scheduled. *)
Lemma pair_running_frames (older newer : Animation) (f : nat) (ts : list Q)
    (r : Row) :
  0 < duration older -> 0 < duration newer ->
  (forall t, In t ts -> t < endTime older /\ t < endTime newer) ->
  frameCallbacks r = [older; newer] -> finishedAnimations r = f ->
  frameCallbacks (run (map Frame ts) r) = [older; newer]
  /\ finishedAnimations (run (map Frame ts) r) = f.
Proof.
  intros Ho Hn. revert r. induction ts as [|t ts IH]; intros r Hts Hq Hf.
  - split; assumption.
  - simpl. destruct (Hts t (or_introl eq_refl)) as [T1 T2].
    destruct (pair_frame older newer f t r Ho Hn Hq Hf) as (P1 & _).
    destruct (P1 T1 T2) as [A B].
    apply IH; [|exact A|exact B]. intros t' Hin. apply Hts. now right.
Qed.

End SettlingFacts.

(** ** Overlapping animations *)

(** C1, as the code has it. Starting an animation (from a button click or
    from momentum) while another one is in flight does not cancel it: both
    closures are scheduled, every frame before their ends runs both, the
    older one first, and both run to completion, whichever ends first.
    The row comes to rest at the newer request's destination when the older
    animation does not end after the newer one (as with two button clicks,
    300 ms each), and also when no frame is drawn between the end of the
    newer and the end of the older one. When a frame is drawn at which
    the newer animation has ended and the older one has not, the older one
    goes on alone and the row comes to rest at the older request's
    destination. *)
Theorem overlapping_animations_both_complete
    (r : Carousel.Row) (older : Carousel.Animation) (k : Carousel.AnimKind)
    (target dur now : Q) (ts : list Q) (T : Q) :
  Carousel.frameCallbacks r = [older] ->
  (0 < Carousel.duration older)%Q ->
  (0 < dur)%Q ->
  (Invariants.endTime older <= T)%Q ->
  (now + dur <= T)%Q ->
  let started :=
    match k with
    | Carousel.ButtonScroll => Carousel.smoothScrollTo target dur now r
    | Carousel.PositionScroll =>
        Carousel.smoothScrollToPosition target dur now r
    end in
  let newer :=
    Carousel.mkAnimation k (Carousel.scrollLeft (Carousel.slider r))
      (target - Carousel.scrollLeft (Carousel.slider r))%Q now dur in
  let final := Carousel.run (map Carousel.Frame (ts ++ [T])) started in
  Carousel.frameCallbacks started = [older; newer]
  /\ (forall t : Q,
        (t < Invariants.endTime older)%Q -> (t < now + dur)%Q ->
        Carousel.frameCallbacks (Carousel.runFrame t started) = [older; newer])
  /\ Carousel.frameCallbacks final = []
  /\ Carousel.finishedAnimations final
     = S (S (Carousel.finishedAnimations r))
  /\ ((Invariants.endTime older <= now + dur)%Q ->
      (Carousel.scrollLeft (Carousel.slider final) == target)%Q)
  /\ ((forall t : Q, In t ts -> (t < now + dur)%Q) ->
      (Carousel.scrollLeft (Carousel.slider final) == target)%Q)
  /\ (forall (before : list Q) (t : Q) (after : list Q),
        ts = before ++ t :: after ->
        (forall t' : Q, In t' before -> (t' < now + dur)%Q) ->
        (now + dur <= t)%Q -> (t < Invariants.endTime older)%Q ->
        (Carousel.scrollLeft (Carousel.slider final)
         == Carousel.startPosition older + Carousel.distance older)%Q).
Proof.
  intros Hq Ho Hn HTo HT started newer final.
  assert (Hstarted : Carousel.frameCallbacks started = [older; newer]).
  { subst started newer. destruct k;
      unfold Carousel.smoothScrollTo, Carousel.smoothScrollToPosition,
        Carousel.requestAnimationFrame; simpl; now rewrite Hq. }
  assert (Hfin : Carousel.finishedAnimations started
                 = Carousel.finishedAnimations r).
  { subst started. now destruct k. }
  assert (Hnd : (0 < Carousel.duration newer)%Q) by exact Hn.
  assert (HTn : (Invariants.endTime newer <= T)%Q) by exact HT.
  assert (H2 : Invariants.twoInFlight older newer
                 (Carousel.finishedAnimations r) started).
  { left. split; assumption. }
  assert (Etarget : (Carousel.startPosition newer + Carousel.distance newer
                     == target)%Q).
  { subst newer. simpl. ring. }
  split; [exact Hstarted|]. split; [|split; [|split; [|split; [|split]]]].
  - intros t Hto Htn.
    destruct (pair_frame older newer _ t started Ho Hnd Hstarted Hfin)
      as (P1 & _).
    now destruct (P1 Hto Htn).
  - subst final. rewrite map_app, run_app. simpl.
    apply (overlapping_last_frame older newer
             (Carousel.finishedAnimations r)); try assumption.
    apply overlapping_frames; try assumption. left. split; assumption.
  - subst final. rewrite map_app, run_app. simpl.
    apply (overlapping_last_frame older newer
             (Carousel.finishedAnimations r)); try assumption.
    apply overlapping_frames; try assumption. left. split; assumption.
  - intro Hends.
    destruct (two_animations_settle older newer _ ts T started Ho Hnd Hends
                HTn H2) as (_ & _ & F3).
    fold final in F3. now rewrite F3.
  - intro Hearly. subst final. rewrite map_app, run_app. simpl.
    destruct (twoInFlight_both_end older newer
                (Carousel.finishedAnimations r) T
                (Carousel.run (map Carousel.Frame ts) started)
                Ho Hnd HTo HTn) as (_ & _ & F3).
    + apply twoInFlight_early_frames; assumption.
    + now rewrite F3.
  - intros before t after Ets Hbefore Htn Hto. subst final ts.
    replace ((before ++ t :: after) ++ [T])
      with (before ++ t :: (after ++ [T]))
      by (rewrite <- app_assoc; reflexivity).
    rewrite map_app, run_app. cbn [map].
    change (Carousel.run (Carousel.Frame t :: map Carousel.Frame (after ++ [T]))
              (Carousel.run (map Carousel.Frame before) started))
      with (Carousel.run (map Carousel.Frame (after ++ [T]))
              (Carousel.runFrame t
                 (Carousel.run (map Carousel.Frame before) started))).
    destruct (pair_running_frames older newer
                (Carousel.finishedAnimations r) before started Ho Hnd)
      as [B1 B2]; [|exact Hstarted|exact Hfin|].
    { intros t' Hin. specialize (Hbefore t' Hin).
      unfold Invariants.endTime in *. cbn [Carousel.a_startTime
        Carousel.duration newer] in *. split; lra. }
    destruct (pair_frame older newer _ t _ Ho Hnd B1 B2) as (_ & _ & P3 & _).
    destruct (P3 Hto Htn) as [C1 C2].
    destruct (one_animation_settles older _ after T _ Ho HTo
                (or_introl (conj C1 C2))) as (_ & _ & F3).
    exact F3.
Qed.

(** Witness of C1: a second click on the right button at 100 ms, while the
    animation of a first click (started at 0 ms) is in flight. *)
Lemma overlapping_animations_witness :
  Carousel.frameCallbacks Samples.scrollingRow
  = [Carousel.mkAnimation Carousel.ButtonScroll 0 880 0 300]
  /\ (Carousel.scrollLeft
        (Carousel.slider
           (Carousel.run (map Carousel.Frame ([200; 300] ++ [400]))
              (Carousel.smoothScrollTo 1200 300 100 Samples.scrollingRow)))
      == 1200)%Q.
Proof.
  split; [reflexivity|].
  assert (H : forall a b : Q, Qle_bool a b = true -> (a <= b)%Q)
    by (intros a b; apply Qle_bool_iff).
  refine (proj1 (proj2 (proj2 (proj2 (proj2
            (overlapping_animations_both_complete Samples.scrollingRow
               (Carousel.mkAnimation Carousel.ButtonScroll 0 880 0 300)
               Carousel.ButtonScroll 1200 300 100 [200; 300] 400
               eq_refl eq_refl eq_refl _ _))))) _).
  - apply H. reflexivity.
  - apply H. reflexivity.
  - apply H. reflexivity.
Defined.

(** C1 as stated fails. A flick is released at 250 ms (momentum towards
    560, 400 ms long) and the right button is clicked at 300 ms (towards
    1200, 300 ms long): the momentum animation is not cancelled, both
    closures are scheduled and run in the frame at 316 ms, both complete,
    and the row comes to rest at 560, the older request's destination. *)
Lemma overlapping_animations_counterexample :
  List.length (Carousel.frameCallbacks Samples.releasedRow) = 1%nat
  /\ (Carousel.rightTarget 1280 Samples.releasedRow == 1200)%Q
  /\ List.length (Carousel.frameCallbacks Samples.clickedRow) = 2%nat
  /\ List.length
       (Carousel.frameCallbacks (Carousel.runFrame 316 Samples.clickedRow))
     = 2%nat
  /\ Carousel.frameCallbacks Samples.restingRow = []
  /\ Carousel.finishedAnimations Samples.releasedRow = 0%nat
  /\ Carousel.finishedAnimations Samples.restingRow = 2%nat
  /\ (Carousel.scrollLeft (Carousel.slider Samples.restingRow) == 560)%Q
  /\ ~ (Carousel.scrollLeft (Carousel.slider Samples.restingRow) == 1200)%Q.
Proof.
  repeat split; try (vm_compute; reflexivity).
  vm_compute. discriminate.
Qed.

(** ** Button clicks on a resting row *)

Section ClickFacts.

Import JS Carousel Invariants.
Local Open Scope Q_scope.


(** The click listener of the right button on a row at rest, followed by
    frames up to the end of its animation: the row rests at the click's
    target. *)
Lemma right_click_settles (w t : Q) (ts : list Q) (T : Q) (r : Row) :
  frameCallbacks r = [] -> t + 300 <= T ->
  let r' := run (map Frame (ts ++ [T])) (clickRight w t r) in
  settled (rightTarget w r) (S (finishedAnimations r)) r'
  /\ scrollWidth (slider r') = scrollWidth (slider r)
  /\ clientWidth (slider r') = clientWidth (slider r).
Proof.
  intros Hq HT. cbv zeta.
  set (a := mkAnimation ButtonScroll (scrollLeft (slider r))
              (rightTarget w r - scrollLeft (slider r)) t 300).
  assert (Hone : oneInFlight a (finishedAnimations r) (clickRight w t r)).
  { left. unfold clickRight, smoothScrollTo, requestAnimationFrame.
    simpl. rewrite Hq. split; reflexivity. }
  assert (Hd : 0 < duration a) by reflexivity.
  assert (He : endTime a <= T) by exact HT.
  destruct (one_animation_settles a _ ts T _ Hd He Hone) as (F1 & F2 & F3).
  split.
  - repeat split; [exact F1|exact F2|].
    rewrite F3. unfold a. simpl. ring.
  - destruct (run_frames_widths (ts ++ [T]) (clickRight w t r)) as [W1 W2].
    split; [rewrite W1|rewrite W2]; reflexivity.
Qed.

End ClickFacts.

(** ** Timer ticks, frames and the resting offset *)

Section TickFacts.

Import JS Carousel Invariants.
Local Open Scope Q_scope.

Lemma runTimerAction_keeps (r : Row) (a : TimerAction) :
  frameCallbacks (runTimerAction r a) = frameCallbacks r
  /\ finishedAnimations (runTimerAction r a) = finishedAnimations r
  /\ scrollLeft (slider (runTimerAction r a)) = scrollLeft (slider r)
  /\ gesture (runTimerAction r a) = gesture r.
Proof. destruct a; repeat split; reflexivity. Qed.

Lemma fold_runTimerAction_keeps (l : list TimerAction) (r : Row) :
  frameCallbacks (fold_left runTimerAction l r) = frameCallbacks r
  /\ finishedAnimations (fold_left runTimerAction l r) = finishedAnimations r
  /\ scrollLeft (slider (fold_left runTimerAction l r))
     = scrollLeft (slider r)
  /\ gesture (fold_left runTimerAction l r) = gesture r.
Proof.
  revert r. induction l as [|a l IH]; intro r; simpl.
  - repeat split; reflexivity.
  - destruct (IH (runTimerAction r a)) as (H1 & H2 & H3 & H4).
    destruct (runTimerAction_keeps r a) as (K1 & K2 & K3 & K4).
    repeat split; congruence.
Qed.

(** A timer tick touches neither the animation queue nor the offset nor
    the gesture. *)
Lemma runTimers_keeps (t : Q) (r : Row) :
  frameCallbacks (runTimers t r) = frameCallbacks r
  /\ finishedAnimations (runTimers t r) = finishedAnimations r
  /\ scrollLeft (slider (runTimers t r)) = scrollLeft (slider r)
  /\ gesture (runTimers t r) = gesture r.
Proof.
  unfold runTimers.
  exact (fold_runTimerAction_keeps (dueTimers t (timeouts r))
           (set_timeouts (laterTimers t (timeouts r)) r)).
Qed.

Lemma oneInFlight_tick (a : Animation) (f : nat) (e : Event) (r : Row) :
  0 < duration a -> isTick e = true ->
  oneInFlight a f r -> oneInFlight a f (step r e).
Proof.
  intros Hd He H. destruct e; try discriminate; simpl.
  - now apply oneInFlight_frame.
  - destruct (runTimers_keeps now r) as (K1 & K2 & K3 & _).
    unfold oneInFlight, settled in *. rewrite K1, K2, K3. exact H.
  - exact H.
  - exact H.
Qed.

Lemma oneInFlight_ticks (a : Animation) (f : nat) (es : list Event)
    (r : Row) :
  0 < duration a -> forallb isTick es = true ->
  oneInFlight a f r -> oneInFlight a f (run es r).
Proof.
  intro Hd. revert r. induction es as [|e es IH]; intros r Hes H.
  - exact H.
  - simpl in Hes. apply andb_true_iff in Hes. destruct Hes as [He Hes].
    simpl. apply IH; [assumption|]. now apply oneInFlight_tick.
Qed.

(** With nothing scheduled, frames and timer ticks leave the offset where
    it is. *)
Lemma resting_ticks (es : list Event) (r : Row) :
  forallb isTick es = true -> frameCallbacks r = [] ->
  frameCallbacks (run es r) = []
  /\ scrollLeft (slider (run es r)) = scrollLeft (slider r).
Proof.
  revert r. induction es as [|e es IH]; intros r Hes Hq.
  - split; [assumption|reflexivity].
  - simpl in Hes. apply andb_true_iff in Hes. destruct Hes as [He Hes].
    simpl. destruct e; try discriminate; simpl.
    + rewrite (runFrame_idle currentTime r Hq). now apply IH.
    + destruct (runTimers_keeps now r) as (K1 & _ & K3 & _).
      destruct (IH (runTimers now r) Hes) as [I1 I2].
      * now rewrite K1.
      * split; [exact I1|]. now rewrite I2.
    + now apply (IH (handleScroll now r)).
    + now apply (IH (handleResize now r)).
Qed.

End TickFacts.

(** ** Momentum *)

(** C2, as the code has it. When a touch drag is released, momentum starts
    exactly when the speed exceeds 0.5 px/ms and the gesture lasted less
    than 300 ms. When it starts, one ease-out animation of 400 ms towards
    clamp(offset + velocity * 200, 0, maxOffset) is scheduled and, with no
    other animation in flight, the row comes to rest at that target (for
    the 250 ms drag released at 0.8 px/ms at offset 400 of the row with
    maximum offset 1200: at 560). When it does not start, the release
    neither moves the row nor schedules anything, and with no other
    animation in flight later frames, timer ticks and scroll or resize
    events leave the offset at its value at release. The release of a mouse
    drag never starts momentum, whatever the speed: it schedules no
    animation and the offset stays at its value at release. *)
Theorem momentum_on_release (r : Carousel.Row) (now : Q) :
  Carousel.isDragging (Carousel.gesture r) = true ->
  let g := Carousel.gesture r in
  let offset := Carousel.scrollLeft (Carousel.slider r) in
  let fast :=
    ((1 # 2) < Qabs (Carousel.velocityX g)
     /\ now - Carousel.startTime g < 300)%Q in
  let target :=
    EdgeDetector.clamp (offset + Carousel.velocityX g * 200)%Q 0
      (Carousel.maxScroll r) in
  let released := Carousel.handleTouchEnd now r in
  let mouseReleased := Carousel.handleMouseUp now r in
  ((exists a : Carousel.Animation,
       Carousel.frameCallbacks released = Carousel.frameCallbacks r ++ [a])
   <-> fast)
  /\ (fast ->
      Carousel.frameCallbacks released
      = Carousel.frameCallbacks r
          ++ [Carousel.mkAnimation Carousel.PositionScroll offset
                (target - offset)%Q now 400]
      /\ (Carousel.frameCallbacks r = [] ->
          forall (es : list Carousel.Event) (T : Q),
            forallb Invariants.isTick es = true -> (now + 400 <= T)%Q ->
            (Carousel.scrollLeft
               (Carousel.slider
                  (Carousel.run (es ++ [Carousel.Frame T]) released))
             == target)%Q))
  /\ (~ fast ->
      Carousel.frameCallbacks released = Carousel.frameCallbacks r
      /\ Carousel.slider released = Carousel.slider r
      /\ (Carousel.frameCallbacks r = [] ->
          forall es : list Carousel.Event,
            forallb Invariants.isTick es = true ->
            Carousel.scrollLeft (Carousel.slider (Carousel.run es released))
            = offset))
  /\ (Carousel.frameCallbacks mouseReleased = Carousel.frameCallbacks r
      /\ Carousel.scrollLeft (Carousel.slider mouseReleased) = offset
      /\ (Carousel.frameCallbacks r = [] ->
          forall es : list Carousel.Event,
            forallb Invariants.isTick es = true ->
            Carousel.scrollLeft
              (Carousel.slider (Carousel.run es mouseReleased))
            = offset)).
Proof.
  intros Hdrag g offset fast target released mouseReleased.
  assert (Hcond : Carousel.momentumApplies g now = true <-> fast).
  { unfold Carousel.momentumApplies, fast, JS.Math_abs.
    rewrite andb_true_iff, !ltb_lt. reflexivity. }
  assert (Hyes : Carousel.momentumApplies g now = true ->
                 Carousel.frameCallbacks released
                 = Carousel.frameCallbacks r
                     ++ [Carousel.mkAnimation Carousel.PositionScroll offset
                           (target - offset)%Q now 400]
                 /\ Carousel.finishedAnimations released
                    = Carousel.finishedAnimations r).
  { intro H. subst released. unfold Carousel.handleTouchEnd.
    rewrite Hdrag. fold g. rewrite H. split; reflexivity. }
  assert (Hno : Carousel.momentumApplies g now = false ->
                Carousel.frameCallbacks released = Carousel.frameCallbacks r
                /\ Carousel.slider released = Carousel.slider r).
  { intro H. subst released. unfold Carousel.handleTouchEnd.
    rewrite Hdrag. fold g. rewrite H. split; reflexivity. }
  assert (Hmouse : Carousel.frameCallbacks mouseReleased
                   = Carousel.frameCallbacks r
                   /\ Carousel.scrollLeft (Carousel.slider mouseReleased)
                      = offset).
  { subst mouseReleased. unfold Carousel.handleMouseUp.
    rewrite Hdrag. split; reflexivity. }
  split; [|split; [|split]].
  - split.
    + intros [a Ha]. apply Hcond.
      destruct (Carousel.momentumApplies g now) eqn:E; [reflexivity|].
      destruct (Hno eq_refl) as [Hq _]. rewrite Hq in Ha.
      apply (f_equal (@List.length _)) in Ha. rewrite length_app in Ha.
      simpl in Ha. lia.
    + intro Hf. apply Hcond in Hf. destruct (Hyes Hf) as [Hq _]. eauto.
  - intro Hf. apply Hcond in Hf. destruct (Hyes Hf) as [Hq Hfin].
    split; [exact Hq|]. intros Hidle es T Hes HT.
    set (a := Carousel.mkAnimation Carousel.PositionScroll offset
                (target - offset)%Q now 400) in *.
    assert (Hone : Invariants.oneInFlight a (Carousel.finishedAnimations r)
                     released).
    { left. rewrite Hq, Hidle. split; [reflexivity|exact Hfin]. }
    assert (Hd : (0 < Carousel.duration a)%Q) by reflexivity.
    rewrite run_app. simpl.
    pose proof (oneInFlight_ticks a _ es released Hd Hes Hone) as Hticks.
    destruct (oneInFlight_last_frame a _ T _ Hd HT Hticks)
      as (_ & _ & Hs).
    rewrite Hs. unfold a. simpl. ring.
  - intro Hnf.
    assert (E : Carousel.momentumApplies g now = false).
    { destruct (Carousel.momentumApplies g now) eqn:E; [|reflexivity].
      exfalso. apply Hnf. now apply Hcond. }
    destruct (Hno E) as [Hq Hs]. split; [exact Hq|]. split; [exact Hs|].
    intros Hidle es Hes.
    destruct (resting_ticks es released Hes) as [_ H].
    + now rewrite Hq.
    + rewrite H, Hs. reflexivity.
  - destruct Hmouse as [Hq Hs]. split; [exact Hq|]. split; [exact Hs|].
    intros Hidle es Hes.
    destruct (resting_ticks es mouseReleased Hes) as [_ H].
    + now rewrite Hq.
    + now rewrite H.
Qed.

(** Witness of C2: the sample flick (250 ms, 0.8 px/ms, offset 400,
    maximum offset 1200) comes to rest at 560. *)
Lemma momentum_on_release_witness :
  Carousel.isDragging (Carousel.gesture Samples.flickedRow) = true
  /\ (Carousel.scrollLeft (Carousel.slider Samples.flickedRow) == 400)%Q
  /\ (Carousel.velocityX (Carousel.gesture Samples.flickedRow) == 8 # 10)%Q
  /\ (Carousel.scrollLeft
        (Carousel.slider
           (Carousel.run
              ([Carousel.Timers 300; Carousel.Frame 316; Carousel.Timers 350;
                Carousel.Frame 500] ++ [Carousel.Frame 650])
              (Carousel.handleTouchEnd 250 Samples.flickedRow)))
      == 560)%Q.
Proof.
  split; [reflexivity|]. split; [reflexivity|]. split; [reflexivity|].
  destruct (momentum_on_release Samples.flickedRow 250 eq_refl)
    as (_ & Hfast & _).
  destruct Hfast as [_ Hsettle].
  - split; reflexivity.
  - rewrite (Hsettle eq_refl
               [Carousel.Timers 300; Carousel.Frame 316; Carousel.Timers 350;
                Carousel.Frame 500] 650 eq_refl).
    + reflexivity.
    + vm_compute; discriminate.
Defined.

(** C2 as stated fails for mouse drags. On the wide sample row scrolled to
    300 the mouse button goes down at x = 400 and the pointer is dragged
    200 px to the left, to x = 200, before the button is released at
    250 ms: however fast that was (the mouse handlers read no time and
    measure no speed), the release schedules no animation, and frames and
    timer ticks leave the row at 500, its offset at release. Nor does the
    speed the closure holds decide: with the 0.8 px/ms and 250 ms of the
    sample flick recorded, [handleTouchEnd] starts the momentum animation
    and [handleMouseUp] starts none. *)
Lemma mouse_release_starts_no_momentum :
  let dragged :=
    Carousel.run
      [Carousel.MouseDown 400; Carousel.MouseMove 300; Carousel.MouseMove 200]
      Samples.rowAt300 in
  let released := Carousel.step dragged (Carousel.MouseUp 250) in
  Carousel.isDragging (Carousel.gesture dragged) = true
  /\ (Carousel.scrollLeft (Carousel.slider dragged) == 500)%Q
  /\ Carousel.frameCallbacks released = []
  /\ (Carousel.scrollLeft
        (Carousel.slider
           (Carousel.run
              [Carousel.Frame 266; Carousel.Timers 300; Carousel.Frame 316;
               Carousel.Timers 350; Carousel.Frame 700] released))
      == 500)%Q
  /\ Carousel.momentumApplies (Carousel.gesture Samples.flickedRow) 250
     = true
  /\ List.length
       (Carousel.frameCallbacks
          (Carousel.handleTouchEnd 250 Samples.flickedRow)) = 1%nat
  /\ Carousel.frameCallbacks (Carousel.handleMouseUp 250 Samples.flickedRow)
     = [].
Proof.
  cbv zeta.
  split; [vm_compute; reflexivity|]. split; [vm_compute; reflexivity|].
  split; [vm_compute; reflexivity|]. split; [vm_compute; reflexivity|].
  split; [vm_compute; reflexivity|]. split; vm_compute; reflexivity.
Qed.

(** ** Gesture classification *)

Section GestureFacts.

Import JS Carousel Invariants.
Local Open Scope Q_scope.

(** While dragging, a move sample keeps both flags set. *)
Lemma handleTouchMove_keeps_dragging (touch : option (Q * Q)) (now : Q)
    (r : Row) :
  isScrolling (gesture r) = true -> isDragging (gesture r) = true ->
  isScrolling (gesture (fst (handleTouchMove touch now r))) = true
  /\ isDragging (gesture (fst (handleTouchMove touch now r))) = true.
Proof.
  intros Hs Hd. destruct touch as [[x y]|]; simpl.
  - unfold detect. rewrite Hs, Hd. simpl. rewrite Hs, Hd. simpl.
    split; assumption.
  - split; assumption.
Qed.

Lemma dragging_step (e : Event) (r : Row) :
  keepsContact e = true ->
  isScrolling (gesture r) = true -> isDragging (gesture r) = true ->
  isScrolling (gesture (step r e)) = true
  /\ isDragging (gesture (step r e)) = true.
Proof.
  intros He Hs Hd. destruct e; try discriminate; simpl.
  - destruct (runFrame_frame currentTime r) as (_ & _ & K & _).
    rewrite K. split; assumption.
  - destruct (runTimers_keeps now r) as (_ & _ & _ & K).
    rewrite K. split; assumption.
  - now apply handleTouchMove_keeps_dragging.
  - split; assumption.
  - split; assumption.
Qed.

Lemma dragging_run (es : list Event) (r : Row) :
  forallb keepsContact es = true ->
  isScrolling (gesture r) = true -> isDragging (gesture r) = true ->
  isScrolling (gesture (run es r)) = true
  /\ isDragging (gesture (run es r)) = true.
Proof.
  revert r. induction es as [|e es IH]; intros r Hes Hs Hd.
  - split; assumption.
  - simpl in Hes. apply andb_true_iff in Hes. destruct Hes as [He Hes].
    destruct (dragging_step e r He Hs Hd) as [Hs' Hd'].
    simpl. now apply IH.
Qed.

End GestureFacts.

(** C6, as the code has it. While the session is undecided, a move sample
    whose vertical delta dominates and exceeds 10 px is passed through
    without any change of state, so the decision is taken again on the next
    sample: a later sample whose horizontal delta dominates and exceeds
    10 px still starts the drag. Once the drag has started, no move sample,
    frame, timer tick or delivery of a scroll or resize event ends it; the
    release does. *)
Theorem gesture_classification (r : Carousel.Row) :
  let g := Carousel.gesture r in
  (forall x y now : Q,
      Carousel.isScrolling g = false -> Carousel.isDragging g = false ->
      (Qabs (Carousel.startX g - x) < Qabs (Carousel.startY g - y))%Q ->
      (10 < Qabs (Carousel.startY g - y))%Q ->
      Carousel.handleTouchMove (Some (x, y)) now r = (r, false))
  /\ (forall x y now : Q,
        Carousel.isScrolling g = false -> Carousel.isDragging g = false ->
        (Qabs (Carousel.startY g - y) < Qabs (Carousel.startX g - x))%Q ->
        (10 < Qabs (Carousel.startX g - x))%Q ->
        let moved := Carousel.handleTouchMove (Some (x, y)) now r in
        Carousel.isScrolling (Carousel.gesture (fst moved)) = true
        /\ Carousel.isDragging (Carousel.gesture (fst moved)) = true
        /\ snd moved = true)
  /\ (Carousel.isScrolling g = true -> Carousel.isDragging g = true ->
      (forall es : list Carousel.Event,
          forallb Invariants.keepsContact es = true ->
          Carousel.isScrolling (Carousel.gesture (Carousel.run es r)) = true
          /\ Carousel.isDragging (Carousel.gesture (Carousel.run es r)) = true)
      /\ forall now : Q,
          Carousel.isScrolling
            (Carousel.gesture (Carousel.handleTouchEnd now r)) = false
          /\ Carousel.isDragging
               (Carousel.gesture (Carousel.handleTouchEnd now r)) = false).
Proof.
  cbv zeta. split; [|split].
  - intros x y now Hs Hd Hdom Hbig.
    unfold Carousel.handleTouchMove, Carousel.detect.
    rewrite Hs, Hd. cbn [negb andb]. unfold JS.Math_abs.
    assert (H1 : JS.ltb (Qabs (Carousel.startY (Carousel.gesture r) - y))
                   (Qabs (Carousel.startX (Carousel.gesture r) - x)) = false).
    { apply ltb_ge. now apply Qlt_le_weak. }
    rewrite H1. cbn [andb].
    apply ltb_lt in Hdom, Hbig. rewrite Hdom, Hbig. reflexivity.
  - intros x y now Hs Hd Hdom Hbig.
    unfold Carousel.handleTouchMove, Carousel.detect.
    rewrite Hs, Hd. cbn [negb andb]. unfold JS.Math_abs.
    apply ltb_lt in Hdom, Hbig. rewrite Hdom, Hbig. cbn.
    repeat split; reflexivity.
  - intros Hs Hd. split.
    + intros es Hes. now apply dragging_run.
    + intro now. unfold Carousel.handleTouchEnd. rewrite Hd. cbn [negb].
      split; reflexivity.
Qed.

(** Witness of C6 on the sample touch that starts 20 px down: it is still
    undecided, and a sample 50 px to the left starts the drag. *)
Lemma gesture_classification_witness :
  Carousel.isScrolling (Carousel.gesture Samples.verticalRow) = false
  /\ Carousel.isDragging (Carousel.gesture Samples.verticalRow) = false
  /\ Carousel.isDragging
       (Carousel.gesture
          (fst (Carousel.handleTouchMove (Some (50%Q, 120%Q)) 20
                  Samples.verticalRow))) = true.
Proof.
  split; [reflexivity|]. split; [reflexivity|].
  destruct (gesture_classification Samples.verticalRow) as (_ & Hstart & _).
  assert (Hmoved := Hstart 50%Q 120%Q 20%Q eq_refl eq_refl eq_refl eq_refl).
  exact (proj1 (proj2 Hmoved)).
Defined.

(** C6 as stated fails: the vertical decision is not final. The sample
    touch moves 20 px down first (vertical dominates, the sample is passed
    through), then 50 px to the left: the recognizer starts dragging,
    suppresses the default action and scrolls the row from 300 to 350. *)
Lemma vertical_decision_counterexample :
  Carousel.handleTouchMove (Some (100%Q, 120%Q)) 10
    (Carousel.handleTouchStart 100 100 0 Samples.rowAt300)
  = (Carousel.handleTouchStart 100 100 0 Samples.rowAt300, false)
  /\ Carousel.detect
       (Carousel.gesture (Carousel.handleTouchStart 100 100 0 Samples.rowAt300))
       (100 - 100)%Q (100 - 120)%Q
     = Carousel.PassThrough
  /\ Carousel.isDragging
       (Carousel.gesture
          (Carousel.run
             (Samples.verticalStart
                ++ [Carousel.TouchMove (Some (50%Q, 120%Q)) 20])
             Samples.rowAt300)) = true
  /\ snd (Carousel.handleTouchMove (Some (50%Q, 120%Q)) 20 Samples.verticalRow)
     = true
  /\ (Carousel.scrollLeft
        (Carousel.slider
           (Carousel.run
              (Samples.verticalStart
                 ++ [Carousel.TouchMove (Some (50%Q, 120%Q)) 20])
              Samples.rowAt300))
      == 350)%Q.
Proof.
  repeat split; vm_compute; reflexivity.
Qed.

(** ** The modal *)

Section ModalViewFacts.

Import Content JS Modal.
Local Open Scope Q_scope.

(** The state outside the listeners and the handler fields. *)
Lemma removeCloseListener_frame (a : App) :
  dom (removeCloseListener a) = dom a
  /\ currentModal (removeCloseListener a) = currentModal a
  /\ fields (removeCloseListener a) = fields a
  /\ timers (removeCloseListener a) = timers a
  /\ store (removeCloseListener a) = store a
  /\ nextSerial (removeCloseListener a) = nextSerial a.
Proof.
  unfold removeCloseListener.
  destruct (modalCloseHandler (fields a)); [destruct (hasCloseButton a)|];
    repeat split; reflexivity.
Qed.

Lemma removeOverlayListener_frame (a : App) :
  dom (removeOverlayListener a) = dom a
  /\ currentModal (removeOverlayListener a) = currentModal a
  /\ fields (removeOverlayListener a) = fields a
  /\ timers (removeOverlayListener a) = timers a
  /\ store (removeOverlayListener a) = store a
  /\ nextSerial (removeOverlayListener a) = nextSerial a.
Proof.
  unfold removeOverlayListener.
  destruct (modalOverlayClickHandler (fields a));
    [destruct (overlayPresent (dom a))|];
    repeat split; reflexivity.
Qed.

Lemma removeKeydownListener_frame (a : App) :
  dom (removeKeydownListener a) = dom a
  /\ currentModal (removeKeydownListener a) = currentModal a
  /\ fields (removeKeydownListener a) = fields a
  /\ timers (removeKeydownListener a) = timers a
  /\ store (removeKeydownListener a) = store a
  /\ nextSerial (removeKeydownListener a) = nextSerial a.
Proof.
  unfold removeKeydownListener.
  destruct (modalKeydownHandler (fields a)); repeat split; reflexivity.
Qed.

(** [removeModalEventListeners] writes listeners only. *)
Lemma removeModalEventListeners_frame (a : App) :
  dom (removeModalEventListeners a) = dom a
  /\ currentModal (removeModalEventListeners a) = currentModal a
  /\ fields (removeModalEventListeners a) = fields a
  /\ timers (removeModalEventListeners a) = timers a
  /\ store (removeModalEventListeners a) = store a
  /\ nextSerial (removeModalEventListeners a) = nextSerial a.
Proof.
  unfold removeModalEventListeners.
  destruct (removeCloseListener_frame a) as (A1 & A2 & A3 & A4 & A5 & A6).
  destruct (removeOverlayListener_frame (removeCloseListener a))
    as (B1 & B2 & B3 & B4 & B5 & B6).
  destruct (removeKeydownListener_frame
              (removeOverlayListener (removeCloseListener a)))
    as (C1 & C2 & C3 & C4 & C5 & C6).
  repeat split; congruence.
Qed.

Lemma setupModalActions_frame (a : App) :
  dom (setupModalActions a) = dom a
  /\ currentModal (setupModalActions a) = currentModal a
  /\ timers (setupModalActions a) = timers a
  /\ store (setupModalActions a) = store a.
Proof.
  unfold setupModalActions. destruct (hasActionButtons a);
    repeat split; reflexivity.
Qed.

Lemma registerCloseHandler_frame (a : App) :
  dom (registerCloseHandler a) = dom a
  /\ currentModal (registerCloseHandler a) = currentModal a
  /\ timers (registerCloseHandler a) = timers a
  /\ store (registerCloseHandler a) = store a.
Proof.
  unfold registerCloseHandler. destruct (hasCloseButton a);
    repeat split; reflexivity.
Qed.

Lemma setupModalInteractions_frame (a : App) :
  dom (setupModalInteractions a) = dom a
  /\ currentModal (setupModalInteractions a) = currentModal a
  /\ timers (setupModalInteractions a) = timers a
  /\ store (setupModalInteractions a) = store a.
Proof.
  unfold setupModalInteractions.
  destruct (removeModalEventListeners_frame a) as (A1 & A2 & _ & A4 & A5 & _).
  destruct (registerCloseHandler_frame (removeModalEventListeners a))
    as (B1 & B2 & B4 & B5).
  set (x := registerCloseHandler (removeModalEventListeners a)) in *.
  destruct (setupModalActions_frame
              (registerKeydownHandler (registerOverlayClickHandler x)))
    as (D1 & D2 & D4 & D5).
  rewrite D1, D2, D4, D5. clearbody x.
  unfold registerKeydownHandler, registerOverlayClickHandler.
  cbn [dom currentModal timers store bump set_fields set_listeners].
  repeat split; congruence.
Qed.

(** What the modal shows is read from [currentModal] and the DOM. *)
Lemma view_eq (a b : App) :
  dom a = dom b -> currentModal a = currentModal b -> view a = view b.
Proof. intros D C. unfold view. now rewrite D, C. Qed.

Lemma announce_frame (text : string) (now : Q) (a : App) :
  view (announce text now a) = view a
  /\ modalBody (dom (announce text now a)) = modalBody (dom a)
  /\ listeners (announce text now a) = listeners a
  /\ fields (announce text now a) = fields a
  /\ overlayPresent (dom (announce text now a)) = overlayPresent (dom a)
  /\ store (announce text now a) = store a.
Proof. repeat split; reflexivity. Qed.

(** The end of the deferred population, after the listeners are set up:
    focus on the close button and the announcement. *)
Lemma populate_tail (text : string) (now : Q) (x : App) :
  hasCloseButton x = true ->
  let y :=
    announce text now
      (if hasCloseButton x
       then set_dom (set_modalBody (modalBody (dom x)) true (dom x)) x
       else x) in
  view y = view x
  /\ modalBody (dom y) = modalBody (dom x)
  /\ store y = store x
  /\ listeners y = listeners x
  /\ fields y = fields x
  /\ overlayPresent (dom y) = overlayPresent (dom x).
Proof. intro H. cbv zeta. rewrite H. repeat split; reflexivity. Qed.

(** The deferred population writes the modal body and the listeners; it
    does not touch what the modal shows. *)
Lemma populated_frame (c : ContentItem) (now : Q) (a : App) :
  view (populated c now a) = view a
  /\ modalBody (dom (populated c now a)) = Details c
  /\ store (populated c now a) = store a.
Proof.
  destruct (setupModalInteractions_frame (set_innerHTML (Details c) a))
    as (D2 & C2 & _ & S2).
  assert (H : hasCloseButton
                (setupModalInteractions (set_innerHTML (Details c) a))
              = true).
  { unfold hasCloseButton. rewrite D2. reflexivity. }
  destruct (populate_tail
              ("Modal opened for " ++ title c ++ ". Press Escape to close.")
              now _ H) as (P1 & P2 & P3 & _).
  unfold populated, announceModalOpen. cbv zeta.
  rewrite P1, P2, P3, D2, S2, (view_eq _ _ D2 C2).
  repeat split; reflexivity.
Qed.

(** The callback runs to its end or stops at its first statement. *)
Lemma populate_cases (c : ContentItem) (now : Q) (a : App) :
  populate c now a = if renders c then populated c now a else a.
Proof.
  unfold populate, renders. now destruct (createModalContent c).
Qed.

(** What [createModalContent] returns is the markup of the record. *)
Lemma createModalContent_renders (c : ContentItem) :
  renders c = true -> createModalContent c = Returned (Details c).
Proof.
  unfold renders, createModalContent.
  destruct (joins (cast c) && joins (genres c)); [|discriminate].
  now destruct (type c).
Qed.

Lemma createModalContent_throws (c : ContentItem) :
  renders c = false -> createModalContent c = Thrown.
Proof.
  unfold renders. now destruct (createModalContent c).
Qed.

Lemma populate_frame (c : ContentItem) (now : Q) (a : App) :
  view (populate c now a) = view a
  /\ modalBody (dom (populate c now a))
     = (if renders c then Details c else modalBody (dom a))
  /\ store (populate c now a) = store a.
Proof.
  rewrite populate_cases. destruct (renders c).
  - apply populated_frame.
  - repeat split; reflexivity.
Qed.

Lemma runTimerCallback_view (now : Q) (a : App) (cb : TimerCallback) :
  view (runTimerCallback now a cb) = view a
  /\ store (runTimerCallback now a cb) = store a.
Proof.
  destruct cb; cbn [runTimerCallback].
  - destruct (populate_frame content now a) as (V & _ & S).
    split; assumption.
  - split; reflexivity.
  - split; reflexivity.
Qed.

Lemma fold_runTimerCallback_view (now : Q) (l : list TimerCallback)
    (a : App) :
  view (fold_left (runTimerCallback now) l a) = view a
  /\ store (fold_left (runTimerCallback now) l a) = store a.
Proof.
  revert a. induction l as [|cb l IH]; intro a; cbn [fold_left].
  - split; reflexivity.
  - destruct (IH (runTimerCallback now a cb)) as [V S].
    destruct (runTimerCallback_view now a cb) as [V' S'].
    split; [now rewrite V|now rewrite S].
Qed.

(** No timer callback changes what the modal shows. *)
Lemma runTimers_view (now : Q) (a : App) :
  view (Modal.runTimers now a) = view a.
Proof.
  unfold Modal.runTimers.
  now destruct (fold_runTimerCallback_view now (dueTimers now (timers a))
                  (set_timers (laterTimers now (timers a)) a)) as [V _].
Qed.

(** After [closeModal] the modal shows as closed. *)
Lemma closeModal_view (now : Q) (a : App) :
  overlayPresent (dom a) = true -> view (closeModal now a) = closedView.
Proof.
  intro Hp. unfold closeModal. rewrite Hp. cbn [negb].
  match goal with
  | |- context [announce ?txt now ?x] =>
      destruct (announce_frame txt now x) as (V & _); rewrite V
  end.
  reflexivity.
Qed.

(** [closeModal] leaves the modal body as it is. *)
Lemma closeModal_body (now : Q) (a : App) :
  modalBody (dom (closeModal now a)) = modalBody (dom a).
Proof.
  unfold closeModal. destruct (negb (overlayPresent (dom a))); [reflexivity|].
  match goal with
  | |- context [announce ?txt now ?x] =>
      destruct (announce_frame txt now x) as (_ & B & _); rewrite B
  end.
  cbn [dom set_dom set_currentModal set_body set_overlay modalBody].
  destruct (removeModalEventListeners_frame a) as (D & _).
  now rewrite D.
Qed.

End ModalViewFacts.

Section ModalTimerFacts.

Import Content JS Modal.
Local Open Scope Q_scope.

Lemma setTimeout_In (due : Q) (cb : TimerCallback)
    (q : list (Q * TimerCallback)) :
  In (due, cb) (setTimeout due cb q).
Proof.
  induction q as [|[d c] q IH]; simpl.
  - now left.
  - destruct (Qle_bool d due); simpl; auto.
Qed.

Lemma setTimeout_keeps (due : Q) (cb : TimerCallback)
    (q : list (Q * TimerCallback)) (e : Q * TimerCallback) :
  In e q -> In e (setTimeout due cb q).
Proof.
  induction q as [|[d c] q IH]; simpl; [tauto|].
  intros [H|H]; destruct (Qle_bool d due); simpl; auto.
Qed.

Lemma setTimeout_incl (due : Q) (cb : TimerCallback)
    (q : list (Q * TimerCallback)) (e : Q * TimerCallback) :
  In e (setTimeout due cb q) -> e = (due, cb) \/ In e q.
Proof.
  induction q as [|[d c] q IH]; simpl.
  - intros [H|[]]. now left.
  - destruct (Qle_bool d due); simpl.
    + intros [H|H]; [right; now left|].
      destruct (IH H); [now left|right; now right].
    + intros [H|[H|H]]; auto.
Qed.

Lemma noPopulatePending_setTimeout (due : Q) (cb : TimerCallback)
    (q : list (Q * TimerCallback)) :
  noPopulatePending (setTimeout due cb q)
  = negb (isPopulate cb) && noPopulatePending q.
Proof.
  unfold noPopulatePending.
  induction q as [|[d c] q IH]; simpl.
  - reflexivity.
  - destruct (Qle_bool d due); simpl.
    + rewrite IH. destruct (isPopulate c), (isPopulate cb); reflexivity.
    + reflexivity.
Qed.

Lemma dueTimers_In (now d : Q) (cb : TimerCallback)
    (q : list (Q * TimerCallback)) :
  d <= now -> In (d, cb) q -> In cb (dueTimers now q).
Proof.
  intros Hd Hin. unfold dueTimers.
  apply (in_map snd _ (d, cb)). apply filter_In. split; [assumption|].
  simpl. now apply Qle_bool_iff.
Qed.

Lemma dueTimers_incl (now : Q) (cb : TimerCallback)
    (q : list (Q * TimerCallback)) :
  In cb (dueTimers now q) -> exists d : Q, In (d, cb) q.
Proof.
  unfold dueTimers. intro H. apply in_map_iff in H.
  destruct H as [[d c] [Hc Hin]]. simpl in Hc. subst c.
  apply filter_In in Hin. exists d. tauto.
Qed.

Lemma noPopulatePending_In (q : list (Q * TimerCallback)) (d : Q)
    (cb : TimerCallback) :
  noPopulatePending q = true -> In (d, cb) q -> isPopulate cb = false.
Proof.
  unfold noPopulatePending. intros H Hin.
  rewrite forallb_forall in H. specialize (H _ Hin). simpl in H.
  now apply negb_true_iff in H.
Qed.

(** The timer callbacks that remove a toast or a live region leave the
    modal body alone. *)
Lemma removal_body (now : Q) (a : App) (cb : TimerCallback) :
  isPopulate cb = false ->
  modalBody (dom (runTimerCallback now a cb)) = modalBody (dom a).
Proof. destruct cb; [discriminate| |]; reflexivity. Qed.

(** If every population that fires is the one of [c], whose markup can be
    built, and one fires or the body already shows [c], the body shows [c]
    afterwards. *)
Lemma fold_runTimerCallback_body (now : Q) (c : ContentItem)
    (l : list TimerCallback) (a : App) :
  renders c = true ->
  (forall cb, In cb l -> isPopulate cb = true -> cb = Populate c) ->
  modalBody (dom a) = Details c \/ In (Populate c) l ->
  modalBody (dom (fold_left (runTimerCallback now) l a)) = Details c.
Proof.
  intro R.
  revert a. induction l as [|cb l IH]; intros a Hall H; cbn [fold_left].
  - destruct H as [H|[]]. exact H.
  - apply IH.
    + intros cb' Hin. apply Hall. now right.
    + destruct (isPopulate cb) eqn:E.
      * left. rewrite (Hall cb (or_introl eq_refl) E).
        cbn [runTimerCallback].
        destruct (populate_frame c now a) as (_ & B & _).
        now rewrite B, R.
      * rewrite (removal_body now a cb E).
        destruct H as [H|[H|H]]; [now left| |now right].
        subst cb. discriminate.
Qed.

(** If every population that fires is one whose markup cannot be built,
    the body stays as it is. *)
Lemma fold_runTimerCallback_thrown (now : Q) (l : list TimerCallback)
    (a : App) :
  (forall c, In (Populate c) l -> renders c = false) ->
  modalBody (dom (fold_left (runTimerCallback now) l a)) = modalBody (dom a).
Proof.
  revert a. induction l as [|cb l IH]; intros a Hall; cbn [fold_left].
  - reflexivity.
  - rewrite IH by (intros c Hin; apply Hall; now right).
    destruct cb as [c| |]; try reflexivity.
    cbn [runTimerCallback].
    destruct (populate_frame c now a) as (_ & B & _).
    now rewrite B, (Hall c (or_introl eq_refl)).
Qed.

(** An open request for a resolvable id: the modal shows as open for it,
    the loading state is in the body, and the population is scheduled. *)
Lemma openModal_resolved (a : App) (cid : string) (c : ContentItem)
    (now : Q) :
  overlayPresent (dom a) = true -> contentPresent (dom a) = true ->
  getContentById (store a) cid = Some c ->
  view (openModal cid now a) = openView cid
  /\ modalBody (dom (openModal cid now a)) = LoadingState
  /\ timers (openModal cid now a)
     = setTimeout (now + 100) (Populate c) (timers a)
  /\ overlayPresent (dom (openModal cid now a)) = true
  /\ store (openModal cid now a) = store a.
Proof.
  intros Ho Hc Hres. unfold openModal. rewrite Ho, Hc, Hres.
  cbn [negb orb]. repeat split; try reflexivity. cbn. exact Ho.
Qed.

Lemma closeModal_timers (now : Q) (a : App) :
  overlayPresent (dom a) = true ->
  timers (closeModal now a)
  = setTimeout (now + 1000) (RemoveAnnouncement (nextSerial a)) (timers a).
Proof.
  intro Hp. unfold closeModal. rewrite Hp. cbn [negb].
  destruct (removeModalEventListeners_frame a) as (_ & _ & _ & T & _ & N).
  unfold announce, after.
  cbn [timers set_timers bump set_dom set_currentModal nextSerial].
  now rewrite T, N.
Qed.

(** The body after a timer tick in which the population of [c] fires:
    the markup of [c], or what was there when [createModalContent]
    throws. *)
Lemma runTimers_populates (t d : Q) (c : ContentItem) (a : App)
    (q : list (Q * TimerCallback)) :
  noPopulatePending q = true -> d <= t ->
  In (d, Populate c) (timers a) ->
  (forall e, In e (timers a) -> e = (d, Populate c) \/ In e q
                                \/ isPopulate (snd e) = false) ->
  modalBody (dom (Modal.runTimers t a))
  = if renders c then Details c else modalBody (dom a).
Proof.
  intros Hq Hd Hin Hall. unfold Modal.runTimers.
  assert (Hone : forall cb, In cb (dueTimers t (timers a)) ->
                   isPopulate cb = true -> cb = Populate c).
  { intros cb Hcb Hpop. apply dueTimers_incl in Hcb. destruct Hcb as [d' Hcb].
    destruct (Hall _ Hcb) as [H|[H|H]].
    + now inversion H.
    + rewrite (noPopulatePending_In q d' cb Hq H) in Hpop. discriminate.
    + simpl in H. congruence. }
  destruct (renders c) eqn:R.
  - apply fold_runTimerCallback_body; [exact R|exact Hone|].
    right. eapply dueTimers_In; eauto.
  - rewrite fold_runTimerCallback_thrown; [reflexivity|].
    intros c' Hc'. pose proof (Hone _ Hc' eq_refl) as E.
    inversion E; subst c'. exact R.
Qed.

Lemma body_of_markup (c : ContentItem) (before : ModalBody) :
  (if renders c then Details c else before)
  = match createModalContent c with
    | Returned markup => markup
    | Thrown => before
    end.
Proof.
  destruct (renders c) eqn:R.
  - now rewrite (createModalContent_renders c R).
  - now rewrite (createModalContent_throws c R).
Qed.

End ModalTimerFacts.



(** The other case of C4 on the sample page: the hero has no [type], the
    call of [createModalContent] throws in the callback, and the modal stays
    open for ["hero-1"] in its loading state; no listener of the close
    button is registered. *)
Lemma openModal_placeholder_stays_loading :
  Content.getContentById (Modal.store Samples.page) "hero-1"
  = Some Samples.featured
  /\ Modal.createModalContent Samples.featured = Content.Thrown
  /\ Modal.view (Modal.runTimers 100 (Modal.openModal "hero-1" 0 Samples.page))
     = Modal.openView "hero-1"
  /\ Modal.modalBody
       (Modal.dom
          (Modal.runTimers 100 (Modal.openModal "hero-1" 0 Samples.page)))
     = Modal.LoadingState
  /\ Modal.onCloseClick
       (Modal.listeners
          (Modal.runTimers 100 (Modal.openModal "hero-1" 0 Samples.page)))
     = [].
Proof. repeat split; vm_compute; reflexivity. Qed.

(** ** A close during the population delay *)

(** C3, as the code has it. [openModal] schedules the population
    unconditionally and [closeModal] does not cancel it; the callback tests
    nothing before it runs and, unless [createModalContent] throws for the
    record (then the body keeps the loading state), fills the modal body
    with the record's markup. What the modal shows is not overridden by
    it: after a close issued during the delay, and after whatever timers
    fire later, the overlay is still hidden, [currentModal] is still null
    and page scroll is still unlocked. *)
Theorem close_during_population_delay
    (a : Modal.App) (cid : string) (c : Content.ContentItem) (now tc t : Q) :
  Modal.overlayPresent (Modal.dom a) = true ->
  Modal.contentPresent (Modal.dom a) = true ->
  Content.getContentById (Modal.store a) cid = Some c ->
  let closed := Modal.closeModal tc (Modal.openModal cid now a) in
  let later := Modal.runTimers t closed in
  In ((now + 100)%Q, Modal.Populate c)
    (Modal.timers (Modal.openModal cid now a))
  /\ In ((now + 100)%Q, Modal.Populate c) (Modal.timers closed)
  /\ Modal.view closed = Modal.closedView
  /\ Modal.view later = Modal.closedView
  /\ Modal.modalBody (Modal.dom closed) = Modal.LoadingState
  /\ (Modal.noPopulatePending (Modal.timers a) = true ->
      (now + 100 <= t)%Q ->
      Modal.modalBody (Modal.dom later)
      = match Modal.createModalContent c with
        | Content.Returned markup => markup
        | Content.Thrown => Modal.LoadingState
        end)
  /\ (Modal.renders c = true ->
      Modal.createModalContent c = Content.Returned (Modal.Details c)).
Proof.
  intros Ho Hc Hres closed later.
  destruct (openModal_resolved a cid c now Ho Hc Hres)
    as (_ & L & T & Ho' & _).
  assert (Lc : Modal.modalBody (Modal.dom closed) = Modal.LoadingState).
  { subst closed. rewrite <- L. apply closeModal_body. }
  assert (Tc : Modal.timers closed
               = JS.setTimeout (tc + 1000)%Q
                   (Modal.RemoveAnnouncement
                      (Modal.nextSerial (Modal.openModal cid now a)))
                   (JS.setTimeout (now + 100)%Q (Modal.Populate c)
                      (Modal.timers a))).
  { subst closed. rewrite (closeModal_timers tc _ Ho'). now rewrite T. }
  assert (Vc : Modal.view closed = Modal.closedView).
  { subst closed. now apply closeModal_view. }
  split; [rewrite T; apply setTimeout_In|].
  split; [rewrite Tc; apply setTimeout_keeps, setTimeout_In|].
  split; [exact Vc|].
  split; [subst later; now rewrite runTimers_view|].
  split; [exact Lc|].
  split; [|apply createModalContent_renders].
  intros Hq Ht. subst later.
  rewrite <- body_of_markup, <- Lc.
  apply (runTimers_populates t (now + 100)%Q c closed (Modal.timers a) Hq Ht).
  - rewrite Tc. apply setTimeout_keeps, setTimeout_In.
  - intros e He. rewrite Tc in He.
    destruct (setTimeout_incl _ _ _ _ He) as [H|H].
    + right; right. now rewrite H.
    + destruct (setTimeout_incl _ _ _ _ H); auto.
Qed.

(** Witness of C3: the sample page, opened at 0 ms and closed at 50 ms. *)
Lemma close_during_population_delay_witness :
  Modal.overlayPresent (Modal.dom Samples.page) = true
  /\ Modal.contentPresent (Modal.dom Samples.page) = true
  /\ Content.getContentById (Modal.store Samples.page) "m1"
     = Some Samples.movie1
  /\ Modal.view
       (Modal.runTimers 100
          (Modal.closeModal 50 (Modal.openModal "m1" 0 Samples.page)))
     = Modal.closedView.
Proof.
  split; [reflexivity|]. split; [reflexivity|]. split; [reflexivity|].
  exact (proj1 (proj2 (proj2 (proj2
           (close_during_population_delay Samples.page "m1" Samples.movie1
              0 50 100 eq_refl eq_refl eq_refl))))).
Defined.

(** C3 as stated fails: the population is not discarded. On the sample
    page the movie is opened at 0 ms and the modal is closed at 50 ms; the
    callback that fires at 100 ms replaces the loading state by the movie's
    details although the modal shows as closed. *)
Lemma deferred_population_not_discarded :
  Modal.view (Modal.run [Modal.Open "m1" 0; Modal.Close 50] Samples.page)
  = Modal.closedView
  /\ Modal.modalBody
       (Modal.dom
          (Modal.run [Modal.Open "m1" 0; Modal.Close 50] Samples.page))
     = Modal.LoadingState
  /\ Modal.view Samples.hastyClose = Modal.closedView
  /\ Modal.modalBody (Modal.dom Samples.hastyClose)
     = Modal.Details Samples.movie1
  /\ Modal.modalBody (Modal.dom Samples.hastyClose) <> Modal.LoadingState.
Proof.
  repeat split; try (vm_compute; reflexivity).
  vm_compute. discriminate.
Qed.

(** ** Listener slots *)

Section ModalListenerFacts.

Import Content JS Modal.
Local Open Scope Q_scope.

Lemma sameHandler_refl (h : Handler) : sameHandler h h = true.
Proof. unfold sameHandler. apply Nat.eqb_refl. Qed.

Lemma slot_remove (h : Handler) (l : list Handler) :
  slot (Some h) l -> removeEventListener h l = [].
Proof.
  destruct l as [|x [|y l]]; simpl.
  - reflexivity.
  - intros (h' & E & S). inversion E; subst. now rewrite S.
  - contradiction.
Qed.

Lemma slot_None (l : list Handler) : slot None l -> l = [].
Proof.
  destruct l as [|x [|y l]]; simpl.
  - reflexivity.
  - intros (h' & E & _). discriminate.
  - contradiction.
Qed.

Lemma slot_removeIfSet (f : option Handler) (l : list Handler) :
  slot f l -> removeIfSet f l = [].
Proof.
  destruct f as [h|]; simpl.
  - apply slot_remove.
  - apply slot_None.
Qed.

Lemma slot_nil (f : option Handler) : slot f [].
Proof. exact I. Qed.

Lemma slot_add_nil (h : Handler) : slot (Some h) (addEventListener h []).
Proof. simpl. exists h. split; [reflexivity|apply sameHandler_refl]. Qed.

Lemma slot_length (f : option Handler) (l : list Handler) :
  slot f l -> (List.length l <= 1)%nat.
Proof.
  destruct l as [|x [|y l]]; simpl; intro H; [lia|lia|contradiction].
Qed.

Lemma filter_remove_comm (h : Handler) (l : list Handler) :
  filter modalScoped (removeEventListener h l)
  = removeEventListener h (filter modalScoped l).
Proof.
  unfold removeEventListener. induction l as [|x l IH]; simpl.
  - reflexivity.
  - destruct (sameHandler h x) eqn:E, (modalScoped x) eqn:M; simpl;
      rewrite ?E, ?M, ?IH; reflexivity.
Qed.

Lemma filter_add_scoped (h : Handler) (l : list Handler) :
  modalScoped h = true -> filter modalScoped l = [] ->
  slot (Some h) (filter modalScoped (addEventListener h l)).
Proof.
  intros M E. unfold addEventListener. destruct (existsb (sameHandler h) l).
  - rewrite E. exact I.
  - rewrite filter_app, E. simpl. rewrite M. simpl.
    exists h. split; [reflexivity|apply sameHandler_refl].
Qed.

Lemma filter_add_unscoped (h : Handler) (l : list Handler) :
  modalScoped h = false ->
  filter modalScoped (addEventListener h l) = filter modalScoped l.
Proof.
  intro M. unfold addEventListener. destruct (existsb (sameHandler h) l).
  - reflexivity.
  - rewrite filter_app. simpl. rewrite M. apply app_nil_r.
Qed.

(** Coherence reads the listeners, the handler fields, the modal body and
    the presence of the overlay. *)
Lemma coherent_ext (a b : App) :
  listeners b = listeners a -> fields b = fields a ->
  modalBody (dom b) = modalBody (dom a) ->
  overlayPresent (dom b) = overlayPresent (dom a) ->
  coherent a -> coherent b.
Proof.
  intros L F B O. unfold coherent, hasCloseButton. now rewrite L, F, B, O.
Qed.

Lemma set_onCloseClick_same (l : Listeners) :
  set_onCloseClick (onCloseClick l) l = l.
Proof. now destruct l. Qed.

Lemma set_onOverlayClick_same (l : Listeners) :
  set_onOverlayClick (onOverlayClick l) l = l.
Proof. now destruct l. Qed.

Lemma set_onKeydown_same (l : Listeners) :
  set_onKeydown (onKeydown l) l = l.
Proof. now destruct l. Qed.

(** The first block leaves no listener on the close button. *)
Lemma removeCloseListener_listeners (a : App) :
  coherent a ->
  listeners (removeCloseListener a) = set_onCloseClick [] (listeners a).
Proof.
  intros (S1 & _ & _ & _ & _ & _ & Hno & _). unfold removeCloseListener.
  destruct (modalCloseHandler (fields a)) as [h|].
  - destruct (hasCloseButton a).
    + cbn [listeners set_listeners]. now rewrite (slot_remove h _ S1).
    + rewrite <- (Hno eq_refl). symmetry. apply set_onCloseClick_same.
  - rewrite <- (slot_None _ S1). symmetry. apply set_onCloseClick_same.
Qed.

(** The second block leaves no modal-scoped listener on the overlay. *)
Lemma removeOverlayListener_listeners (a : App) :
  overlayPresent (dom a) = true ->
  slot (modalOverlayClickHandler (fields a))
    (filter modalScoped (onOverlayClick (listeners a))) ->
  exists X : list Handler,
    listeners (removeOverlayListener a) = set_onOverlayClick X (listeners a)
    /\ filter modalScoped X = [].
Proof.
  intros Ho S2. unfold removeOverlayListener. rewrite Ho.
  destruct (modalOverlayClickHandler (fields a)) as [h|].
  - eexists. split; [reflexivity|].
    rewrite filter_remove_comm. now apply slot_remove.
  - exists (onOverlayClick (listeners a)). split.
    + symmetry. apply set_onOverlayClick_same.
    + now apply slot_None.
Qed.

(** The third block leaves no modal-scoped keydown listener. *)
Lemma removeKeydownListener_listeners (a : App) :
  slot (modalKeydownHandler (fields a))
    (filter modalScoped (onKeydown (listeners a))) ->
  exists X : list Handler,
    listeners (removeKeydownListener a) = set_onKeydown X (listeners a)
    /\ filter modalScoped X = [].
Proof.
  intro S3. unfold removeKeydownListener.
  destruct (modalKeydownHandler (fields a)) as [h|].
  - eexists. split; [reflexivity|].
    rewrite filter_remove_comm. now apply slot_remove.
  - exists (onKeydown (listeners a)). split.
    + symmetry. apply set_onKeydown_same.
    + now apply slot_None.
Qed.

(** In a coherent state [removeModalEventListeners] removes every listener
    [setupModalInteractions] has registered, and nothing else. *)
Lemma removeModalEventListeners_clears (a : App) :
  coherent a ->
  exists X Y : list Handler,
    listeners (removeModalEventListeners a)
    = set_onKeydown Y (set_onOverlayClick X (set_onCloseClick [] (listeners a)))
    /\ filter modalScoped X = []
    /\ filter modalScoped Y = [].
Proof.
  intro H. pose proof H as (S1 & S2 & S3 & _ & _ & _ & _ & Ho).
  unfold removeModalEventListeners.
  pose proof (removeCloseListener_listeners a H) as L1.
  destruct (removeCloseListener_frame a) as (D1 & _ & F1 & _).
  destruct (removeOverlayListener_listeners (removeCloseListener a))
    as (X & L2 & EX).
  { now rewrite D1. }
  { now rewrite F1, L1. }
  destruct (removeOverlayListener_frame (removeCloseListener a))
    as (D2 & _ & F2 & _).
  destruct (removeKeydownListener_listeners
              (removeOverlayListener (removeCloseListener a)))
    as (Y & L3 & EY).
  { now rewrite F2, F1, L2, L1. }
  exists X, Y. split; [|split; assumption].
  now rewrite L3, L2, L1.
Qed.

End ModalListenerFacts.

Section ModalCoherence.

Import Content JS Modal.
Local Open Scope Q_scope.

(** Projections of the records after the setters. *)
Ltac project :=
  cbn [listeners fields dom currentModal timers store nextSerial
       bump set_fields set_listeners set_dom set_timers set_currentModal
       set_onCloseClick set_onOverlayClick set_onKeydown
       onCloseClick onOverlayClick onKeydown onPlayClick onListClick
       onLikeClick
       modalCloseHandler modalOverlayClickHandler modalKeydownHandler
       modalPlayHandler modalListHandler modalLikeHandler
       set_modalBody set_overlay set_body set_notifications set_announcements
       modalBody overlayPresent set_innerHTML] in *.

Lemma coherent_removeModalEventListeners (a : App) :
  coherent a ->
  coherent (removeModalEventListeners a)
  /\ onCloseClick (listeners (removeModalEventListeners a)) = []
  /\ filter modalScoped (onOverlayClick (listeners (removeModalEventListeners a)))
     = []
  /\ filter modalScoped (onKeydown (listeners (removeModalEventListeners a)))
     = [].
Proof.
  intro H. destruct (removeModalEventListeners_clears a H) as (X & Y & L & EX & EY).
  destruct (removeModalEventListeners_frame a) as (D & _ & F & _).
  destruct H as (S1 & S2 & S3 & S4 & S5 & S6 & Hno & Ho).
  unfold coherent, hasCloseButton. rewrite L, F, D. project.
  rewrite EX, EY. repeat split; auto; exact I.
Qed.

Lemma coherent_registerCloseHandler (x : App) :
  coherent x -> onCloseClick (listeners x) = [] ->
  coherent (registerCloseHandler x)
  /\ onOverlayClick (listeners (registerCloseHandler x))
     = onOverlayClick (listeners x)
  /\ onKeydown (listeners (registerCloseHandler x)) = onKeydown (listeners x).
Proof.
  intros H E. pose proof H as (S1 & S2 & S3 & S4 & S5 & S6 & Hno & Ho).
  unfold registerCloseHandler. destruct (hasCloseButton x) eqn:B.
  - unfold coherent, hasCloseButton, fresh in *. project. rewrite E.
    repeat split; auto.
    + apply slot_add_nil.
    + intro K. rewrite B in K. discriminate.
  - repeat split; auto.
Qed.

Lemma coherent_registerOverlayClickHandler (x : App) :
  coherent x -> filter modalScoped (onOverlayClick (listeners x)) = [] ->
  coherent (registerOverlayClickHandler x)
  /\ onKeydown (listeners (registerOverlayClickHandler x))
     = onKeydown (listeners x).
Proof.
  intros H E. pose proof H as (S1 & S2 & S3 & S4 & S5 & S6 & Hno & Ho).
  unfold registerOverlayClickHandler, coherent, hasCloseButton, fresh in *.
  project. repeat split; auto.
  now apply filter_add_scoped.
Qed.

Lemma coherent_registerKeydownHandler (x : App) :
  coherent x -> filter modalScoped (onKeydown (listeners x)) = [] ->
  coherent (registerKeydownHandler x).
Proof.
  intros H E. pose proof H as (S1 & S2 & S3 & S4 & S5 & S6 & Hno & Ho).
  unfold registerKeydownHandler, coherent, hasCloseButton, fresh in *.
  project. repeat split; auto.
  now apply filter_add_scoped.
Qed.

Lemma coherent_setupModalActions (x : App) :
  coherent x -> coherent (setupModalActions x).
Proof.
  intro H. pose proof H as (S1 & S2 & S3 & S4 & S5 & S6 & Hno & Ho).
  unfold setupModalActions. destruct (hasActionButtons x); [|exact H].
  unfold coherent, hasCloseButton in *. project.
  rewrite (slot_removeIfSet _ _ S4), (slot_removeIfSet _ _ S5),
    (slot_removeIfSet _ _ S6).
  repeat split; auto; apply slot_add_nil.
Qed.

Lemma coherent_setupModalInteractions (a : App) :
  coherent a -> coherent (setupModalInteractions a).
Proof.
  intro H. unfold setupModalInteractions.
  destruct (coherent_removeModalEventListeners a H) as (H0 & E1 & E2 & E3).
  destruct (coherent_registerCloseHandler _ H0 E1) as (H1 & K2 & K3).
  rewrite <- K2 in E2. rewrite <- K3 in E3.
  destruct (coherent_registerOverlayClickHandler _ H1 E2) as (H2 & L3).
  rewrite <- L3 in E3.
  apply coherent_setupModalActions.
  now apply coherent_registerKeydownHandler.
Qed.

Lemma coherent_set_innerHTML (b : ModalBody) (a : App) :
  coherent a -> coherent (set_innerHTML b a).
Proof.
  intros (S1 & S2 & S3 & S4 & S5 & S6 & Hno & Ho).
  unfold coherent, hasCloseButton in *. project.
  repeat split; auto; exact I.
Qed.

Lemma coherent_populate (c : ContentItem) (now : Q) (a : App) :
  coherent a -> coherent (populate c now a).
Proof.
  intro H. rewrite populate_cases. destruct (renders c); [|exact H].
  pose proof (coherent_setupModalInteractions _
                (coherent_set_innerHTML (Details c) a H)) as H2.
  destruct (setupModalInteractions_frame (set_innerHTML (Details c) a))
    as (D2 & _).
  assert (B : hasCloseButton
                (setupModalInteractions (set_innerHTML (Details c) a))
              = true).
  { unfold hasCloseButton. rewrite D2. reflexivity. }
  destruct (populate_tail
              ("Modal opened for " ++ title c ++ ". Press Escape to close.")
              now _ B) as (_ & P2 & _ & P4 & P5 & P6).
  unfold populated, announceModalOpen. cbv zeta.
  eapply coherent_ext; [exact P4|exact P5|exact P2|exact P6|exact H2].
Qed.

Lemma coherent_closeModal (now : Q) (a : App) :
  coherent a ->
  coherent (closeModal now a)
  /\ onCloseClick (listeners (closeModal now a)) = []
  /\ filter modalScoped (onOverlayClick (listeners (closeModal now a))) = []
  /\ filter modalScoped (onKeydown (listeners (closeModal now a))) = []
  /\ onPlayClick (listeners (closeModal now a)) = onPlayClick (listeners a)
  /\ onListClick (listeners (closeModal now a)) = onListClick (listeners a)
  /\ onLikeClick (listeners (closeModal now a)) = onLikeClick (listeners a).
Proof.
  intro H. pose proof H as (_ & _ & _ & _ & _ & _ & _ & Ho).
  destruct (coherent_removeModalEventListeners a H) as (H0 & E1 & E2 & E3).
  destruct (removeModalEventListeners_clears a H) as (X & Y & L & EX & EY).
  unfold closeModal. rewrite Ho. cbn [negb].
  set (x := removeModalEventListeners a) in *. clearbody x.
  unfold announce, after. split.
  - eapply coherent_ext; [| | | |exact H0]; reflexivity.
  - project. rewrite L. project. repeat split; assumption.
Qed.

Lemma coherent_openModal (cid : string) (now : Q) (a : App) :
  coherent a -> coherent (openModal cid now a).
Proof.
  intro H. unfold openModal.
  destruct (negb (overlayPresent (dom a)) || negb (contentPresent (dom a)));
    [exact H|].
  destruct (getContentById (store a) cid) as [c|].
  - pose proof (coherent_set_innerHTML LoadingState
                  (set_currentModal (Some cid) a)) as K.
    assert (H1 : coherent (set_currentModal (Some cid) a)).
    { eapply coherent_ext; [| | | |exact H]; reflexivity. }
    specialize (K H1).
    eapply coherent_ext; [| | | |exact K]; reflexivity.
  - eapply coherent_ext; [| | | |exact H]; reflexivity.
Qed.

Lemma coherent_runTimerCallback (now : Q) (a : App) (cb : TimerCallback) :
  coherent a -> coherent (runTimerCallback now a cb).
Proof.
  intro H. destruct cb; cbn [runTimerCallback].
  - now apply coherent_populate.
  - eapply coherent_ext; [| | | |exact H]; reflexivity.
  - eapply coherent_ext; [| | | |exact H]; reflexivity.
Qed.

Lemma coherent_fold_timers (now : Q) (l : list TimerCallback) (a : App) :
  coherent a -> coherent (fold_left (runTimerCallback now) l a).
Proof.
  revert a. induction l as [|cb l IH]; intros a H; cbn [fold_left].
  - exact H.
  - apply IH. now apply coherent_runTimerCallback.
Qed.

Lemma coherent_runTimers (now : Q) (a : App) :
  coherent a -> coherent (Modal.runTimers now a).
Proof.
  intro H. unfold Modal.runTimers. apply coherent_fold_timers.
  eapply coherent_ext; [| | | |exact H]; reflexivity.
Qed.

Lemma coherent_invoke (h : Handler) (key : option Key) (onOverlay : bool)
    (now : Q) (a : App) :
  coherent a -> coherent (invoke h key onOverlay now a).
Proof.
  intro H. pose proof (coherent_closeModal now a H) as (K & _).
  unfold invoke.
  destruct (hkind h); try destruct key as [[| |]|]; try destruct onOverlay;
    try destruct (truthy (currentModal a)); assumption.
Qed.

Lemma coherent_dispatch (current : App -> list Handler)
    (snapshot : list Handler) (key : option Key) (onOverlay : bool) (now : Q)
    (a : App) :
  coherent a -> coherent (fst (dispatch current snapshot key onOverlay now a)).
Proof.
  revert a. induction snapshot as [|h rest IH]; intros a H; cbn [dispatch].
  - exact H.
  - destruct (existsb (sameHandler h) (current a)).
    + specialize (IH _ (coherent_invoke h key onOverlay now a H)).
      destruct (dispatch current rest key onOverlay now
                  (invoke h key onOverlay now a)). exact IH.
    + now apply IH.
Qed.

Lemma coherent_step (a : App) (e : Event) : coherent a -> coherent (step a e).
Proof.
  intro H. destruct e; cbn [step].
  - now apply coherent_openModal.
  - now apply coherent_closeModal.
  - now apply coherent_runTimers.
  - now apply coherent_dispatch.
  - now apply coherent_dispatch.
  - now apply coherent_dispatch.
  - eapply coherent_ext; [| | | |exact H]; reflexivity.
Qed.

Lemma coherent_run (es : list Event) (a : App) :
  coherent a -> coherent (run es a).
Proof.
  revert a. induction es as [|e es IH]; intros a H.
  - exact H.
  - apply IH. now apply coherent_step.
Qed.

(** The page is coherent when it has finished loading. *)
Lemma coherent_loadedPage (data : option ContentData) (reachable : bool) :
  coherent (setupModalSystem (loadedPage data reachable)).
Proof.
  unfold coherent, hasCloseButton. cbn.
  repeat split; auto; exact I.
Qed.

End ModalCoherence.

Section ModalAfterClose.

Import Content JS Modal.
Local Open Scope Q_scope.

Lemma filter_nil_forall (f : Handler -> bool) (l : list Handler) :
  filter f l = [] -> forall h, In h l -> f h = false.
Proof.
  induction l as [|x l IH]; simpl; [tauto|].
  destruct (f x) eqn:E; [discriminate|].
  intros H h [K|K]; [now subst|auto].
Qed.

Lemma forall_filter_nil (f : Handler -> bool) (l : list Handler) :
  (forall h, In h l -> f h = false) -> filter f l = [].
Proof.
  induction l as [|x l IH]; simpl; intro H; [reflexivity|].
  rewrite (H x (or_introl eq_refl)). apply IH. intros h K. apply H. now right.
Qed.

(** Timer callbacks other than a population leave listeners alone. *)
Lemma removal_listeners (now : Q) (a : App) (cb : TimerCallback) :
  isPopulate cb = false ->
  listeners (runTimerCallback now a cb) = listeners a
  /\ currentModal (runTimerCallback now a cb) = currentModal a.
Proof. destruct cb; [discriminate| |]; split; reflexivity. Qed.

Lemma fold_removal_listeners (now : Q) (l : list TimerCallback) (a : App) :
  (forall cb, In cb l -> isPopulate cb = false) ->
  listeners (fold_left (runTimerCallback now) l a) = listeners a
  /\ currentModal (fold_left (runTimerCallback now) l a) = currentModal a.
Proof.
  revert a. induction l as [|cb l IH]; intros a H; cbn [fold_left].
  - split; reflexivity.
  - destruct (removal_listeners now a cb (H cb (or_introl eq_refl)))
      as [L C].
    destruct (IH (runTimerCallback now a cb)) as [L' C'].
    + intros cb' K. apply H. now right.
    + split; [now rewrite L'|now rewrite C'].
Qed.

(** With no population pending, a timer tick leaves listeners alone. *)
Lemma runTimers_listeners (now : Q) (a : App) :
  noPopulatePending (timers a) = true ->
  listeners (Modal.runTimers now a) = listeners a
  /\ currentModal (Modal.runTimers now a) = currentModal a.
Proof.
  intro H. unfold Modal.runTimers.
  destruct (fold_removal_listeners now (dueTimers now (timers a))
              (set_timers (laterTimers now (timers a)) a)) as [L C].
  - intros cb K. apply dueTimers_incl in K. destruct K as [d K].
    eapply noPopulatePending_In; eauto.
  - split; assumption.
Qed.

(** On a closed modal the permanent listeners do nothing on a key press. *)
Lemma invoke_unscoped_closed (h : Handler) (key : Key) (now : Q) (a : App) :
  modalScoped h = false -> currentModal a = None ->
  invoke h (Some key) false now a = a.
Proof.
  intros M C. unfold invoke, modalScoped in *.
  destruct (hkind h); try discriminate; destruct key; try reflexivity.
  now rewrite C.
Qed.

Lemma dispatch_unscoped_closed (current : App -> list Handler)
    (snapshot : list Handler) (key : Key) (now : Q) (a : App) :
  (forall h, In h snapshot -> modalScoped h = false) ->
  currentModal a = None ->
  fst (dispatch current snapshot (Some key) false now a) = a
  /\ filter modalScoped (snd (dispatch current snapshot (Some key) false now a))
     = [].
Proof.
  intros Hall C. induction snapshot as [|h rest IH]; cbn [dispatch].
  - split; reflexivity.
  - assert (Hrest : forall h', In h' rest -> modalScoped h' = false)
      by (intros h' K; apply Hall; now right).
    specialize (IH Hrest).
    destruct (existsb (sameHandler h) (current a)).
    + rewrite (invoke_unscoped_closed h key now a
                 (Hall h (or_introl eq_refl)) C).
      destruct (dispatch current rest (Some key) false now a) as [a' fired].
      simpl in *. rewrite (Hall h (or_introl eq_refl)). exact IH.
    + exact IH.
Qed.

End ModalAfterClose.

(** ** Closing the modal *)

(** C5, as the code has it. In every state the page can reach from its
    start-up by opens, closes, timer ticks, key presses and clicks on the
    overlay, the close button or the close button of a toast:
    [closeModal] leaves [currentModal] null,
    the overlay hidden and page scroll unlocked, and removes the close
    button's, the overlay's and the keydown listener that
    [setupModalInteractions] registered; the listeners of the play, list
    and like buttons are not removed by it. At most one listener of each
    kind is registered at any time, so they do not accumulate. When no
    population is pending at the close, later timer ticks keep the modal
    closed and a key press after them calls no modal-scoped listener and
    changes nothing. *)
Theorem close_removes_interaction_listeners
    (data : option Content.ContentData) (reachable : bool)
    (es : list Modal.Event) (now : Q) :
  let a :=
    Modal.run es (Modal.setupModalSystem (Modal.loadedPage data reachable)) in
  let closed := Modal.closeModal now a in
  Modal.view closed = Modal.closedView
  /\ Modal.onCloseClick (Modal.listeners closed) = []
  /\ filter Modal.modalScoped (Modal.onOverlayClick (Modal.listeners closed))
     = []
  /\ filter Modal.modalScoped (Modal.onKeydown (Modal.listeners closed)) = []
  /\ (Modal.onPlayClick (Modal.listeners closed)
      = Modal.onPlayClick (Modal.listeners a)
      /\ Modal.onListClick (Modal.listeners closed)
         = Modal.onListClick (Modal.listeners a)
      /\ Modal.onLikeClick (Modal.listeners closed)
         = Modal.onLikeClick (Modal.listeners a))
  /\ (List.length (Modal.onCloseClick (Modal.listeners a)) <= 1
      /\ List.length
           (filter Modal.modalScoped (Modal.onOverlayClick (Modal.listeners a)))
         <= 1
      /\ List.length
           (filter Modal.modalScoped (Modal.onKeydown (Modal.listeners a)))
         <= 1
      /\ List.length (Modal.onPlayClick (Modal.listeners a)) <= 1
      /\ List.length (Modal.onListClick (Modal.listeners a)) <= 1
      /\ List.length (Modal.onLikeClick (Modal.listeners a)) <= 1)%nat
  /\ (Modal.noPopulatePending (Modal.timers a) = true ->
      forall (key : Modal.Key) (t t' : Q),
        let later := Modal.runTimers t closed in
        Modal.view later = Modal.closedView
        /\ fst (Modal.keydown key t' later) = later
        /\ filter Modal.modalScoped (snd (Modal.keydown key t' later)) = []).
Proof.
  intros a closed.
  assert (Ha : Modal.coherent a).
  { subst a. apply coherent_run, coherent_loadedPage. }
  pose proof Ha as (S1 & S2 & S3 & S4 & S5 & S6 & _ & Ho).
  destruct (coherent_closeModal now a Ha)
    as (Hc & E1 & E2 & E3 & P1 & P2 & P3).
  fold closed in Hc, E1, E2, E3, P1, P2, P3.
  assert (V : Modal.view closed = Modal.closedView).
  { subst closed. now apply closeModal_view. }
  split; [exact V|]. split; [exact E1|]. split; [exact E2|].
  split; [exact E3|]. split; [repeat split; assumption|]. split.
  { repeat split; eapply slot_length; eassumption. }
  intros Hq key t t' later.
  assert (Hq' : Modal.noPopulatePending (Modal.timers closed) = true).
  { subst closed. rewrite (closeModal_timers now a Ho).
    rewrite noPopulatePending_setTimeout. now rewrite Hq. }
  destruct (runTimers_listeners t closed Hq') as [L C].
  fold later in L, C.
  assert (Vl : Modal.view later = Modal.closedView).
  { subst later. now rewrite runTimers_view. }
  split; [exact Vl|].
  unfold Modal.keydown. apply dispatch_unscoped_closed.
  - apply filter_nil_forall. now rewrite L.
  - rewrite C. unfold Modal.view, Modal.closedView in V. now inversion V.
Qed.

(** Witness of C5: the sample page, opened, populated and then closed; no
    population is pending, and Escape at 200 ms calls no modal-scoped
    listener. *)
Lemma close_removes_interaction_listeners_witness :
  Modal.noPopulatePending
    (Modal.timers
       (Modal.run [Modal.Open "m1" 0; Modal.Tick 100] Samples.page)) = true
  /\ filter Modal.modalScoped
       (snd (Modal.keydown Modal.Escape 200
               (Modal.runTimers 160
                  (Modal.closeModal 150
                     (Modal.run [Modal.Open "m1" 0; Modal.Tick 100]
                        (Modal.setupModalSystem
                           (Modal.loadedPage (Some Samples.data) true)))))))
     = [].
Proof.
  split; [reflexivity|].
  destruct (close_removes_interaction_listeners (Some Samples.data) true
              [Modal.Open "m1" 0; Modal.Tick 100] 150)
    as (_ & _ & _ & _ & _ & _ & Hlater).
  exact (proj2 (proj2 (Hlater eq_refl Modal.Escape 160%Q 200%Q))).
Defined.

(** C5 as stated fails in two ways. After open, population and close the
    listeners of the play, list and like buttons are still registered: a
    close does not remove them. And a close that comes before the
    population (opened at 0 ms, closed at 50 ms, population at 100 ms)
    leaves the three listeners of [setupModalInteractions] registered on a
    modal that shows as closed: Escape at 200 ms calls the modal's keydown
    listener. *)
Lemma listeners_left_after_close :
  Modal.view Samples.openedThenClosed = Modal.closedView
  /\ Modal.modalScopedListeners Samples.openedThenClosed
     = [Modal.mkHandler 5 Modal.PlayClick; Modal.mkHandler 6 Modal.ListClick;
        Modal.mkHandler 7 Modal.LikeClick]
  /\ Modal.view Samples.hastyClose = Modal.closedView
  /\ Modal.modalScopedListeners Samples.hastyClose
     = [Modal.mkHandler 3 Modal.CloseClick;
        Modal.mkHandler 4 Modal.OverlayClick;
        Modal.mkHandler 5 Modal.Keydown;
        Modal.mkHandler 6 Modal.PlayClick; Modal.mkHandler 7 Modal.ListClick;
        Modal.mkHandler 8 Modal.LikeClick]
  /\ filter Modal.modalScoped
       (snd (Modal.keydown Modal.Escape 200 Samples.hastyClose))
     = [Modal.mkHandler 5 Modal.Keydown].
Proof.
  repeat split; vm_compute; reflexivity.
Qed.

(** ** Further examples *)

(** The sample drag that takes 400 ms ends as fast as the flick, at
    0.8 px/ms, but lasted too long: its release starts no momentum, and the
    row stays at 400 through later timer ticks and frames. *)
Example slow_drag_stays :
  (Carousel.velocityX (Carousel.gesture Samples.draggedRow) == 8 # 10)%Q
  /\ Carousel.momentumApplies (Carousel.gesture Samples.draggedRow) 400 = false
  /\ Carousel.frameCallbacks (Carousel.handleTouchEnd 400 Samples.draggedRow)
     = []
  /\ (Carousel.scrollLeft
        (Carousel.slider
           (Carousel.run
              [Carousel.Timers 450; Carousel.Frame 466; Carousel.Timers 500;
               Carousel.Frame 900]
              (Carousel.handleTouchEnd 400 Samples.draggedRow)))
      == 400)%Q.
Proof. repeat split; vm_compute; reflexivity. Qed.

(** Two clicks on the right button 100 ms apart: both animations finish,
    and the row rests at the second click's target, which was computed
    from the offset in the middle of the first animation. *)
Example two_quick_clicks :
  let r :=
    Carousel.run
      [Carousel.ClickRight 1280 0; Carousel.Frame 100;
       Carousel.ClickRight 1280 100; Carousel.Frame 200; Carousel.Frame 300;
       Carousel.Frame 400] Samples.row in
  Carousel.finishedAnimations r = 2%nat
  /\ (Carousel.rightTarget 1280 Samples.scrollingRow == 27280 # 27)%Q
  /\ (Carousel.scrollLeft (Carousel.slider r) == 27280 # 27)%Q.
Proof. repeat split; vm_compute; reflexivity. Qed.

(** The modal's keydown listener and the permanent one both see Escape on
    an open modal; the permanent one closes the modal and removes the
    modal's listener before it is called. *)
Example escape_on_open_modal :
  let opened :=
    Modal.run [Modal.Open "m1" 0; Modal.Tick 100] Samples.page in
  snd (Modal.keydown Modal.Escape 150 opened)
  = [Modal.mkHandler 1 Modal.SystemKeydown]
  /\ Modal.view (fst (Modal.keydown Modal.Escape 150 opened))
     = Modal.closedView.
Proof. repeat split; vm_compute; reflexivity. Qed.

(* ================================================================== *)
(** * Further properties of the row *)
(* ================================================================== *)

Section EasingFacts.

Import JS Carousel.
Local Open Scope Q_scope.

Lemma cube_unit (u : Q) : 0 <= u -> u <= 1 -> 0 <= cube u /\ cube u <= 1.
Proof. intros H0 H1. unfold cube. split; nra. Qed.

Lemma easeInOutCubic_unit (p : Q) :
  0 <= p -> p <= 1 -> 0 <= easeInOutCubic p /\ easeInOutCubic p <= 1.
Proof.
  intros H0 H1. unfold easeInOutCubic. destruct (ltb p (1 # 2)) eqn:E.
  - apply ltb_lt in E. split; nra.
  - apply ltb_ge in E.
    destruct (cube_unit (-(2) * p + 2)) as [C0 C1]; [lra|lra|].
    set (c := cube (-(2) * p + 2)) in *.
    change (c / 2) with (c * (1 # 2)). split; lra.
Qed.

Lemma easeOutCubic_unit (p : Q) :
  0 <= p -> p <= 1 -> 0 <= easeOutCubic p /\ easeOutCubic p <= 1.
Proof.
  intros H0 H1. unfold easeOutCubic.
  destruct (cube_unit (1 - p)) as [C0 C1]; [lra|lra|].
  split; lra.
Qed.

Lemma easing_unit (k : AnimKind) (p : Q) :
  0 <= p -> p <= 1 -> 0 <= easing k p /\ easing k p <= 1.
Proof.
  intros H0 H1. destruct k; simpl.
  - now apply easeInOutCubic_unit.
  - now apply easeOutCubic_unit.
Qed.

Lemma progress_unit (t st d : Q) :
  0 < d -> st <= t ->
  0 <= Math_min ((t - st) / d) 1 /\ Math_min ((t - st) / d) 1 <= 1.
Proof.
  intros Hd Ht. split.
  - apply Math_min_lower; [|lra]. apply Qle_shift_div_l; lra.
  - apply Math_min_upper_r.
Qed.

(** The offset a call of [animateScroll] writes. *)
Lemma animateScroll_scrollLeft (a : Animation) (t : Q) (r : Row) :
  scrollLeft (slider (animateScroll a t r))
  = startPosition a
    + distance a
      * easing (kind a) (Math_min ((t - a_startTime a) / duration a) 1).
Proof.
  unfold animateScroll. cbv zeta.
  destruct (ltb _ 1); [|destruct (kind a)]; reflexivity.
Qed.

End EasingFacts.

(** X1. No frame of an animation overshoots: from its start time on,
    every offset an [animateScroll] closure writes lies between the
    animation's start position and its end position, for both easing
    curves. *)
Theorem animation_frames_stay_between_ends
    (a : Carousel.Animation) (t : Q) (r : Carousel.Row) (lo hi : Q) :
  (0 < Carousel.duration a)%Q ->
  (Carousel.a_startTime a <= t)%Q ->
  (lo <= Carousel.startPosition a)%Q ->
  (Carousel.startPosition a <= hi)%Q ->
  (lo <= Carousel.startPosition a + Carousel.distance a)%Q ->
  (Carousel.startPosition a + Carousel.distance a <= hi)%Q ->
  (lo <= Carousel.scrollLeft (Carousel.slider (Carousel.animateScroll a t r)))%Q
  /\ (Carousel.scrollLeft (Carousel.slider (Carousel.animateScroll a t r))
      <= hi)%Q.
Proof.
  intros Hd Ht L1 H1 L2 H2. rewrite animateScroll_scrollLeft.
  destruct (progress_unit t (Carousel.a_startTime a) (Carousel.duration a)
              Hd Ht) as [P0 P1].
  destruct (easing_unit (Carousel.kind a) _ P0 P1) as [E0 E1].
  set (e := Carousel.easing (Carousel.kind a) _) in *.
  split; nra.
Qed.

(** Witness of X1: the frame at 100 ms of the first click of the sample
    row (from 0 towards 880). *)
Lemma animation_frames_stay_between_ends_witness :
  (0 <= Carousel.scrollLeft
          (Carousel.slider
             (Carousel.animateScroll
                (Carousel.mkAnimation Carousel.ButtonScroll 0 880 0 300) 100
                Samples.row)))%Q
  /\ (Carousel.scrollLeft
        (Carousel.slider
           (Carousel.animateScroll
              (Carousel.mkAnimation Carousel.ButtonScroll 0 880 0 300) 100
              Samples.row))
      <= 880)%Q.
Proof.
  apply (animation_frames_stay_between_ends
           (Carousel.mkAnimation Carousel.ButtonScroll 0 880 0 300) 100
           Samples.row 0 880);
    vm_compute; (reflexivity || discriminate).
Defined.

Section RangeFacts.

Import JS Carousel Timeline.
Local Open Scope Q_scope.

(** The three tiers of [getScrollAmount]. *)
Lemma getScrollAmount_tiers (w : Q) :
  (w < 640 /\ getScrollAmount w = 324)
  \/ (640 <= w /\ w < 1024 /\ getScrollAmount w = 588)
  \/ (1024 <= w /\ getScrollAmount w = 880).
Proof.
  unfold getScrollAmount. destruct (ltb w 640) eqn:E1.
  - left. apply ltb_lt in E1. split; [assumption|reflexivity].
  - apply ltb_ge in E1. destruct (ltb w 1024) eqn:E2.
    + right; left. apply ltb_lt in E2. repeat split; assumption || reflexivity.
    + right; right. apply ltb_ge in E2. split; [assumption|reflexivity].
Qed.

Lemma getScrollAmount_pos (w : Q) : 0 < getScrollAmount w.
Proof.
  destruct (getScrollAmount_tiers w) as [[_ H]|[(_ & _ & H)|[_ H]]];
    rewrite H; reflexivity.
Qed.

Lemma clampScroll_bounds (r : Row) (x : Q) :
  0 <= maxScroll r -> 0 <= clampScroll r x /\ clampScroll r x <= maxScroll r.
Proof.
  intro H. unfold clampScroll. split.
  - apply Math_max_lower.
  - apply Math_max_upper; [assumption|apply Math_min_upper].
Qed.

Lemma leftTarget_bounds (w : Q) (r : Row) :
  0 <= scrollLeft (slider r) ->
  0 <= leftTarget w r /\ leftTarget w r <= scrollLeft (slider r).
Proof.
  intro H. pose proof (getScrollAmount_pos w) as Hp. unfold leftTarget. split.
  - apply Math_max_lower.
  - apply Math_max_upper; lra.
Qed.

Lemma rightTarget_bounds (w : Q) (r : Row) :
  scrollLeft (slider r) <= maxScroll r ->
  scrollLeft (slider r) <= rightTarget w r /\ rightTarget w r <= maxScroll r.
Proof.
  intro H. pose proof (getScrollAmount_pos w) as Hp. unfold rightTarget. split.
  - apply Math_min_lower; lra.
  - apply Math_min_upper.
Qed.

Lemma animationWithin_later (bound now now' : Q) (a : Animation) :
  now <= now' -> animationWithin bound now a -> animationWithin bound now' a.
Proof.
  intros H (A1 & A2 & A3 & A4). repeat split; try tauto. lra.
Qed.

Lemma inRange_later (now now' : Q) (r : Row) :
  now <= now' -> inRange now r -> inRange now' r.
Proof.
  intros H [R1 R2]. split; [assumption|].
  eapply Forall_impl; [|exact R2]. intro a. now apply animationWithin_later.
Qed.

(** Starting an animation towards a target inside the range. *)
Lemma inRange_start (k : AnimKind) (target dur now : Q) (r : Row) :
  0 < dur -> 0 <= target -> target <= maxScroll r ->
  inRange now r ->
  inRange now
    (requestAnimationFrame
       (mkAnimation k (scrollLeft (slider r))
          (target - scrollLeft (slider r)) now dur) r).
Proof.
  intros Hd T0 T1 [R1 R2]. split; [exact R1|].
  change (Forall (animationWithin (maxScroll r) now)
            (frameCallbacks r
             ++ [mkAnimation k (scrollLeft (slider r))
                   (target - scrollLeft (slider r)) now dur])).
  apply Forall_app. split; [exact R2|].
  constructor; [|constructor].
  unfold animationWithin. simpl. repeat split; try tauto; lra.
Qed.

(** One frame callback keeps the offset and the queue inside the range. *)
Lemma animateScroll_inRange (bound t : Q) (a : Animation) (r : Row) :
  animationWithin bound t a ->
  Forall (animationWithin bound t) (frameCallbacks r) ->
  (0 <= scrollLeft (slider (animateScroll a t r))
   /\ scrollLeft (slider (animateScroll a t r)) <= bound)
  /\ Forall (animationWithin bound t) (frameCallbacks (animateScroll a t r)).
Proof.
  intros Ha Hq. pose proof Ha as (A1 & [A2 A3] & [A4 A5] & A6). split.
  - destruct (progress_unit t (a_startTime a) (duration a) A1 A6) as [P0 P1].
    destruct (easing_unit (kind a) _ P0 P1) as [E0 E1].
    rewrite animateScroll_scrollLeft.
    set (e := easing (kind a) _) in *. split; nra.
  - unfold animateScroll. cbv zeta.
    destruct (ltb _ 1); [|destruct (kind a)]; simpl; try assumption.
    apply Forall_app. split; [assumption|]. constructor; [assumption|constructor].
Qed.

Lemma fold_animateScroll_inRange (bound t : Q) (q : list Animation) (r : Row) :
  Forall (animationWithin bound t) q ->
  Forall (animationWithin bound t) (frameCallbacks r) ->
  0 <= scrollLeft (slider r) /\ scrollLeft (slider r) <= bound ->
  let r' := fold_left (fun r' a => animateScroll a t r') q r in
  (0 <= scrollLeft (slider r') /\ scrollLeft (slider r') <= bound)
  /\ Forall (animationWithin bound t) (frameCallbacks r').
Proof.
  revert r. induction q as [|a q IH]; intros r Hq Hr Hs; simpl.
  - split; assumption.
  - inversion Hq as [|? ? Ha Hq']; subst.
    destruct (animateScroll_inRange bound t a r Ha Hr) as [S' Q'].
    now apply IH.
Qed.

Lemma maxScroll_runFrame (t : Q) (r : Row) : maxScroll (runFrame t r) = maxScroll r.
Proof.
  destruct (runFrame_frame t r) as (W & C & _). unfold maxScroll.
  now rewrite W, C.
Qed.

Lemma runFrame_inRange (now t : Q) (r : Row) :
  now <= t -> inRange now r -> inRange t (runFrame t r).
Proof.
  intros Ht H. apply (inRange_later now t r Ht) in H. destruct H as [R1 R2].
  unfold inRange. rewrite maxScroll_runFrame. unfold runFrame.
  apply fold_animateScroll_inRange; try assumption. constructor.
Qed.

Lemma maxScroll_fold_timers (l : list TimerAction) (x : Row) :
  maxScroll (fold_left runTimerAction l x) = maxScroll x.
Proof.
  revert x. induction l as [|a l IH]; intro x; simpl; [reflexivity|].
  rewrite IH. now destruct a.
Qed.

Lemma maxScroll_runTimers (t : Q) (r : Row) :
  maxScroll (runTimers t r) = maxScroll r.
Proof. unfold runTimers. now rewrite maxScroll_fold_timers. Qed.

Lemma maxScroll_step (e : Event) (r : Row) :
  maxScroll (step r e) = maxScroll r.
Proof.
  destruct e; simpl; try reflexivity.
  - apply maxScroll_runFrame.
  - apply maxScroll_runTimers.
  - now destruct (disabled (leftBtn r)).
  - now destruct (disabled (rightBtn r)).
  - destruct touch as [[cx cy]|]; simpl; [|reflexivity].
    destruct (detect _ _ _) as [g1 prevented|]; simpl; [|reflexivity].
    now destruct (isScrolling g1 && isDragging g1).
  - unfold handleTouchEnd. destruct (negb _); [reflexivity|].
    now destruct (momentumApplies _ _).
  - unfold handleMouseMove. now destruct (negb _).
  - unfold handleMouseUp. now destruct (negb _).
Qed.

Lemma maxScroll_run (es : list Event) (r : Row) :
  maxScroll (run es r) = maxScroll r.
Proof.
  revert r. induction es as [|e es IH]; intro r; [reflexivity|].
  simpl. change (maxScroll (run es (step r e)) = maxScroll r).
  now rewrite IH, maxScroll_step.
Qed.

Lemma runTimers_inRange (now t : Q) (r : Row) :
  inRange now r -> inRange now (runTimers t r).
Proof.
  intros [R1 R2]. destruct (runTimers_keeps t r) as (K1 & _ & K3 & _).
  unfold inRange. now rewrite maxScroll_runTimers, K1, K3.
Qed.

(** Every handler keeps the row inside its scroll range. *)
Lemma step_inRange (now : Q) (e : Event) (r : Row) :
  match eventTime e with
  | Some t => now <= t
  | None => True
  end ->
  inRange now r ->
  inRange (match eventTime e with Some t => t | None => now end) (step r e).
Proof.
  intros Ht H. pose proof H as [[R0 R1] R2].
  assert (Hmax : 0 <= maxScroll r) by lra.
  destruct e; simpl in *.
  - now apply (runFrame_inRange now).
  - apply (inRange_later now now0); [assumption|]. now apply runTimers_inRange.
  - destruct (disabled (leftBtn r));
      [now apply (inRange_later now now0)|].
    unfold clickLeft, smoothScrollTo.
    destruct (leftTarget_bounds innerWidth r R0) as [T0 T1].
    apply inRange_start; try lra. now apply (inRange_later now now0).
  - destruct (disabled (rightBtn r));
      [now apply (inRange_later now now0)|].
    unfold clickRight, smoothScrollTo.
    destruct (rightTarget_bounds innerWidth r R1) as [T0 T1].
    apply inRange_start; try lra. now apply (inRange_later now now0).
  - apply (inRange_later now now0); [assumption|]. exact H.
  - apply (inRange_later now now0); [assumption|].
    destruct touch as [[cx cy]|]; simpl; [|exact H].
    destruct (detect (gesture r) (startX (gesture r) - cx)
                (startY (gesture r) - cy)) as [g1 prevented|]; simpl;
      [|exact H].
    destruct (isScrolling g1 && isDragging g1); simpl; [|exact H].
    split; [|exact R2]. exact (clampScroll_bounds r _ Hmax).
  - unfold handleTouchEnd. destruct (negb (isDragging (gesture r)));
      [now apply (inRange_later now now0)|].
    destruct (momentumApplies (gesture r) now0).
    + unfold smoothScrollToPosition, momentumTarget.
      destruct (clampScroll_bounds r
                  (scrollLeft (slider r) + velocityX (gesture r) * 200) Hmax)
        as [T0 T1].
      pose proof (inRange_start PositionScroll _ 400 now0 r eq_refl T0 T1
                    (inRange_later now now0 r Ht H)) as K.
      exact K.
    + now apply (inRange_later now now0).
  - exact H.
  - unfold handleMouseMove. destruct (negb (isDragging (gesture r)));
      [exact H|].
    split; [|exact R2]. exact (clampScroll_bounds r _ Hmax).
  - unfold handleMouseUp. destruct (negb (isDragging (gesture r)));
      now apply (inRange_later now now0).
  - now apply (inRange_later now now0).
  - now apply (inRange_later now now0).
Qed.

Lemma run_inRange (es : list Event) (now : Q) (r : Row) :
  chronological now es = true -> inRange now r ->
  inRange (lastTime now es) (run es r).
Proof.
  revert now r. induction es as [|e es IH]; intros now r Hc H; simpl in *.
  - exact H.
  - pose proof (step_inRange now e r) as K.
    destruct (eventTime e) as [t|].
    + apply andb_true_iff in Hc. destruct Hc as [Hle Hc].
      apply Qle_bool_iff in Hle. apply IH; [assumption|]. now apply K.
    + apply IH; [assumption|]. now apply K.
Qed.

End RangeFacts.

(** X2. The offset never leaves the scroll range. On a row set up with
    its offset inside [0, scrollWidth - clientWidth], after any trace of
    button clicks, touch and mouse events, timer ticks, frames and
    deliveries of scroll and resize events whose timestamps do not go back,
    the offset is inside the range, and so are the two ends of every
    animation still scheduled. *)
Theorem offset_stays_in_scroll_range
    (left width client now : Q) (es : list Carousel.Event) :
  (0 <= left)%Q -> (left <= width - client)%Q ->
  Timeline.chronological now es = true ->
  let r := Carousel.run es (Carousel.setupRowScrolling left width client) in
  (0 <= Carousel.scrollLeft (Carousel.slider r))%Q
  /\ (Carousel.scrollLeft (Carousel.slider r) <= width - client)%Q
  /\ Timeline.inRange (Timeline.lastTime now es) r.
Proof.
  intros H0 H1 Hc r.
  assert (Hstart : Timeline.inRange now
                     (Carousel.setupRowScrolling left width client)).
  { split; [split; assumption|constructor]. }
  pose proof (run_inRange es now _ Hc Hstart) as K. fold r in K.
  assert (M : Carousel.maxScroll r = (width - client)%Q).
  { subst r. now rewrite maxScroll_run. }
  destruct K as [[K0 K1] K2].
  split; [exact K0|]. split; [now rewrite <- M|].
  split; [split; assumption|exact K2].
Qed.

(** Witness of X2: the sample flick, its release, a click on the right
    button and frames, on the wide sample row scrolled to 300. *)
Lemma offset_stays_in_scroll_range_witness :
  (0 <= 300)%Q /\ (300 <= 2000 - 800)%Q
  /\ (Carousel.scrollLeft
        (Carousel.slider
           (Carousel.run
              (Samples.flick
                 ++ [Carousel.TouchEnd 250; Carousel.Frame 266;
                     Carousel.ClickRight 1280 300; Carousel.Frame 316;
                     Carousel.MouseDown 10; Carousel.MouseMove 5000;
                     Carousel.Frame 700])
              (Carousel.setupRowScrolling 300 2000 800)))
      <= 2000 - 800)%Q.
Proof.
  split; [vm_compute; discriminate|]. split; [vm_compute; discriminate|].
  apply (offset_stays_in_scroll_range 300 2000 800 0
           (Samples.flick
              ++ [Carousel.TouchEnd 250; Carousel.Frame 266;
                  Carousel.ClickRight 1280 300; Carousel.Frame 316;
                  Carousel.MouseDown 10; Carousel.MouseMove 5000;
                  Carousel.Frame 700])).
  - vm_compute; discriminate.
  - vm_compute; discriminate.
  - reflexivity.
Defined.

(** X3. In a row that overflows, with its offset inside the scroll range,
    the position on the buttons' labels is a whole percentage between 0 and
    100: 0 at the start and 100 at the end. *)
Theorem percentage_label_between_0_and_100 (r : Carousel.Row) :
  (0 < Carousel.maxScroll r)%Q ->
  (0 <= Carousel.scrollLeft (Carousel.slider r))%Q ->
  (Carousel.scrollLeft (Carousel.slider r) <= Carousel.maxScroll r)%Q ->
  (exists z : Z,
      Carousel.currentPosition (Carousel.slider r) = JS.Int z
      /\ (0 <= z <= 100)%Z
      /\ Carousel.ariaLabel (Carousel.leftBtn (Carousel.updateScrollButtons r))
         = ("Scroll left (currently at "
              ++ DecimalString.NilZero.string_of_int (Z.to_int z) ++ "%)")%string)
  /\ ((Carousel.scrollLeft (Carousel.slider r) == 0)%Q ->
      Carousel.currentPosition (Carousel.slider r) = JS.Int 0)
  /\ ((Carousel.scrollLeft (Carousel.slider r) == Carousel.maxScroll r)%Q ->
      Carousel.currentPosition (Carousel.slider r) = JS.Int 100).
Proof.
  intros Hpos H0 H1. unfold Carousel.maxScroll in *.
  set (sl := Carousel.scrollLeft (Carousel.slider r)) in *.
  set (m := (Carousel.scrollWidth (Carousel.slider r)
             - Carousel.clientWidth (Carousel.slider r))%Q) in *.
  assert (Hne : Qeq_bool m 0 = false).
  { destruct (Qeq_bool m 0) eqn:E; [|reflexivity].
    apply Qeq_bool_iff in E. lra. }
  assert (Hq0 : (0 <= sl / m)%Q) by (apply Qle_shift_div_l; lra).
  assert (Hq1 : (sl / m <= 1)%Q) by (apply Qle_shift_div_r; lra).
  (* the quotient and the product, rounded, between whole bounds *)
  assert (Hcur : forall L K : Z,
             (0 <= L)%Z -> (K <= 1)%Z ->
             (inject_Z L <= sl / m)%Q -> (sl / m <= inject_Z K)%Q ->
             exists v : Q,
               Carousel.currentPosition (Carousel.slider r)
               = JS.Int (Qfloor (v + (1 # 2)))
               /\ (inject_Z (L * 100) <= v)%Q
               /\ (v <= inject_Z (K * 100))%Q).
  { intros L K HL HK B0 B1.
    destruct (roundToDouble_between (sl / m) L K HL) as (v1 & E1 & V0 & V1);
      [lia|exact B0|exact B1|].
    destruct (roundToDouble_between (v1 * 100) (L * 100) (K * 100))
      as (v2 & E2 & W0 & W1); [lia|lia| | |].
    - rewrite inject_Z_mult. change (inject_Z 100) with 100%Q. lra.
    - rewrite inject_Z_mult. change (inject_Z 100) with 100%Q. lra.
    - exists v2. split; [|split; assumption].
      unfold Carousel.currentPosition, JS.div. fold sl m.
      rewrite Hne, E1. cbn [JS.times]. rewrite E2. reflexivity. }
  split; [|split].
  - destruct (Hcur 0%Z 1%Z) as (v & E & V0 & V1); try lia;
      [exact Hq0|exact Hq1|].
    change (inject_Z (0 * 100)) with 0%Q in V0.
    change (inject_Z (1 * 100)) with 100%Q in V1.
    exists (Qfloor (v + (1 # 2))). split; [exact E|]. split.
    + split.
      * apply (Z.le_trans _ (Qfloor (1 # 2))); [vm_compute; discriminate|].
        apply Qfloor_resp_le. lra.
      * apply (Z.le_trans _ (Qfloor (100 + (1 # 2))));
          [|vm_compute; discriminate].
        apply Qfloor_resp_le. lra.
    + unfold Carousel.updateScrollButtons.
      cbn [Carousel.leftBtn Carousel.set_buttons]. rewrite E.
      rewrite toString_small.
      * now destruct (Qle_bool _ _).
      * split.
        -- apply (Z.le_trans _ (Qfloor (1 # 2))); [vm_compute; discriminate|].
           apply Qfloor_resp_le. lra.
        -- apply (Z.le_lt_trans _ (Qfloor (100 + (1 # 2))));
             [|vm_compute; reflexivity].
           apply Qfloor_resp_le. lra.
  - intro Hz.
    assert (Z0 : (sl / m == 0)%Q) by (rewrite Hz; unfold Qdiv; ring).
    destruct (Hcur 0%Z 0%Z) as (v & E & V0 & V1); try lia;
      [change (inject_Z 0) with 0%Q; lra
      |change (inject_Z 0) with 0%Q; lra|].
    change (inject_Z (0 * 100)) with 0%Q in V0, V1.
    rewrite E. f_equal.
    assert (Ev : (v + (1 # 2) == 1 # 2)%Q) by lra.
    rewrite Ev. reflexivity.
  - intro Hz.
    assert (Z1 : (sl / m == 1)%Q) by (rewrite Hz; field; intro K; lra).
    destruct (Hcur 1%Z 1%Z) as (v & E & V0 & V1); try lia;
      [change (inject_Z 1) with 1%Q; lra
      |change (inject_Z 1) with 1%Q; lra|].
    change (inject_Z (1 * 100)) with 100%Q in V0, V1.
    rewrite E. f_equal.
    assert (Ev : (v + (1 # 2) == 100 + (1 # 2))%Q) by lra.
    rewrite Ev. reflexivity.
Qed.

(** Witness of X3: the wide sample row scrolled to 300 of 1200 shows
    25%. *)
Lemma percentage_label_between_0_and_100_witness :
  (0 < Carousel.maxScroll Samples.rowAt300)%Q
  /\ exists z : Z,
       Carousel.currentPosition (Carousel.slider Samples.rowAt300) = JS.Int z
       /\ (0 <= z <= 100)%Z
       /\ Carousel.ariaLabel
            (Carousel.leftBtn (Carousel.updateScrollButtons Samples.rowAt300))
          = ("Scroll left (currently at "
               ++ DecimalString.NilZero.string_of_int (Z.to_int z)
               ++ "%)")%string.
Proof.
  split; [reflexivity|].
  apply (percentage_label_between_0_and_100 Samples.rowAt300).
  - reflexivity.
  - vm_compute; discriminate.
  - vm_compute; discriminate.
Defined.

(** X4. With its offset inside the scroll range, a row that overflows by
    more than 4 px always has at least one scroll button enabled, and a row
    that overflows by at most 2 px has both disabled. *)
Theorem scroll_buttons_availability (r : Carousel.Row) :
  (0 <= Carousel.scrollLeft (Carousel.slider r))%Q ->
  (Carousel.scrollLeft (Carousel.slider r) <= Carousel.maxScroll r)%Q ->
  let r' := Carousel.updateScrollButtons r in
  ((4 < Carousel.maxScroll r)%Q ->
   Carousel.disabled (Carousel.leftBtn r') = false
   \/ Carousel.disabled (Carousel.rightBtn r') = false)
  /\ ((Carousel.maxScroll r <= 2)%Q ->
      Carousel.disabled (Carousel.leftBtn r') = true
      /\ Carousel.disabled (Carousel.rightBtn r') = true).
Proof.
  intros H0 H1. cbv zeta. unfold Carousel.updateScrollButtons.
  cbn [Carousel.leftBtn Carousel.rightBtn Carousel.set_buttons].
  rewrite !showHide_disabled. unfold Carousel.maxScroll, Carousel.tolerance in *.
  split.
  - intro H4.
    destruct (Qle_bool (Carousel.scrollLeft (Carousel.slider r)) 2) eqn:E;
      [|now left].
    right. apply Qle_bool_iff in E.
    destruct (Qle_bool _ _) eqn:E2; [|reflexivity].
    apply Qle_bool_iff in E2. lra.
  - intro H2. split; apply Qle_bool_iff; lra.
Qed.

(** Witness of X4: the wide sample row at its start has the right button
    enabled. *)
Lemma scroll_buttons_availability_witness :
  (4 < Carousel.maxScroll Samples.row)%Q
  /\ (Carousel.disabled
        (Carousel.leftBtn (Carousel.updateScrollButtons Samples.row)) = false
      \/ Carousel.disabled
           (Carousel.rightBtn (Carousel.updateScrollButtons Samples.row))
         = false).
Proof.
  split; [reflexivity|].
  apply (scroll_buttons_availability Samples.row).
  - vm_compute; discriminate.
  - vm_compute; discriminate.
  - reflexivity.
Defined.

(** X5. A click on a scroll button moves the target by the full per-click
    distance of the window's tier (324, 588 or 880 px) when there is that
    much room, and stops at the edge otherwise; it never aims the wrong way
    or outside the scroll range. *)
Theorem button_click_targets (w : Q) (r : Carousel.Row) :
  (0 <= Carousel.scrollLeft (Carousel.slider r))%Q ->
  (Carousel.scrollLeft (Carousel.slider r) <= Carousel.maxScroll r)%Q ->
  let offset := Carousel.scrollLeft (Carousel.slider r) in
  let amount := Carousel.getScrollAmount w in
  (amount = 324 \/ amount = 588 \/ amount = 880)%Q
  /\ ((amount <= offset)%Q ->
      (Carousel.leftTarget w r == offset - amount)%Q)
  /\ ((offset <= amount)%Q -> (Carousel.leftTarget w r == 0)%Q)
  /\ ((offset + amount <= Carousel.maxScroll r)%Q ->
      (Carousel.rightTarget w r == offset + amount)%Q)
  /\ ((Carousel.maxScroll r <= offset + amount)%Q ->
      (Carousel.rightTarget w r == Carousel.maxScroll r)%Q)
  /\ (0 <= Carousel.leftTarget w r)%Q
  /\ (Carousel.leftTarget w r <= offset)%Q
  /\ (offset <= Carousel.rightTarget w r)%Q
  /\ (Carousel.rightTarget w r <= Carousel.maxScroll r)%Q.
Proof.
  intros H0 H1 offset amount.
  destruct (leftTarget_bounds w r H0) as [L0 L1].
  destruct (rightTarget_bounds w r H1) as [R0 R1].
  split.
  { destruct (getScrollAmount_tiers w) as [[_ H]|[(_ & _ & H)|[_ H]]]; auto. }
  split.
  { intro H. unfold Carousel.leftTarget. fold offset amount.
    unfold JS.Math_max. destruct (Qle_bool 0 (offset - amount)) eqn:E.
    - reflexivity.
    - assert (K : JS.ltb (offset - amount) 0 = true)
        by (unfold JS.ltb; now rewrite E).
      apply ltb_lt in K. lra. }
  split.
  { intro H. unfold Carousel.leftTarget. fold offset amount.
    unfold JS.Math_max. destruct (Qle_bool 0 (offset - amount)) eqn:E.
    - apply Qle_bool_iff in E. lra.
    - reflexivity. }
  split.
  { intro H. unfold Carousel.rightTarget. fold offset amount.
    apply Math_min_ge. exact H. }
  split.
  { intro H. unfold Carousel.rightTarget. fold offset amount.
    now rewrite Math_min_le. }
  repeat split; assumption.
Qed.

(** Witness of X5: the wide sample row at its start, on a desktop
    window. *)
Lemma button_click_targets_witness :
  (Carousel.leftTarget 1280 Samples.row == 0)%Q
  /\ (Carousel.rightTarget 1280 Samples.row == 0 + 880)%Q.
Proof.
  destruct (button_click_targets 1280 Samples.row)
    as (_ & _ & L & R & _).
  - vm_compute; discriminate.
  - vm_compute; discriminate.
  - split; [apply L|apply R]; vm_compute; discriminate.
Defined.

Section DragFacts.

Import JS Carousel Timeline.
Local Open Scope Q_scope.

(** A move sample while dragging: the offset follows the finger, and the
    origin of the gesture and the row's widths stay. *)
Lemma dragging_move (x y t : Q) (r : Row) :
  isScrolling (gesture r) = true -> isDragging (gesture r) = true ->
  let r' := step r (TouchMove (Some (x, y)) t) in
  scrollLeft (slider r')
  = clampScroll r (startScrollLeft (gesture r) + (startX (gesture r) - x))
  /\ startX (gesture r') = startX (gesture r)
  /\ startScrollLeft (gesture r') = startScrollLeft (gesture r)
  /\ isScrolling (gesture r') = true
  /\ isDragging (gesture r') = true
  /\ maxScroll r' = maxScroll r
  /\ frameCallbacks r' = frameCallbacks r.
Proof.
  intros Hs Hd. simpl. unfold detect. rewrite Hs, Hd. simpl.
  rewrite Hs, Hd. simpl. repeat split; assumption.
Qed.

Lemma clampScroll_same_range (r r' : Row) (x : Q) :
  maxScroll r' = maxScroll r -> clampScroll r' x = clampScroll r x.
Proof. intro H. unfold clampScroll. now rewrite H. Qed.

Lemma dragging_moves (samples : list (Q * Q * Q)) (x y t : Q) (r : Row) :
  isScrolling (gesture r) = true -> isDragging (gesture r) = true ->
  scrollLeft
    (slider (run (map moveTo samples ++ [TouchMove (Some (x, y)) t]) r))
  = clampScroll r (startScrollLeft (gesture r) + (startX (gesture r) - x)).
Proof.
  revert r. induction samples as [|[[sx sy] st] samples IH]; intros r Hs Hd.
  - simpl. now destruct (dragging_move x y t r Hs Hd) as (H & _).
  - destruct (dragging_move sx sy st r Hs Hd)
      as (_ & X & L & S' & D' & M & _).
    change (run (map moveTo ((sx, sy, st) :: samples)
                 ++ [TouchMove (Some (x, y)) t]) r)
      with (run (map moveTo samples ++ [TouchMove (Some (x, y)) t])
              (step r (TouchMove (Some (sx, sy)) st))).
    rewrite (IH _ S' D'), X, L. now apply clampScroll_same_range.
Qed.

Lemma mouse_moves (xs : list Q) (x : Q) (r : Row) :
  isDragging (gesture r) = true ->
  scrollLeft (slider (run (map MouseMove xs ++ [MouseMove x]) r))
  = clampScroll r (startScrollLeft (gesture r) + (startX (gesture r) - x)).
Proof.
  revert r. induction xs as [|x0 xs IH]; intros r Hd.
  - simpl. unfold handleMouseMove. rewrite Hd. reflexivity.
  - change (run (map MouseMove (x0 :: xs) ++ [MouseMove x]) r)
      with (run (map MouseMove xs ++ [MouseMove x]) (handleMouseMove x0 r)).
    assert (E : handleMouseMove x0 r
                = set_scrollLeft
                    (clampScroll r
                       (startScrollLeft (gesture r)
                        + (startX (gesture r) - x0))) r).
    { unfold handleMouseMove. now rewrite Hd. }
    rewrite E, IH by exact Hd. reflexivity.
Qed.

End DragFacts.

(** X6. A drag follows the pointer, not its path. Once a touch session is
    dragging, after any further move samples the offset is the offset at
    touch start plus the horizontal distance from the touch origin to the
    last contact point, clamped to the scroll range, whatever samples came
    in between. The same holds for a mouse drag from the point where the
    button went down. *)
Theorem drag_follows_pointer (r : Carousel.Row) :
  (Carousel.isScrolling (Carousel.gesture r) = true ->
   Carousel.isDragging (Carousel.gesture r) = true ->
   forall (samples : list (Q * Q * Q)) (x y t : Q),
     Carousel.scrollLeft
       (Carousel.slider
          (Carousel.run
             (map Timeline.moveTo samples
                ++ [Carousel.TouchMove (Some (x, y)) t]) r))
     = Carousel.clampScroll r
         (Carousel.startScrollLeft (Carousel.gesture r)
          + (Carousel.startX (Carousel.gesture r) - x))%Q)
  /\ forall (x0 : Q) (xs : list Q) (x : Q),
       Carousel.scrollLeft
         (Carousel.slider
            (Carousel.run
               (Carousel.MouseDown x0
                  :: map Carousel.MouseMove xs ++ [Carousel.MouseMove x]) r))
       = Carousel.clampScroll r
           (Carousel.scrollLeft (Carousel.slider r) + (x0 - x))%Q.
Proof.
  split.
  - intros Hs Hd samples x y t. now apply dragging_moves.
  - intros x0 xs x.
    change (Carousel.run
              (Carousel.MouseDown x0
                 :: map Carousel.MouseMove xs ++ [Carousel.MouseMove x]) r)
      with (Carousel.run (map Carousel.MouseMove xs ++ [Carousel.MouseMove x])
              (Carousel.handleMouseDown x0 r)).
    rewrite mouse_moves by reflexivity. reflexivity.
Qed.

(** Witness of X6: the sample flick is dragging after its first sample; a
    detour to x = 0 and back to x = 200 leaves the row at 400. *)
Lemma drag_follows_pointer_witness :
  Carousel.isDragging
    (Carousel.gesture
       (Carousel.run
          [Carousel.TouchStart 300 100 0;
           Carousel.TouchMove (Some (240%Q, 100%Q)) 200] Samples.rowAt300))
  = true
  /\ (Carousel.scrollLeft
        (Carousel.slider
           (Carousel.run
              (map Timeline.moveTo [(0%Q, 100%Q, 210%Q)]
                 ++ [Carousel.TouchMove (Some (200%Q, 100%Q)) 250])
              (Carousel.run
                 [Carousel.TouchStart 300 100 0;
                  Carousel.TouchMove (Some (240%Q, 100%Q)) 200]
                 Samples.rowAt300)))
      == 400)%Q.
Proof.
  split; [reflexivity|].
  destruct (drag_follows_pointer
              (Carousel.run
                 [Carousel.TouchStart 300 100 0;
                  Carousel.TouchMove (Some (240%Q, 100%Q)) 200]
                 Samples.rowAt300)) as [Htouch _].
  rewrite (Htouch eq_refl eq_refl [(0%Q, 100%Q, 210%Q)] 200%Q 100%Q 250%Q).
  reflexivity.
Defined.

(** X7. Momentum carries the row in the direction of the flick, by at most
    200 ms times the release speed, and never past an edge of the scroll
    range. *)
Theorem momentum_target_direction (r : Carousel.Row) :
  (0 <= Carousel.scrollLeft (Carousel.slider r))%Q ->
  (Carousel.scrollLeft (Carousel.slider r) <= Carousel.maxScroll r)%Q ->
  let offset := Carousel.scrollLeft (Carousel.slider r) in
  let v := Carousel.velocityX (Carousel.gesture r) in
  let target := Carousel.momentumTarget r in
  (0 <= target)%Q /\ (target <= Carousel.maxScroll r)%Q
  /\ ((0 <= v)%Q -> (offset <= target)%Q /\ (target <= offset + v * 200)%Q)
  /\ ((v <= 0)%Q -> (target <= offset)%Q /\ (offset + v * 200 <= target)%Q).
Proof.
  intros H0 H1 offset v target.
  assert (Hmax : (0 <= Carousel.maxScroll r)%Q) by lra.
  destruct (clampScroll_bounds r (offset + v * 200)%Q Hmax) as [T0 T1].
  fold offset in H0, H1.
  change (Carousel.clampScroll r (offset + v * 200)%Q) with target in T0, T1.
  split; [exact T0|]. split; [exact T1|].
  subst target. unfold Carousel.momentumTarget. fold offset v.
  unfold Carousel.clampScroll, JS.Math_max, JS.Math_min.
  split; intro Hv;
    destruct (Qle_bool (Carousel.maxScroll r) (offset + v * 200)) eqn:E1;
    match goal with
    | |- context [Qle_bool 0 ?x] => destruct (Qle_bool 0 x) eqn:E2
    end;
    try apply Qle_bool_iff in E1; try apply Qle_bool_iff in E2;
    try apply Qle_bool_false in E1; try apply Qle_bool_false in E2;
    split; nra.
Qed.

(** Witness of X7: the sample flick, released at 0.8 px/ms at offset
    400. *)
Lemma momentum_target_direction_witness :
  (0 <= Carousel.velocityX (Carousel.gesture Samples.flickedRow))%Q
  /\ (Carousel.scrollLeft (Carousel.slider Samples.flickedRow)
      <= Carousel.momentumTarget Samples.flickedRow)%Q.
Proof.
  split; [vm_compute; discriminate|].
  destruct (momentum_target_direction Samples.flickedRow)
    as (_ & _ & Hforward & _).
  - vm_compute; discriminate.
  - vm_compute; discriminate.
  - apply Hforward. vm_compute; discriminate.
Defined.

Section SyncFacts.

Import JS Carousel Invariants Timeline.
Local Open Scope Q_scope.

(** The last frame of a button animation leaves the saved position and
    the buttons in step with the offset. *)
Lemma button_animation_done_synced (a : Animation) (t : Q) (x : Row) :
  kind a = ButtonScroll ->
  0 < duration a -> a_startTime a + duration a <= t ->
  synced (animateScroll a t x).
Proof.
  intros Hk Hd Hend.
  destruct (progress_done t (a_startTime a) (duration a) Hd Hend) as [_ Hlt].
  unfold animateScroll. cbv zeta. rewrite Hlt, Hk.
  repeat split; reflexivity.
Qed.

Lemma button_animation_frame_synced (a : Animation) (f : nat) (t : Q)
    (r : Row) :
  kind a = ButtonScroll -> 0 < duration a ->
  frameCallbacks r = [a] \/ (frameCallbacks r = [] /\ synced r) ->
  frameCallbacks (runFrame t r) = [a]
  \/ (frameCallbacks (runFrame t r) = [] /\ synced (runFrame t r)).
Proof.
  intros Hk Hd [Hq|[Hq Hs]].
  - rewrite (runFrame_one a t r Hq).
    destruct (Qlt_le_dec t (a_startTime a + duration a)) as [Hlt|Hge].
    + left. now destruct (animateScroll_running a t
                            (set_frameCallbacks [] r) Hd Hlt).
    + right. split.
      * now destruct (animateScroll_done a t (set_frameCallbacks [] r) Hd Hge).
      * now apply button_animation_done_synced.
  - right. now rewrite (runFrame_idle t r Hq).
Qed.

Lemma button_animation_frames_synced (a : Animation) (ts : list Q) (r : Row) :
  kind a = ButtonScroll -> 0 < duration a ->
  frameCallbacks r = [a] \/ (frameCallbacks r = [] /\ synced r) ->
  frameCallbacks (run (map Frame ts) r) = [a]
  \/ (frameCallbacks (run (map Frame ts) r) = []
      /\ synced (run (map Frame ts) r)).
Proof.
  intros Hk Hd. revert r. induction ts as [|t ts IH]; intros r H.
  - exact H.
  - simpl. apply IH. now apply (button_animation_frame_synced a 0%nat).
Qed.

Lemma button_animation_settles_synced (a : Animation) (ts : list Q) (T : Q)
    (r : Row) :
  kind a = ButtonScroll -> 0 < duration a ->
  a_startTime a + duration a <= T ->
  frameCallbacks r = [a] ->
  synced (run (map Frame (ts ++ [T])) r).
Proof.
  intros Hk Hd HT Hq. rewrite map_app, run_app. simpl.
  destruct (button_animation_frames_synced a ts r Hk Hd (or_introl Hq))
    as [H|[H Hs]].
  - rewrite (runFrame_one a T _ H). now apply button_animation_done_synced.
  - now rewrite (runFrame_idle T _ H).
Qed.

(** Timer callbacks and the debounced listeners keep the saved position
    and the buttons in step with the offset. *)
Lemma synced_runTimerAction (r : Row) (a : TimerAction) :
  synced r -> synced (runTimerAction r a).
Proof.
  intros (S1 & S2 & S3). destruct a; cbn [runTimerAction].
  - repeat split; assumption.
  - repeat split; reflexivity.
  - repeat split; reflexivity.
  - split; [exact S1|split; reflexivity].
Qed.

Lemma synced_fold_timers (l : list TimerAction) (x : Row) :
  synced x -> synced (fold_left runTimerAction l x).
Proof.
  revert x. induction l as [|a l IH]; intros x H; cbn [fold_left].
  - exact H.
  - apply IH. now apply synced_runTimerAction.
Qed.







End SyncFacts.

Section ReleaseFacts.

Import JS Carousel Timeline.
Local Open Scope Q_scope.

Lemma timeout_registered (due : Q) (a : TimerAction)
    (q : list (Q * TimerAction)) :
  In (due, a) (setTimeout due a q).
Proof.
  induction q as [|[d c] q IH]; simpl; [now left|].
  destruct (Qle_bool d due); simpl; auto.
Qed.

Lemma timeout_kept (due : Q) (a : TimerAction) (q : list (Q * TimerAction))
    (e : Q * TimerAction) :
  In e q -> In e (setTimeout due a q).
Proof.
  induction q as [|[d c] q IH]; simpl; [tauto|].
  intros [H|H]; destruct (Qle_bool d due); simpl; auto.
Qed.

Lemma releaseTimeouts_registers (now : Q) (x : Row) :
  In (now + 50, RefreshButtons) (timeouts (releaseTimeouts now x))
  /\ In (now + 100, RestoreSmoothBehavior) (timeouts (releaseTimeouts now x))
  /\ forall e, In e (timeouts x) -> In e (timeouts (releaseTimeouts now x)).
Proof.
  unfold releaseTimeouts. cbn [timeouts set_timeouts]. split; [|split].
  - apply timeout_registered.
  - apply timeout_kept, timeout_registered.
  - intros e H. now apply timeout_kept, timeout_kept.
Qed.

Lemma timeouts_fold_timers (l : list TimerAction) (x : Row) :
  timeouts (fold_left runTimerAction l x) = timeouts x.
Proof.
  revert x. induction l as [|a l IH]; intro x; cbn [fold_left].
  - reflexivity.
  - rewrite IH. now destruct a.
Qed.

(** A timeout of a release stays registered through every event but a
    timer tick at or after its due time. *)
Lemma step_keeps_timeout (d : Q) (a : TimerAction) (e : Event) (r : Row) :
  a = RefreshButtons \/ a = RestoreSmoothBehavior ->
  tickedSince d [e] = false ->
  In (d, a) (timeouts r) -> In (d, a) (timeouts (step r e)).
Proof.
  intros Ha He Hin. unfold tickedSince in He. cbn [existsb] in He.
  rewrite orb_false_r in He.
  destruct e; cbn [step].
  - destruct (runFrame_frame currentTime r) as (_ & _ & _ & K).
    now rewrite K.
  - unfold runTimers. rewrite timeouts_fold_timers.
    cbn [timeouts set_timeouts]. unfold laterTimers. apply filter_In.
    split; [exact Hin|]. cbn [fst]. now rewrite He.
  - now destruct (disabled (leftBtn r)).
  - now destruct (disabled (rightBtn r)).
  - exact Hin.
  - destruct touch as [[cx cy]|]; cbn [handleTouchMove fst]; [|exact Hin].
    destruct (detect _ _ _) as [g1 prevented|]; cbn [fst]; [|exact Hin].
    now destruct (isScrolling g1 && isDragging g1).
  - unfold handleTouchEnd.
    destruct (negb (isDragging (gesture r))); [exact Hin|].
    cbn [timeouts set_gesture].
    apply releaseTimeouts_registers.
    now destruct (momentumApplies (gesture r) now).
  - exact Hin.
  - unfold handleMouseMove. now destruct (negb (isDragging (gesture r))).
  - unfold handleMouseUp.
    destruct (negb (isDragging (gesture r))); [exact Hin|].
    now apply releaseTimeouts_registers.
  - unfold handleScroll, debounce. cbn [timeouts set_timeouts].
    apply timeout_kept. unfold clearTimeout. apply filter_In.
    split; [exact Hin|]. now destruct Ha as [-> | ->].
  - unfold handleResize, debounce. cbn [timeouts set_timeouts].
    apply timeout_kept. unfold clearTimeout. apply filter_In.
    split; [exact Hin|]. now destruct Ha as [-> | ->].
Qed.

Lemma run_keeps_timeout (d : Q) (a : TimerAction) (es : list Event)
    (r : Row) :
  a = RefreshButtons \/ a = RestoreSmoothBehavior ->
  tickedSince d es = false ->
  In (d, a) (timeouts r) -> In (d, a) (timeouts (run es r)).
Proof.
  intro Ha. revert r. induction es as [|e es IH]; intros r Hes Hin.
  - exact Hin.
  - unfold tickedSince in Hes. cbn [existsb] in Hes.
    apply orb_false_iff in Hes. destruct Hes as [He Hes].
    change (run (e :: es) r) with (run es (step r e)).
    apply IH; [exact Hes|]. apply step_keeps_timeout; try assumption.
    unfold tickedSince. cbn [existsb]. now rewrite He.
Qed.

Lemma timeout_due (t d : Q) (a : TimerAction) (q : list (Q * TimerAction)) :
  d <= t -> In (d, a) q -> In a (dueTimers t q).
Proof.
  intros Hd Hin. unfold dueTimers.
  apply (in_map snd _ (d, a)). apply filter_In. split; [exact Hin|].
  cbn [fst]. now apply Qle_bool_iff.
Qed.

(** The callbacks of a tick in which a refresh fires leave the saved
    position and the buttons in step with the offset. *)
Lemma refresh_fires (l : list TimerAction) (x : Row) :
  In RefreshButtons l -> synced (fold_left runTimerAction l x).
Proof.
  revert x. induction l as [|a l IH]; intros x H; cbn [fold_left].
  - contradiction.
  - destruct H as [->|H]; [|now apply IH].
    apply synced_fold_timers. cbn [runTimerAction].
    split; [reflexivity|split; reflexivity].
Qed.

Lemma smooth_kept (l : list TimerAction) (x : Row) :
  scrollBehavior (slider x) = "smooth"%string ->
  scrollBehavior (slider (fold_left runTimerAction l x)) = "smooth"%string.
Proof.
  revert x. induction l as [|a l IH]; intros x H; cbn [fold_left].
  - exact H.
  - apply IH. now destruct a.
Qed.

Lemma restore_fires (l : list TimerAction) (x : Row) :
  In RestoreSmoothBehavior l ->
  scrollBehavior (slider (fold_left runTimerAction l x)) = "smooth"%string.
Proof.
  revert x. induction l as [|a l IH]; intros x H; cbn [fold_left].
  - contradiction.
  - destruct H as [->|H]; [|now apply IH].
    now apply smooth_kept.
Qed.

End ReleaseFacts.

(** X8. The two timeouts of a release. The release of a drag (touch or
    mouse) at [now] registers a refresh of the saved position and the
    buttons, due at [now + 50], and the return of the scroll behaviour to
    "smooth", due at [now + 100]. Whatever events follow (the frames of a
    momentum animation, clicks, further gestures, scroll and resize events,
    earlier timer ticks), each of the two stays registered until a timer
    tick at or after its due time; right after such a tick the saved
    position and the buttons are those of the offset the row has at that
    moment, and the scroll behaviour is "smooth". *)
Theorem release_timeouts_lifecycle
    (r : Carousel.Row) (now t : Q) (mouse : bool)
    (es : list Carousel.Event) :
  Carousel.isDragging (Carousel.gesture r) = true ->
  let released :=
    if mouse then Carousel.handleMouseUp now r
    else Carousel.handleTouchEnd now r in
  let before := Carousel.run es released in
  let later := Carousel.runTimers t before in
  (Timeline.tickedSince (now + 50) es = false ->
   In ((now + 50)%Q, Carousel.RefreshButtons) (Carousel.timeouts before)
   /\ ((now + 50 <= t)%Q -> Timeline.synced later))
  /\ (Timeline.tickedSince (now + 100) es = false ->
      In ((now + 100)%Q, Carousel.RestoreSmoothBehavior)
        (Carousel.timeouts before)
      /\ ((now + 100 <= t)%Q ->
          Carousel.scrollBehavior (Carousel.slider later)
          = "smooth"%string)).
Proof.
  intros Hd released before later.
  assert (Hreg : In ((now + 50)%Q, Carousel.RefreshButtons)
                   (Carousel.timeouts released)
                 /\ In ((now + 100)%Q, Carousel.RestoreSmoothBehavior)
                      (Carousel.timeouts released)).
  { subst released. destruct mouse.
    - unfold Carousel.handleMouseUp. rewrite Hd. cbn [negb]. cbv zeta.
      split; [exact (proj1 (releaseTimeouts_registers now _))
             |exact (proj1 (proj2 (releaseTimeouts_registers now _)))].
    - unfold Carousel.handleTouchEnd. rewrite Hd. cbn [negb].
      cbn [Carousel.timeouts Carousel.set_gesture].
      split; [exact (proj1 (releaseTimeouts_registers now _))
             |exact (proj1 (proj2 (releaseTimeouts_registers now _)))]. }
  destruct Hreg as [R1 R2]. split.
  - intro Hes.
    pose proof (run_keeps_timeout _ _ es released (or_introl eq_refl) Hes R1)
      as K.
    fold before in K. split; [exact K|]. intro Ht. subst later.
    unfold Carousel.runTimers. apply refresh_fires.
    now apply (timeout_due t (now + 50)).
  - intro Hes.
    pose proof (run_keeps_timeout _ _ es released (or_intror eq_refl) Hes R2)
      as K.
    fold before in K. split; [exact K|]. intro Ht. subst later.
    unfold Carousel.runTimers. apply restore_fires.
    now apply (timeout_due t (now + 100)).
Qed.

(** Witness of X8: the sample flick released at 250 ms, with frames of
    the momentum animation, a scroll event and an early timer tick before
    the timers fire at 400 ms. *)
Lemma release_timeouts_lifecycle_witness :
  Carousel.isDragging (Carousel.gesture Samples.flickedRow) = true
  /\ Timeline.tickedSince (250 + 100)
       [Carousel.Frame 266; Carousel.Scroll 267; Carousel.Timers 290;
        Carousel.Frame 283]
     = false
  /\ Carousel.scrollBehavior
       (Carousel.slider
          (Carousel.runTimers 400
             (Carousel.run
                [Carousel.Frame 266; Carousel.Scroll 267; Carousel.Timers 290;
                 Carousel.Frame 283]
                (Carousel.handleTouchEnd 250 Samples.flickedRow))))
     = "smooth"%string.
Proof.
  split; [reflexivity|]. split; [reflexivity|].
  destruct (release_timeouts_lifecycle Samples.flickedRow 250 400 false
              [Carousel.Frame 266; Carousel.Scroll 267; Carousel.Timers 290;
               Carousel.Frame 283] eq_refl) as (_ & Hlate).
  apply (Hlate eq_refl). vm_compute; discriminate.
Defined.

(** X9. When the animation that the click listener of a button starts on
    a resting row has ended, the saved position
    [AppState.scrollPositions] equals the offset and both buttons show the
    state of that offset; in particular a right click that reaches the end
    leaves the right button disabled, and a left click that reaches the
    start leaves the left button disabled. A click on a button that is not
    disabled runs its listener. *)
Theorem button_animation_refreshes_buttons
    (w t : Q) (ts : list Q) (T : Q) (r : Carousel.Row) :
  Carousel.frameCallbacks r = [] -> (t + 300 <= T)%Q ->
  let afterRight :=
    Carousel.run (map Carousel.Frame (ts ++ [T]))
      (Carousel.clickRight w t r) in
  let afterLeft :=
    Carousel.run (map Carousel.Frame (ts ++ [T]))
      (Carousel.clickLeft w t r) in
  Timeline.synced afterRight
  /\ Timeline.synced afterLeft
  /\ ((Carousel.rightTarget w r == Carousel.maxScroll r)%Q ->
      Carousel.disabled (Carousel.rightBtn afterRight) = true)
  /\ ((Carousel.leftTarget w r == 0)%Q ->
      Carousel.disabled (Carousel.leftBtn afterLeft) = true)
  /\ (Carousel.disabled (Carousel.rightBtn r) = false ->
      Carousel.run
        (Carousel.ClickRight w t :: map Carousel.Frame (ts ++ [T])) r
      = afterRight)
  /\ (Carousel.disabled (Carousel.leftBtn r) = false ->
      Carousel.run
        (Carousel.ClickLeft w t :: map Carousel.Frame (ts ++ [T])) r
      = afterLeft).
Proof.
  intros Hq HT afterRight afterLeft.
  assert (SR : Timeline.synced afterRight).
  { subst afterRight.
    eapply button_animation_settles_synced;
      [| | |unfold Carousel.clickRight, Carousel.smoothScrollTo,
              Carousel.requestAnimationFrame; simpl; rewrite Hq; reflexivity];
      [reflexivity|reflexivity|exact HT]. }
  assert (SL : Timeline.synced afterLeft).
  { subst afterLeft.
    eapply button_animation_settles_synced;
      [| | |unfold Carousel.clickLeft, Carousel.smoothScrollTo,
              Carousel.requestAnimationFrame; simpl; rewrite Hq; reflexivity];
      [reflexivity|reflexivity|exact HT]. }
  split; [exact SR|]. split; [exact SL|]. split; [|split; [|split]].
  - intro Hend. destruct SR as (_ & _ & HB). rewrite HB.
    destruct (right_click_settles w t ts T r Hq HT) as ((_ & _ & S) & W & C).
    fold afterRight in S, W, C.
    unfold Carousel.updateScrollButtons.
    cbn [Carousel.rightBtn Carousel.set_buttons]. rewrite showHide_disabled.
    apply Qle_bool_iff. rewrite S, Hend, W, C.
    unfold Carousel.maxScroll, Carousel.tolerance. lra.
  - intro Hstart. destruct SL as (_ & HB & _). rewrite HB.
    unfold Carousel.updateScrollButtons.
    cbn [Carousel.leftBtn Carousel.set_buttons]. rewrite showHide_disabled.
    apply Qle_bool_iff.
    assert (S : (Carousel.scrollLeft (Carousel.slider afterLeft)
                 == Carousel.leftTarget w r)%Q).
    { subst afterLeft.
      set (a := Carousel.mkAnimation Carousel.ButtonScroll
                  (Carousel.scrollLeft (Carousel.slider r))
                  (Carousel.leftTarget w r
                   - Carousel.scrollLeft (Carousel.slider r)) t 300).
      assert (Hone : Invariants.oneInFlight a (Carousel.finishedAnimations r)
                       (Carousel.clickLeft w t r)).
      { left. unfold Carousel.clickLeft, Carousel.smoothScrollTo,
          Carousel.requestAnimationFrame. simpl. rewrite Hq.
        split; reflexivity. }
      destruct (one_animation_settles a _ ts T _ eq_refl HT Hone)
        as (_ & _ & F3).
      rewrite F3. unfold a. simpl. ring. }
    rewrite S, Hstart. unfold Carousel.tolerance. lra.
  - intro He. subst afterRight. unfold Carousel.run at 1.
    cbn [fold_left Carousel.step]. now rewrite He.
  - intro He. subst afterLeft. unfold Carousel.run at 1.
    cbn [fold_left Carousel.step]. now rewrite He.
Qed.

(** Witness of X9: one click on the right button of the wide sample row,
    frames at 100, 200 and 300 ms. *)
Lemma button_animation_refreshes_buttons_witness :
  Carousel.frameCallbacks Samples.row = []
  /\ Timeline.synced
       (Carousel.run
          (Carousel.ClickRight 1280 0
             :: map Carousel.Frame ([100; 200] ++ [300])) Samples.row).
Proof.
  split; [reflexivity|].
  destruct (button_animation_refreshes_buttons 1280 0 [100; 200] 300
              Samples.row eq_refl) as (SR & _ & _ & _ & ER & _).
  - vm_compute; discriminate.
  - rewrite (ER eq_refl). exact SR.
Defined.

(** ** Three clicks on the right button *)




(* ------------------------------------------------------------------ *)
(** ** Further properties of the content queries and My List *)

Section LibraryFacts.

Import Content Library.
Local Open Scope string_scope.
Local Open Scope list_scope.

Lemma searchCategories_Some (cs : list Category) (cid : string)
    (c : ContentItem) :
  searchCategories cs cid = Some c ->
  exists cat, In cat cs /\ In c (items cat).
Proof.
  induction cs as [|k cs IH]; simpl; [discriminate|].
  destruct (find (hasId cid) (items k)) eqn:E.
  - intro H; inversion H; subst. exists k. split; [now left|].
    now apply find_some in E.
  - intro H. destruct (IH H) as (cat & Hin & Hc). exists cat. auto.
Qed.

Lemma searchCategories_None (cs : list Category) (cid : string) :
  searchCategories cs cid = None ->
  forall cat c, In cat cs -> In c (items cat) -> id c <> cid.
Proof.
  induction cs as [|k cs IH]; simpl; [contradiction|].
  destruct (find (hasId cid) (items k)) eqn:E; [discriminate|].
  intros H cat c [->|Hin] Hc.
  - intro Hid. apply (find_none _ _ E) in Hc. unfold hasId in Hc.
    rewrite Hid, String.eqb_refl in Hc. discriminate.
  - now apply (IH H cat).
Qed.

Lemma saveMyListToStorage_saved (st : Store) (d : ContentData)
    (ml : Category) :
  contentData st = Some d -> findMyList d = Some ml ->
  savedMyList (saveMyListToStorage st)
  = if setItemAccepts st (items ml) then Some (items ml)
    else savedMyList st.
Proof.
  intros Hd Hml. unfold saveMyListToStorage. rewrite Hd, Hml.
  now destruct (setItemAccepts st (items ml)).
Qed.

Lemma written_saved (st : Store) (d : ContentData) (ml : Category)
    (l : list ContentItem) :
  findMyList d = Some ml ->
  savedMyList (saveMyListToStorage (written st d l))
  = if setItemAccepts st l then Some l else savedMyList st.
Proof.
  intro Hml.
  rewrite (saveMyListToStorage_saved (written st d l)
             (mkData (hero d) (setMyListItems (categories d) l))
             (mkCategory (cat_id ml) (cat_title ml) l) eq_refl).
  - reflexivity.
  - unfold findMyList. cbn [categories].
    now apply find_setMyListItems.
Qed.

(** A call of [addToMyList] that does not return [true] leaves the store as
    it is. *)
Lemma addToMyList_failed (st : Store) (cid : string) :
  succeeded (addToMyList st cid) = false ->
  storeAfter (addToMyList st cid) st = st.
Proof.
  unfold addToMyList.
  destruct (getContentById st cid) as [c|]; [|reflexivity].
  destruct (contentData st) as [d|]; [|reflexivity].
  destruct (findMyList d) as [ml|]; [|reflexivity].
  destruct (existsb (hasId cid) (items ml)); [reflexivity|].
  simpl. discriminate.
Qed.

(** A call of [addToMyList] that returns [true] appended the record found
    for the id, which was not on the list, and saved the new list. *)
Lemma addToMyList_succeeded (st : Store) (cid : string) :
  succeeded (addToMyList st cid) = true ->
  exists c d ml,
    getContentById st cid = Some c
    /\ contentData st = Some d
    /\ findMyList d = Some ml
    /\ existsb (hasId cid) (items ml) = false
    /\ contentData (storeAfter (addToMyList st cid) st)
       = Some (mkData (hero d)
                 (setMyListItems (categories d) (items ml ++ [c])))
    /\ savedMyList (storeAfter (addToMyList st cid) st)
       = (if setItemAccepts st (items ml ++ [c])
          then Some (items ml ++ [c]) else savedMyList st).
Proof.
  unfold addToMyList.
  destruct (getContentById st cid) as [c|]; [|discriminate].
  destruct (contentData st) as [d|] eqn:Hd; [|discriminate].
  destruct (findMyList d) as [ml|] eqn:Hml; [|discriminate].
  destruct (existsb (hasId cid) (items ml)) eqn:Hex; [discriminate|].
  intros _. exists c, d, ml.
  split; [reflexivity|]. split; [reflexivity|]. split; [exact Hml|].
  split; [exact Hex|]. cbn [storeAfter]. split.
  - now rewrite saveMyListToStorage_contentData.
  - now apply (written_saved st d ml).
Qed.

(** [removeFromMyList] leaves on the list the items with another id. *)
Lemma removeFromMyList_items (st : Store) (cid : string) :
  myListItems (storeAfter (removeFromMyList st cid) st)
  = filter (fun item => negb (hasId cid item)) (myListItems st).
Proof.
  unfold removeFromMyList.
  destruct (contentData st) as [d|] eqn:Hd.
  - destruct (findMyList d) as [ml|] eqn:Hml.
    + rewrite (myListItems_found st d ml Hd Hml). cbv zeta.
      destruct (Nat.ltb _ _); cbn [storeAfter].
      * rewrite myListItems_saved.
        now apply (myListItems_written st d ml).
      * now apply (myListItems_written st d ml).
    + cbn [storeAfter]. unfold myListItems. now rewrite Hd, Hml.
  - cbn [storeAfter]. unfold myListItems. now rewrite Hd.
Qed.

(** A call of [removeFromMyList] that returns [true] saved the list it
    left. *)
Lemma removeFromMyList_succeeded (st : Store) (cid : string) :
  succeeded (removeFromMyList st cid) = true ->
  exists d ml,
    contentData st = Some d
    /\ findMyList d = Some ml
    /\ savedMyList (storeAfter (removeFromMyList st cid) st)
       = (let kept :=
            filter (fun item => negb (hasId cid item)) (items ml) in
          if setItemAccepts st kept then Some kept else savedMyList st).
Proof.
  unfold removeFromMyList.
  destruct (contentData st) as [d|] eqn:Hd; [|discriminate].
  destruct (findMyList d) as [ml|] eqn:Hml; [|discriminate].
  cbv zeta. destruct (Nat.ltb _ _); [|discriminate].
  intros _. exists d, ml. split; [reflexivity|]. split; [exact Hml|].
  cbn [storeAfter]. now apply (written_saved st d ml).
Qed.

Lemma NoDup_map_filter (f : ContentItem -> bool) (l : list ContentItem) :
  NoDup (map id l) -> NoDup (map id (filter f l)).
Proof.
  induction l as [|x l IH]; simpl; intro H; [constructor|].
  inversion H as [|? ? Hx Hl]; subst.
  destruct (f x); simpl; [|auto].
  constructor; [|auto].
  intro Hin. apply Hx. apply in_map_iff in Hin.
  destruct Hin as (y & Hy & Hin). apply filter_In in Hin.
  apply in_map_iff. exists y. tauto.
Qed.

Lemma NoDup_snoc (x : string) (l : list string) :
  NoDup l -> ~ In x l -> NoDup (l ++ [x]).
Proof.
  induction l as [|y l IH]; simpl; intros Hl Hx.
  - constructor; [intros []|constructor].
  - inversion Hl as [|? ? Hy Hl']; subst. constructor.
    + rewrite in_app_iff. simpl. intuition congruence.
    + apply IH; [exact Hl'|]. intro H. apply Hx. now right.
Qed.

Lemma not_In_filter_hasId (cid : string) (l : list ContentItem) :
  ~ In cid (map id (filter (fun item => negb (hasId cid item)) l)).
Proof.
  intro H. apply in_map_iff in H. destruct H as (y & Hy & Hin).
  apply filter_In in Hin. destruct Hin as [_ Hn].
  unfold hasId in Hn. rewrite Hy, String.eqb_refl in Hn. discriminate.
Qed.

Lemma existsb_hasId_false (cid : string) (l : list ContentItem) :
  existsb (hasId cid) l = false -> ~ In cid (map id l).
Proof.
  intros H Hin. apply in_map_iff in Hin. destruct Hin as (y & Hy & Hin).
  assert (E : existsb (hasId cid) l = true).
  { apply existsb_exists. exists y. split; [exact Hin|].
    unfold hasId. rewrite Hy. apply String.eqb_refl. }
  congruence.
Qed.

(** The sum of [getTotalContentCount], from any start value. *)
Lemma total_from (cs : list Category) (n : nat) :
  fold_left (fun total category => (total + List.length (items category))%nat)
    cs n
  = (n + fold_left
           (fun total category => (total + List.length (items category))%nat)
           cs 0)%nat.
Proof.
  revert n. induction cs as [|k cs IH]; intro n; simpl; [lia|].
  rewrite (IH (n + _)%nat), (IH (List.length (items k))). lia.
Qed.

Lemma total_setMyListItems (cs : list Category) (ml : Category)
    (l : list ContentItem) :
  find isMyList cs = Some ml ->
  (fold_left (fun total category => (total + List.length (items category))%nat)
     (setMyListItems cs l) 0 + List.length (items ml)
   = fold_left
       (fun total category => (total + List.length (items category))%nat)
       cs 0 + List.length l)%nat.
Proof.
  induction cs as [|k cs IH]; simpl; [discriminate|].
  destruct (isMyList k) eqn:E.
  - intro H; inversion H; subst. simpl.
    rewrite (total_from cs (List.length l)),
            (total_from cs (List.length (items ml))). lia.
  - intro H. simpl.
    rewrite (total_from _ (List.length (items k))),
            (total_from cs (List.length (items k))).
    specialize (IH H). lia.
Qed.

Lemma filter_hasId_split (cid : string) (l : list ContentItem) :
  (List.length (filter (fun item => negb (hasId cid item)) l) + countId cid l
   = List.length l)%nat.
Proof.
  unfold countId. induction l as [|x l IH]; simpl; [reflexivity|].
  destruct (hasId cid x); simpl; lia.
Qed.

Lemma find_other_setMyListItems (cs : list Category) (k : string)
    (l : list ContentItem) :
  k <> "my-list" ->
  find (hasCategoryId k) (setMyListItems cs l) = find (hasCategoryId k) cs.
Proof.
  intro Hk. induction cs as [|c cs IH]; simpl; [reflexivity|].
  destruct (isMyList c) eqn:E; simpl.
  - unfold isMyList in E. apply String.eqb_eq in E.
    unfold hasCategoryId. simpl. rewrite E.
    destruct (String.eqb "my-list" k) eqn:E'; [|reflexivity].
    apply String.eqb_eq in E'. congruence.
  - now rewrite IH.
Qed.

Lemma getContentByCategory_written (st s : Store) (d : ContentData)
    (l : list ContentItem) (k : string) :
  k <> "my-list" -> contentData st = Some d ->
  getContentByCategory (written s d l) k = getContentByCategory st k.
Proof.
  intros Hk Hd. unfold getContentByCategory. rewrite Hd. simpl.
  now rewrite find_other_setMyListItems.
Qed.

Lemma getContentByCategory_saved (st : Store) (k : string) :
  getContentByCategory (saveMyListToStorage st) k = getContentByCategory st k.
Proof.
  unfold getContentByCategory. now rewrite saveMyListToStorage_contentData.
Qed.

End LibraryFacts.

(** X10. [getContentById] is a first-match lookup: a record it returns
    carries the id and is the hero or an item of some category; it returns
    null only when there is no content data or neither the hero nor any item
    carries the id; and a hero with the id wins over the items. *)
Theorem getContentById_first_match (st : Content.Store) (cid : string) :
  match Content.getContentById st cid with
  | Some c =>
      Content.id c = cid
      /\ exists d,
           Content.contentData st = Some d
           /\ (Content.hero d = Some c
               \/ exists cat,
                    In cat (Content.categories d)
                    /\ In c (Content.items cat))
  | None =>
      forall d, Content.contentData st = Some d ->
        (forall h, Content.hero d = Some h -> Content.id h <> cid)
        /\ (forall cat c,
              In cat (Content.categories d) -> In c (Content.items cat) ->
              Content.id c <> cid)
  end
  /\ (forall d h,
        Content.contentData st = Some d -> Content.hero d = Some h ->
        Content.id h = cid -> Content.getContentById st cid = Some h).
Proof.
  split.
  - destruct (Content.getContentById st cid) as [c|] eqn:G.
    + split; [now apply (getContentById_id st)|].
      unfold Content.getContentById in G.
      destruct (Content.contentData st) as [d|]; [|discriminate].
      exists d. split; [reflexivity|].
      destruct (Content.hero d) as [h|].
      * destruct (Content.hasId cid h).
        -- left. congruence.
        -- right. now apply (searchCategories_Some _ cid).
      * right. now apply (searchCategories_Some _ cid).
    + intros d Hd. unfold Content.getContentById in G. rewrite Hd in G.
      destruct (Content.hero d) as [h|].
      * destruct (Content.hasId cid h) eqn:E; [discriminate|]. split.
        -- intros h' Hh' Hid. inversion Hh'; subst h'.
           unfold Content.hasId in E. rewrite Hid, String.eqb_refl in E.
           discriminate.
        -- now apply searchCategories_None.
      * split; [discriminate|]. now apply searchCategories_None.
  - intros d h Hd Hh Hid. unfold Content.getContentById.
    rewrite Hd, Hh. unfold Content.hasId. now rewrite Hid, String.eqb_refl.
Qed.

(** Witness of X10: the hero of the sample data is found by its id. *)
Lemma getContentById_first_match_witness :
  Content.contentData Samples.store = Some Samples.data
  /\ Content.getContentById Samples.store "hero-1"
     = Some Samples.featured.
Proof.
  split; [reflexivity|].
  exact (proj2 (getContentById_first_match Samples.store "hero-1")
           Samples.data Samples.featured
           eq_refl eq_refl eq_refl).
Defined.

(** X11. The ids on My List stay distinct: if no two items of My List
    share an id, the same holds after [addToMyList] and after
    [removeFromMyList], whatever they return; after a removal the id is on
    the list no more, and after an add that returned [true] it is. *)
Theorem myList_ids_stay_distinct (st : Content.Store) (cid : string) :
  NoDup (map Content.id (Content.myListItems st)) ->
  let added := Library.storeAfter (Content.addToMyList st cid) st in
  let removed := Library.storeAfter (Content.removeFromMyList st cid) st in
  NoDup (map Content.id (Content.myListItems added))
  /\ NoDup (map Content.id (Content.myListItems removed))
  /\ ~ In cid (map Content.id (Content.myListItems removed))
  /\ (Library.succeeded (Content.addToMyList st cid) = true ->
      In cid (map Content.id (Content.myListItems added))).
Proof.
  intros Hnd added removed.
  assert (Hadd : Library.succeeded (Content.addToMyList st cid) = true ->
                 exists c, Content.id c = cid
                   /\ ~ In cid (map Content.id (Content.myListItems st))
                   /\ Content.myListItems added
                      = (Content.myListItems st ++ [c])%list).
  { intro Hs.
    destruct (addToMyList_succeeded st cid Hs)
      as (c & d & ml & Hg & Hd & Hml & Hex & Hcd & _).
    exists c. split; [now apply (getContentById_id st)|].
    rewrite (myListItems_found st d ml Hd Hml). split.
    - now apply existsb_hasId_false.
    - subst added. unfold Content.myListItems at 1. rewrite Hcd.
      unfold Content.findMyList. simpl.
      now rewrite (find_setMyListItems _ _ _ Hml). }
  split; [|split; [|split]].
  - destruct (Library.succeeded (Content.addToMyList st cid)) eqn:Hs.
    + destruct (Hadd eq_refl) as (c & Hid & Hnew & ->).
      rewrite map_app. simpl. rewrite Hid. now apply NoDup_snoc.
    + subst added. now rewrite (addToMyList_failed st cid Hs).
  - subst removed. rewrite removeFromMyList_items.
    now apply NoDup_map_filter.
  - subst removed. rewrite removeFromMyList_items.
    apply not_In_filter_hasId.
  - intro Hs. destruct (Hadd Hs) as (c & Hid & _ & ->).
    rewrite map_app, in_app_iff. right. simpl. now left.
Qed.

(** Witness of X11: the first film is added to the empty My List of the sample
    store. *)
Lemma myList_ids_stay_distinct_witness :
  NoDup (map Content.id (Content.myListItems Samples.store))
  /\ In "m1"%string
       (map Content.id
          (Content.myListItems
             (Library.storeAfter
                (Content.addToMyList Samples.store "m1") Samples.store))).
Proof.
  assert (H : NoDup (map Content.id (Content.myListItems Samples.store)))
    by constructor.
  split; [exact H|].
  exact (proj2 (proj2 (proj2
           (myList_ids_stay_distinct Samples.store "m1" H))) eq_refl).
Defined.

(** X12. The total [getTotalContentCount] reports grows by exactly one
    with an [addToMyList] that returns [true], stays with one that does not,
    and falls with [removeFromMyList] by the number of items of My List that
    carried the id. *)
Theorem total_count_follows_myList (st : Content.Store) (cid : string) :
  let added := Library.storeAfter (Content.addToMyList st cid) st in
  let removed := Library.storeAfter (Content.removeFromMyList st cid) st in
  Library.getTotalContentCount added
  = (if Library.succeeded (Content.addToMyList st cid)
     then S (Library.getTotalContentCount st)
     else Library.getTotalContentCount st)
  /\ (Library.getTotalContentCount removed
      + Library.countId cid (Content.myListItems st)
      = Library.getTotalContentCount st)%nat.
Proof.
  intros added removed. split.
  - destruct (Library.succeeded (Content.addToMyList st cid)) eqn:Hs.
    + destruct (addToMyList_succeeded st cid Hs)
        as (c & d & ml & _ & Hd & Hml & _ & Hcd & _).
      subst added. unfold Library.getTotalContentCount. rewrite Hcd, Hd.
      cbn [Content.categories].
      pose proof (total_setMyListItems (Content.categories d) ml
                    (Content.items ml ++ [c])%list Hml) as H.
      rewrite length_app in H. simpl in H. lia.
    + subst added. now rewrite (addToMyList_failed st cid Hs).
  - subst removed. unfold Content.removeFromMyList.
    destruct (Content.contentData st) as [d|] eqn:Hd.
    + destruct (Content.findMyList d) as [ml|] eqn:Hml.
      * rewrite (myListItems_found st d ml Hd Hml). cbv zeta.
        pose proof (total_setMyListItems (Content.categories d) ml
                      (filter (fun item => negb (Content.hasId cid item))
                         (Content.items ml)) Hml) as H.
        pose proof (filter_hasId_split cid (Content.items ml)) as H'.
        assert (G : (Library.getTotalContentCount
                       (Content.written st d
                          (filter
                             (fun item => negb (Content.hasId cid item))
                             (Content.items ml)))
                     + Library.countId cid (Content.items ml)
                     = Library.getTotalContentCount st)%nat).
        { unfold Library.getTotalContentCount, Content.written. rewrite Hd.
          cbn [Content.contentData Content.categories]. lia. }
        destruct (Nat.ltb _ _); cbn [Library.storeAfter].
        -- unfold Library.getTotalContentCount at 1.
           rewrite saveMyListToStorage_contentData.
           exact G.
        -- exact G.
      * cbn [Library.storeAfter]. unfold Content.myListItems.
        rewrite Hd, Hml. unfold Library.countId. simpl. lia.
    + cbn [Library.storeAfter]. unfold Content.myListItems. rewrite Hd.
      unfold Library.countId. simpl. lia.
Qed.

(** X13. Adding to or removing from My List changes no other row: for a
    category id other than ['my-list'], [getContentByCategory] returns the
    same items before and after either call. *)
Theorem myList_calls_leave_other_rows (st : Content.Store)
    (cid categoryId : string) :
  categoryId <> "my-list"%string ->
  Library.getContentByCategory
    (Library.storeAfter (Content.addToMyList st cid) st) categoryId
  = Library.getContentByCategory st categoryId
  /\ Library.getContentByCategory
       (Library.storeAfter (Content.removeFromMyList st cid) st) categoryId
     = Library.getContentByCategory st categoryId.
Proof.
  intro Hk. split.
  - destruct (Library.succeeded (Content.addToMyList st cid)) eqn:Hs.
    + destruct (addToMyList_succeeded st cid Hs)
        as (c & d & ml & _ & Hd & Hml & _ & Hcd & _).
      unfold Library.getContentByCategory. rewrite Hcd, Hd.
      cbn [Content.categories]. now rewrite find_other_setMyListItems.
    + now rewrite (addToMyList_failed st cid Hs).
  - unfold Content.removeFromMyList.
    destruct (Content.contentData st) as [d|] eqn:Hd; [|reflexivity].
    destruct (Content.findMyList d) as [ml|]; [|reflexivity].
    cbv zeta. destruct (Nat.ltb _ _); cbn [Library.storeAfter].
    + rewrite getContentByCategory_saved.
      now apply getContentByCategory_written.
    + now apply getContentByCategory_written.
Qed.

(** Witness of X13: the trending row of the sample store. *)
Lemma myList_calls_leave_other_rows_witness :
  "trending"%string <> "my-list"%string
  /\ Library.getContentByCategory
       (Library.storeAfter
          (Content.addToMyList Samples.store "m2") Samples.store)
       "trending"
     = Library.getContentByCategory Samples.store "trending".
Proof.
  assert (H : "trending"%string <> "my-list"%string) by discriminate.
  split; [exact H|].
  exact (proj1 (myList_calls_leave_other_rows Samples.store "m2"
                  "trending" H)).
Defined.

(** X14. My List and a reload. After an [addToMyList] or a
    [removeFromMyList] that returned [true], fetching content data that has
    a My List category and calling [loadMyListFromStorage] gives the list
    the call left if the browser took the write of [saveMyListToStorage].
    Where [localStorage.setItem] threw, the call returned [true] all the
    same, and the reload gives the list that was saved before it, or the
    fetched data's own list when nothing was saved.  The other rows are
    those of the fetched data. *)
Theorem myList_survives_reload (st : Content.Store) (cid : string)
    (fetched : Content.ContentData) (ml0 : Content.Category) :
  Content.findMyList fetched = Some ml0 ->
  let added := Library.storeAfter (Content.addToMyList st cid) st in
  let removed := Library.storeAfter (Content.removeFromMyList st cid) st in
  let before :=
    match Content.savedMyList st with
    | Some l => l
    | None => Content.items ml0
    end in
  (Library.succeeded (Content.addToMyList st cid) = true ->
   Content.myListItems (Library.reload fetched added)
   = if Content.setItemAccepts st (Content.myListItems added)
     then Content.myListItems added else before)
  /\ (Library.succeeded (Content.removeFromMyList st cid) = true ->
      Content.myListItems (Library.reload fetched removed)
      = if Content.setItemAccepts st (Content.myListItems removed)
        then Content.myListItems removed else before)
  /\ (forall other categoryId,
        categoryId <> "my-list"%string ->
        Library.getContentByCategory (Library.reload fetched other) categoryId
        = Library.getContentByCategory
            (Content.initialStore (Some fetched)) categoryId).
Proof.
  intros H0 added removed before.
  assert (R : forall s,
            Content.myListItems (Library.reload fetched s)
            = match Content.savedMyList s with
              | Some l => l
              | None => Content.items ml0
              end).
  { intro s. unfold Library.reload, Library.loadMyListFromStorage.
    cbn [Content.savedMyList Content.contentData].
    destruct (Content.savedMyList s) as [l|].
    - rewrite H0. now apply (myListItems_written _ fetched ml0).
    - unfold Content.myListItems. cbn [Content.contentData].
      now rewrite H0. }
  split; [|split].
  - intro Hs.
    destruct (addToMyList_succeeded st cid Hs)
      as (c & d & ml & _ & Hd & Hml & _ & Hcd & Hsv).
    fold added in Hcd, Hsv. rewrite (R added), Hsv.
    assert (E : Content.myListItems added = (Content.items ml ++ [c])%list).
    { unfold Content.myListItems. rewrite Hcd. unfold Content.findMyList.
      simpl. now rewrite (find_setMyListItems _ _ _ Hml). }
    rewrite E.
    now destruct (Content.setItemAccepts st (Content.items ml ++ [c])%list).
  - intro Hs.
    destruct (removeFromMyList_succeeded st cid Hs)
      as (d & ml & Hd & Hml & Hsv).
    fold removed in Hsv. rewrite (R removed), Hsv.
    assert (E : Content.myListItems removed
                = filter (fun item => negb (Content.hasId cid item))
                    (Content.items ml)).
    { subst removed. rewrite removeFromMyList_items.
      now rewrite (myListItems_found st d ml Hd Hml). }
    rewrite E. cbv zeta.
    now destruct (Content.setItemAccepts st _).
  - intros other k Hk. unfold Library.reload, Library.loadMyListFromStorage.
    cbn [Content.savedMyList Content.contentData].
    destruct (Content.savedMyList other) as [l|]; [|reflexivity].
    rewrite H0. unfold Library.getContentByCategory, Content.written.
    cbn [Content.contentData Content.categories Content.initialStore].
    now rewrite find_other_setMyListItems.
Qed.

(** Witness of X14: the second film is added in a browser whose storage
    takes no write.  The call returns [true], My List holds the film, and
    after a reload with the sample data My List is empty. *)
Lemma myList_survives_reload_witness :
  Content.findMyList Samples.data = Some Samples.myList
  /\ Library.succeeded (Content.addToMyList Samples.fullStore "m2") = true
  /\ Content.myListItems
       (Library.storeAfter
          (Content.addToMyList Samples.fullStore "m2") Samples.fullStore)
     = [Samples.movie2]
  /\ Content.myListItems
       (Library.reload Samples.data
          (Library.storeAfter
             (Content.addToMyList Samples.fullStore "m2") Samples.fullStore))
     = [].
Proof.
  assert (H : Content.findMyList Samples.data = Some Samples.myList)
    by reflexivity.
  split; [exact H|]. split; [reflexivity|]. split; [reflexivity|].
  exact (proj1 (myList_survives_reload Samples.fullStore "m2" Samples.data
                  Samples.myList H) eq_refl).
Defined.

(* ================================================================== *)
(** * Further properties of the modal *)
(* ================================================================== *)

Section SessionFacts.

Import Content JS Modal Session.
Local Open Scope Q_scope.

Ltac fields_of :=
  cbn [listeners fields dom currentModal timers store nextSerial
       bump set_fields set_listeners set_dom set_timers set_currentModal
       set_onCloseClick set_onOverlayClick set_onKeydown
       onCloseClick onOverlayClick onKeydown onPlayClick onListClick
       onLikeClick
       modalCloseHandler modalOverlayClickHandler modalKeydownHandler
       modalPlayHandler modalListHandler modalLikeHandler
       set_modalBody set_overlay set_body set_notifications set_announcements
       modalBody overlayPresent set_innerHTML] in *.

(** The wiring is read from the listeners, the handler fields, the presence
    of the overlay and the serial counter. *)
Lemma wired_ext (a b : App) :
  listeners b = listeners a -> fields b = fields a ->
  overlayPresent (dom b) = overlayPresent (dom a) ->
  (nextSerial a <= nextSerial b)%nat -> wired a -> wired b.
Proof.
  intros L F O N (W1 & W2 & W). unfold wired. rewrite L, F, O.
  split; [lia|]. split; [exact W2|exact W].
Qed.

Lemma registered_None (l : list Handler) : registered None l -> l = [].
Proof. intros [H|(h & H & _)]; [exact H|discriminate]. Qed.

Lemma registered_nil (f : option Handler) : registered f [].
Proof. now left. Qed.

Lemma remove_registered (h : Handler) (l : list Handler) :
  registered (Some h) l -> removeEventListener h l = [].
Proof.
  intros [->|(h' & E & ->)]; [reflexivity|].
  inversion E; subst h'. unfold removeEventListener. simpl.
  now rewrite sameHandler_refl.
Qed.

(** Removing the closure of a field leaves the permanent listener. *)
Lemma remove_behind (sys h : Handler) (rest : list Handler) :
  (serial sys < 2)%nat -> (2 <= serial h)%nat ->
  registered (Some h) rest ->
  removeEventListener h (sys :: rest) = [sys].
Proof.
  intros Hs Hh R.
  assert (E : sameHandler h sys = false).
  { unfold sameHandler. apply Nat.eqb_neq. lia. }
  change (removeEventListener h (sys :: rest))
    with (if negb (sameHandler h sys)
          then sys :: removeEventListener h rest
          else removeEventListener h rest).
  rewrite E. cbn [negb]. now rewrite (remove_registered h rest R).
Qed.

(** A new closure is registered behind the permanent listener. *)
Lemma add_behind (sys h : Handler) :
  (serial sys < 2)%nat -> (2 <= serial h)%nat ->
  addEventListener h [sys] = [sys; h].
Proof.
  intros Hs Hh. unfold addEventListener. simpl.
  assert (E : sameHandler h sys = false).
  { unfold sameHandler. apply Nat.eqb_neq. lia. }
  now rewrite E.
Qed.

Lemma removeCloseListener_wired (a : App) :
  wired a ->
  wired (removeCloseListener a)
  /\ (hasCloseButton a = true ->
      onCloseClick (listeners (removeCloseListener a)) = [])
  /\ onOverlayClick (listeners (removeCloseListener a))
     = onOverlayClick (listeners a)
  /\ onKeydown (listeners (removeCloseListener a)) = onKeydown (listeners a).
Proof.
  intros W. pose proof W as (W1 & W2 & W3 & W4 & W5 & W6 & W7 & W8).
  unfold removeCloseListener.
  destruct (modalCloseHandler (fields a)) as [h|] eqn:F.
  - destruct (hasCloseButton a).
    + split; [|split; [|split]]; try reflexivity.
      * unfold wired. fields_of. rewrite F.
        rewrite (remove_registered h _ W6).
        split; [exact W1|]. split; [exact W2|]. split; [exact W3|].
        split; [exact W4|]. split; [exact W5|].
        split; [apply registered_nil|]. split; assumption.
      * intros _. fields_of. now apply remove_registered.
    + split; [exact W|]. split; [discriminate|]. split; reflexivity.
  - split; [exact W|]. split; [|split; reflexivity].
    intros _. now apply registered_None.
Qed.

Lemma removeOverlayListener_wired (a : App) :
  wired a ->
  wired (removeOverlayListener a)
  /\ onOverlayClick (listeners (removeOverlayListener a))
     = [systemOverlayClick]
  /\ onCloseClick (listeners (removeOverlayListener a))
     = onCloseClick (listeners a)
  /\ onKeydown (listeners (removeOverlayListener a))
     = onKeydown (listeners a).
Proof.
  intros W. pose proof W as (W1 & W2 & W3 & W4 & W5 & W6 & W7 & W8).
  destruct W7 as (rest & L & R).
  unfold removeOverlayListener. rewrite W2.
  destruct (modalOverlayClickHandler (fields a)) as [h|] eqn:F.
  - assert (E : removeEventListener h (onOverlayClick (listeners a))
                = [systemOverlayClick]).
    { rewrite L. apply remove_behind; [simpl; lia|apply W4|exact R]. }
    split; [|split; [|split]]; try reflexivity.
    + unfold wired. fields_of. rewrite F, E.
      split; [exact W1|]. split; [exact W2|]. split; [exact W3|].
      split; [exact W4|]. split; [exact W5|]. split; [exact W6|].
      split; [|exact W8].
      exists []. split; [reflexivity|apply registered_nil].
    + fields_of. exact E.
  - split; [exact W|]. split; [|split; reflexivity].
    rewrite L. now rewrite (registered_None rest R).
Qed.

Lemma removeKeydownListener_wired (a : App) :
  wired a ->
  wired (removeKeydownListener a)
  /\ onKeydown (listeners (removeKeydownListener a)) = [systemKeydown]
  /\ onCloseClick (listeners (removeKeydownListener a))
     = onCloseClick (listeners a)
  /\ onOverlayClick (listeners (removeKeydownListener a))
     = onOverlayClick (listeners a).
Proof.
  intros W. pose proof W as (W1 & W2 & W3 & W4 & W5 & W6 & W7 & W8).
  destruct W8 as (rest & L & R).
  unfold removeKeydownListener.
  destruct (modalKeydownHandler (fields a)) as [h|] eqn:F.
  - assert (E : removeEventListener h (onKeydown (listeners a))
                = [systemKeydown]).
    { rewrite L. apply remove_behind; [simpl; lia|apply W5|exact R]. }
    split; [|split; [|split]]; try reflexivity.
    + unfold wired. fields_of. rewrite F, E.
      split; [exact W1|]. split; [exact W2|]. split; [exact W3|].
      split; [exact W4|]. split; [exact W5|]. split; [exact W6|].
      split; [exact W7|].
      exists []. split; [reflexivity|apply registered_nil].
    + fields_of. exact E.
  - split; [exact W|]. split; [|split; reflexivity].
    rewrite L. now rewrite (registered_None rest R).
Qed.

(** After [removeModalEventListeners] only the permanent listeners are on
    the overlay and the document. *)
Lemma removeModalEventListeners_wired (a : App) :
  wired a ->
  wired (removeModalEventListeners a)
  /\ (hasCloseButton a = true ->
      onCloseClick (listeners (removeModalEventListeners a)) = [])
  /\ onOverlayClick (listeners (removeModalEventListeners a))
     = [systemOverlayClick]
  /\ onKeydown (listeners (removeModalEventListeners a)) = [systemKeydown].
Proof.
  intro W. unfold removeModalEventListeners.
  destruct (removeCloseListener_wired a W) as (Wa & Ca & _ & _).
  destruct (removeOverlayListener_wired _ Wa) as (Wb & Ob & Cb & _).
  destruct (removeKeydownListener_wired _ Wb) as (Wc & Kc & Cc & Oc).
  split; [exact Wc|]. split; [|split].
  - intro B. rewrite Cc, Cb. now apply Ca.
  - now rewrite Oc.
  - exact Kc.
Qed.

Lemma registerCloseHandler_wired (x : App) :
  wired x -> (hasCloseButton x = true -> onCloseClick (listeners x) = []) ->
  wired (registerCloseHandler x)
  /\ onOverlayClick (listeners (registerCloseHandler x))
     = onOverlayClick (listeners x)
  /\ onKeydown (listeners (registerCloseHandler x)) = onKeydown (listeners x).
Proof.
  intros W E. pose proof W as (W1 & W2 & W3 & W4 & W5 & W6 & W7 & W8).
  unfold registerCloseHandler. destruct (hasCloseButton x).
  - split; [|split; reflexivity].
    unfold wired, fresh. fields_of. rewrite (E eq_refl).
    split; [lia|]. split; [exact W2|]. split; [split; [reflexivity|exact W1]|].
    split; [exact W4|]. split; [exact W5|]. split; [|split; assumption].
    right. eexists. split; reflexivity.
  - split; [exact W|]. split; reflexivity.
Qed.

Lemma registerOverlayClickHandler_wired (x : App) :
  wired x -> onOverlayClick (listeners x) = [systemOverlayClick] ->
  wired (registerOverlayClickHandler x)
  /\ onKeydown (listeners (registerOverlayClickHandler x))
     = onKeydown (listeners x).
Proof.
  intros W E. pose proof W as (W1 & W2 & W3 & W4 & W5 & W6 & W7 & W8).
  split; [|reflexivity].
  unfold registerOverlayClickHandler, wired, fresh. fields_of. rewrite E.
  rewrite add_behind by (simpl; lia).
  split; [lia|]. split; [exact W2|]. split; [exact W3|].
  split; [split; [reflexivity|exact W1]|]. split; [exact W5|].
  split; [exact W6|]. split; [|exact W8].
  eexists. split; [reflexivity|]. right. eexists. split; reflexivity.
Qed.

Lemma registerKeydownHandler_wired (x : App) :
  wired x -> onKeydown (listeners x) = [systemKeydown] ->
  wired (registerKeydownHandler x).
Proof.
  intros W E. pose proof W as (W1 & W2 & W3 & W4 & W5 & W6 & W7 & W8).
  unfold registerKeydownHandler, wired, fresh. fields_of. rewrite E.
  rewrite add_behind by (simpl; lia).
  split; [lia|]. split; [exact W2|]. split; [exact W3|].
  split; [exact W4|]. split; [split; [reflexivity|exact W1]|].
  split; [exact W6|]. split; [exact W7|].
  eexists. split; [reflexivity|]. right. eexists. split; reflexivity.
Qed.

Lemma setupModalActions_wired (x : App) :
  wired x -> wired (setupModalActions x).
Proof.
  intro W. unfold setupModalActions. destruct (hasActionButtons x); [|exact W].
  destruct W as (W1 & W2 & W3 & W4 & W5 & W6 & W7 & W8).
  unfold wired. fields_of.
  split; [lia|]. split; [exact W2|]. split; [exact W3|].
  split; [exact W4|]. split; [exact W5|]. split; [exact W6|].
  split; assumption.
Qed.

Lemma setupModalInteractions_wired (a : App) :
  wired a -> wired (setupModalInteractions a).
Proof.
  intro W. unfold setupModalInteractions.
  destruct (removeModalEventListeners_wired a W) as (W0 & C0 & O0 & K0).
  destruct (removeModalEventListeners_frame a) as (D0 & _).
  assert (C0' : hasCloseButton (removeModalEventListeners a) = true ->
                onCloseClick (listeners (removeModalEventListeners a)) = []).
  { intro B. apply C0. unfold hasCloseButton in *. now rewrite <- D0. }
  destruct (registerCloseHandler_wired _ W0 C0') as (W1 & O1 & K1).
  rewrite O0 in O1. rewrite K0 in K1.
  destruct (registerOverlayClickHandler_wired _ W1 O1) as (W2 & K2).
  rewrite K1 in K2.
  apply setupModalActions_wired.
  now apply registerKeydownHandler_wired.
Qed.

Lemma set_innerHTML_wired (b : ModalBody) (a : App) :
  wired a -> wired (set_innerHTML b a).
Proof.
  intros (W1 & W2 & W3 & W4 & W5 & W6 & W7 & W8).
  unfold wired. fields_of.
  split; [exact W1|]. split; [exact W2|]. split; [exact W3|].
  split; [exact W4|]. split; [exact W5|].
  split; [apply registered_nil|]. split; assumption.
Qed.

Lemma populate_tail_serial (text : string) (now : Q) (x : App) :
  hasCloseButton x = true ->
  (nextSerial x
   <= nextSerial
        (announce text now
           (if hasCloseButton x
            then set_dom (set_modalBody (modalBody (dom x)) true (dom x)) x
            else x)))%nat.
Proof.
  intro H. rewrite H. unfold announce, after. fields_of. lia.
Qed.

Lemma populate_wired (c : ContentItem) (now : Q) (a : App) :
  wired a -> wired (populate c now a).
Proof.
  intro W. rewrite populate_cases. destruct (renders c); [|exact W].
  pose proof (setupModalInteractions_wired _
                (set_innerHTML_wired (Details c) a W)) as W2.
  destruct (setupModalInteractions_frame (set_innerHTML (Details c) a))
    as (D2 & _).
  assert (B : hasCloseButton
                (setupModalInteractions (set_innerHTML (Details c) a))
              = true).
  { unfold hasCloseButton. rewrite D2. reflexivity. }
  destruct (populate_tail
              ("Modal opened for " ++ title c ++ ". Press Escape to close.")
              now _ B) as (_ & _ & _ & P4 & P5 & P6).
  pose proof (populate_tail_serial
                ("Modal opened for " ++ title c ++ ". Press Escape to close.")
                now _ B) as P7.
  unfold populated, announceModalOpen. cbv zeta.
  eapply wired_ext; [exact P4|exact P5|exact P6|exact P7|exact W2].
Qed.

(** [closeModal] leaves the permanent listeners and no other on the overlay
    and the document. *)
Lemma closeModal_wired (now : Q) (a : App) :
  wired a ->
  wired (closeModal now a)
  /\ onOverlayClick (listeners (closeModal now a)) = [systemOverlayClick]
  /\ onKeydown (listeners (closeModal now a)) = [systemKeydown].
Proof.
  intro W. pose proof W as (_ & Ho & _).
  destruct (removeModalEventListeners_wired a W) as (W0 & _ & O0 & K0).
  unfold closeModal. rewrite Ho. cbn [negb].
  set (x := removeModalEventListeners a) in *. clearbody x.
  split; [|split].
  - eapply wired_ext; [| | | |exact W0]; try reflexivity.
    unfold announce, after. fields_of. lia.
  - exact O0.
  - exact K0.
Qed.

Lemma openModal_wired (cid : string) (now : Q) (a : App) :
  wired a -> wired (openModal cid now a).
Proof.
  intro W. unfold openModal.
  destruct (negb (overlayPresent (dom a)) || negb (contentPresent (dom a)));
    [exact W|].
  destruct (getContentById (store a) cid) as [c|].
  - assert (W1 : wired (set_currentModal (Some cid) a)).
    { eapply wired_ext; [| | | |exact W]; reflexivity. }
    pose proof (set_innerHTML_wired LoadingState _ W1) as K.
    eapply wired_ext; [| | | |exact K]; reflexivity.
  - eapply wired_ext; [| | | |exact W]; try reflexivity.
    unfold showNotification, after. fields_of. lia.
Qed.

Lemma runTimerCallback_wired (now : Q) (a : App) (cb : TimerCallback) :
  wired a -> wired (runTimerCallback now a cb).
Proof.
  intro W. destruct cb; cbn [runTimerCallback].
  - now apply populate_wired.
  - eapply wired_ext; [| | | |exact W]; reflexivity.
  - eapply wired_ext; [| | | |exact W]; reflexivity.
Qed.

Lemma runTimers_wired (now : Q) (a : App) :
  wired a -> wired (Modal.runTimers now a).
Proof.
  intro W. unfold Modal.runTimers.
  assert (W' : wired (set_timers (laterTimers now (timers a)) a)).
  { eapply wired_ext; [| | | |exact W]; reflexivity. }
  revert W'. generalize (set_timers (laterTimers now (timers a)) a).
  induction (dueTimers now (timers a)) as [|cb l IH]; intros x Wx;
    cbn [fold_left].
  - exact Wx.
  - apply IH. now apply runTimerCallback_wired.
Qed.

(** A listener whose body leaves the state as it is. *)
Lemma dispatch_inert (current : App -> list Handler)
    (snapshot : list Handler) (key : option Key) (onOverlay : bool) (now : Q)
    (a : App) :
  (forall h, In h snapshot -> invoke h key onOverlay now a = a) ->
  fst (dispatch current snapshot key onOverlay now a) = a.
Proof.
  induction snapshot as [|h rest IH]; intro H; cbn [dispatch].
  - reflexivity.
  - assert (Hrest : forall h', In h' rest ->
                               invoke h' key onOverlay now a = a)
      by (intros h' K; apply H; now right).
    destruct (existsb (sameHandler h) (current a)).
    + rewrite (H h (or_introl eq_refl)).
      specialize (IH Hrest).
      destruct (dispatch current rest key onOverlay now a). exact IH.
    + now apply IH.
Qed.

Lemma not_behind (h : Handler) (sys : Handler) :
  (serial sys < 2)%nat -> (2 <= serial h)%nat ->
  existsb (sameHandler h) [sys] = false.
Proof.
  intros Hs Hh. simpl. unfold sameHandler.
  replace (Nat.eqb (serial h) (serial sys)) with false; [reflexivity|].
  symmetry. apply Nat.eqb_neq. lia.
Qed.

(** Escape on a modal whose id is truthy: the permanent listener closes the
    modal, which removes the modal's own keydown listener before its turn
    comes. *)
Lemma keydown_Escape_open (now : Q) (a : App) :
  wired a -> truthy (currentModal a) = true ->
  keydown Escape now a = (closeModal now a, [systemKeydown]).
Proof.
  intros W T. pose proof W as (_ & _ & _ & _ & W5 & _ & _ & (rest & L & R)).
  destruct (closeModal_wired now a W) as (_ & _ & K).
  unfold keydown. rewrite L. cbn [dispatch]. rewrite L.
  change (existsb (sameHandler systemKeydown) (systemKeydown :: rest))
    with (sameHandler systemKeydown systemKeydown
          || existsb (sameHandler systemKeydown) rest).
  rewrite sameHandler_refl. cbn [orb].
  change (invoke systemKeydown (Some Escape) false now a)
    with (if truthy (currentModal a) then closeModal now a else a).
  rewrite T.
  destruct R as [->|(h & F & ->)]; [reflexivity|].
  cbn [dispatch]. rewrite K.
  rewrite F in W5. destruct W5 as [_ Hs].
  rewrite (not_behind h systemKeydown); [reflexivity|simpl; lia|exact Hs].
Qed.

(** Any other key press, or Escape when the id is falsy, changes
    nothing. *)
Lemma keydown_inert (key : Key) (now : Q) (a : App) :
  wired a -> (key = Escape -> truthy (currentModal a) = false) ->
  fst (keydown key now a) = a.
Proof.
  intros W T. pose proof W as (_ & _ & _ & _ & W5 & _ & _ & (rest & L & R)).
  unfold keydown. apply dispatch_inert. rewrite L.
  intros h [<-|Hin].
  - unfold invoke. simpl. destruct key; try reflexivity.
    now rewrite (T eq_refl).
  - destruct R as [->|(h' & F & ->)]; [contradiction|].
    destruct Hin as [<-|[]]. rewrite F in W5. destruct W5 as [Hk _].
    unfold invoke. rewrite Hk. destruct key; try reflexivity.
    now rewrite (T eq_refl).
Qed.

Lemma dispatch_inert_all (current : App -> list Handler)
    (snapshot : list Handler) (key : option Key) (onOverlay : bool) (now : Q)
    (a : App) :
  (forall h, In h snapshot -> invoke h key onOverlay now a = a) ->
  (forall h, In h snapshot -> existsb (sameHandler h) (current a) = true) ->
  dispatch current snapshot key onOverlay now a = (a, snapshot).
Proof.
  induction snapshot as [|h rest IH]; intros H E; cbn [dispatch].
  - reflexivity.
  - rewrite (E h (or_introl eq_refl)), (H h (or_introl eq_refl)).
    rewrite IH; [reflexivity| |]; intros h' K; [apply H|apply E]; now right.
Qed.

(** Escape when the id is falsy: every keydown listener is called, and none
    does anything. *)
Lemma keydown_fired_closed (now : Q) (a : App) :
  wired a -> truthy (currentModal a) = false ->
  snd (keydown Escape now a) = onKeydown (listeners a).
Proof.
  intros W T. pose proof W as (_ & _ & _ & _ & W5 & _ & _ & (rest & L & R)).
  unfold keydown. rewrite dispatch_inert_all; [reflexivity| |].
  - rewrite L. intros h [<-|Hin].
    + unfold invoke. simpl. now rewrite T.
    + destruct R as [->|(h' & F & ->)]; [contradiction|].
      destruct Hin as [<-|[]]. rewrite F in W5. destruct W5 as [Hk _].
      unfold invoke. rewrite Hk. now rewrite T.
  - intros h Hin. apply existsb_exists. exists h.
    split; [exact Hin|apply sameHandler_refl].
Qed.

(** A click on the overlay itself: one [closeModal]. *)
Lemma clickOverlay_on (now : Q) (a : App) :
  wired a ->
  clickOverlay true now a = (closeModal now a, [systemOverlayClick]).
Proof.
  intros W. pose proof W as (_ & _ & _ & W4 & _ & _ & (rest & L & R) & _).
  destruct (closeModal_wired now a W) as (_ & O & _).
  unfold clickOverlay. rewrite L. cbn [dispatch]. rewrite L.
  change (existsb (sameHandler systemOverlayClick)
            (systemOverlayClick :: rest))
    with (sameHandler systemOverlayClick systemOverlayClick
          || existsb (sameHandler systemOverlayClick) rest).
  rewrite sameHandler_refl. cbn [orb].
  change (invoke systemOverlayClick None true now a)
    with (closeModal now a).
  destruct R as [->|(h & F & ->)]; [reflexivity|].
  cbn [dispatch]. rewrite O.
  rewrite F in W4. destruct W4 as [_ Hs].
  rewrite (not_behind h systemOverlayClick); [reflexivity|simpl; lia|exact Hs].
Qed.

(** A click that reaches the overlay from inside the modal changes
    nothing. *)
Lemma clickOverlay_inside (now : Q) (a : App) :
  wired a -> fst (clickOverlay false now a) = a.
Proof.
  intros W. pose proof W as (_ & _ & _ & W4 & _ & _ & (rest & L & R) & _).
  unfold clickOverlay. apply dispatch_inert. rewrite L.
  intros h [<-|Hin].
  - reflexivity.
  - destruct R as [->|(h' & F & ->)]; [contradiction|].
    destruct Hin as [<-|[]]. rewrite F in W4. destruct W4 as [Hk _].
    unfold invoke. now rewrite Hk.
Qed.

(** A click on the close button, when the modal has one with its
    listener. *)
Lemma clickClose_cases (now : Q) (a : App) :
  wired a ->
  fst (clickClose now a)
  = match onCloseClick (listeners a) with
    | [] => a
    | _ => closeModal now a
    end.
Proof.
  intros W. pose proof W as (_ & _ & W3 & _ & _ & R & _).
  unfold clickClose. destruct R as [E|(h & F & E)]; rewrite E.
  - reflexivity.
  - cbn [dispatch]. rewrite E.
    change (existsb (sameHandler h) [h]) with (sameHandler h h || false).
    rewrite sameHandler_refl. cbn [orb].
    rewrite F in W3. destruct W3 as [Hk _].
    unfold invoke. rewrite Hk. reflexivity.
Qed.

Lemma step_wired (a : App) (e : Event) : wired a -> wired (step a e).
Proof.
  intro W. destruct e; cbn [step].
  - now apply openModal_wired.
  - now apply closeModal_wired.
  - now apply runTimers_wired.
  - destruct key.
    + destruct (truthy (currentModal a)) eqn:T.
      * rewrite (keydown_Escape_open now a W T). now apply closeModal_wired.
      * rewrite keydown_inert; [exact W|exact W|auto].
    + rewrite keydown_inert; [exact W|exact W|discriminate].
    + rewrite keydown_inert; [exact W|exact W|discriminate].
  - destruct onOverlay.
    + rewrite (clickOverlay_on now a W). now apply closeModal_wired.
    + now rewrite clickOverlay_inside.
  - rewrite (clickClose_cases now a W).
    destruct (onCloseClick (listeners a)); [exact W|].
    now apply closeModal_wired.
  - eapply wired_ext; [| | | |exact W]; reflexivity.
Qed.

Lemma reached_wired (data : option ContentData) (reachable : bool)
    (es : list Event) :
  wired (reached data reachable es).
Proof.
  unfold reached.
  assert (W : wired (setupModalSystem (loadedPage data reachable))).
  { unfold wired. cbn.
    split; [lia|]. split; [reflexivity|]. split; [exact I|].
    split; [exact I|]. split; [exact I|]. split; [now left|].
    split; eexists; (split; [reflexivity|now left]). }
  revert W. generalize (setupModalSystem (loadedPage data reachable)).
  induction es as [|e es IH]; intros a W.
  - exact W.
  - apply IH. now apply step_wired.
Qed.

End SessionFacts.

(** X15. In every state the page can reach from its start-up, a user
    action closes the modal at most once although two listeners are
    registered for it: Escape is one [closeModal] when
    [AppState.currentModal] is truthy and nothing otherwise; other keys do
    nothing; a click on the overlay itself is one [closeModal] and a click
    inside the modal nothing; a click on the close button is one
    [closeModal] when the close button has its listener.  After each of
    them that closes, the modal shows as closed. *)
Theorem user_action_closes_once
    (data : option Content.ContentData) (reachable : bool)
    (es : list Modal.Event) (now : Q) :
  let a := Session.reached data reachable es in
  (forall key, Modal.step a (Modal.KeyPress key now)
               = Session.afterKey key now a)
  /\ Modal.step a (Modal.ClickOverlay true now) = Modal.closeModal now a
  /\ Modal.step a (Modal.ClickOverlay false now) = a
  /\ Modal.step a (Modal.ClickCloseButton now)
     = match Modal.onCloseClick (Modal.listeners a) with
       | [] => a
       | _ => Modal.closeModal now a
       end
  /\ Modal.view (Modal.closeModal now a) = Modal.closedView
  /\ snd (Modal.keydown Modal.Escape now a)
     = if Modal.truthy (Modal.currentModal a)
       then [Session.systemKeydown]
       else Modal.onKeydown (Modal.listeners a).
Proof.
  intro a. pose proof (reached_wired data reachable es) as W. fold a in W.
  split; [|split; [|split; [|split; [|split]]]].
  - intro key. cbn [Modal.step]. unfold Session.afterKey. destruct key.
    + destruct (Modal.truthy (Modal.currentModal a)) eqn:T.
      * now rewrite (keydown_Escape_open now a W T).
      * apply keydown_inert; auto.
    + apply keydown_inert; [exact W|discriminate].
    + apply keydown_inert; [exact W|discriminate].
  - cbn [Modal.step]. now rewrite (clickOverlay_on now a W).
  - cbn [Modal.step]. now apply clickOverlay_inside.
  - cbn [Modal.step]. now apply clickClose_cases.
  - apply closeModal_view. apply W.
  - destruct (Modal.truthy (Modal.currentModal a)) eqn:T.
    + now rewrite (keydown_Escape_open now a W T).
    + apply keydown_fired_closed; assumption.
Qed.

Section UpToDateFacts.

Import Content JS Modal Session.
Local Open Scope Q_scope.

Lemma lastPopulated_app (l1 l2 : list TimerCallback) :
  lastPopulated (l1 ++ l2)
  = match lastPopulated l2 with
    | Some c => Some c
    | None => lastPopulated l1
    end.
Proof.
  induction l1 as [|cb l1 IH]; simpl.
  - now destruct (lastPopulated l2).
  - rewrite IH. now destruct (lastPopulated l2).
Qed.

Lemma lastPopulated_None (l : list TimerCallback) :
  (forall cb, In cb l -> isPopulate cb = false) -> lastPopulated l = None.
Proof.
  induction l as [|cb l IH]; simpl; intro H; [reflexivity|].
  rewrite IH by (intros cb' K; apply H; now right).
  specialize (H cb (or_introl eq_refl)). now destruct cb.
Qed.

Lemma noPopulatePending_lastPopulated (q : list (Q * TimerCallback)) :
  noPopulatePending q = true -> lastPopulated (map snd q) = None.
Proof.
  intro H. apply lastPopulated_None. intros cb Hin.
  apply in_map_iff in Hin. destruct Hin as ([d cb'] & E & Hin).
  simpl in E. subst cb'. now apply (noPopulatePending_In q d).
Qed.

Lemma sortedQueue_setTimeout (due : Q) (cb : TimerCallback)
    (q : list (Q * TimerCallback)) :
  sortedQueue q -> sortedQueue (setTimeout due cb q).
Proof.
  induction q as [|[d c] q IH]; simpl; intro H.
  - split; [intros e' []|exact I].
  - destruct H as [Hd Hq]. destruct (Qle_bool d due) eqn:E.
    + simpl. split; [|auto]. intros e' Hin. apply setTimeout_incl in Hin.
      destruct Hin as [->|Hin]; [simpl; now apply Qle_bool_iff|].
      now apply Hd.
    + apply Qle_bool_false in E. simpl. split; [|split; assumption].
      intros e' [<-|Hin]; simpl; [lra|].
      specialize (Hd e' Hin). simpl in Hd. lra.
Qed.

Lemma sortedQueue_filter (f : Q * TimerCallback -> bool)
    (q : list (Q * TimerCallback)) :
  sortedQueue q -> sortedQueue (filter f q).
Proof.
  induction q as [|e q IH]; simpl; intro H; [exact I|].
  destruct H as [Hd Hq]. destruct (f e); simpl; [|auto].
  split; [|auto]. intros e' Hin. apply filter_In in Hin. now apply Hd.
Qed.

Lemma all_later (t : Q) (q : list (Q * TimerCallback)) :
  (forall e, In e q -> Qle_bool (fst e) t = false) ->
  filter (fun e => Qle_bool (fst e) t) q = []
  /\ filter (fun e => negb (Qle_bool (fst e) t)) q = q.
Proof.
  induction q as [|e q IH]; simpl; intro H; [split; reflexivity|].
  rewrite (H e (or_introl eq_refl)). simpl.
  destruct IH as [A B]; [intros e' K; apply H; now right|].
  split; [exact A|now rewrite B].
Qed.

(** In an ordered queue the timers that are due come first. *)
Lemma sorted_split (t : Q) (q : list (Q * TimerCallback)) :
  sortedQueue q ->
  q = (filter (fun e => Qle_bool (fst e) t) q
       ++ filter (fun e => negb (Qle_bool (fst e) t)) q)%list.
Proof.
  induction q as [|e q IH]; simpl; intro H; [reflexivity|].
  destruct H as [Hd Hq]. destruct (Qle_bool (fst e) t) eqn:E; simpl.
  - f_equal. now apply IH.
  - apply Qle_bool_false in E.
    destruct (all_later t q) as [A B].
    + intros e' Hin. specialize (Hd e' Hin).
      destruct (Qle_bool (fst e') t) eqn:E'; [|reflexivity].
      apply Qle_bool_iff in E'. lra.
    + now rewrite A, B.
Qed.

Lemma lastPopulated_split (t : Q) (q : list (Q * TimerCallback)) :
  sortedQueue q ->
  lastPopulated (map snd q)
  = match lastPopulated (map snd (laterTimers t q)) with
    | Some c => Some c
    | None => lastPopulated (dueTimers t q)
    end.
Proof.
  intro H. rewrite (sorted_split t q H) at 1.
  rewrite map_app, lastPopulated_app. reflexivity.
Qed.

Lemma lastPopulated_setTimeout_other (due : Q) (cb : TimerCallback)
    (q : list (Q * TimerCallback)) :
  isPopulate cb = false ->
  lastPopulated (map snd (setTimeout due cb q)) = lastPopulated (map snd q).
Proof.
  intro H. induction q as [|[d c] q IH]; simpl.
  - now destruct cb.
  - destruct (Qle_bool d due); simpl.
    + now rewrite IH.
    + destruct (lastPopulated (map snd q)), c; destruct cb;
        try discriminate; reflexivity.
Qed.

Lemma populate_In_setTimeout_other (due : Q) (cb : TimerCallback)
    (q : list (Q * TimerCallback)) (d : Q) (c : ContentItem) :
  isPopulate cb = false ->
  In (d, Populate c) (setTimeout due cb q) -> In (d, Populate c) q.
Proof.
  intros H Hin. apply setTimeout_incl in Hin.
  destruct Hin as [E|Hin]; [|exact Hin].
  inversion E; subst. discriminate.
Qed.

(** A population scheduled no earlier than those waiting is the last to
    fire. *)
Lemma lastPopulated_setTimeout_populate (due : Q) (c : ContentItem)
    (q : list (Q * TimerCallback)) :
  sortedQueue q ->
  (forall d c', In (d, Populate c') q -> d <= due) ->
  lastPopulated (map snd (setTimeout due (Populate c) q)) = Some c.
Proof.
  induction q as [|[d cb] q IH]; intros Hs Hb.
  - reflexivity.
  - destruct Hs as [Hd Hq]. cbn [setTimeout].
    destruct (Qle_bool d due) eqn:E.
    + cbn [map snd lastPopulated]. rewrite IH; [reflexivity|exact Hq|].
      intros d' c' Hin. apply (Hb d' c'). now right.
    + apply Qle_bool_false in E.
      assert (N : lastPopulated (map snd ((d, cb) :: q)) = None).
      { apply lastPopulated_None. intros cb' Hin.
        apply in_map_iff in Hin. destruct Hin as ([d' x] & Hx & Hin).
        simpl in Hx. subst x.
        destruct cb' as [c'| |]; try reflexivity. exfalso.
        assert (H1 : d' <= due) by (apply (Hb d' c'); exact Hin).
        assert (H2 : d <= d').
        { destruct Hin as [Heq|Hin].
          - inversion Heq; subst. apply Qle_refl.
          - apply (Hd _ Hin). }
        lra. }
      change (map snd ((due, Populate c) :: (d, cb) :: q))
        with (Populate c :: map snd ((d, cb) :: q)).
      cbn [lastPopulated]. now rewrite N.
Qed.

Lemma view_currentModal (a b : App) :
  view a = view b -> currentModal a = currentModal b.
Proof. unfold view. intro H. now inversion H. Qed.

Lemma populate_tail_timers (text : string) (now : Q) (x : App) :
  hasCloseButton x = true ->
  timers
    (announce text now
       (if hasCloseButton x
        then set_dom (set_modalBody (modalBody (dom x)) true (dom x)) x
        else x))
  = setTimeout (now + 1000) (RemoveAnnouncement (nextSerial x)) (timers x).
Proof. intro H. rewrite H. reflexivity. Qed.

(** The deferred population adds the timer of its announcement, and no
    other. *)
Lemma populated_timers (c : ContentItem) (now : Q) (a : App) :
  exists n : nat,
    timers (populated c now a)
    = setTimeout (now + 1000) (RemoveAnnouncement n) (timers a).
Proof.
  destruct (setupModalInteractions_frame (set_innerHTML (Details c) a))
    as (D2 & _ & T2 & _).
  assert (B : hasCloseButton
                (setupModalInteractions (set_innerHTML (Details c) a))
              = true).
  { unfold hasCloseButton. rewrite D2. reflexivity. }
  eexists. unfold populated, announceModalOpen. cbv zeta.
  rewrite (populate_tail_timers _ now _ B), T2. reflexivity.
Qed.

Lemma runTimerCallback_queue (now : Q) (a : App) (cb : TimerCallback) :
  (sortedQueue (timers a) -> sortedQueue (timers (runTimerCallback now a cb)))
  /\ (forall d c, In (d, Populate c) (timers (runTimerCallback now a cb)) ->
                  In (d, Populate c) (timers a))
  /\ lastPopulated (map snd (timers (runTimerCallback now a cb)))
     = lastPopulated (map snd (timers a)).
Proof.
  destruct cb; cbn [runTimerCallback].
  - rewrite populate_cases. destruct (renders content).
    + destruct (populated_timers content now a) as [n ->].
      split; [apply sortedQueue_setTimeout|]. split.
      * intros d c. now apply populate_In_setTimeout_other.
      * now apply lastPopulated_setTimeout_other.
    + split; [auto|]. split; [auto|reflexivity].
  - split; [auto|]. split; [auto|reflexivity].
  - split; [auto|]. split; [auto|reflexivity].
Qed.

Lemma fold_runTimerCallback_queue (now : Q) (l : list TimerCallback)
    (a : App) :
  (sortedQueue (timers a) ->
   sortedQueue (timers (fold_left (runTimerCallback now) l a)))
  /\ (forall d c,
        In (d, Populate c) (timers (fold_left (runTimerCallback now) l a)) ->
        In (d, Populate c) (timers a))
  /\ lastPopulated (map snd (timers (fold_left (runTimerCallback now) l a)))
     = lastPopulated (map snd (timers a)).
Proof.
  revert a. induction l as [|cb l IH]; intro a; cbn [fold_left].
  - split; [auto|]. split; [auto|reflexivity].
  - destruct (IH (runTimerCallback now a cb)) as (S1 & I1 & L1).
    destruct (runTimerCallback_queue now a cb) as (S2 & I2 & L2).
    split; [auto|]. split; [auto|]. now rewrite L1.
Qed.

(** The body after the callbacks of a tick: that of the last population
    among them that builds its markup, if there is one. *)
Lemma fold_runTimerCallback_last (now : Q) (l : list TimerCallback)
    (a : App) :
  modalBody (dom (fold_left (runTimerCallback now) l a))
  = match lastRendered l with
    | Some c => Details c
    | None => modalBody (dom a)
    end.
Proof.
  revert a. induction l as [|cb l IH]; intro a; cbn [fold_left lastRendered].
  - reflexivity.
  - rewrite IH. destruct (lastRendered l); [reflexivity|].
    destruct cb; cbn [runTimerCallback]; try reflexivity.
    destruct (populate_frame content now a) as (_ & B & _).
    rewrite B. now destruct (renders content).
Qed.

Lemma lastRendered_None (l : list TimerCallback) :
  lastPopulated l = None -> lastRendered l = None.
Proof.
  induction l as [|cb l IH]; cbn [lastPopulated lastRendered];
    [reflexivity|].
  destruct (lastPopulated l); [discriminate|].
  rewrite IH by reflexivity. now destruct cb.
Qed.

Lemma lastRendered_Some (l : list TimerCallback) (c : ContentItem) :
  lastPopulated l = Some c -> renders c = true -> lastRendered l = Some c.
Proof.
  intros H R. induction l as [|cb l IH];
    cbn [lastPopulated lastRendered] in *; [discriminate|].
  destruct (lastPopulated l) as [c'|] eqn:E.
  - rewrite IH by exact H. reflexivity.
  - rewrite (lastRendered_None l E).
    destruct cb; try discriminate. inversion H; subst. now rewrite R.
Qed.

Lemma upToDate_later (now t : Q) (a : App) :
  now <= t -> upToDate now a -> upToDate t a.
Proof.
  intros Ht (S & B & C). split; [exact S|]. split; [|exact C].
  intros d c Hin. specialize (B d c Hin). lra.
Qed.

Lemma runTimers_upToDate (now t : Q) (a : App) :
  now <= t -> upToDate now a -> upToDate t (Modal.runTimers t a).
Proof.
  intros Ht (S & B & C). unfold Modal.runTimers.
  set (x0 := set_timers (laterTimers t (timers a)) a).
  destruct (fold_runTimerCallback_queue t (dueTimers t (timers a)) x0)
    as (S1 & I1 & L1).
  destruct (fold_runTimerCallback_view t (dueTimers t (timers a)) x0)
    as (V1 & St1).
  pose proof (fold_runTimerCallback_last t (dueTimers t (timers a)) x0) as B1.
  set (y := fold_left (runTimerCallback t) (dueTimers t (timers a)) x0) in *.
  split; [|split].
  - apply S1. unfold x0. cbn [timers set_timers].
    now apply sortedQueue_filter.
  - intros d c Hin. apply I1 in Hin. unfold x0 in Hin.
    cbn [timers set_timers] in Hin. unfold laterTimers in Hin.
    apply filter_In in Hin. destruct Hin as [Hin _].
    specialize (B d c Hin). lra.
  - intros cid Hc.
    assert (Hc' : currentModal a = Some cid).
    { rewrite <- Hc. symmetry. apply (view_currentModal y a).
      rewrite V1. reflexivity. }
    destruct (C cid Hc') as (V & c & G & M).
    split; [rewrite V1; exact V|].
    exists c. split; [rewrite St1; exact G|].
    rewrite L1. unfold x0 at 1. cbn [timers set_timers].
    rewrite (lastPopulated_split t (timers a) S) in M.
    destruct (lastPopulated (map snd (laterTimers t (timers a)))) as [c'|];
      [exact M|].
    rewrite B1. unfold x0. cbn [dom set_timers].
    destruct (lastPopulated (dueTimers t (timers a))) as [c'|] eqn:D.
    + subst c'. intro R. now rewrite (lastRendered_Some _ _ D R).
    + now rewrite (lastRendered_None _ D).
Qed.

Lemma closeModal_upToDate (now t : Q) (a : App) :
  now <= t -> upToDate now a -> upToDate t (closeModal t a).
Proof.
  intros Ht H. destruct (overlayPresent (dom a)) eqn:O.
  - destruct H as (S & B & C).
    pose proof (closeModal_view t a O) as V.
    pose proof (closeModal_timers t a O) as T.
    split; [|split].
    + rewrite T. now apply sortedQueue_setTimeout.
    + intros d c Hin. rewrite T in Hin.
      apply populate_In_setTimeout_other in Hin; [|reflexivity].
      specialize (B d c Hin). lra.
    + intros cid Hc. unfold view, closedView in V. inversion V. congruence.
  - unfold closeModal. rewrite O. cbn [negb].
    now apply (upToDate_later now).
Qed.

Lemma openModal_upToDate (cid : string) (now t : Q) (a : App) :
  now <= t -> upToDate now a -> upToDate t (openModal cid t a).
Proof.
  intros Ht H.
  destruct (overlayPresent (dom a)) eqn:O;
    [destruct (contentPresent (dom a)) eqn:P|].
  - destruct (getContentById (store a) cid) as [c|] eqn:G.
    + destruct (openModal_resolved a cid c t O P G) as (V & _ & T & _ & St).
      destruct H as (S & B & C). split; [|split].
      * rewrite T. now apply sortedQueue_setTimeout.
      * intros d c' Hin. rewrite T in Hin. apply setTimeout_incl in Hin.
        destruct Hin as [E|Hin].
        -- inversion E; subst. apply Qle_refl.
        -- specialize (B d c' Hin). lra.
      * intros cid' Hc.
        assert (E : cid' = cid).
        { unfold view, openView in V. inversion V. congruence. }
        subst cid'. split; [exact V|]. exists c. split; [now rewrite St|].
        rewrite T, lastPopulated_setTimeout_populate; [reflexivity|exact S|].
        intros d c' Hin. specialize (B d c' Hin). lra.
    + assert (E : openModal cid t a
                  = showNotification "Content not found" "error" t a).
      { unfold openModal. now rewrite O, P, G. }
      rewrite E. destruct H as (S & B & C). split; [|split].
      * apply sortedQueue_setTimeout. exact S.
      * intros d c' Hin.
        apply populate_In_setTimeout_other in Hin; [|reflexivity].
        specialize (B d c' Hin). lra.
      * intros cid' Hc. destruct (C cid' Hc) as (V & c & G' & M).
        split; [exact V|]. exists c. split; [exact G'|].
        unfold showNotification, after.
        cbn [timers set_timers bump set_dom dom].
        rewrite lastPopulated_setTimeout_other by reflexivity.
        exact M.
  - assert (E : openModal cid t a = a).
    { unfold openModal. now rewrite O, P. }
    rewrite E. now apply (upToDate_later now).
  - assert (E : openModal cid t a = a).
    { unfold openModal. now rewrite O. }
    rewrite E. now apply (upToDate_later now).
Qed.

Lemma invoke_cases (h : Handler) (key : option Key) (onOverlay : bool)
    (now : Q) (a : App) :
  invoke h key onOverlay now a = a
  \/ invoke h key onOverlay now a = closeModal now a.
Proof.
  unfold invoke.
  destruct (hkind h); try destruct key as [[| |]|]; try destruct onOverlay;
    try destruct (truthy (currentModal a)); auto.
Qed.

Lemma dispatch_upToDate (current : App -> list Handler)
    (snapshot : list Handler) (key : option Key) (onOverlay : bool) (t : Q)
    (a : App) :
  upToDate t a ->
  upToDate t (fst (dispatch current snapshot key onOverlay t a)).
Proof.
  revert a. induction snapshot as [|h rest IH]; intros a H; cbn [dispatch].
  - exact H.
  - destruct (existsb (sameHandler h) (current a)).
    + assert (H' : upToDate t (invoke h key onOverlay t a)).
      { destruct (invoke_cases h key onOverlay t a) as [->| ->];
          [exact H|].
        apply (closeModal_upToDate t); [apply Qle_refl|exact H]. }
      specialize (IH _ H').
      destruct (dispatch current rest key onOverlay t
                  (invoke h key onOverlay t a)). exact IH.
    + now apply IH.
Qed.

Lemma step_upToDate (now : Q) (e : Event) (a : App) :
  now <= eventTime e -> upToDate now a -> upToDate (eventTime e) (step a e).
Proof.
  intros Ht H. destruct e; cbn [step eventTime] in *.
  - now apply (openModal_upToDate contentId now).
  - now apply (closeModal_upToDate now).
  - now apply (runTimers_upToDate now).
  - apply dispatch_upToDate. now apply (upToDate_later now).
  - apply dispatch_upToDate. now apply (upToDate_later now).
  - apply dispatch_upToDate. now apply (upToDate_later now).
  - now apply (upToDate_later now).
Qed.

Lemma run_upToDate (es : list Event) (now : Q) (a : App) :
  chronological now es = true -> upToDate now a ->
  upToDate (lastTime now es) (run es a).
Proof.
  revert now a. induction es as [|e es IH]; intros now a Hc H.
  - exact H.
  - cbn [chronological] in Hc. apply andb_true_iff in Hc.
    destruct Hc as [Ht Hc]. apply Qle_bool_iff in Ht.
    cbn [lastTime]. apply (IH _ _ Hc). now apply (step_upToDate now).
Qed.

(** No event writes [AppState.contentData] or the saved list. *)
Lemma invoke_store (h : Handler) (key : option Key) (onOverlay : bool)
    (now : Q) (a : App) :
  store (closeModal now a) = store a ->
  store (invoke h key onOverlay now a) = store a.
Proof.
  intro H. now destruct (invoke_cases h key onOverlay now a) as [->| ->].
Qed.

Lemma closeModal_store (now : Q) (a : App) :
  store (closeModal now a) = store a.
Proof.
  unfold closeModal. destruct (overlayPresent (dom a)); [|reflexivity].
  cbn [negb].
  destruct (removeModalEventListeners_frame a) as (_ & _ & _ & _ & St & _).
  set (x := removeModalEventListeners a) in *. clearbody x.
  rewrite <- St. reflexivity.
Qed.

Lemma dispatch_store (current : App -> list Handler)
    (snapshot : list Handler) (key : option Key) (onOverlay : bool) (t : Q)
    (a : App) :
  store (fst (dispatch current snapshot key onOverlay t a)) = store a.
Proof.
  revert a. induction snapshot as [|h rest IH]; intro a; cbn [dispatch].
  - reflexivity.
  - destruct (existsb (sameHandler h) (current a)).
    + specialize (IH (invoke h key onOverlay t a)).
      destruct (dispatch current rest key onOverlay t
                  (invoke h key onOverlay t a)).
      cbn [fst] in *. rewrite IH. apply invoke_store, closeModal_store.
    + apply IH.
Qed.

Lemma step_store (a : App) (e : Event) : store (step a e) = store a.
Proof.
  destruct e; cbn [step].
  - unfold openModal.
    destruct (negb (overlayPresent (dom a)) || negb (contentPresent (dom a)));
      [reflexivity|].
    now destruct (getContentById (store a) contentId).
  - apply closeModal_store.
  - unfold Modal.runTimers.
    now destruct (fold_runTimerCallback_view now (dueTimers now (timers a))
                    (set_timers (laterTimers now (timers a)) a)) as [_ ->].
  - apply dispatch_store.
  - apply dispatch_store.
  - apply dispatch_store.
  - reflexivity.
Qed.

Lemma reached_store (data : option ContentData) (reachable : bool)
    (es : list Event) :
  store (reached data reachable es) = initialStore data.
Proof.
  unfold reached.
  assert (H : store (setupModalSystem (loadedPage data reachable))
              = initialStore data) by reflexivity.
  revert H. generalize (setupModalSystem (loadedPage data reachable)).
  induction es as [|e es IH]; intros a H.
  - exact H.
  - apply IH. now rewrite step_store.
Qed.

End UpToDateFacts.

(** X16. An open modal does not settle on stale content when its record
    can be shown. In every state the page reaches from its start-up by
    events whose times do not go back, while [AppState.currentModal] holds
    an id the modal shows as open for that id; and once no population is
    waiting, the modal body holds the markup of the record [getContentById]
    finds for that id, provided [createModalContent] builds that markup,
    however many opens, closes and timer ticks came before. *)
Theorem settled_modal_shows_current
    (data : option Content.ContentData) (reachable : bool) (t0 : Q)
    (es : list Modal.Event) (cid : string) :
  Session.chronological t0 es = true ->
  let a := Session.reached data reachable es in
  Modal.currentModal a = Some cid ->
  Modal.view a = Modal.openView cid
  /\ (Modal.noPopulatePending (Modal.timers a) = true ->
      exists c,
        Content.getContentById (Content.initialStore data) cid = Some c
        /\ (Modal.createModalContent c
            = Content.Returned (Modal.Details c) ->
            Modal.modalBody (Modal.dom a) = Modal.Details c)).
Proof.
  intros Hc a Hcur.
  assert (H0 : Session.upToDate t0
                 (Modal.setupModalSystem (Modal.loadedPage data reachable))).
  { split; [exact I|]. split; [intros d c []|]. intros cid' H. discriminate. }
  pose proof (run_upToDate es t0 _ Hc H0) as (_ & _ & C).
  fold (Session.reached data reachable es) in C. fold a in C.
  destruct (C cid Hcur) as (V & c & G & M).
  split; [exact V|]. intro Hq. exists c.
  pose proof (reached_store data reachable es) as St. fold a in St.
  rewrite St in G. split; [exact G|].
  rewrite (noPopulatePending_lastPopulated _ Hq) in M.
  intro R. apply M. unfold Modal.renders. now rewrite R.
Qed.

(** Witness of X16: the first film is opened at 0 ms, the second at 50 ms,
    and the timers fire at 100 and 150 ms. *)
Lemma settled_modal_shows_current_witness :
  Session.chronological 0
    [Modal.Open "m1" 0; Modal.Open "m2" 50; Modal.Tick 100; Modal.Tick 150]
  = true
  /\ Modal.currentModal
       (Session.reached (Some Samples.data) true
          [Modal.Open "m1" 0; Modal.Open "m2" 50; Modal.Tick 100;
           Modal.Tick 150])
     = Some "m2"%string
  /\ Modal.modalBody
       (Modal.dom
          (Session.reached (Some Samples.data) true
             [Modal.Open "m1" 0; Modal.Open "m2" 50; Modal.Tick 100;
              Modal.Tick 150]))
     = Modal.Details Samples.movie2.
Proof.
  split; [reflexivity|]. split; [reflexivity|].
  destruct (settled_modal_shows_current (Some Samples.data) true 0
              [Modal.Open "m1" 0; Modal.Open "m2" 50; Modal.Tick 100;
               Modal.Tick 150] "m2" eq_refl eq_refl) as [_ H].
  destruct (H eq_refl) as (c & G & B).
  vm_compute in G. inversion G; subst c. exact (B eq_refl).
Defined.

(** The condition of X16 is needed. The first film is opened at 0 ms and
    the hero, which has no [type], at 50 ms: the callback of the film fills
    the body at 100 ms, that of the hero throws at 150 ms, and the modal
    stays open for the hero with the film's markup in its body. *)
Lemma unrenderable_record_leaves_stale_body :
  let a :=
    Session.reached (Some Samples.data) true
      [Modal.Open "m1" 0; Modal.Open "hero-1" 50; Modal.Tick 100;
       Modal.Tick 150] in
  Modal.view a = Modal.openView "hero-1"
  /\ Modal.noPopulatePending (Modal.timers a) = true
  /\ Content.getContentById (Modal.store a) "hero-1" = Some Samples.featured
  /\ Modal.createModalContent Samples.featured = Content.Thrown
  /\ Modal.modalBody (Modal.dom a) = Modal.Details Samples.movie1.
Proof. cbv zeta. repeat split; vm_compute; reflexivity. Qed.

(* ================================================================== *)
(** * Further properties: the mobile menu and debounce *)
(* ================================================================== *)

Section MenuFacts.

Import Menu.
Local Open Scope string_scope.

Lemma contains_add_same (c : string) (l : list string) :
  contains c (classList_add c l) = true.
Proof.
  unfold classList_add. destruct (contains c l) eqn:E; [exact E|].
  unfold contains. rewrite existsb_app. simpl.
  rewrite String.eqb_refl. now rewrite orb_true_r.
Qed.

Lemma contains_add_other (a b : string) (l : list string) :
  String.eqb a b = false ->
  contains a (classList_add b l) = contains a l.
Proof.
  intro H. unfold classList_add. destruct (contains b l); [reflexivity|].
  unfold contains. rewrite existsb_app. simpl. rewrite H.
  now rewrite !orb_false_r.
Qed.

Lemma contains_remove_same (c : string) (l : list string) :
  contains c (classList_remove c l) = false.
Proof.
  unfold contains, classList_remove. induction l as [|x l IH]; simpl.
  - reflexivity.
  - destruct (String.eqb c x) eqn:E; simpl; [exact IH|]. now rewrite E.
Qed.

(** Whatever the markup was, a toggle makes it agree with the state. *)
Lemma toggle_agrees (n : Nav) : agrees (toggleMobileMenu n) = true.
Proof.
  unfold toggleMobileMenu, agrees.
  destruct (mobileMenuOpen n); cbn [negb mobileMenuOpen menuClasses
                                     ariaExpanded bodyOverflow].
  - rewrite contains_add_same, contains_add_other by reflexivity.
    now rewrite contains_remove_same.
  - rewrite contains_add_same, contains_add_other by reflexivity.
    now rewrite contains_remove_same.
Qed.

Lemma close_agrees (n : Nav) :
  agrees n = true ->
  agrees (closeMobileMenu n) = true
  /\ mobileMenuOpen (closeMobileMenu n) = false.
Proof.
  intro H. unfold closeMobileMenu. destruct (mobileMenuOpen n) eqn:E.
  - split; [apply toggle_agrees|]. unfold toggleMobileMenu. now rewrite E.
  - split; assumption.
Qed.

Lemma step_agrees (n : Nav) (e : Event) :
  agrees n = true -> agrees (step n e) = true.
Proof.
  intro H. destruct e; cbn [step].
  - apply toggle_agrees.
  - now apply close_agrees.
  - unfold onResize.
    destruct (Qle_bool tablet innerWidth && mobileMenuOpen n); [|exact H].
    now apply close_agrees.
  - unfold handleResize.
    destruct (Qle_bool tablet innerWidth && mobileMenuOpen n); [|exact H].
    now apply close_agrees.
Qed.

Lemma run_agrees (es : list Event) (n : Nav) :
  agrees n = true -> agrees (run es n) = true.
Proof.
  revert n. induction es as [|e es IH]; intros n H; [exact H|].
  apply IH. now apply step_agrees.
Qed.

Lemma closed_unlocked (n : Nav) :
  agrees n = true -> mobileMenuOpen n = false -> bodyOverflow n = "".
Proof.
  unfold agrees. intros H E. rewrite E in H.
  apply andb_true_iff in H. destruct H as [_ H]. now apply String.eqb_eq.
Qed.

End MenuFacts.

(** X17. Once the menu has been toggled, its markup agrees with
    [AppState.mobileMenuOpen] after every sequence of toggle clicks, link
    clicks and resizes: the menu carries exactly one of the two slide
    classes, [aria-expanded] and the scroll lock of the page match.  A click
    on a menu link, and a resize to 1024 px or more, leave the menu closed
    and the page scroll unlocked; a resize below 1024 px changes nothing. *)
Theorem menu_markup_follows_state (n : Menu.Nav) (es : list Menu.Event)
    (w : Q) :
  let m := Menu.run es (Menu.toggleMobileMenu n) in
  Menu.agrees m = true
  /\ (Menu.mobileMenuOpen (Menu.step m Menu.LinkClick) = false
      /\ Menu.bodyOverflow (Menu.step m Menu.LinkClick) = ""%string)
  /\ (if Qle_bool 1024 w
      then Menu.mobileMenuOpen (Menu.step m (Menu.Resize w)) = false
           /\ Menu.bodyOverflow (Menu.step m (Menu.Resize w)) = ""%string
           /\ Menu.step m (Menu.ResizeSettled w)
              = Menu.step m (Menu.Resize w)
      else Menu.step m (Menu.Resize w) = m
           /\ Menu.step m (Menu.ResizeSettled w) = m).
Proof.
  intro m.
  assert (H : Menu.agrees m = true).
  { subst m. apply run_agrees, toggle_agrees. }
  destruct (close_agrees m H) as [Hc Ho].
  split; [exact H|]. split.
  - cbn [Menu.step]. split; [exact Ho|]. now apply closed_unlocked.
  - cbn [Menu.step]. unfold Menu.onResize, Menu.handleResize, Menu.tablet.
    destruct (Qle_bool 1024 w); cbn [andb].
    + destruct (Menu.mobileMenuOpen m) eqn:E.
      * split; [exact Ho|]. split; [now apply closed_unlocked|reflexivity].
      * split; [exact E|]. split; [now apply closed_unlocked|reflexivity].
    + split; reflexivity.
Qed.

Section DebounceFacts.

Import Debounce.
Local Open Scope Q_scope.

Context {A : Type}.

Lemma single_clear (d : Debounced A) :
  single d -> clearTimeout (timeout d) (queue d) = [].
Proof.
  unfold single. destruct (queue d) as [|[due [id args]] [|e rest]].
  - intros _. now destruct (timeout d).
  - intros ->. simpl. now rewrite Nat.eqb_refl.
  - contradiction.
Qed.

(** A call replaces the registered timer, if any, by its own. *)
Lemma call_single (wait now : Q) (args : A) (d : Debounced A) :
  single d ->
  single (executedFunction wait now args d)
  /\ pending (executedFunction wait now args d) = [(now + wait, args)]
  /\ executed (executedFunction wait now args d) = executed d.
Proof.
  intro H. unfold executedFunction, single, pending. cbv zeta.
  rewrite (single_clear d H). simpl. repeat split; reflexivity.
Qed.

(** A tick fires the registered timer if it is due. *)
Lemma tick_single (now : Q) (d : Debounced A) :
  single d ->
  single (runTimers now d)
  /\ match pending d with
     | [(due, args)] =>
         if Qle_bool due now
         then pending (runTimers now d) = []
              /\ executed (runTimers now d) = (executed d ++ [args])%list
         else runTimers now d = d
     | _ => runTimers now d = d
     end.
Proof.
  unfold single, runTimers, pending.
  destruct (queue d) as [|[due [id args]] [|e rest]] eqn:Q'.
  - intros _. change (fire (Datatypes.length []) now d) with d.
    rewrite Q'. split; [exact I|reflexivity].
  - intro H. change (Datatypes.length [(due, (id, args))]) with 1%nat.
    cbn [fire map fst snd]. rewrite Q'.
    destruct (Qle_bool due now).
    + cbn [fire later queue timeout executed].
      assert (E : @clearTimeout A (timeout d) [] = [])
        by now destruct (timeout d).
      rewrite E. split; [exact I|]. split; reflexivity.
    + rewrite Q'. split; [exact H|reflexivity].
  - contradiction.
Qed.

Lemma step_single (wait : Q) (e : Event A) (d : Debounced A) :
  single d -> single (step wait d e).
Proof.
  intro H. destruct e; cbn [step].
  - now apply call_single.
  - now apply tick_single.
Qed.

Lemma run_single (wait : Q) (es : list (Event A)) (d : Debounced A) :
  single d -> single (run wait es d).
Proof.
  revert d. induction es as [|e es IH]; intros d H; [exact H|].
  apply IH. now apply step_single.
Qed.

(** After a burst of calls only the timer of the last one is registered,
    and nothing has been executed. *)
Lemma burst_single (wait : Q) (c : Q * A) (more : list (Q * A))
    (d : Debounced A) :
  single d ->
  let d' := run wait (calls (c :: more)) d in
  single d'
  /\ pending d'
     = [(fst (lastCall c more) + wait, snd (lastCall c more))]
  /\ executed d' = executed d.
Proof.
  revert c d. induction more as [|c' more IH]; intros c d H.
  - cbn. now apply call_single.
  - destruct (call_single wait (fst c) (snd c) d H) as (H1 & _ & E1).
    destruct (IH c' _ H1) as (H2 & P2 & E2).
    cbn [lastCall]. split; [exact H2|]. split; [exact P2|].
    cbv zeta in E2. rewrite <- E1. exact E2.
Qed.

End DebounceFacts.

(** X18. A debounced function runs once per burst, with the arguments of
    the last call: in every state a debounced function can reach, after a
    burst of calls the only timer registered is that of the last call, so
    the next timer tick executes [func] with the last call's arguments if
    [wait] ms have passed since that call and executes nothing otherwise;
    the arguments of the earlier calls of the burst, and of a call still
    waiting before it, are never executed. *)
Theorem debounce_runs_last_call_once (A : Type) (wait : Q)
    (es : list (Debounce.Event A)) (c : Q * A) (more : list (Q * A))
    (T : Q) :
  let before := Debounce.run wait es Debounce.create in
  let final := Debounce.lastCall c more in
  let burst := Debounce.run wait (Debounce.calls (c :: more)) before in
  let after := Debounce.runTimers T burst in
  Debounce.pending burst = [((fst final + wait)%Q, snd final)]
  /\ Debounce.executed burst = Debounce.executed before
  /\ (if Qle_bool (fst final + wait) T
      then Debounce.executed after
           = (Debounce.executed before ++ [snd final])%list
           /\ Debounce.pending after = []
      else after = burst).
Proof.
  intros before final burst after.
  assert (H0 : Debounce.single before).
  { subst before. apply run_single. exact I. }
  destruct (burst_single wait c more before H0) as (H1 & P1 & E1).
  fold burst in H1, P1, E1. fold final in P1.
  split; [exact P1|]. split; [exact E1|].
  destruct (tick_single T burst H1) as (_ & H2). fold after in H2.
  rewrite P1 in H2.
  destruct (Qle_bool (fst final + wait) T); [|exact H2].
  destruct H2 as [P2 E2]. rewrite E2, E1. split; [reflexivity|exact P2].
Qed.

(* ================================================================== *)
(** * Further properties: loading the content data *)
(* ================================================================== *)

Section LoaderFacts.

Import Content Loader.
Local Open Scope string_scope.

Lemma number_in_range (n : number) (lo hi : Q) :
  numberLt n lo || numberGt n hi = false ->
  exists q, n = Num q /\ (lo <= q <= hi)%Q.
Proof.
  intro H. apply orb_false_iff in H. destruct H as [L G].
  destruct n as [q| |]; simpl in L, G; try discriminate.
  exists q. split; [reflexivity|]. split; now apply ltb_ge.
Qed.

Lemma present_found (properties : list (string * JSON)) (field : string) :
  present properties field = true ->
  exists v, lookup field properties = Some v /\ v <> JNull.
Proof.
  unfold present. destruct (lookup field properties) as [v|]; [|discriminate].
  intro H. exists v. split; [reflexivity|]. intro E. subst v. discriminate.
Qed.

(** An item for which [validateContentItem] returns [true]. *)
Lemma validateContentItem_true (currentYear : Q) (item : JSON) :
  validateContentItem currentYear item = Returned true ->
  validItem currentYear item.
Proof.
  unfold validateContentItem.
  destruct item as [| | | | |ps]; try discriminate.
  destruct (hasKey "hasOwnProperty" ps); [discriminate|].
  destruct (forallb (present ps) requiredFields) eqn:F; [|discriminate].
  cbn [negb].
  destruct (lookup "rating" ps) as [[| |rating| | |]|] eqn:R;
    try discriminate.
  destruct (lookup "year" ps) as [[| |year| | |]|] eqn:Y; try discriminate.
  destruct (numberLt rating 0 || numberGt rating 10) eqn:RR; [discriminate|].
  destruct (numberLt year 1900 || numberGt year (currentYear + 5)) eqn:YY;
    [discriminate|].
  destruct (lookup "type" ps) as [[| | |type| |]|] eqn:T; try discriminate.
  intro H. inversion H as [H'].
  destruct (number_in_range rating 0 10 RR) as (r & -> & Hr).
  destruct (number_in_range year 1900 (currentYear + 5) YY) as (y & -> & Hy).
  exists ps, r, y, type. split; [reflexivity|]. split.
  - intros field Hin. apply present_found.
    rewrite forallb_forall in F. now apply F.
  - split; [exact R|]. split; [exact Hr|]. split; [exact Y|].
    split; [exact Hy|]. split; [exact T|].
    apply orb_true_iff in H'. destruct H' as [E|E];
      apply String.eqb_eq in E; auto.
Qed.

Lemma validateItems_true (currentYear : Q) (categoryId : option JSON)
    (items : list JSON) :
  validateItems currentYear categoryId items = Returned true ->
  Forall (validItem currentYear) items.
Proof.
  induction items as [|item rest IH]; cbn [validateItems]; intro H.
  - constructor.
  - destruct (validateContentItem currentYear item) as [[|]|] eqn:V.
    + constructor; [now apply validateContentItem_true|auto].
    + destruct (canStringifyOpt categoryId); discriminate.
    + discriminate.
Qed.

Lemma validateCategories_true (currentYear : Q) (categories : list JSON) :
  validateCategories currentYear categories = Returned true ->
  Forall (validCategory currentYear) categories.
Proof.
  induction categories as [|category rest IH]; intro H.
  - constructor.
  - assert (K : category <> JNull /\
               validateCategories currentYear (category :: rest)
               = (let id := member "id" category in
                  if negb (truthy id)
                     || negb (truthy (member "title" category))
                     || negb (isArray (member "items" category))
                  then if canStringifyOpt id then Returned false else Thrown
                  else
                    match member "items" category with
                    | Some (JArray items) =>
                        match validateItems currentYear id items with
                        | Returned true => validateCategories currentYear rest
                        | other => other
                        end
                    | _ => Returned false
                    end)).
    { destruct category; try (split; [discriminate|reflexivity]).
      discriminate. }
    destruct K as [Hn K]. rewrite K in H. cbv zeta in H.
    destruct (truthy (member "id" category)) eqn:I;
      [|cbn in H; destruct (canStringifyOpt (member "id" category));
        discriminate].
    destruct (truthy (member "title" category)) eqn:T;
      [|cbn in H; destruct (canStringifyOpt (member "id" category));
        discriminate].
    destruct (member "items" category) as [[| | | |items|]|] eqn:M;
      cbn in H;
      try (destruct (canStringifyOpt (member "id" category)); discriminate).
    destruct (validateItems currentYear (member "id" category) items)
      as [[|]|] eqn:V; try discriminate.
    constructor; [|auto].
    split; [exact I|]. split; [exact T|].
    exists items. split; [exact M|]. now apply (validateItems_true _ _ _ V).
Qed.

(** Categories that pass are skipped by the loop. *)
Lemma validateCategories_app (currentYear : Q) (passed rest : list JSON) :
  validateCategories currentYear passed = Returned true ->
  validateCategories currentYear (passed ++ rest)
  = validateCategories currentYear rest.
Proof.
  induction passed as [|category passed IH]; intro H; [reflexivity|].
  destruct category as [| | | | |ps];
    try (cbn in H; discriminate).
  change ((JObject ps :: passed) ++ rest)%list
    with (JObject ps :: (passed ++ rest))%list.
  cbn [validateCategories] in *. cbv zeta in *.
  destruct (negb (truthy (member "id" (JObject ps)))
            || negb (truthy (member "title" (JObject ps)))
            || negb (isArray (member "items" (JObject ps)))).
  - destruct (canStringifyOpt (member "id" (JObject ps))); discriminate.
  - destruct (member "items" (JObject ps)) as [[| | | |items|]|];
      try discriminate.
    destruct (validateItems currentYear (member "id" (JObject ps)) items)
      as [[|]|]; try discriminate.
    now apply IH.
Qed.

Lemma validateItems_app (currentYear : Q) (categoryId : option JSON)
    (passed rest : list JSON) :
  validateItems currentYear categoryId passed = Returned true ->
  validateItems currentYear categoryId (passed ++ rest)
  = validateItems currentYear categoryId rest.
Proof.
  induction passed as [|item passed IH]; intro H; [reflexivity|].
  rewrite <- app_comm_cons. cbn [validateItems] in *.
  destruct (validateContentItem currentYear item) as [[|]|].
  - now apply IH.
  - destruct (canStringifyOpt categoryId); discriminate.
  - discriminate.
Qed.

(** The checks on an object with a valid hero come to those on its
    categories. *)
Lemma validateContentData_object (currentYear : Q) (hero : JSON)
    (categories : list JSON) :
  truthy (Some hero) = true ->
  truthy (member "id" hero) = true -> truthy (member "title" hero) = true ->
  validateContentData currentYear
    (JObject [("hero", hero); ("categories", JArray categories)])
  = validateCategories currentYear categories.
Proof.
  intros Hh Hi Ht. unfold validateContentData.
  set (data := JObject [("hero", hero); ("categories", JArray categories)]).
  assert (E1 : truthy (Some data) = true) by reflexivity.
  assert (E2 : typeofObject data = true) by reflexivity.
  assert (E3 : member "hero" data = Some hero) by reflexivity.
  assert (E4 : member "categories" data = Some (JArray categories))
    by reflexivity.
  cbv zeta. rewrite E1, E2, E3, E4, Hh, Hi, Ht. reflexivity.
Qed.

(** The checks on a category with a truthy id and title come to those on
    its items. *)
Lemma validateCategories_object (currentYear : Q) (id title : JSON)
    (items rest : list JSON) :
  truthy (Some id) = true -> truthy (Some title) = true ->
  validateCategories currentYear
    (JObject [("id", id); ("title", title); ("items", JArray items)] :: rest)
  = match validateItems currentYear (Some id) items with
    | Returned true => validateCategories currentYear rest
    | other => other
    end.
Proof.
  intros Hi Ht. cbn [validateCategories].
  set (c := JObject [("id", id); ("title", title); ("items", JArray items)]).
  assert (E1 : member "id" c = Some id) by reflexivity.
  assert (E2 : member "title" c = Some title) by reflexivity.
  assert (E3 : member "items" c = Some (JArray items)) by reflexivity.
  cbv zeta. rewrite E1, E2, E3, Hi, Ht. reflexivity.
Qed.

(** What a successful validation has checked. *)
Lemma validated_structure (currentYear : Q) (data : JSON) :
  validateContentData currentYear data = Returned true ->
  truthy (Some data) = true
  /\ exists hero categories,
       member "hero" data = Some hero
       /\ truthy (member "id" hero) = true
       /\ truthy (member "title" hero) = true
       /\ member "categories" data = Some (JArray categories)
       /\ Forall (validCategory currentYear) categories.
Proof.
  unfold validateContentData.
  destruct (truthy (Some data)) eqn:D; [|discriminate].
  destruct (typeofObject data); [|discriminate].
  cbv zeta. cbn [negb orb].
  destruct (member "hero" data) as [hero|] eqn:H; [|discriminate].
  destruct (truthy (Some hero)); [|discriminate].
  destruct (truthy (member "id" hero)) eqn:I; [|discriminate].
  destruct (truthy (member "title" hero)) eqn:T; [|discriminate].
  cbn [negb orb].
  destruct (member "categories" data) as [[| | | |categories|]|] eqn:C;
    try discriminate.
  intro V. split; [reflexivity|]. exists hero, categories.
  split; [reflexivity|]. split; [exact I|]. split; [exact T|].
  split; [reflexivity|]. now apply validateCategories_true.
Qed.

Lemma placeholder_valid (currentYear : Q) :
  validateContentData currentYear getPlaceholderContent = Returned true.
Proof. reflexivity. Qed.

End LoaderFacts.

(** X19. Whatever the server answers and whatever [loadHeroContent]
    does, [loadContentData] leaves [AppState.isLoading] false and content
    data in [AppState.contentData] for which [validateContentData] returns
    [true]: the data of the response when it passed validation and the hero
    section could be filled from it, the placeholder of
    [getPlaceholderContent] otherwise.  In the first case no toast is
    shown; in the second the warning toast is shown, unless filling the
    hero section from the placeholder throws as well, in which case the
    promise is rejected. *)
Theorem loaded_content_passes_validation (currentYear : Q)
    (heroLoads : Loader.JSON -> bool) (placeholderHeroLoads : bool)
    (response : Loader.Response) (st : Loader.State) :
  let result :=
    Loader.loadContentData currentYear heroLoads placeholderHeroLoads
      response st in
  Loader.isLoading (Loader.final result) = false
  /\ (exists data,
        Loader.contentData (Loader.final result) = Some data
        /\ Loader.validateContentData currentYear data
           = Content.Returned true)
  /\ (if Loader.keepsResponse currentYear heroLoads response
      then response
           = match Loader.contentData (Loader.final result) with
             | Some data => Loader.Body data
             | None => response
             end
           /\ Loader.contentData (Loader.final result) <> None
           /\ Loader.toasts (Loader.final result) = Loader.toasts st
           /\ Loader.rejected result = false
      else Loader.contentData (Loader.final result)
           = Some Loader.getPlaceholderContent
           /\ Loader.rejected result = negb placeholderHeroLoads
           /\ Loader.toasts (Loader.final result)
              = if placeholderHeroLoads
                then (Loader.toasts st
                      ++ [("Unable to load content. Using offline data."%string,
                           "warning"%string)])%list
                else Loader.toasts st).
Proof.
  intro result.
  assert (F : forall s,
            Loader.toasts s = Loader.toasts st ->
            let r := Loader.handleContentLoadError placeholderHeroLoads s in
            Loader.isLoading (Loader.final r) = false
            /\ Loader.contentData (Loader.final r)
               = Some Loader.getPlaceholderContent
            /\ Loader.rejected r = negb placeholderHeroLoads
            /\ Loader.toasts (Loader.final r)
               = if placeholderHeroLoads
                 then (Loader.toasts st
                       ++ [("Unable to load content. Using offline data."%string,
                            "warning"%string)])%list
                 else Loader.toasts st).
  { intros s Hs. unfold Loader.handleContentLoadError. cbv zeta.
    destruct placeholderHeroLoads; cbn; rewrite Hs; repeat split. }
  assert (P : forall r,
            Loader.contentData (Loader.final r)
            = Some Loader.getPlaceholderContent ->
            exists data,
              Loader.contentData (Loader.final r) = Some data
              /\ Loader.validateContentData currentYear data
                 = Content.Returned true).
  { intros r Hr. exists Loader.getPlaceholderContent.
    split; [exact Hr|apply placeholder_valid]. }
  subst result. unfold Loader.loadContentData, Loader.keepsResponse.
  cbv zeta.
  destruct response as [| | |data];
    try (destruct (F (Loader.mkState (Loader.contentData st) true
                        (Loader.toasts st)) eq_refl) as (A & B & C & D);
         split; [exact A|]; split; [now apply P|];
         split; [exact B|]; split; [exact C|exact D]).
  destruct (Loader.validateContentData currentYear data) as [[|]|] eqn:V;
    try (destruct (F (Loader.mkState (Loader.contentData st) true
                        (Loader.toasts st)) eq_refl) as (A & B & C & D);
         split; [exact A|]; split; [now apply P|];
         split; [exact B|]; split; [exact C|exact D]).
  destruct (heroLoads data).
  - cbn. split; [reflexivity|]. split.
    + exists data. split; [reflexivity|exact V].
    + split; [reflexivity|]. split; [discriminate|]. split; reflexivity.
  - destruct (F (Loader.mkState (Some data) true (Loader.toasts st)) eq_refl)
      as (A & B & C & D).
    split; [exact A|]. split; [now apply P|].
    split; [exact B|]. split; [exact C|exact D].
Qed.

(** X20. Content data for which [validateContentData] returns [true] has
    a hero with a truthy id and title and an array of categories; every
    category has a truthy id and title and an array of items; every item is
    an object with the eight required fields present and not null, a finite
    rating from 0 to 10, a finite year from 1900 to five years after the
    current one, and the type 'movie' or 'tv-show'. *)
Theorem validated_data_is_well_formed (currentYear : Q)
    (data : Loader.JSON) :
  Loader.validateContentData currentYear data = Content.Returned true ->
  exists hero categories,
    Loader.member "hero" data = Some hero
    /\ Loader.truthy (Loader.member "id" hero) = true
    /\ Loader.truthy (Loader.member "title" hero) = true
    /\ Loader.member "categories" data = Some (Loader.JArray categories)
    /\ Forall (Loader.validCategory currentYear) categories.
Proof.
  intro V.
  destruct (validated_structure currentYear data V)
    as (_ & hero & categories & H & I & T & C & F).
  exists hero, categories.
  split; [exact H|]. split; [exact I|]. split; [exact T|].
  split; [exact C|exact F].
Qed.

(** Witness of X20: the sample data, validated in 2026. *)
Lemma validated_data_is_well_formed_witness :
  Loader.validateContentData 2026 Loader.sampleData = Content.Returned true
  /\ exists hero categories,
       Loader.member "hero" Loader.sampleData = Some hero
       /\ Loader.truthy (Loader.member "id" hero) = true
       /\ Loader.truthy (Loader.member "title" hero) = true
       /\ Loader.member "categories" Loader.sampleData
          = Some (Loader.JArray categories)
       /\ Forall (Loader.validCategory 2026) categories.
Proof.
  assert (H : Loader.validateContentData 2026 Loader.sampleData
              = Content.Returned true) by reflexivity.
  split; [exact H|].
  exact (validated_data_is_well_formed 2026 Loader.sampleData H).
Defined.

(** X21. A null entry makes validation throw instead of return
    [false]: when the categories before it pass, a null category raises the
    [TypeError] of [category.id], and when the items before it pass, a null
    item raises that of [item.hasOwnProperty]; [loadContentData] catches
    either and falls back to the placeholder. *)
Theorem null_entry_makes_validation_throw (currentYear : Q)
    (hero : Loader.JSON) (passed rest : list Loader.JSON)
    (id title : Loader.JSON) (items more : list Loader.JSON)
    (heroLoads : Loader.JSON -> bool) (placeholderHeroLoads : bool)
    (st : Loader.State) :
  Loader.truthy (Some hero) = true ->
  Loader.truthy (Loader.member "id" hero) = true ->
  Loader.truthy (Loader.member "title" hero) = true ->
  Loader.validateCategories currentYear passed = Content.Returned true ->
  Loader.truthy (Some id) = true -> Loader.truthy (Some title) = true ->
  Loader.validateItems currentYear (Some id) items = Content.Returned true ->
  let withNullCategory :=
    Loader.JObject
      [("hero"%string, hero);
       ("categories"%string,
        Loader.JArray (passed ++ Loader.JNull :: rest)%list)] in
  let withNullItem :=
    Loader.JObject
      [("hero"%string, hero);
       ("categories"%string,
        Loader.JArray
          (passed
           ++ Loader.JObject
                [("id"%string, id); ("title"%string, title);
                 ("items"%string,
                  Loader.JArray (items ++ Loader.JNull :: more)%list)]
              :: rest)%list)] in
  Loader.validateContentData currentYear withNullCategory = Content.Thrown
  /\ Loader.validateContentData currentYear withNullItem = Content.Thrown
  /\ Loader.contentData
       (Loader.final
          (Loader.loadContentData currentYear heroLoads placeholderHeroLoads
             (Loader.Body withNullCategory) st))
     = Some Loader.getPlaceholderContent
  /\ Loader.contentData
       (Loader.final
          (Loader.loadContentData currentYear heroLoads placeholderHeroLoads
             (Loader.Body withNullItem) st))
     = Some Loader.getPlaceholderContent.
Proof.
  intros Hh Hi Ht Hp Hid Htitle Hit withNullCategory withNullItem.
  assert (A : Loader.validateContentData currentYear withNullCategory
              = Content.Thrown).
  { unfold withNullCategory.
    rewrite (validateContentData_object currentYear hero _ Hh Hi Ht).
    now rewrite (validateCategories_app currentYear passed _ Hp). }
  assert (B : Loader.validateContentData currentYear withNullItem
              = Content.Thrown).
  { unfold withNullItem.
    rewrite (validateContentData_object currentYear hero _ Hh Hi Ht).
    rewrite (validateCategories_app currentYear passed _ Hp).
    rewrite (validateCategories_object currentYear id title _ rest Hid Htitle).
    now rewrite (validateItems_app currentYear (Some id) items _ Hit). }
  split; [exact A|]. split; [exact B|].
  unfold Loader.loadContentData. cbv zeta. rewrite A, B.
  unfold Loader.handleContentLoadError. cbv zeta.
  split; destruct placeholderHeroLoads; reflexivity.
Qed.

(** Witness of X21: the sample row with a null entry after the film, and a
    null category after the sample row. *)
Lemma null_entry_makes_validation_throw_witness :
  Loader.validateContentData 2026 Loader.sampleDataWithNull = Content.Thrown.
Proof.
  assert (H := null_entry_makes_validation_throw 2026
                 (Loader.JObject
                    [("id"%string, Loader.JString "hero-1");
                     ("title"%string, Loader.JString "Featured")])
                 [] [] (Loader.JString "trending")
                 (Loader.JString "Trending Now") [Loader.sampleItem] []
                 (fun _ => true) true (Loader.mkState None false [])
                 eq_refl eq_refl eq_refl eq_refl eq_refl eq_refl eq_refl).
  exact (proj1 (proj2 H)).
Defined.

Section RowFacts.

Import Content Loader Rows.
Local Open Scope string_scope.

(** The card of an item whose [genres] is not an array does not render. *)
Lemma cardRenders_genres (item : JSON) :
  isArray (member "genres" item) = false -> cardRenders item = false.
Proof.
  intro H. unfold cardRenders. destruct item; try reflexivity;
    destruct (member "genres" _) as [[| | | |g|]|]; try discriminate;
    now rewrite ?andb_false_r.
Qed.

Lemma createContentCards_thrown (items : list JSON) (item : JSON) :
  In item items -> cardRenders item = false ->
  createContentCards items = Thrown.
Proof.
  intros Hin Hr. unfold createContentCards.
  destruct items as [|x rest]; [contradiction|].
  destruct (forallb cardRenders (x :: rest)) eqn:F; [|reflexivity].
  rewrite forallb_forall in F. rewrite (F item Hin) in Hr. discriminate.
Qed.

Lemma createContentRow_thrown (rowSetupReturns : JSON -> bool)
    (category : JSON) (items : list JSON) :
  member "items" category = Some (JArray items) ->
  createContentCards items = Thrown ->
  createContentRow rowSetupReturns category = Thrown.
Proof.
  intros M C. unfold createContentRow.
  destruct category; try reflexivity;
    destruct (canStringifyOpt _ && canStringifyOpt _); try reflexivity;
    rewrite M; cbn [cardsOf]; now rewrite C.
Qed.

(** A row that cannot be built stops the loop, whatever came before. *)
Lemma appendRows_thrown (rowSetupReturns : JSON -> bool)
    (categories : list JSON) (category : JSON) (rows : list Markup) :
  In category categories ->
  createContentRow rowSetupReturns category = Thrown ->
  appendRows rowSetupReturns categories rows = Thrown.
Proof.
  revert rows. induction categories as [|c rest IH]; intros rows Hin Hc.
  - contradiction.
  - cbn [appendRows]. destruct Hin as [->|Hin].
    + now rewrite Hc.
    + destruct (createContentRow rowSetupReturns c); [|reflexivity].
      now apply IH.
Qed.

End RowFacts.

(** X22. Validation does not protect the rows: [genres] is not among the
    fields [validateContentItem] requires, so content data can pass
    [validateContentData] with an item whose [genres] is not an array;
    such an item satisfies everything validation checks, and yet
    [createContentCards] throws on its row and [initializeContentRows]
    throws on the data, whatever the other rows hold. *)
Theorem item_without_genres_breaks_rows (currentYear : Q)
    (rowSetupReturns : Loader.JSON -> bool) (data : Loader.JSON)
    (categories : list Loader.JSON) (category : Loader.JSON)
    (items : list Loader.JSON) (item : Loader.JSON) :
  Loader.validateContentData currentYear data = Content.Returned true ->
  Loader.member "categories" data = Some (Loader.JArray categories) ->
  In category categories ->
  Loader.member "items" category = Some (Loader.JArray items) ->
  In item items ->
  Loader.isArray (Loader.member "genres" item) = false ->
  Loader.validItem currentYear item
  /\ Rows.createContentCards items = Content.Thrown
  /\ Rows.initializeContentRows rowSetupReturns true (Some data)
     = Content.Thrown.
Proof.
  intros V C Hc M Hi G.
  destruct (validated_structure currentYear data V)
    as (D & hero & categories' & _ & _ & _ & C' & F).
  rewrite C in C'. inversion C'; subst categories'.
  assert (K : Rows.createContentCards items = Content.Thrown).
  { apply (createContentCards_thrown items item Hi).
    now apply cardRenders_genres. }
  split; [|split].
  - rewrite Forall_forall in F. destruct (F category Hc) as (_ & _ & its & M' & Fi).
    rewrite M in M'. inversion M'; subst its.
    rewrite Forall_forall in Fi. now apply Fi.
  - exact K.
  - unfold Rows.initializeContentRows. rewrite D, C. cbn [negb orb].
    rewrite (appendRows_thrown rowSetupReturns categories category [] Hc);
      [reflexivity|].
    now apply (createContentRow_thrown rowSetupReturns category items).
Qed.

(** Witness of X22: the sample row with a second film that has no
    genres. *)
Lemma item_without_genres_breaks_rows_witness :
  Loader.validateContentData 2026 Rows.dataWithoutGenres
  = Content.Returned true
  /\ Rows.initializeContentRows (fun _ => true) true
       (Some Rows.dataWithoutGenres)
     = Content.Thrown.
Proof.
  assert (V : Loader.validateContentData 2026 Rows.dataWithoutGenres
              = Content.Returned true) by reflexivity.
  split; [exact V|].
  refine (proj2 (proj2
            (item_without_genres_breaks_rows 2026 (fun _ => true)
               Rows.dataWithoutGenres _ _
               [Loader.sampleItem; Rows.itemWithoutGenres]
               Rows.itemWithoutGenres V eq_refl (or_introl eq_refl) eq_refl
               (or_intror (or_introl eq_refl)) eq_refl))).
Defined.

(* ------------------------------------------------------------------ *)
(** ** The toast of a failed open *)

Section ToastFacts.

Import Content JS Modal Session.
Local Open Scope Q_scope.

Ltac fields_of :=
  cbn [listeners fields dom currentModal timers store nextSerial
       bump set_fields set_listeners set_dom set_timers set_currentModal
       set_onCloseClick set_onOverlayClick set_onKeydown
       set_modalBody set_overlay set_body set_notifications set_announcements
       modalBody overlayPresent contentPresent notifications announcements
       set_innerHTML] in *.

Lemma tame_refl (b : App) : tame b b.
Proof.
  split; [lia|]. split; [reflexivity|]. split; [reflexivity|].
  split; auto.
Qed.

Lemma tame_trans (a b c : App) : tame a b -> tame b c -> tame a c.
Proof.
  intros (S1 & C1 & O1 & N1 & T1) (S2 & C2 & O2 & N2 & T2).
  split; [lia|]. split; [congruence|]. split; [congruence|]. split.
  - intros e H. destruct (N2 e H) as [H'|H']; [|right; lia].
    destruct (N1 e H') as [H''|H'']; [now left|right; lia].
  - intros d k H. destruct (T2 d k H) as [H'|H']; [|right; lia].
    destruct (T1 d k H') as [H''|H'']; [now left|right; lia].
Qed.

Lemma keeps_trans (n : nat) (a b c : App) :
  keeps n a b -> keeps n b c -> keeps n a c.
Proof. intros [N1 T1] [N2 T2]. split; auto. Qed.

Lemma keeps_refl (n : nat) (b : App) : keeps n b b.
Proof. split; auto. Qed.

Lemma quiet_refl (b : App) : quiet b b.
Proof.
  split; [lia|]. split; [reflexivity|]. split; [reflexivity|].
  split; [reflexivity|]. intros d k. tauto.
Qed.

Lemma quiet_trans (a b c : App) : quiet a b -> quiet b c -> quiet a c.
Proof.
  intros (S1 & C1 & O1 & N1 & T1) (S2 & C2 & O2 & N2 & T2).
  split; [lia|]. split; [congruence|]. split; [congruence|].
  split; [congruence|]. intros d k. rewrite T2. apply T1.
Qed.

Lemma quiet_tame (b b' : App) : quiet b b' -> tame b b'.
Proof.
  intros (S1 & C1 & O1 & N1 & T1).
  split; [exact S1|]. split; [exact C1|]. split; [exact O1|]. split.
  - intros e H. left. now rewrite <- N1.
  - intros d k H. left. now apply T1.
Qed.

Lemma quiet_keeps (n : nat) (b b' : App) : quiet b b' -> keeps n b b'.
Proof.
  intros (S1 & C1 & O1 & N1 & T1). split.
  - intros e _ H. now rewrite N1.
  - intros d H. now apply T1.
Qed.

(** A timer that is no toast removal, added to the queue. *)
Lemma removal_In_setTimeout (due : Q) (cb : TimerCallback)
    (q : list (Q * TimerCallback)) (d : Q) (k : nat) :
  (forall m, cb <> RemoveNotification m) ->
  In (d, RemoveNotification k) (setTimeout due cb q)
  <-> In (d, RemoveNotification k) q.
Proof.
  intro H. split.
  - intro Hin. apply setTimeout_incl in Hin.
    destruct Hin as [E|Hin]; [|exact Hin].
    inversion E; subst. now destruct (H k).
  - apply setTimeout_keeps.
Qed.

Lemma closeModal_quiet (t : Q) (b : App) : quiet b (closeModal t b).
Proof.
  destruct (overlayPresent (dom b)) eqn:O.
  - pose proof (closeModal_timers t b O) as T.
    unfold closeModal in *. rewrite O in *. cbn [negb] in *.
    destruct (removeModalEventListeners_frame b) as (D & _ & _ & _ & _ & N).
    set (x := removeModalEventListeners b) in *. clearbody x.
    unfold quiet. rewrite T. unfold announce, after. fields_of.
    rewrite D, N. split; [lia|]. split; [reflexivity|].
    split; [reflexivity|]. split; [reflexivity|].
    intros d k. apply removal_In_setTimeout. discriminate.
  - unfold closeModal. rewrite O. apply quiet_refl.
Qed.

(** [openModal]: a failed open adds its toast and the removal timer, a
    successful one no toast. *)
Lemma openModal_tame (cid : string) (t : Q) (b : App) :
  tame b (openModal cid t b) /\ forall n, keeps n b (openModal cid t b).
Proof.
  unfold openModal.
  destruct (negb (overlayPresent (dom b)) || negb (contentPresent (dom b))).
  - split; [apply tame_refl|intro; apply keeps_refl].
  - destruct (getContentById (store b) cid) as [c|].
    + assert (Q' : quiet b
                    (after t 100 (Populate c)
                       (set_dom
                          (set_body "hidden" true
                             (dom
                                (set_dom
                                   (set_overlay false "false"
                                      (dom
                                         (set_innerHTML LoadingState
                                            (set_currentModal (Some cid) b))))
                                   (set_innerHTML LoadingState
                                      (set_currentModal (Some cid) b)))))
                          (set_dom
                             (set_overlay false "false"
                                (dom
                                   (set_innerHTML LoadingState
                                      (set_currentModal (Some cid) b))))
                             (set_innerHTML LoadingState
                                (set_currentModal (Some cid) b)))))).
      { unfold quiet, after. fields_of.
        split; [lia|]. split; [reflexivity|]. split; [reflexivity|].
        split; [reflexivity|].
        intros d k. apply removal_In_setTimeout. discriminate. }
      split; [now apply quiet_tame|intro; now apply quiet_keeps].
    + unfold showNotification, after. split.
      * unfold tame. fields_of. split; [lia|]. split; [reflexivity|].
        split; [reflexivity|]. split.
        -- intros e H. apply in_app_or in H.
           destruct H as [H|[<-|[]]]; [now left|right; simpl; lia].
        -- intros d k H. apply setTimeout_incl in H.
           destruct H as [E|H]; [|now left].
           inversion E; subst. right. lia.
      * intro n. unfold keeps. fields_of. split.
        -- intros e _ H. apply in_or_app. now left.
        -- intros d H. now apply setTimeout_keeps.
Qed.

Lemma registerCloseHandler_serial (x : App) :
  (nextSerial x <= nextSerial (registerCloseHandler x))%nat.
Proof.
  unfold registerCloseHandler. destruct (hasCloseButton x); fields_of; lia.
Qed.

Lemma setupModalActions_serial (x : App) :
  (nextSerial x <= nextSerial (setupModalActions x))%nat.
Proof.
  unfold setupModalActions. destruct (hasActionButtons x); fields_of; lia.
Qed.

Lemma setupModalInteractions_serial (x : App) :
  (nextSerial x <= nextSerial (setupModalInteractions x))%nat.
Proof.
  unfold setupModalInteractions.
  destruct (removeModalEventListeners_frame x) as (_ & _ & _ & _ & _ & N).
  pose proof (registerCloseHandler_serial (removeModalEventListeners x)) as A.
  set (y := registerCloseHandler (removeModalEventListeners x)) in *.
  pose proof (setupModalActions_serial
                (registerKeydownHandler (registerOverlayClickHandler y))) as B.
  assert (C : (nextSerial y
               <= nextSerial
                    (registerKeydownHandler (registerOverlayClickHandler y)))%nat).
  { unfold registerKeydownHandler, registerOverlayClickHandler.
    fields_of. lia. }
  lia.
Qed.

Lemma populate_tail_quiet (text : string) (now : Q) (x : App) :
  hasCloseButton x = true ->
  quiet x
    (announce text now
       (if hasCloseButton x
        then set_dom (set_modalBody (modalBody (dom x)) true (dom x)) x
        else x)).
Proof.
  intro H. rewrite H. unfold quiet, announce, after. fields_of.
  split; [lia|]. split; [reflexivity|]. split; [reflexivity|].
  split; [reflexivity|].
  intros d k. apply removal_In_setTimeout. discriminate.
Qed.

Lemma populate_quiet (c : ContentItem) (t : Q) (b : App) :
  quiet b (populate c t b).
Proof.
  rewrite populate_cases. destruct (renders c); [|apply quiet_refl].
  destruct (setupModalInteractions_frame (set_innerHTML (Details c) b))
    as (D2 & _ & T2 & _).
  pose proof (setupModalInteractions_serial (set_innerHTML (Details c) b))
    as N2.
  assert (B : hasCloseButton
                (setupModalInteractions (set_innerHTML (Details c) b))
              = true).
  { unfold hasCloseButton. rewrite D2. reflexivity. }
  pose proof (populate_tail_quiet
                ("Modal opened for " ++ title c ++ ". Press Escape to close.")
                t _ B) as Q3.
  unfold populated, announceModalOpen. cbv zeta.
  eapply quiet_trans; [|exact Q3].
  unfold quiet. rewrite D2, T2. fields_of.
  split; [exact N2|]. split; [reflexivity|]. split; [reflexivity|].
  split; [reflexivity|]. intros d k. tauto.
Qed.

(** A timer callback: the removal of a toast takes the toasts of its
    serial away, any other callback leaves the toasts alone. *)
Lemma runTimerCallback_tame (t : Q) (b : App) (cb : TimerCallback) :
  tame b (runTimerCallback t b cb)
  /\ (forall n, cb <> RemoveNotification n ->
                keeps n b (runTimerCallback t b cb))
  /\ (forall n, cb = RemoveNotification n ->
                noToast n (runTimerCallback t b cb)).
Proof.
  destruct cb as [c|k|k]; cbn [runTimerCallback].
  - pose proof (populate_quiet c t b) as H.
    split; [now apply quiet_tame|]. split; [|discriminate].
    intros n _. now apply quiet_keeps.
  - unfold removeNotification. split; [|split].
    + unfold tame. fields_of. split; [lia|]. split; [reflexivity|].
      split; [reflexivity|]. split.
      * intros e H. apply filter_In in H. now left.
      * intros d m H. now left.
    + intros n Hn. unfold keeps. fields_of. split; [|auto].
      intros e He H. apply filter_In. split; [exact H|].
      apply negb_true_iff, Nat.eqb_neq. rewrite He. congruence.
    + intros n E. inversion E; subst k. unfold noToast. fields_of.
      intros e H. apply filter_In in H. destruct H as [_ H].
      apply negb_true_iff, Nat.eqb_neq in H. exact H.
  - assert (H : quiet b
                  (set_dom
                     (set_announcements
                        (filter (fun e => negb (Nat.eqb (fst e) k))
                           (announcements (dom b))) (dom b)) b)).
    { unfold quiet. fields_of. split; [lia|]. split; [reflexivity|].
      split; [reflexivity|]. split; [reflexivity|]. intros d m. tauto. }
    split; [now apply quiet_tame|]. split; [|discriminate].
    intros n _. now apply quiet_keeps.
Qed.

Lemma noToast_tame (n : nat) (b b' : App) :
  (n < nextSerial b)%nat -> noToast n b -> tame b b' -> noToast n b'.
Proof.
  intros Hn H (_ & _ & _ & N & _) e He.
  destruct (N e He) as [K|K]; [now apply H|lia].
Qed.

Lemma fold_tame (t : Q) (l : list TimerCallback) (b : App) :
  tame b (fold_left (runTimerCallback t) l b).
Proof.
  revert b. induction l as [|cb l IH]; intro b; cbn [fold_left].
  - apply tame_refl.
  - eapply tame_trans; [|apply IH]. apply runTimerCallback_tame.
Qed.

Lemma fold_keeps (n : nat) (t : Q) (l : list TimerCallback) (b : App) :
  ~ In (RemoveNotification n) l ->
  keeps n b (fold_left (runTimerCallback t) l b).
Proof.
  revert b. induction l as [|cb l IH]; intros b H; cbn [fold_left].
  - apply keeps_refl.
  - eapply keeps_trans; [|apply IH].
    + apply runTimerCallback_tame. intro E. apply H. now left.
    + intro K. apply H. now right.
Qed.

Lemma fold_removes (n : nat) (t : Q) (l : list TimerCallback) (b : App) :
  (n < nextSerial b)%nat -> In (RemoveNotification n) l ->
  noToast n (fold_left (runTimerCallback t) l b).
Proof.
  revert b. induction l as [|cb l IH]; intros b Hn H; cbn [fold_left].
  - contradiction.
  - destruct (runTimerCallback_tame t b cb) as (T & _ & R).
    assert (Hn' : (n < nextSerial (runTimerCallback t b cb))%nat).
    { destruct T as (S & _). lia. }
    destruct H as [->|H].
    + eapply noToast_tame; [exact Hn'|now apply R|apply fold_tame].
    + now apply IH.
Qed.

Lemma runTimers_tame (t : Q) (b : App) : tame b (Modal.runTimers t b).
Proof.
  unfold Modal.runTimers. eapply tame_trans; [|apply fold_tame].
  unfold tame. fields_of. split; [lia|]. split; [reflexivity|].
  split; [reflexivity|]. split; [auto|].
  intros d k H. unfold laterTimers in H. apply filter_In in H. now left.
Qed.

(** The removal timers that are left after a tick were not due, or are
    new. *)
Lemma runTimers_later (t : Q) (b : App) (d : Q) (k : nat) :
  In (d, RemoveNotification k) (timers (Modal.runTimers t b)) ->
  (In (d, RemoveNotification k) (timers b) /\ Qle_bool d t = false)
  \/ (nextSerial b <= k)%nat.
Proof.
  unfold Modal.runTimers. intro H.
  destruct (fold_tame t (dueTimers t (timers b))
              (set_timers (laterTimers t (timers b)) b))
    as (_ & _ & _ & _ & T).
  destruct (T d k H) as [K|K]; [left|right; exact (proj1 K)].
  cbn [timers set_timers] in K. unfold laterTimers in K.
  apply filter_In in K. destruct K as [K1 K2].
  split; [exact K1|]. now apply negb_true_iff in K2.
Qed.

(** A tick before the removal is due keeps the toast and its timer. *)
Lemma runTimers_keeps_toast (n : nat) (t : Q) (b : App) :
  (forall d, In (d, RemoveNotification n) (timers b) ->
             Qle_bool d t = false) ->
  keeps n b (Modal.runTimers t b).
Proof.
  intro H. unfold Modal.runTimers.
  eapply keeps_trans; [|apply fold_keeps].
  - unfold keeps. fields_of. split; [auto|].
    intros d Hin. unfold laterTimers. apply filter_In.
    split; [exact Hin|]. cbn [fst]. now rewrite (H d Hin).
  - intro Hin. unfold dueTimers in Hin. apply in_map_iff in Hin.
    destruct Hin as ([d cb] & E & Hf). simpl in E. subst cb.
    apply filter_In in Hf. destruct Hf as [Hin Hd]. simpl in Hd.
    rewrite (H d Hin) in Hd. discriminate.
Qed.

Lemma dispatch_quiet (current : App -> list Handler)
    (snapshot : list Handler) (key : option Key) (onOverlay : bool) (t : Q)
    (b : App) :
  quiet b (fst (dispatch current snapshot key onOverlay t b)).
Proof.
  revert b. induction snapshot as [|h rest IH]; intro b; cbn [dispatch].
  - apply quiet_refl.
  - destruct (existsb (sameHandler h) (current b)).
    + assert (Q1 : quiet b (invoke h key onOverlay t b)).
      { destruct (invoke_cases h key onOverlay t b) as [->| ->];
          [apply quiet_refl|apply closeModal_quiet]. }
      specialize (IH (invoke h key onOverlay t b)).
      destruct (dispatch current rest key onOverlay t
                  (invoke h key onOverlay t b)).
      cbn [fst] in *. now apply (quiet_trans _ _ _ Q1).
    + apply IH.
Qed.

Lemma step_tame (e : Event) (b : App) : tame b (step b e).
Proof.
  destruct e; cbn [step].
  - apply openModal_tame.
  - apply quiet_tame, closeModal_quiet.
  - apply runTimers_tame.
  - apply quiet_tame, dispatch_quiet.
  - apply quiet_tame, dispatch_quiet.
  - apply quiet_tame, dispatch_quiet.
  - apply (runTimerCallback_tame now b (RemoveNotification n)).
Qed.

Lemma run_tame (es : list Event) (b : App) : tame b (run es b).
Proof.
  revert b. induction es as [|e es IH]; intro b.
  - apply tame_refl.
  - cbn [run fold_left]. eapply tame_trans; [apply step_tame|apply IH].
Qed.

Lemma freshSerials_tame (b b' : App) :
  freshSerials b -> tame b b' -> freshSerials b'.
Proof.
  intros [N T] (S & _ & _ & N' & T'). split.
  - intros e H. destruct (N' e H) as [K|K]; [|lia].
    specialize (N e K). lia.
  - intros d k H. destruct (T' d k H) as [K|K]; [|lia].
    specialize (T d k K). lia.
Qed.

(** In every state the page reaches the serials in use are below the next
    one and the modal elements are in place. *)
Lemma reached_fresh (data : option ContentData) (reachable : bool)
    (es : list Event) :
  freshSerials (reached data reachable es)
  /\ contentPresent (dom (reached data reachable es)) = true
  /\ overlayPresent (dom (reached data reachable es)) = true.
Proof.
  unfold reached.
  pose proof (run_tame es (setupModalSystem (loadedPage data reachable)))
    as T.
  split; [|split].
  - eapply freshSerials_tame; [|exact T]. split.
    + intros e [].
    + intros d k [].
  - destruct T as (_ & C & _). rewrite C. reflexivity.
  - destruct T as (_ & _ & O & _). rewrite O. reflexivity.
Qed.

Lemma toastState_keep (n : nat) (due : Q) (shown : bool) (b b' : App) :
  toastState n due shown b -> tame b b' -> keeps n b b' ->
  toastState n due shown b'.
Proof.
  intros (Hn & HT & HS & HG) (S & _ & _ & N & T) [KN KT].
  split; [lia|]. split; [|split].
  - intros d H. destruct (T d n H) as [K|K]; [now apply HT|lia].
  - intro E. destruct (HS E) as [A B]. split; [now apply KT|].
    now apply KN.
  - intros E e H. destruct (N e H) as [K|K]; [now apply (HG E)|lia].
Qed.

(** The tick at which the removal is due takes the toast away for good. *)
Lemma toastState_gone (n : nat) (due : Q) (shown : bool) (t : Q) (b : App) :
  toastState n due shown b -> Qle_bool due t = true ->
  toastState n due false (Modal.runTimers t b).
Proof.
  intros (Hn & HT & HS & HG) Hd.
  pose proof (runTimers_tame t b) as T.
  split; [destruct T as (S & _); lia|]. split; [|split].
  - intros d H.
    destruct (runTimers_later t b d n H) as [[K1 K2]|K]; [|lia].
    exact (HT d K1).
  - discriminate.
  - intros _. destruct shown.
    + destruct (HS eq_refl) as [A _]. unfold Modal.runTimers.
      apply fold_removes; [exact Hn|].
      apply (dueTimers_In t due); [now apply Qle_bool_iff|exact A].
    + eapply noToast_tame; [exact Hn|exact (HG eq_refl)|exact T].
Qed.

(** A click on the [×] button of the toast takes it away for good. *)
Lemma toastState_dismissed (n : nat) (due : Q) (shown : bool) (b : App) :
  toastState n due shown b ->
  toastState n due false (removeNotification n b).
Proof.
  intros (Hn & HT & HS & HG).
  split; [exact Hn|]. split; [exact HT|]. split; [discriminate|].
  intros _.
  exact (proj2 (proj2 (runTimerCallback_tame 0 b (RemoveNotification n)))
           n eq_refl).
Qed.

Lemma step_toastState (n : nat) (due : Q) (shown : bool) (e : Event)
    (b : App) :
  toastState n due shown b ->
  toastState n due (shown && negb (toastRemoved n due [e])) (step b e).
Proof.
  intro H. unfold toastRemoved. cbn [existsb]. rewrite orb_false_r.
  destruct e as [cid t|t|t|key t|onOverlay t|t|k t]; cbn [step];
    rewrite ?andb_true_r.
  - apply (toastState_keep n due shown b); [exact H| |];
      apply openModal_tame.
  - apply (toastState_keep n due shown b); [exact H| |].
    + apply quiet_tame, closeModal_quiet.
    + apply quiet_keeps, closeModal_quiet.
  - destruct (Qle_bool due t) eqn:E; cbn [negb].
    + rewrite andb_false_r. now apply (toastState_gone n due shown).
    + rewrite andb_true_r.
      apply (toastState_keep n due shown b); [exact H| |].
      * apply runTimers_tame.
      * apply runTimers_keeps_toast. intros d K.
        destruct H as (_ & HT & _). now rewrite (HT d K).
  - apply (toastState_keep n due shown b); [exact H| |].
    + apply quiet_tame, dispatch_quiet.
    + apply quiet_keeps, dispatch_quiet.
  - apply (toastState_keep n due shown b); [exact H| |].
    + apply quiet_tame, dispatch_quiet.
    + apply quiet_keeps, dispatch_quiet.
  - apply (toastState_keep n due shown b); [exact H| |].
    + apply quiet_tame, dispatch_quiet.
    + apply quiet_keeps, dispatch_quiet.
  - destruct (Nat.eqb k n) eqn:E; cbn [negb].
    + rewrite andb_false_r. apply Nat.eqb_eq in E. subst k.
      now apply (toastState_dismissed n due shown).
    + rewrite andb_true_r. apply Nat.eqb_neq in E.
      apply (toastState_keep n due shown b); [exact H| |].
      * apply (runTimerCallback_tame t b (RemoveNotification k)).
      * apply (runTimerCallback_tame t b (RemoveNotification k)).
        congruence.
Qed.

Lemma run_toastState (n : nat) (due : Q) (es : list Event) (shown : bool)
    (b : App) :
  toastState n due shown b ->
  toastState n due (shown && negb (toastRemoved n due es)) (run es b).
Proof.
  revert shown b. induction es as [|e es IH]; intros shown b H.
  - cbn. now rewrite andb_true_r.
  - pose proof (IH _ _ (step_toastState n due shown e b H)) as K.
    replace (shown && negb (toastRemoved n due (e :: es)))
      with (shown && negb (toastRemoved n due [e])
            && negb (toastRemoved n due es)); [exact K|].
    unfold toastRemoved. cbn [existsb]. rewrite orb_false_r.
    now rewrite negb_orb, andb_assoc.
Qed.

End ToastFacts.

(** X23. The toast of a failed open lives for five seconds, unless it is
    closed by hand. When [openModal] is called at [now], in any state the
    page can reach, with an id no content has, what the modal shows does
    not change and the toast 'Content not found' is appended; through every
    later sequence of opens, closes, key presses, clicks, timer ticks and
    clicks on the [×] buttons of toasts, the toast stays in the page until
    the first timer tick at or after [now + 5000] ms or the first click on
    its own [×] button, and from then on no toast of its serial is in the
    page again. *)
Theorem not_found_toast_lifecycle
    (data : option Content.ContentData) (reachable : bool)
    (es : list Modal.Event) (cid : string) (now : Q)
    (later : list Modal.Event) :
  let a := Session.reached data reachable es in
  let opened := Modal.openModal cid now a in
  let b := Modal.run later opened in
  Content.getContentById (Content.initialStore data) cid = None ->
  Modal.view opened = Modal.view a
  /\ In (Session.notFoundToast (Modal.nextSerial a))
       (Modal.notifications (Modal.dom opened))
  /\ (if Session.toastRemoved (Modal.nextSerial a) (now + 5000) later
      then Session.noToast (Modal.nextSerial a) b
      else In (Session.notFoundToast (Modal.nextSerial a))
             (Modal.notifications (Modal.dom b))).
Proof.
  intros a opened b G.
  destruct (reached_fresh data reachable es) as ([FN FT] & C & O).
  pose proof (reached_store data reachable es) as St.
  fold a in FN, FT, C, O, St.
  assert (E : opened
              = Modal.showNotification "Content not found" "error" now a).
  { subst opened. unfold Modal.openModal. now rewrite O, C, St, G. }
  assert (H : Session.toastState (Modal.nextSerial a) (now + 5000) true
                opened).
  { rewrite E. unfold Modal.showNotification, Modal.after.
    split; [cbn; lia|]. split; [|split].
    - intros d K. cbn [Modal.timers Modal.set_timers Modal.bump
                       Modal.set_dom] in K.
      apply setTimeout_incl in K. destruct K as [K|K].
      + now inversion K.
      + specialize (FT d _ K). lia.
    - intros _. split.
      + cbn [Modal.timers Modal.set_timers Modal.bump Modal.set_dom].
        apply setTimeout_In.
      + cbn [Modal.dom Modal.set_timers Modal.bump Modal.set_dom
             Modal.notifications Modal.set_notifications].
        apply in_or_app. right. now left.
    - discriminate. }
  split; [now rewrite E|]. split; [now apply H|].
  pose proof (run_toastState _ _ later _ _ H) as (_ & _ & HS & HG).
  fold b in HS, HG. cbn [andb] in HS, HG.
  destruct (Session.toastRemoved (Modal.nextSerial a) (now + 5000) later);
    cbn [negb] in HS, HG.
  - exact (HG eq_refl).
  - exact (proj2 (HS eq_refl)).
Qed.

(** Witness of X23: an unknown id is opened at 0 ms on the sample page;
    the modal is then opened for a film, the timers fire at 100 and
    3000 ms, and the toast is closed by hand at 4000 ms. *)
Lemma not_found_toast_lifecycle_witness :
  Content.getContentById (Content.initialStore (Some Samples.data)) "nope"
  = None
  /\ In (Session.notFoundToast 2)
       (Modal.notifications
          (Modal.dom
             (Modal.run [Modal.Open "m1" 50; Modal.Tick 150; Modal.Tick 3000]
                (Modal.openModal "nope" 0
                   (Session.reached (Some Samples.data) true [])))))
  /\ Session.noToast 2
       (Modal.run
          [Modal.Open "m1" 50; Modal.Tick 150; Modal.Tick 3000;
           Modal.DismissNotification 2 4000]
          (Modal.openModal "nope" 0
             (Session.reached (Some Samples.data) true []))).
Proof.
  split; [reflexivity|]. split.
  - exact (proj2 (proj2
             (not_found_toast_lifecycle (Some Samples.data) true [] "nope" 0
                [Modal.Open "m1" 50; Modal.Tick 150; Modal.Tick 3000]
                eq_refl))).
  - exact (proj2 (proj2
             (not_found_toast_lifecycle (Some Samples.data) true [] "nope" 0
                [Modal.Open "m1" 50; Modal.Tick 150; Modal.Tick 3000;
                 Modal.DismissNotification 2 4000]
                eq_refl))).
Defined.
